(** * AutomatedGit: the orchestration pipeline, embedded and verified

    A shallow embedding of the JavaScript sources
      - [dateUtils.js]      (calendar filter),
      - [server.js]         (the [/api/process-stream] handler: work partitioner
                             and per-date loop),
      - [gitOperations.js]  (branch / commit / push pipeline, conflict resolver),
      - [prOperations.js]   (HTTP transport and review lifecycle controller),
    followed by the properties the specification states about them.

    Conventions.  A JavaScript [throw] is the [Throw] constructor of [result];
    [try]/[catch] is a match on it.  Calls that leave the process (git, the file
    system, HTTP) are nodes of a program tree ([Prog]); the environment that
    answers them is universally quantified in the theorems. *)

From Stdlib Require Import Ascii String DecimalString DecimalN.
From Equations Require Import Equations.
From stdpp Require Import gmap strings list sorting pretty.

Local Open Scope string_scope.
Local Open Scope list_scope.
Local Open Scope Z_scope.

Set Warnings "-register-all".

(** ** JavaScript values and exceptions shared by all modules *)

Module JS.

(** The outcome of evaluating an expression that may throw [new Error(msg)]. *)
Inductive result (A : Type) : Type :=
| Ok (a : A)
| Throw (message : string).
Arguments Ok {A} a.
Arguments Throw {A} message.

Definition bind {A B} (r : result A) (k : A -> result B) : result B :=
  match r with
  | Ok a => k a
  | Throw m => Throw m
  end.

Definition is_ok {A} (r : result A) : bool :=
  match r with Ok _ => true | Throw _ => false end.

(** [String(n)] for an integer [n]: its decimal digits. *)
Definition js_String (n : Z) : string :=
  match n with
  | Zneg p => "-" +:+ NilEmpty.string_of_uint (N.to_uint (Npos p))
  | _ => NilEmpty.string_of_uint (N.to_uint (Z.to_N n))
  end.

(** [Number(s)] for a string of decimal digits ([Number('')] is 0); [None] is
    NaN.  Strings in other numeric notations (signs, exponents, blanks) are
    not produced by the sources and are read as NaN here. *)
Definition Number (s : string) : option Z :=
  (fun d => Z.of_N (N.of_uint d)) <$> NilEmpty.uint_of_string s.

End JS.
Export JS.

Notation "x <-? r ;; k" := (JS.bind r (fun x => k))
  (at level 100, r at next level, right associativity).

(** ** dateUtils.js *)

Module DateUtils.

(** A calendar day: the local day number [Day(LocalTime(t))] of a [Date] of
    ECMAScript, counted from 1970-01-01.  [getDay], [getMonth], [getDate] and
    [getFullYear] read nothing else of a [Date].  The functions of this
    module are the ones of dateUtils.js seen day by day; the module
    [DateObjects] has them on time values, with the time zone of the host. *)
Record Date : Type := mkDate { dayNumber : Z }.

#[global] Instance Date_eq_dec : EqDecision Date.
Proof. solve_decision. Defined.

(** Proleptic Gregorian calendar: civil date of a day number and back
    (ECMAScript YearFromTime / MonthFromTime / DateFromTime at day granularity;
    months are 0-based as in JavaScript). *)
Definition civil_from_days (z0 : Z) : Z * Z * Z :=
  let z := z0 + 719468 in
  let era := z / 146097 in
  let doe := z - era * 146097 in
  let yoe := (doe - doe / 1460 + doe / 36524 - doe / 146096) / 365 in
  let doy := doe - (365 * yoe + yoe / 4 - yoe / 100) in
  let mp := (5 * doy + 2) / 153 in
  let d := doy - (153 * mp + 2) / 5 + 1 in
  let m := if mp <? 10 then mp + 2 else mp - 10 in
  let y := yoe + era * 400 + (if m <=? 1 then 1 else 0) in
  (y, m, d).

Definition days_from_civil (year month day : Z) : Z :=
  let y := if month <=? 1 then year - 1 else year in
  let era := y / 400 in
  let yoe := y - era * 400 in
  let mp := if month <=? 1 then month + 10 else month - 2 in
  let doy := (153 * mp + 2) / 5 + day - 1 in
  let doe := yoe * 365 + yoe / 4 - yoe / 100 + doy in
  era * 146097 + doe - 719468.

(** [new Date(year, monthIndex, day)] *)
Definition newDate (year monthIndex day : Z) : Date :=
  mkDate (days_from_civil year monthIndex day).

Definition getFullYear (date : Date) : Z := (civil_from_days (dayNumber date)).1.1.
Definition getMonth (date : Date) : Z := (civil_from_days (dayNumber date)).1.2.
Definition getDate (date : Date) : Z := (civil_from_days (dayNumber date)).2.
(** 0 is Sunday; 1970-01-01 was a Thursday. *)
Definition getDay (date : Date) : Z := (dayNumber date + 4) mod 7.

(** [date.setDate(date.getDate() + n)] *)
Definition addDays (date : Date) (n : Z) : Date := mkDate (dayNumber date + n).

(** [a <= b] on dates. *)
Definition date_leb (a b : Date) : bool := dayNumber a <=? dayNumber b.

Definition isSunday (date : Date) : bool := getDay date =? 0.

(** [{ month: 0-11, day: 1-31, name: string }] *)
Record Holiday : Type := Hol { month : Z; day : Z; name : string }.

(** [COUNTRY_HOLIDAYS], country by country, in source order. *)
Definition holidays_US : list Holiday :=
  [ Hol 0 1 "New Year's Day"; Hol 0 15 "Martin Luther King Jr. Day";
    Hol 1 19 "Presidents' Day"; Hol 4 27 "Memorial Day"; Hol 6 4 "Independence Day";
    Hol 8 2 "Labor Day"; Hol 9 8 "Columbus Day"; Hol 10 11 "Veterans Day";
    Hol 10 22 "Thanksgiving"; Hol 11 25 "Christmas Day" ].

Definition holidays_UK : list Holiday :=
  [ Hol 0 1 "New Year's Day"; Hol 2 17 "St. Patrick's Day"; Hol 3 1 "Easter Monday";
    Hol 4 6 "Early May Bank Holiday"; Hol 4 27 "Spring Bank Holiday";
    Hol 7 26 "Summer Bank Holiday"; Hol 11 25 "Christmas Day"; Hol 11 26 "Boxing Day" ].

Definition holidays_CA : list Holiday :=
  [ Hol 0 1 "New Year's Day"; Hol 2 17 "St. Patrick's Day"; Hol 3 1 "Easter Monday";
    Hol 4 20 "Victoria Day"; Hol 6 1 "Canada Day"; Hol 8 2 "Labour Day";
    Hol 9 8 "Thanksgiving"; Hol 10 11 "Remembrance Day"; Hol 11 25 "Christmas Day";
    Hol 11 26 "Boxing Day" ].

Definition holidays_AU : list Holiday :=
  [ Hol 0 1 "New Year's Day"; Hol 0 26 "Australia Day"; Hol 3 25 "Anzac Day";
    Hol 5 10 "Queen's Birthday"; Hol 11 25 "Christmas Day"; Hol 11 26 "Boxing Day" ].

Definition holidays_DE : list Holiday :=
  [ Hol 0 1 "New Year's Day"; Hol 4 1 "Labour Day"; Hol 9 3 "Day of German Unity";
    Hol 10 1 "Reformation Day"; Hol 11 25 "Christmas Day"; Hol 11 26 "Boxing Day" ].

Definition holidays_FR : list Holiday :=
  [ Hol 0 1 "New Year's Day"; Hol 4 1 "Labour Day"; Hol 4 8 "Victory in Europe Day";
    Hol 6 14 "Bastille Day"; Hol 7 15 "Assumption Day"; Hol 10 1 "All Saints' Day";
    Hol 10 11 "Armistice Day"; Hol 11 25 "Christmas Day" ].

Definition holidays_JP : list Holiday :=
  [ Hol 0 1 "New Year's Day"; Hol 1 11 "Foundation Day"; Hol 2 20 "Vernal Equinox Day";
    Hol 3 29 "Showa Day"; Hol 4 3 "Constitution Memorial Day"; Hol 4 4 "Greenery Day";
    Hol 4 5 "Children's Day"; Hol 6 15 "Marine Day"; Hol 7 11 "Mountain Day";
    Hol 8 16 "Respect for the Aged Day"; Hol 8 22 "Autumnal Equinox Day"; Hol 9 8 "Sports Day";
    Hol 10 3 "Culture Day"; Hol 10 23 "Labour Thanksgiving Day";
    Hol 11 23 "Emperor's Birthday" ].

Definition holidays_IN : list Holiday :=
  [ Hol 0 26 "Republic Day"; Hol 7 15 "Independence Day"; Hol 9 2 "Gandhi Jayanti";
    Hol 9 31 "Diwali" ].

Definition holidays_BR : list Holiday :=
  [ Hol 0 1 "New Year's Day"; Hol 1 20 "Carnival"; Hol 3 21 "Tiradentes Day";
    Hol 4 1 "Labour Day"; Hol 8 7 "Independence Day"; Hol 9 12 "Our Lady of Aparecida";
    Hol 10 2 "All Souls' Day"; Hol 10 15 "Republic Day"; Hol 11 25 "Christmas Day" ].

Definition holidays_MX : list Holiday :=
  [ Hol 0 1 "New Year's Day"; Hol 1 5 "Constitution Day"; Hol 2 21 "Benito Juárez Day";
    Hol 4 1 "Labour Day"; Hol 8 16 "Independence Day"; Hol 10 2 "Day of the Dead";
    Hol 10 20 "Revolution Day"; Hol 11 25 "Christmas Day" ].

Definition holidays_CN : list Holiday :=
  [ Hol 0 1 "New Year's Day"; Hol 1 10 "Spring Festival (Chinese New Year)";
    Hol 3 4 "Qingming Festival"; Hol 4 1 "Labour Day"; Hol 4 4 "Dragon Boat Festival";
    Hol 9 1 "Mid-Autumn Festival"; Hol 9 1 "National Day" ].

Definition holidays_KR : list Holiday :=
  [ Hol 0 1 "New Year's Day"; Hol 2 1 "Independence Movement Day"; Hol 4 5 "Children's Day";
    Hol 5 6 "Memorial Day"; Hol 7 15 "Liberation Day"; Hol 9 3 "National Foundation Day";
    Hol 9 9 "Hangul Day"; Hol 11 25 "Christmas Day" ].

Definition holidays_IT : list Holiday :=
  [ Hol 0 1 "New Year's Day"; Hol 0 6 "Epiphany"; Hol 3 25 "Liberation Day";
    Hol 4 1 "Labour Day"; Hol 5 2 "Republic Day"; Hol 7 15 "Assumption Day";
    Hol 10 1 "All Saints' Day"; Hol 11 8 "Immaculate Conception"; Hol 11 25 "Christmas Day";
    Hol 11 26 "St. Stephen's Day" ].

Definition holidays_ES : list Holiday :=
  [ Hol 0 1 "New Year's Day"; Hol 0 6 "Epiphany"; Hol 3 19 "St. Joseph's Day";
    Hol 4 1 "Labour Day"; Hol 9 12 "National Day"; Hol 10 1 "All Saints' Day";
    Hol 11 6 "Constitution Day"; Hol 11 8 "Immaculate Conception"; Hol 11 25 "Christmas Day" ].

Definition holidays_RU : list Holiday :=
  [ Hol 0 1 "New Year's Day"; Hol 0 7 "Orthodox Christmas";
    Hol 1 23 "Defender of the Fatherland Day"; Hol 2 8 "International Women's Day";
    Hol 4 1 "Spring and Labour Day"; Hol 4 9 "Victory Day"; Hol 5 12 "Russia Day";
    Hol 10 4 "Unity Day" ].

Definition holidays_ZA : list Holiday :=
  [ Hol 0 1 "New Year's Day"; Hol 2 21 "Human Rights Day"; Hol 3 27 "Freedom Day";
    Hol 4 1 "Workers' Day"; Hol 5 16 "Youth Day"; Hol 7 9 "National Women's Day";
    Hol 8 24 "Heritage Day"; Hol 11 16 "Day of Reconciliation"; Hol 11 25 "Christmas Day";
    Hol 11 26 "Day of Goodwill" ].

Definition holidays_AR : list Holiday :=
  [ Hol 0 1 "New Year's Day"; Hol 2 24 "Truth and Justice Memorial Day";
    Hol 3 2 "Malvinas Day"; Hol 4 1 "Labour Day"; Hol 4 25 "May Revolution";
    Hol 5 20 "Flag Day"; Hol 6 9 "Independence Day"; Hol 7 17 "San Martín Day";
    Hol 9 12 "Day of Respect for Cultural Diversity"; Hol 11 8 "Immaculate Conception";
    Hol 11 25 "Christmas Day" ].

Definition holidays_CL : list Holiday :=
  [ Hol 0 1 "New Year's Day"; Hol 4 1 "Labour Day"; Hol 4 21 "Navy Day";
    Hol 6 16 "Our Lady of Mount Carmel"; Hol 8 18 "Independence Day"; Hol 8 19 "Army Day";
    Hol 9 12 "Discovery of Two Worlds"; Hol 10 1 "All Saints' Day";
    Hol 11 8 "Immaculate Conception"; Hol 11 25 "Christmas Day" ].

Definition holidays_NL : list Holiday :=
  [ Hol 0 1 "New Year's Day"; Hol 3 27 "King's Day"; Hol 4 5 "Liberation Day";
    Hol 11 25 "Christmas Day"; Hol 11 26 "Boxing Day" ].

Definition holidays_SE : list Holiday :=
  [ Hol 0 1 "New Year's Day"; Hol 0 6 "Epiphany"; Hol 4 1 "Labour Day"; Hol 5 6 "National Day";
    Hol 5 24 "Midsummer Eve"; Hol 10 1 "All Saints' Day"; Hol 11 25 "Christmas Day";
    Hol 11 26 "Boxing Day" ].

Definition holidays_NO : list Holiday :=
  [ Hol 0 1 "New Year's Day"; Hol 4 1 "Labour Day"; Hol 4 17 "Constitution Day";
    Hol 11 25 "Christmas Day"; Hol 11 26 "Boxing Day" ].

Definition holidays_PL : list Holiday :=
  [ Hol 0 1 "New Year's Day"; Hol 0 6 "Epiphany"; Hol 4 1 "Labour Day";
    Hol 4 3 "Constitution Day"; Hol 6 15 "Assumption Day"; Hol 10 1 "All Saints' Day";
    Hol 10 11 "Independence Day"; Hol 11 25 "Christmas Day"; Hol 11 26 "Boxing Day" ].

Definition holidays_TR : list Holiday :=
  [ Hol 0 1 "New Year's Day"; Hol 3 23 "National Sovereignty and Children's Day";
    Hol 4 1 "Labour Day"; Hol 4 19 "Commemoration of Atatürk"; Hol 7 30 "Victory Day";
    Hol 9 29 "Republic Day" ].

Definition holidays_SA : list Holiday :=
  [ Hol 1 22 "Founding Day"; Hol 8 23 "National Day" ].

Definition holidays_AE : list Holiday :=
  [ Hol 0 1 "New Year's Day"; Hol 7 30 "Hijri New Year"; Hol 9 2 "Prophet's Birthday";
    Hol 11 1 "National Day"; Hol 11 2 "National Day Holiday" ].

Definition holidays_SG : list Holiday :=
  [ Hol 0 1 "New Year's Day"; Hol 1 10 "Chinese New Year"; Hol 1 11 "Chinese New Year Day 2";
    Hol 4 1 "Labour Day"; Hol 7 9 "National Day"; Hol 11 25 "Christmas Day" ].

Definition holidays_PH : list Holiday :=
  [ Hol 0 1 "New Year's Day"; Hol 1 25 "People Power Revolution"; Hol 3 9 "Day of Valor";
    Hol 4 1 "Labour Day"; Hol 5 12 "Independence Day"; Hol 7 26 "National Heroes Day";
    Hol 10 30 "Bonifacio Day"; Hol 11 25 "Christmas Day"; Hol 11 30 "Rizal Day" ].

Definition holidays_ID : list Holiday :=
  [ Hol 0 1 "New Year's Day"; Hol 4 1 "Labour Day"; Hol 7 17 "Independence Day";
    Hol 11 25 "Christmas Day" ].

Definition holidays_TH : list Holiday :=
  [ Hol 0 1 "New Year's Day"; Hol 3 13 "Songkran Festival"; Hol 4 1 "Labour Day";
    Hol 4 5 "Coronation Day"; Hol 6 28 "King's Birthday"; Hol 9 13 "Queen's Birthday";
    Hol 11 5 "King's Birthday"; Hol 11 10 "Constitution Day"; Hol 11 31 "New Year's Eve" ].

Definition holidays_VN : list Holiday :=
  [ Hol 0 1 "New Year's Day"; Hol 1 10 "Tet Holiday"; Hol 3 30 "Hung Kings Festival";
    Hol 3 30 "Liberation Day"; Hol 4 1 "Labour Day"; Hol 8 2 "National Day" ].

Definition holidays_NZ : list Holiday :=
  [ Hol 0 1 "New Year's Day"; Hol 0 2 "Day after New Year's Day"; Hol 1 6 "Waitangi Day";
    Hol 3 25 "Anzac Day"; Hol 5 3 "Queen's Birthday"; Hol 9 23 "Labour Day";
    Hol 11 25 "Christmas Day"; Hol 11 26 "Boxing Day" ].

Definition holidays_CH : list Holiday :=
  [ Hol 0 1 "New Year's Day"; Hol 0 2 "Berchtold's Day"; Hol 4 1 "Labour Day";
    Hol 7 1 "Swiss National Day"; Hol 11 25 "Christmas Day"; Hol 11 26 "Boxing Day" ].

Definition holidays_BE : list Holiday :=
  [ Hol 0 1 "New Year's Day"; Hol 4 1 "Labour Day"; Hol 6 21 "National Day";
    Hol 7 15 "Assumption Day"; Hol 10 1 "All Saints' Day"; Hol 10 11 "Armistice Day";
    Hol 11 25 "Christmas Day" ].

Definition holidays_PT : list Holiday :=
  [ Hol 0 1 "New Year's Day"; Hol 3 25 "Freedom Day"; Hol 4 1 "Labour Day";
    Hol 5 10 "Portugal Day"; Hol 7 15 "Assumption Day"; Hol 9 5 "Republic Day";
    Hol 10 1 "All Saints' Day"; Hol 11 1 "Restoration of Independence";
    Hol 11 8 "Immaculate Conception"; Hol 11 25 "Christmas Day" ].

Definition holidays_GR : list Holiday :=
  [ Hol 0 1 "New Year's Day"; Hol 0 6 "Epiphany"; Hol 2 25 "Independence Day";
    Hol 4 1 "Labour Day"; Hol 7 15 "Assumption Day"; Hol 9 28 "Ochi Day";
    Hol 11 25 "Christmas Day"; Hol 11 26 "Boxing Day" ].

Definition holidays_NONE : list Holiday := [].

Definition COUNTRY_HOLIDAYS_entries : list (string * list Holiday) :=
  [ ("US", holidays_US);
    ("UK", holidays_UK);
    ("CA", holidays_CA);
    ("AU", holidays_AU);
    ("DE", holidays_DE);
    ("FR", holidays_FR);
    ("JP", holidays_JP);
    ("IN", holidays_IN);
    ("BR", holidays_BR);
    ("MX", holidays_MX);
    ("CN", holidays_CN);
    ("KR", holidays_KR);
    ("IT", holidays_IT);
    ("ES", holidays_ES);
    ("RU", holidays_RU);
    ("ZA", holidays_ZA);
    ("AR", holidays_AR);
    ("CL", holidays_CL);
    ("NL", holidays_NL);
    ("SE", holidays_SE);
    ("NO", holidays_NO);
    ("PL", holidays_PL);
    ("TR", holidays_TR);
    ("SA", holidays_SA);
    ("AE", holidays_AE);
    ("SG", holidays_SG);
    ("PH", holidays_PH);
    ("ID", holidays_ID);
    ("TH", holidays_TH);
    ("VN", holidays_VN);
    ("NZ", holidays_NZ);
    ("CH", holidays_CH);
    ("BE", holidays_BE);
    ("PT", holidays_PT);
    ("GR", holidays_GR);
    ("NONE", holidays_NONE) ].


(** The object literal itself: its own properties. *)
Definition COUNTRY_HOLIDAYS : gmap string (list Holiday) :=
  list_to_map COUNTRY_HOLIDAYS_entries.

(** What a property read [obj[key]] on a plain object can evaluate to here. *)
Inductive JSValue : Type :=
| JSArray (holidays : list Holiday)
| JSFunction (fname : string)
| JSObject (description : string)
| JSUndefined.

(** The members every object literal inherits from [Object.prototype]. *)
Definition Object_prototype (key : string) : JSValue :=
  if decide (key = "constructor") then JSFunction "Object"
  else if decide (key = "__proto__") then JSObject "Object.prototype"
  else if bool_decide (key ∈ [ "hasOwnProperty"; "isPrototypeOf"; "propertyIsEnumerable";
                               "toLocaleString"; "toString"; "valueOf";
                               "__defineGetter__"; "__defineSetter__";
                               "__lookupGetter__"; "__lookupSetter__" ])
  then JSFunction key
  else JSUndefined.

(** [COUNTRY_HOLIDAYS[key]]: own property first, then the prototype chain. *)
Definition COUNTRY_HOLIDAYS_get (key : string) : JSValue :=
  match COUNTRY_HOLIDAYS !! key with
  | Some holidays => JSArray holidays
  | None => Object_prototype key
  end.

(** ToBoolean: arrays (also empty ones), functions and objects are truthy. *)
Definition truthy (v : JSValue) : bool :=
  match v with JSUndefined => false | _ => true end.

(** [a || b] *)
Definition js_or (a b : JSValue) : JSValue := if truthy a then a else b.

Definition getHolidaysForCountry (countryCode : string) : JSValue :=
  js_or (COUNTRY_HOLIDAYS_get countryCode) (COUNTRY_HOLIDAYS_get "NONE").

(** [holidays.some(h => h.month === month && h.day === day)]; calling [.some]
    on a value that has no such method throws a TypeError. *)
Definition isHoliday (date : Date) (countryCode : string) : result bool :=
  let month_ := getMonth date in
  let day_ := getDate date in
  match getHolidaysForCountry countryCode with
  | JSArray holidays =>
      Ok (existsb (fun holiday => (month holiday =? month_) && (day holiday =? day_)) holidays)
  | _ => Throw "holidays.some is not a function"
  end.

(** [isSunday(date) || isHoliday(date, countryCode)], short-circuiting. *)
Definition shouldExcludeDate (date : Date) (countryCode : string) : result bool :=
  if isSunday date then Ok true else isHoliday date countryCode.

(** The [while (currentDate <= endDate)] loop of [getValidDates], day by day.
    It is the loop on time values (module [DateObjects]) where the offset of
    the time zone does not change and the local time of day of the start is
    not later than that of the end. *)
Equations? getValidDates_loop (currentDate endDate : Date) (countryCode : string)
  (validDates : list Date) : result (list Date)
  by wf (Z.to_nat (dayNumber endDate - dayNumber currentDate + 1)) lt :=
getValidDates_loop currentDate endDate countryCode validDates
  with decide (dayNumber currentDate <= dayNumber endDate) => {
  | right _ := Ok validDates;
  | left _ with shouldExcludeDate currentDate countryCode => {
    | Throw m := Throw m;
    | Ok excluded :=
        getValidDates_loop (addDays currentDate 1) endDate countryCode
          (if excluded then validDates else validDates ++ [currentDate]) } }.
Proof. all: simpl; lia. Qed.

Definition getValidDates (startDate endDate : Date) (countryCode : string)
  : result (list Date) :=
  getValidDates_loop startDate endDate countryCode [].

(** [String(n).padStart(2, '0')] for a non-negative integer. *)
Definition pad2 (n : Z) : string :=
  let s := js_String n in
  if (String.length s <? 2)%nat then "0" +:+ s else s.

(** [formatDate]: YYYY-MM-DD *)
Definition formatDate (date : Date) : string :=
  js_String (getFullYear date) +:+ "-" +:+ pad2 (getMonth date + 1) +:+ "-" +:+ pad2 (getDate date).

Example formatDate_example : formatDate (newDate 2024 0 7) = "2024-01-07".
Proof. vm_compute. reflexivity. Qed.

Example getDay_example : getDay (newDate 2024 0 7) = 0 /\ getDay (newDate 2024 0 1) = 1.
Proof. vm_compute. split; reflexivity. Qed.

Example getValidDates_example :
  getValidDates (newDate 2024 0 1) (newDate 2024 0 7) "US"
  = Ok [newDate 2024 0 2; newDate 2024 0 3; newDate 2024 0 4; newDate 2024 0 5; newDate 2024 0 6].
Proof. vm_compute. reflexivity. Qed.

(** *** Properties of the calendar filter *)


(** The dates of the closed range [startDate .. endDate], ascending. *)
Definition dates_between (startDate endDate : Date) : list Date :=
  mkDate <$> seqZ (dayNumber startDate) (dayNumber endDate - dayNumber startDate + 1).


Definition excludedb (holidays : list Holiday) (date : Date) : bool :=
  isSunday date
  || existsb (fun holiday => (month holiday =? getMonth date) && (day holiday =? getDate date))
       holidays.


Lemma shouldExcludeDate_array date countryCode holidays :
  getHolidaysForCountry countryCode = JSArray holidays →
  shouldExcludeDate date countryCode = Ok (excludedb holidays date).
Proof.
  intros Hget. unfold shouldExcludeDate, isHoliday, excludedb. rewrite Hget.
  destruct (isSunday date); reflexivity.
Qed.


Lemma dates_between_cons startDate endDate :
  dayNumber startDate <= dayNumber endDate →
  dates_between startDate endDate = startDate :: dates_between (addDays startDate 1) endDate.
Proof.
  intros Hle. unfold dates_between. rewrite seqZ_cons by lia. simpl.
  destruct startDate as [s]. simpl. do 2 f_equal. f_equal; lia.
Qed.

Lemma dates_between_nil startDate endDate :
  ¬ dayNumber startDate <= dayNumber endDate → dates_between startDate endDate = [].
Proof. intros Hgt. unfold dates_between. rewrite seqZ_nil by lia. reflexivity. Qed.

Lemma getValidDates_loop_filter countryCode holidays :
  getHolidaysForCountry countryCode = JSArray holidays →
  ∀ (n : nat) currentDate endDate validDates,
    Z.to_nat (dayNumber endDate - dayNumber currentDate + 1) = n →
    getValidDates_loop currentDate endDate countryCode validDates
    = Ok (validDates
          ++ filter (fun date => excludedb holidays date = false)
               (dates_between currentDate endDate)).
Proof.
  intros Hget n. induction n as [|n IH]; intros cur e acc Hn.
  - rewrite getValidDates_loop_equation_1.
    destruct (decide (dayNumber cur <= dayNumber e)) as [Hle|Hgt]; [lia|]. simpl.
    rewrite dates_between_nil by done. rewrite filter_nil, app_nil_r. reflexivity.
  - rewrite getValidDates_loop_equation_1.
    destruct (decide (dayNumber cur <= dayNumber e)) as [Hle|Hgt]; [|lia]. simpl.
    rewrite (shouldExcludeDate_array _ _ _ Hget). simpl.
    rewrite IH by (simpl; lia).
    rewrite (dates_between_cons cur e Hle), filter_cons.
    destruct (excludedb holidays cur) eqn:Hex.
    + destruct (decide (true = false)) as [Hbad|_]; [discriminate|]. reflexivity.
    + destruct (decide (false = false)) as [_|Hbad]; [|done].
      rewrite <- app_assoc. reflexivity.
Qed.




Lemma getHolidaysForCountry_listed countryCode holidays :
  COUNTRY_HOLIDAYS !! countryCode = Some holidays →
  getHolidaysForCountry countryCode = JSArray holidays.
Proof.
  intros Hown. unfold getHolidaysForCountry, COUNTRY_HOLIDAYS_get. rewrite Hown. reflexivity.
Qed.



(** C9, evaluated at the inherited member name "constructor": the code is not
    in the table, yet the lookup yields the [Object] function instead of the
    empty list, and the holiday test throws on every date. *)
Theorem getHolidaysForCountry_constructor :
  COUNTRY_HOLIDAYS !! "constructor" = None
  ∧ getHolidaysForCountry "constructor" = JSFunction "Object"
  ∧ (∀ date, isHoliday date "constructor" = Throw "holidays.some is not a function")
  ∧ shouldExcludeDate (newDate 2024 0 2) "constructor"
    = Throw "holidays.some is not a function"
  ∧ getValidDates (newDate 2024 0 1) (newDate 2024 0 7) "constructor"
    = Throw "holidays.some is not a function".
Proof.
  assert (Hget : getHolidaysForCountry "constructor" = JSFunction "Object")
    by (vm_compute; reflexivity).
  split; [vm_compute; reflexivity|]. split; [exact Hget|]. split; [|split].
  - intros date. unfold isHoliday. rewrite Hget. reflexivity.
  - vm_compute. reflexivity.
  - vm_compute. reflexivity.
Qed.

End DateUtils.

(** ** JavaScript string methods used by the sources *)

Module JSString.

(** The line feed character, ['\n']. *)
Definition LF : ascii := "010"%char.
Definition nl : string := String LF "".

(** [s.split(sep)] for a one-character separator: never empty,
    [''.split(sep)] is [['']]. *)
Fixpoint split_char (sep : ascii) (s : string) : list string :=
  match s with
  | "" => [""]
  | String c rest =>
      if decide (c = sep) then "" :: split_char sep rest
      else match split_char sep rest with
           | piece :: pieces => String c piece :: pieces
           | [] => [String c ""]
           end
  end.

(** [s.split('\n')] *)
Definition split_lines (s : string) : list string := split_char LF s.

(** [lines.join('\n')] *)
Definition join_lines (lines : list string) : string := String.concat nl lines.

(** [s.startsWith(p)] *)
Definition startsWith (s p : string) : bool := String.prefix p s.

(** [s.endsWith(p)] *)
Definition endsWith (s p : string) : bool := String.prefix (String.rev p) (String.rev s).

(** [s.includes(p)] *)
Fixpoint includes (s p : string) : bool :=
  String.prefix p s
  || match s with
     | "" => false
     | String _ rest => includes rest p
     end.

(** White space and line terminators removed by [trim], for code units below
    256: TAB, LF, VT, FF, CR, SP and NBSP. *)
Definition is_trimmed_char (c : ascii) : bool :=
  bool_decide (nat_of_ascii c ∈ [9; 10; 11; 12; 13; 32; 160]%nat).

Fixpoint trimStart (s : string) : string :=
  match s with
  | "" => ""
  | String c rest => if is_trimmed_char c then trimStart rest else s
  end.

(** [s.trim()] *)
Definition trim (s : string) : string :=
  String.rev (trimStart (String.rev (trimStart s))).

(** ToBoolean of a string: only the empty string is falsy. *)
Definition nonempty (s : string) : bool :=
  match s with "" => false | _ => true end.

Example split_lines_example :
  split_lines ("a" +:+ nl +:+ nl +:+ " b ") = ["a"; ""; " b "]
  ∧ join_lines ["a"; ""; " b "] = "a" +:+ nl +:+ nl +:+ " b "
  ∧ trim "  x y  " = "x y" ∧ trim "   " = ""
  ∧ endsWith "dir/commits.txt" "commits.txt" = true
  ∧ startsWith "<<<<<<< HEAD" "<<<<<<<" = true
  ∧ includes "! [rejected] (non-fast-forward)" "non-fast-forward" = true.
Proof. vm_compute. repeat split; reflexivity. Qed.

End JSString.
Export JSString.

(** ** The [Date] objects of ECMAScript *)

Module JSDate.
Import DateUtils.

(** A time value: the milliseconds since 1970-01-01T00:00:00Z, or NaN
    ([None]), the time value of an Invalid Date. *)
Definition msPerDay : Z := 86400000.
Definition msPerHour : Z := 3600000.
Definition msPerMinute : Z := 60000.
Definition msPerSecond : Z := 1000.

(** TimeClip: a time value is at most 100,000,000 days from the epoch. *)
Definition TimeClip (time : Z) : option Z :=
  if Z.abs time <=? 8640000000000000 then Some time else None.

(** Day(t) and TimeWithinDay(t) *)
Definition Day (t : Z) : Z := t / msPerDay.
Definition TimeWithinDay (t : Z) : Z := t mod msPerDay.

(** The calendar day a time falls on. *)
Definition dayOf (t : Z) : Date := mkDate (Day t).

(** MakeTime(hour, min, sec, ms) *)
Definition MakeTime (hour min sec ms : Z) : Z :=
  hour * msPerHour + min * msPerMinute + sec * msPerSecond + ms.

(** MakeDay(year, month, date): the day number of the first of the month,
    months beyond 0 .. 11 carried into the year, plus [date - 1]. *)
Definition MakeDay (year month date : Z) : Z :=
  let ym := year + month / 12 in
  let mn := month mod 12 in
  days_from_civil ym mn 1 + date - 1.

(** MakeDate(day, time) *)
Definition MakeDate (day time : Z) : Z := day * msPerDay + time.

(** [s.padStart(width, '0')] *)
Definition padStart0 (width : nat) (s : string) : string :=
  String.concat "" (replicate (width - String.length s) "0") +:+ s.

(** The year of an ISO date-time: four digits, or a sign and six digits
    outside 0 .. 9999. *)
Definition iso_year (y : Z) : string :=
  if (0 <=? y) && (y <=? 9999) then padStart0 4 (js_String y)
  else (if y <? 0 then "-" else "+") +:+ padStart0 6 (js_String (Z.abs y)).

(** [Date.prototype.toISOString] on a valid time value:
    YYYY-MM-DDTHH:mm:ss.sssZ, in UTC. *)
Definition toISOString (t : Z) : string :=
  let date := dayOf t in
  let time := TimeWithinDay t in
  iso_year (getFullYear date) +:+ "-" +:+ padStart0 2 (js_String (getMonth date + 1))
  +:+ "-" +:+ padStart0 2 (js_String (getDate date))
  +:+ "T" +:+ padStart0 2 (js_String (time / msPerHour))
  +:+ ":" +:+ padStart0 2 (js_String (time / msPerMinute mod 60))
  +:+ ":" +:+ padStart0 2 (js_String (time / msPerSecond mod 60))
  +:+ "." +:+ padStart0 3 (js_String (time mod 1000)) +:+ "Z".

(** [date.toISOString()], which throws a RangeError on an Invalid Date. *)
Definition date_toISOString (date : option Z) : result string :=
  match date with
  | Some t => Ok (toISOString t)
  | None => Throw "Invalid time value"
  end.

(** [a <= b] on two Date objects: the comparison of their time values, false
    when one of them is NaN. *)
Definition date_le (a b : option Z) : bool :=
  match a, b with
  | Some ta, Some tb => ta <=? tb
  | _, _ => false
  end.

Section Zone.

(** LocalTZA(t, isUTC) of ECMAScript, the offset of the host's time zone in
    milliseconds: at the UTC time [t] when [isUTC] is true, and for the local
    time [t] otherwise.  It is implementation-defined and a parameter. *)
Variable LocalTZA : Z → bool → Z.

(** LocalTime(t) and UTC(t) *)
Definition LocalTime (t : Z) : Z := t + LocalTZA t true.
Definition UTC (t : Z) : Z := t - LocalTZA t false.

(** The local calendar day of a time value: what [getDay], [getDate],
    [getMonth] and [getFullYear] read. *)
Definition localDay (t : Z) : Date := dayOf (LocalTime t).

(** [new Date(year, monthIndex, day, hours, minutes, seconds)] from numbers
    or NaN ([None]); years 0 to 99 denote 1900 to 1999. *)
Definition new_Date (year monthIndex day : option Z) (hours minutes seconds : Z)
  : option Z :=
  y ← year; m ← monthIndex; d ← day;
  let yr := if (0 <=? y) && (y <=? 99) then 1900 + y else y in
  TimeClip (UTC (MakeDate (MakeDay yr m d) (MakeTime hours minutes seconds 0))).

(** [date.setDate(dt)], the new time value. *)
Definition setDate (date : option Z) (dt : option Z) : option Z :=
  t ← date; dt ← dt;
  let local := LocalTime t in
  TimeClip (UTC (MakeDate (MakeDay (getFullYear (dayOf local)) (getMonth (dayOf local)) dt)
                   (TimeWithinDay local))).

(** [date.getDay()], [date.getDate()], [date.getMonth()], [date.getFullYear()]:
    NaN on an Invalid Date. *)
Definition date_getDay (date : option Z) : option Z := getDay ∘ localDay <$> date.
Definition date_getDate (date : option Z) : option Z := getDate ∘ localDay <$> date.
Definition date_getMonth (date : option Z) : option Z := getMonth ∘ localDay <$> date.
Definition date_getFullYear (date : option Z) : option Z := getFullYear ∘ localDay <$> date.

End Zone.

(** The zone of UTC, and a zone at a fixed offset from it. *)
Definition fixed_zone (offset : Z) : Z → bool → Z := fun _ _ => offset.

Example toISOString_examples :
  toISOString 1704196800000 = "2024-01-02T12:00:00.000Z"
  ∧ toISOString (-1) = "1969-12-31T23:59:59.999Z"
  ∧ toISOString 8640000000000000 = "+275760-09-13T00:00:00.000Z"
  ∧ toISOString (-62198755200000) = "-000001-01-01T00:00:00.000Z"
  ∧ toISOString (-62167219200000) = "0000-01-01T00:00:00.000Z"
  ∧ new_Date (fixed_zone 0) (Some 2024) (Some 0) (Some 2) 12 0 0 = Some 1704196800000
  ∧ new_Date (fixed_zone (-18000000)) (Some 2024) (Some 0) (Some 2) 12 0 0
    = Some 1704214800000
  ∧ new_Date (fixed_zone 0) (Some 50) (Some 0) (Some 2) 12 0 0
    = new_Date (fixed_zone 0) (Some 1950) (Some 0) (Some 2) 12 0 0
  ∧ new_Date (fixed_zone 0) (Some 2024) (Some 12) (Some 0) 12 0 0
    = new_Date (fixed_zone 0) (Some 2024) (Some 11) (Some 31) 12 0 0
  ∧ new_Date (fixed_zone 0) (Some 275760) (Some 8) (Some 13) 12 0 0 = None
  ∧ new_Date (fixed_zone 0) (Some 2024) None (Some 2) 12 0 0 = None.
Proof. vm_compute. repeat split; reflexivity. Qed.

(** The calendar fields of every day number are in range, and the day number
    is recovered from them. *)
Lemma civil_fields (z : Z) :
  0 <= (civil_from_days z).1.2 <= 11 ∧ 1 <= (civil_from_days z).2 <= 31.
Proof.
  unfold civil_from_days. cbv zeta. simpl.
  destruct (_ <? 10) eqn:Hmp; 
    try apply Z.ltb_lt in Hmp; try apply Z.ltb_ge in Hmp;
    Z.div_mod_to_equations; lia.
Qed.

Lemma civil_round_trip (z : Z) :
  days_from_civil (civil_from_days z).1.1 (civil_from_days z).1.2 (civil_from_days z).2 = z.
Proof.
  unfold civil_from_days, days_from_civil. cbv zeta. simpl.
  destruct (_ <? 10) eqn:Hmp; destruct (_ <=? 1) eqn:Hm;
    try apply Z.ltb_lt in Hmp; try apply Z.ltb_ge in Hmp;
    try apply Z.leb_le in Hm; try apply Z.leb_gt in Hm.
  all: Z.div_mod_to_equations; lia.
Qed.

Lemma MakeDay_fields (date : Date) (dt : Z) :
  MakeDay (getFullYear date) (getMonth date) dt = dayNumber date + (dt - getDate date).
Proof.
  destruct (civil_fields (dayNumber date)) as [Hm Hd].
  pose proof (civil_round_trip (dayNumber date)) as Hrt.
  unfold MakeDay, getFullYear, getMonth, getDate in *.
  rewrite Z.div_small, Z.mod_small, Z.add_0_r by lia.
  rewrite <- Hrt at 3. unfold days_from_civil. cbv zeta. lia.
Qed.

End JSDate.

(** ** dateUtils.js on [Date] objects *)

Module DateObjects.
Import DateUtils JSDate.

Section Zone.

(** The time zone of the host. *)
Variable LocalTZA : Z → bool → Z.

(** [date.getDay() === 0]; [getDay] of an Invalid Date is NaN. *)
Definition isSunday (date : option Z) : bool :=
  bool_decide (date_getDay LocalTZA date = Some 0).

(** [holidays.some(h => h.month === month && h.day === day)] *)
Definition isHoliday (date : option Z) (countryCode : string) : result bool :=
  let month_ := date_getMonth LocalTZA date in
  let day_ := date_getDate LocalTZA date in
  match getHolidaysForCountry countryCode with
  | JSArray holidays =>
      Ok (existsb (fun holiday => bool_decide (Some (month holiday) = month_)
                                  && bool_decide (Some (day holiday) = day_)) holidays)
  | _ => Throw "holidays.some is not a function"
  end.

Definition shouldExcludeDate (date : option Z) (countryCode : string) : result bool :=
  if isSunday date then Ok true else isHoliday date countryCode.

(** The [while (currentDate <= endDate)] loop of [getValidDates]; the step is
    [currentDate.setDate(currentDate.getDate() + 1)].  [None] is returned
    when [fuel] iterations do not reach the end of the loop. *)
Fixpoint getValidDates_loop (fuel : nat) (currentDate endDate : option Z)
  (countryCode : string) (validDates : list (option Z))
  : option (result (list (option Z))) :=
  match fuel with
  | O => None
  | S fuel =>
      if date_le currentDate endDate
      then match shouldExcludeDate currentDate countryCode with
           | Throw m => Some (Throw m)
           | Ok excluded =>
               getValidDates_loop fuel
                 (setDate LocalTZA currentDate
                    ((fun d => d + 1) <$> date_getDate LocalTZA currentDate))
                 endDate countryCode
                 (if excluded then validDates else validDates ++ [currentDate])
           end
      else Some (Ok validDates)
  end.

Definition getValidDates (fuel : nat) (startDate endDate : option Z) (countryCode : string)
  : option (result (list (option Z))) :=
  getValidDates_loop fuel startDate endDate countryCode [].




End Zone.

(** *** In a zone whose offset never changes *)



















End DateObjects.


(** ** gitOperations.js: the conflict resolver *)

Module ConflictResolver.

Inductive Side : Type := normal | ours | theirs.

(** The mutable locals of the commits.txt branch of [resolveFileConflicts]. *)
Record Merge : Type := mkMerge {
  state : Side;
  oursContent : list string;
  theirsContent : list string;
  resolvedLines : list string;
  seenLines : gset string
}.

(** [if (trimmed && !seenLines.has(trimmed)) { push; add }] *)
Definition push_unseen (acc : list string * gset string) (line : string)
  : list string * gset string :=
  let trimmed := trim line in
  if nonempty trimmed && negb (bool_decide (trimmed ∈ acc.2))
  then (acc.1 ++ [line], {[ trimmed ]} ∪ acc.2)
  else acc.

(** One iteration of [for (const line of lines)] in the commits.txt branch. *)
Definition combine_step (m : Merge) (line : string) : Merge :=
  if startsWith line "<<<<<<<" then
    mkMerge ours [] [] (resolvedLines m) (seenLines m)
  else if startsWith line "=======" then
    mkMerge theirs (oursContent m) (theirsContent m) (resolvedLines m) (seenLines m)
  else if startsWith line ">>>>>>>" then
    let combined := oursContent m ++ theirsContent m in
    let acc := foldl push_unseen (resolvedLines m, seenLines m) combined in
    mkMerge normal [] [] acc.1 acc.2
  else
    match state m with
    | ours =>
        if nonempty (trim line)
        then mkMerge ours (oursContent m ++ [line]) (theirsContent m)
               (resolvedLines m) (seenLines m)
        else m
    | theirs =>
        if nonempty (trim line)
        then mkMerge theirs (oursContent m) (theirsContent m ++ [line])
               (resolvedLines m) (seenLines m)
        else m
    | normal =>
        let acc := push_unseen (resolvedLines m, seenLines m) line in
        mkMerge normal (oursContent m) (theirsContent m) acc.1 acc.2
    end.

(** The locals of the default ("accept ours") branch. *)
Record Keep : Type := mkKeep {
  inConflict : bool;
  keepOurs : bool;
  keptLines : list string
}.

Definition ours_step (k : Keep) (line : string) : Keep :=
  if startsWith line "<<<<<<<" then mkKeep true true (keptLines k)
  else if startsWith line "=======" then mkKeep (inConflict k) false (keptLines k)
  else if startsWith line ">>>>>>>" then mkKeep false true (keptLines k)
  else if negb (inConflict k) || keepOurs k
       then mkKeep (inConflict k) (keepOurs k) (keptLines k ++ [line])
       else k.

(** [resolveFileConflicts(git, file, content, filePath)]; [git] and [filePath]
    are only logged.  No statement of the body can throw on a string, so the
    [catch] branch (returning [null]) is unreachable and the result is a string. *)
Definition resolveFileConflicts (file content : string) : string :=
  if bool_decide (file = "commits.txt") || endsWith file "commits.txt" then
    let lines := split_lines content in
    let m := foldl combine_step (mkMerge normal [] [] [] ∅) lines in
    join_lines (resolvedLines m)
    +:+ (if bool_decide (0 < length (resolvedLines m))%nat then nl else "")
  else
    let lines := split_lines content in
    let k := foldl ours_step (mkKeep false true []) lines in
    join_lines (keptLines k).

(** *** The shape of a conflicted file *)

(** A file with two-way conflict markers is a sequence of regions: runs of
    lines outside any conflict, and hunks
    [<<<<<<<a / ours / =======b / theirs / >>>>>>>c]. *)
Inductive Region : Type :=
| Plain (lines : list string)
| Hunk (a : string) (oursLines : list string) (b : string) (theirsLines : list string)
    (c : string).

Definition render_region (r : Region) : list string :=
  match r with
  | Plain lines => lines
  | Hunk a oursLines b theirsLines c =>
      ["<<<<<<<" +:+ a] ++ oursLines ++ ["=======" +:+ b] ++ theirsLines ++ [">>>>>>>" +:+ c]
  end.

(** The lines of the conflicted file. *)
Definition render (regions : list Region) : list string :=
  concat (render_region <$> regions).

(** A line that is not one of the three markers. *)
Definition is_marker (line : string) : bool :=
  startsWith line "<<<<<<<" || startsWith line "=======" || startsWith line ">>>>>>>".

Definition region_lines (r : Region) : list string :=
  match r with
  | Plain lines => lines
  | Hunk _ oursLines _ theirsLines _ => oursLines ++ theirsLines
  end.

(** No payload line of any region looks like a marker. *)
Definition well_formed (regions : list Region) : Prop :=
  Forall (fun r => Forall (fun line => is_marker line = false) (region_lines r)) regions.

(** Both sides of every hunk and every line outside the hunks, in file order. *)
Definition both_sides (regions : list Region) : list string :=
  concat (region_lines <$> regions).

(** The feature-branch ("ours") version of the file. *)
Definition ours_lines (r : Region) : list string :=
  match r with
  | Plain lines => lines
  | Hunk _ oursLines _ _ _ => oursLines
  end.

Definition ours_side (regions : list Region) : list string :=
  concat (ours_lines <$> regions).

Definition nonblank (line : string) : bool := nonempty (trim line).

(** Deduplication by trimmed content that keeps first occurrences. *)
Equations first_seen (lines : list string) : list string by wf (length lines) lt :=
first_seen [] := [];
first_seen (line :: rest) :=
  line :: first_seen (filter (fun x => trim x ≠ trim line) rest).
Next Obligation.
  intros line rest _. simpl. apply Nat.lt_succ_r, length_filter.
Qed.

(** The union of a log file's lines as a text: every line newline-terminated. *)
Definition log_text (lines : list string) : string :=
  join_lines lines +:+ (if bool_decide (0 < length lines)%nat then nl else "").

(** Whether [resolveFileConflicts] treats [file] as the append-only log. *)
Definition is_log_file (file : string) : bool :=
  bool_decide (file = "commits.txt") || endsWith file "commits.txt".

Lemma filter_unseen_step (seen : gset string) (line : string) (lines : list string) :
  filter (fun x => trim x ≠ trim line) (filter (fun x => trim x ∉ seen) lines)
  = filter (fun x => trim x ∉ ({[ trim line ]} ∪ seen : gset string)) lines.
Proof.
  induction lines as [|x lines IH]; [reflexivity|].
  rewrite !(filter_cons _ x).
  destruct (decide (trim x ∉ seen)) as [Hs|Hs].
  - rewrite filter_cons. destruct (decide (trim x ≠ trim line)) as [Hne|Heq].
    + rewrite decide_True; [by rewrite IH|].
      apply not_elem_of_union. split; [by apply not_elem_of_singleton | done].
    + rewrite decide_False; [by rewrite IH|].
      intros Hn. apply not_elem_of_union in Hn as [Hn _].
      apply not_elem_of_singleton in Hn. by apply Heq.
  - rewrite decide_False; [by rewrite IH|].
    intros Hn. apply not_elem_of_union in Hn as [_ Hn]. by apply Hs.
Qed.

Lemma foldl_push_unseen (lines : list string) :
  ∀ (resolved : list string) (seen : gset string),
    (foldl push_unseen (resolved, seen) lines).1
    = resolved
      ++ first_seen (filter (fun x => trim x ∉ seen)
                       (filter (fun x => nonblank x = true) lines)).
Proof.
  induction lines as [|line lines IH]; intros resolved seen.
  - simpl. rewrite !filter_nil. simp first_seen. by rewrite app_nil_r.
  - simpl. unfold push_unseen at 2. simpl. rewrite (filter_cons _ line).
    fold (nonblank line). destruct (nonblank line) eqn:Hnb; simpl.
    + rewrite filter_cons.
      destruct (decide (trim line ∈ seen)) as [Hin|Hout].
      * rewrite bool_decide_eq_true_2 by done. simpl.
        rewrite decide_False by (intros Hn; by apply Hn). apply IH.
      * rewrite bool_decide_eq_false_2 by done. simpl.
        rewrite decide_True by done. simp first_seen.
        rewrite IH, filter_unseen_step, <- app_assoc. reflexivity.
    + apply IH.
Qed.

Lemma push_unseen_blank acc line : nonblank line = false → push_unseen acc line = acc.
Proof. intros Hb. unfold push_unseen. unfold nonblank in Hb. by rewrite Hb. Qed.

Lemma foldl_push_unseen_nonblank (lines : list string) :
  ∀ acc, foldl push_unseen acc (filter (fun x => nonblank x = true) lines)
         = foldl push_unseen acc lines.
Proof.
  induction lines as [|line lines IH]; intros acc; [reflexivity|].
  rewrite filter_cons. destruct (decide (nonblank line = true)) as [Hnb|Hb]; simpl.
  - apply IH.
  - rewrite push_unseen_blank by by destruct (nonblank line). apply IH.
Qed.

Lemma not_marker line :
  is_marker line = false →
  startsWith line "<<<<<<<" = false ∧ startsWith line "=======" = false
  ∧ startsWith line ">>>>>>>" = false.
Proof.
  unfold is_marker. intros H. apply orb_false_elim in H as [H H3].
  apply orb_false_elim in H as [H1 H2]. done.
Qed.

Lemma combine_plain (lines : list string) :
  Forall (fun line => is_marker line = false) lines →
  ∀ o t resolved seen,
    foldl combine_step (mkMerge normal o t resolved seen) lines
    = mkMerge normal o t (foldl push_unseen (resolved, seen) lines).1
        (foldl push_unseen (resolved, seen) lines).2.
Proof.
  induction 1 as [|line lines Hm _ IH]; intros o t resolved seen; [reflexivity|].
  apply not_marker in Hm as (H1 & H2 & H3).
  simpl. unfold combine_step at 2. rewrite H1, H2, H3. simpl.
  rewrite IH. by destruct (push_unseen (resolved, seen) line).
Qed.

Lemma combine_ours (lines : list string) :
  Forall (fun line => is_marker line = false) lines →
  ∀ o t resolved seen,
    foldl combine_step (mkMerge ours o t resolved seen) lines
    = mkMerge ours (o ++ filter (fun x => nonblank x = true) lines) t resolved seen.
Proof.
  induction 1 as [|line lines Hm _ IH]; intros o t resolved seen.
  - simpl. by rewrite filter_nil, app_nil_r.
  - apply not_marker in Hm as (H1 & H2 & H3).
    simpl. unfold combine_step at 2. rewrite H1, H2, H3. simpl.
    rewrite filter_cons. fold (nonblank line). destruct (nonblank line); simpl.
    + rewrite IH, <- app_assoc. reflexivity.
    + apply IH.
Qed.

Lemma combine_theirs (lines : list string) :
  Forall (fun line => is_marker line = false) lines →
  ∀ o t resolved seen,
    foldl combine_step (mkMerge theirs o t resolved seen) lines
    = mkMerge theirs o (t ++ filter (fun x => nonblank x = true) lines) resolved seen.
Proof.
  induction 1 as [|line lines Hm _ IH]; intros o t resolved seen.
  - simpl. by rewrite filter_nil, app_nil_r.
  - apply not_marker in Hm as (H1 & H2 & H3).
    simpl. unfold combine_step at 2. rewrite H1, H2, H3. simpl.
    rewrite filter_cons. fold (nonblank line). destruct (nonblank line); simpl.
    + rewrite IH, <- app_assoc. reflexivity.
    + apply IH.
Qed.

Lemma prefix_empty s : String.prefix "" s = true.
Proof. by destruct s. Qed.

Lemma marker_open a : startsWith ("<<<<<<<" +:+ a) "<<<<<<<" = true.
Proof. unfold startsWith. simpl. apply prefix_empty. Qed.

Lemma marker_mid b :
  startsWith ("=======" +:+ b) "<<<<<<<" = false
  ∧ startsWith ("=======" +:+ b) "=======" = true.
Proof. unfold startsWith. simpl. split; [reflexivity | apply prefix_empty]. Qed.

Lemma marker_close c :
  startsWith (">>>>>>>" +:+ c) "<<<<<<<" = false
  ∧ startsWith (">>>>>>>" +:+ c) "=======" = false
  ∧ startsWith (">>>>>>>" +:+ c) ">>>>>>>" = true.
Proof. unfold startsWith. simpl. repeat split; apply prefix_empty. Qed.

Lemma combine_region (r : Region) :
  Forall (fun line => is_marker line = false) (region_lines r) →
  ∀ o t resolved seen, ∃ o' t',
    foldl combine_step (mkMerge normal o t resolved seen) (render_region r)
    = mkMerge normal o' t' (foldl push_unseen (resolved, seen) (region_lines r)).1
        (foldl push_unseen (resolved, seen) (region_lines r)).2.
Proof.
  intros Hwf o t resolved seen. destruct r as [lines | a os b ts c]; simpl in *.
  - exists o, t. by apply combine_plain.
  - apply Forall_app in Hwf as [Hos Hts]. exists [], [].
    unfold combine_step at 2. rewrite marker_open.
    rewrite foldl_app, (combine_ours os Hos). simpl.
    unfold combine_step at 2.
    destruct (marker_mid b) as [-> ->]. simpl.
    rewrite foldl_app, (combine_theirs ts Hts). simpl.
    unfold combine_step. destruct (marker_close c) as (-> & -> & ->). simpl.
    rewrite !foldl_app, !foldl_push_unseen_nonblank. reflexivity.
Qed.

Lemma combine_regions (regions : list Region) :
  well_formed regions →
  ∀ o t resolved seen, ∃ o' t',
    foldl combine_step (mkMerge normal o t resolved seen) (render regions)
    = mkMerge normal o' t' (foldl push_unseen (resolved, seen) (both_sides regions)).1
        (foldl push_unseen (resolved, seen) (both_sides regions)).2.
Proof.
  unfold well_formed, render, both_sides.
  induction 1 as [|r regions Hr _ IH]; intros o t resolved seen.
  - exists o, t. reflexivity.
  - simpl. rewrite !foldl_app.
    destruct (combine_region r Hr o t resolved seen) as (o1 & t1 & ->).
    destruct (foldl push_unseen (resolved, seen) (region_lines r)) as [resolved1 seen1].
    simpl. apply IH.
Qed.

Lemma keep_plain (lines : list string) :
  Forall (fun line => is_marker line = false) lines →
  ∀ (inside : bool) kept,
    foldl ours_step (mkKeep inside true kept) lines = mkKeep inside true (kept ++ lines).
Proof.
  induction 1 as [|line lines Hm _ IH]; intros inside kept.
  - simpl. by rewrite app_nil_r.
  - apply not_marker in Hm as (H1 & H2 & H3).
    simpl. unfold ours_step at 2. rewrite H1, H2, H3. simpl.
    rewrite orb_true_r, IH, <- app_assoc. reflexivity.
Qed.

Lemma keep_skip (lines : list string) :
  Forall (fun line => is_marker line = false) lines →
  ∀ kept, foldl ours_step (mkKeep true false kept) lines = mkKeep true false kept.
Proof.
  induction 1 as [|line lines Hm _ IH]; intros kept; [reflexivity|].
  apply not_marker in Hm as (H1 & H2 & H3).
  simpl. unfold ours_step at 2. rewrite H1, H2, H3. simpl. apply IH.
Qed.

Lemma keep_region (r : Region) :
  Forall (fun line => is_marker line = false) (region_lines r) →
  ∀ kept, foldl ours_step (mkKeep false true kept) (render_region r)
          = mkKeep false true (kept ++ ours_lines r).
Proof.
  intros Hr kept. destruct r as [lines | a os b ts c]; simpl in *.
  - by apply keep_plain.
  - apply Forall_app in Hr as [Hos Hts].
    unfold ours_step at 2. rewrite marker_open. simpl.
    rewrite foldl_app, (keep_plain os Hos). simpl.
    unfold ours_step at 2. destruct (marker_mid b) as [-> ->]. simpl.
    rewrite foldl_app, (keep_skip ts Hts). simpl.
    unfold ours_step. destruct (marker_close c) as (-> & -> & ->). reflexivity.
Qed.

Lemma keep_regions (regions : list Region) :
  well_formed regions →
  ∀ kept, foldl ours_step (mkKeep false true kept) (render regions)
          = mkKeep false true (kept ++ ours_side regions).
Proof.
  unfold well_formed, render, ours_side.
  induction 1 as [|r regions Hr _ IH]; intros kept.
  - simpl. by rewrite app_nil_r.
  - simpl. rewrite foldl_app, (keep_region r Hr), IH, <- app_assoc. reflexivity.
Qed.

Lemma first_seen_elem (lines : list string) :
  ∀ x, x ∈ first_seen lines → x ∈ lines.
Proof.
  apply (first_seen_elim (fun lines out => ∀ x, x ∈ out → x ∈ lines)).
  - done.
  - intros line rest IH x Hx.
    apply elem_of_cons in Hx as [->|Hx]; [by left|]. right.
    apply IH in Hx. by apply list_elem_of_filter in Hx as [_ Hx].
Qed.

Lemma first_seen_covers (lines : list string) :
  ∀ x, x ∈ lines → trim x ∈ trim <$> first_seen lines.
Proof.
  apply (first_seen_elim (fun lines out => ∀ x, x ∈ lines → trim x ∈ trim <$> out)).
  - intros x Hx. by apply elem_of_nil in Hx.
  - intros line rest IH x Hx. rewrite fmap_cons.
    destruct (decide (trim x = trim line)) as [->|Hne]; [by left|].
    right. apply elem_of_cons in Hx as [->|Hx]; [done|].
    apply IH. apply list_elem_of_filter. done.
Qed.

Lemma first_seen_NoDup (lines : list string) : NoDup (trim <$> first_seen lines).
Proof.
  apply (first_seen_elim (fun lines out => NoDup (trim <$> out))).
  - constructor.
  - intros line rest IH. rewrite fmap_cons. constructor; [|done].
    intros Hin. apply list_elem_of_fmap in Hin as (y & Hy & Hin).
    apply first_seen_elem, list_elem_of_filter in Hin as [Hne _]. by apply Hne.
Qed.

Lemma filter_unseen_empty (seen : gset string) (lines : list string) :
  seen = ∅ → filter (fun x => trim x ∉ seen) lines = lines.
Proof.
  intros ->. induction lines as [|x lines IH]; [reflexivity|].
  rewrite filter_cons_True by apply not_elem_of_empty. by rewrite IH.
Qed.

(** C2, as the code has it.  For a file whose lines are a well-formed
    sequence of plain runs and two-way conflict hunks: when the file name is,
    or ends with, commits.txt, the result is the non-blank lines of the whole
    file (both sides of every hunk, each hunk at its place in the file),
    deduplicated by trimmed content keeping first occurrences, each line
    newline-terminated; nothing is lost and no trimmed content occurs twice.
    For every other file name the result is the "ours" side. *)
Theorem resolveFileConflicts_regions (file content : string) (regions : list Region) :
  well_formed regions →
  split_lines content = render regions →
  let union := first_seen (filter (fun x => nonblank x = true) (both_sides regions)) in
  resolveFileConflicts file content
  = (if is_log_file file then log_text union else join_lines (ours_side regions))
  ∧ NoDup (trim <$> union)
  ∧ (∀ line, line ∈ both_sides regions → nonblank line = true → trim line ∈ trim <$> union)
  ∧ (∀ line, line ∈ union → line ∈ both_sides regions ∧ nonblank line = true).
Proof.
  intros Hwf Hlines union. split; [|split; [|split]].
  - unfold resolveFileConflicts, is_log_file.
    destruct (bool_decide (file = "commits.txt") || endsWith file "commits.txt").
    + rewrite Hlines.
      destruct (combine_regions regions Hwf [] [] [] ∅) as (o & t & ->). simpl.
      rewrite foldl_push_unseen, app_nil_l, (filter_unseen_empty ∅) by reflexivity.
      reflexivity.
    + rewrite Hlines, (keep_regions regions Hwf). reflexivity.
  - apply first_seen_NoDup.
  - intros line Hin Hnb. apply first_seen_covers, list_elem_of_filter. done.
  - intros line Hin. apply first_seen_elem, list_elem_of_filter in Hin as [Hnb Hin]. done.
Qed.

(** A conflicted log: one line outside the conflict, one hunk, one later line. *)
Definition example_regions : list Region :=
  [ Plain ["2024-01-02 - Commit 1"];
    Hunk " HEAD" ["2024-01-03 - Commit 1"] ""
      ["2024-01-04 - Commit 1"; "2024-01-02 - Commit 1 "] " main";
    Plain ["2024-01-05 - Commit 1"; ""] ].

Definition example_content : string :=
  "2024-01-02 - Commit 1" +:+ nl +:+
  "<<<<<<< HEAD" +:+ nl +:+
  "2024-01-03 - Commit 1" +:+ nl +:+
  "=======" +:+ nl +:+
  "2024-01-04 - Commit 1" +:+ nl +:+
  "2024-01-02 - Commit 1 " +:+ nl +:+
  ">>>>>>> main" +:+ nl +:+
  "2024-01-05 - Commit 1" +:+ nl.

Lemma example_regions_well_formed : well_formed example_regions.
Proof. repeat constructor. Qed.

Lemma resolveFileConflicts_regions_witness :
  well_formed example_regions
  ∧ split_lines example_content = render example_regions
  ∧ resolveFileConflicts "commits.txt" example_content
    = "2024-01-02 - Commit 1" +:+ nl +:+ "2024-01-03 - Commit 1" +:+ nl +:+
      "2024-01-04 - Commit 1" +:+ nl +:+ "2024-01-05 - Commit 1" +:+ nl
  ∧ resolveFileConflicts "README.md" example_content
    = "2024-01-02 - Commit 1" +:+ nl +:+ "2024-01-03 - Commit 1" +:+ nl +:+
      "2024-01-05 - Commit 1" +:+ nl.
Proof.
  assert (Hsplit : split_lines example_content = render example_regions)
    by (vm_compute; reflexivity).
  split; [exact example_regions_well_formed|]. split; [exact Hsplit|]. split.
  - rewrite (proj1 (resolveFileConflicts_regions "commits.txt" example_content
                      example_regions example_regions_well_formed Hsplit)).
    vm_compute. reflexivity.
  - rewrite (proj1 (resolveFileConflicts_regions "README.md" example_content
                      example_regions example_regions_well_formed Hsplit)).
    vm_compute. reflexivity.
Defined.

(** The output the specification's wording describes for the log file: the
    lines outside the hunks first, then the union of each hunk. *)
Definition plain_first (regions : list Region) : list string :=
  concat ((fun r => match r with Plain lines => lines | Hunk _ _ _ _ _ => [] end) <$> regions)
  ++ concat ((fun r => match r with
                       | Plain _ => []
                       | Hunk _ oursLines _ theirsLines _ => oursLines ++ theirsLines
                       end) <$> regions).

Definition plain_first_union (regions : list Region) : list string :=
  first_seen (filter (fun x => nonblank x = true) (plain_first regions)).

(** C2 as stated fails twice on the example: a file other than commits.txt
    whose name merely ends with it is resolved by union instead of "ours", and
    in the log file the hunk's union precedes the later line outside it. *)
Lemma resolveFileConflicts_not_as_stated :
  "release-commits.txt" ≠ "commits.txt"
  ∧ well_formed example_regions
  ∧ split_lines example_content = render example_regions
  ∧ resolveFileConflicts "release-commits.txt" example_content
    ≠ join_lines (ours_side example_regions)
  ∧ resolveFileConflicts "commits.txt" example_content
    ≠ log_text (plain_first_union example_regions).
Proof.
  split; [discriminate|]. split; [exact example_regions_well_formed|].
  split; [vm_compute; reflexivity|]. split; vm_compute; discriminate.
Qed.

End ConflictResolver.

(** ** Programs that talk to the outside world

    An [await]ed call to git, the file system or the network is a node [Do c k]:
    the program issues the call [c] and continues with [k] on the answer,
    which is either a value or a thrown error.  [run] executes a program
    against an environment and records every call with its answer. *)

Module Effects.

Section Prog.
Context {Call : Type} {Resp : Call → Type}.

Inductive Prog (R : Type) : Type :=
| Ret (r : R)
| Do (c : Call) (k : result (Resp c) → Prog R).
Arguments Ret {R} r.
Arguments Do {R} c k.

Fixpoint pbind {A B} (p : Prog A) (f : A → Prog B) : Prog B :=
  match p with
  | Ret a => f a
  | Do c k => Do c (fun r => pbind (k r) f)
  end.

(** [await c], inside a [try] block: the answer, or the thrown error. *)
Definition call (c : Call) : Prog (result (Resp c)) := Do c Ret.

(** Sequencing inside a [try] block: a throw skips the rest of the block. *)
Definition tbind {A B} (p : Prog (result A)) (f : A → Prog (result B))
  : Prog (result B) :=
  pbind p (fun r => match r with Ok a => f a | Throw m => Ret (Throw m) end).

(** [try { p } catch (error) { handler(error.message) }] *)
Definition try_catch {A} (p : Prog (result A)) (handler : string → Prog A) : Prog A :=
  pbind p (fun r => match r with Ok a => Ret a | Throw m => handler m end).

(** One call as it happened: what was asked and what came back. *)
Record Event : Type := mkEvent { ev_call : Call; ev_response : result (Resp ev_call) }.

(** An environment answers every call and may change its own state [W]. *)
Definition Env (W : Type) : Type := ∀ c : Call, W → result (Resp c) * W.

Fixpoint run {W R} (env : Env W) (p : Prog R) (w : W) : R * W * list Event :=
  match p with
  | Ret r => (r, w, [])
  | Do c k =>
      let '(answer, w1) := env c w in
      let '(r, w2, events) := run env (k answer) w1 in
      (r, w2, mkEvent c answer :: events)
  end.

Definition result_of {W R} (env : Env W) (p : Prog R) (w : W) : R := (run env p w).1.1.
Definition world_of {W R} (env : Env W) (p : Prog R) (w : W) : W := (run env p w).1.2.
Definition trace_of {W R} (env : Env W) (p : Prog R) (w : W) : list Event := (run env p w).2.

Lemma run_pbind {W A B} (env : Env W) (p : Prog A) (f : A → Prog B) (w : W) :
  run env (pbind p f) w
  = let '(a, w1, events1) := run env p w in
    let '(b, w2, events2) := run env (f a) w1 in
    (b, w2, events1 ++ events2).
Proof.
  revert w. induction p as [a | c k IH]; intros w; simpl.
  - by destruct (run env (f a) w) as [[b w2] events2].
  - destruct (env c w) as [answer w1]. rewrite IH.
    destruct (run env (k answer) w1) as [[a w2] events1].
    by destruct (run env (f a) w2) as [[b w3] events2].
Qed.

Lemma run_tbind_ret_ok {W A B} (env : Env W) (a : A) (f : A → Prog (result B)) (w : W) :
  run env (tbind (Ret (Ok a)) f) w = run env (f a) w.
Proof. reflexivity. Qed.

Lemma run_tbind_ret_throw {W A B} (env : Env W) (m : string)
  (f : A → Prog (result B)) (w : W) :
  run env (tbind (Ret (Throw m)) f) w = (Throw m, w, []).
Proof. reflexivity. Qed.

Lemma run_try_catch {W A} (env : Env W) (p : Prog (result A)) (handler : string → Prog A)
  (w : W) :
  run env (try_catch p handler) w
  = let '(r, w1, events1) := run env p w in
    match r with
    | Ok a => (a, w1, events1 ++ [])
    | Throw m =>
        let '(a, w2, events2) := run env (handler m) w1 in
        (a, w2, events1 ++ events2)
    end.
Proof.
  unfold try_catch. rewrite run_pbind.
  destruct (run env p w) as [[[a|m] w1] events1]; reflexivity.
Qed.

Lemma run_tbind {W A B} (env : Env W) (p : Prog (result A)) (f : A → Prog (result B))
  (w : W) :
  run env (tbind p f) w
  = let '(r, w1, events1) := run env p w in
    match r with
    | Ok a =>
        let '(b, w2, events2) := run env (f a) w1 in
        (b, w2, events1 ++ events2)
    | Throw m => (Throw m, w1, events1 ++ [])
    end.
Proof.
  unfold tbind. rewrite run_pbind.
  destruct (run env p w) as [[[a|m] w1] events1]; reflexivity.
Qed.

Lemma run_tbind_call {W B} (env : Env W) (c : Call) (f : Resp c → Prog (result B)) (w : W) :
  run env (tbind (call c) f) w
  = match (env c w).1 with
    | Ok v =>
        let '(r, w2, events) := run env (f v) (env c w).2 in
        (r, w2, mkEvent c (Ok v) :: events)
    | Throw m => (Throw m, (env c w).2, [mkEvent c (Throw m)])
    end.
Proof.
  unfold tbind, call. simpl. destruct (env c w) as [[v|m] w1]; reflexivity.
Qed.

End Prog.

Arguments Prog Call Resp R : clear implicits.
Arguments Ret {Call Resp R} r.
Arguments Do {Call Resp R} c k.
Arguments Event Call Resp : clear implicits.
Arguments Env Call Resp W : clear implicits.

End Effects.
Export Effects.

Notation "x <- p ;; k" := (pbind p (fun x => k))
  (at level 100, p at next level, right associativity).
Notation "x <-! p ;; k" := (tbind p (fun x => k))
  (at level 100, p at next level, right associativity).

(** ** gitOperations.js: branch, commit and push *)

Module GitOperations.
Import DateUtils JSDate.

(** [logResult.latest]: the abbreviated fields read by the sources.
    [date_valid] tells whether [new Date(latest.date)] is a valid date. *)
Record LogEntry : Type := mkLogEntry { hash : string; date_valid : bool }.

(** The calls made on the [git] instance (simple-git) and on [fs]. *)
Inductive GitCall : Type :=
| git_branchLocal
| git_fetch (remote : string)
| git_branch_r
| git_push (remote ref : string) (force : bool)
| git_checkout (branchName : string)
| git_checkoutLocalBranch (branchName : string)
| git_revparse_HEAD
| git_pull (remote branchName : string)
| git_cwd
| git_add (fileName : string)
| git_commit (commitMessage dateOption : string)
| git_log (args : list string)
| git_getRemotes
| fs_existsSync (filePath : string)
| fs_readFileSync (filePath : string)
| fs_writeFileSync (filePath content : string).

Definition GitResp (c : GitCall) : Type :=
  match c with
  | git_branchLocal | git_branch_r | git_getRemotes => list string
  | git_revparse_HEAD | fs_readFileSync _ => string
  | git_cwd => option string
  | git_log _ => option LogEntry
  | fs_existsSync _ => bool
  | _ => unit
  end.

Definition GitProg (R : Type) : Type := Prog GitCall GitResp R.

(** [return r] and [await git.c(...)] at this call type. *)
Definition ret {R} (r : R) : GitProg R := Ret r.
Definition git (c : GitCall) : GitProg (result (GitResp c)) := call c.

(** [{ success, message }] *)
Record Outcome : Type := mkOutcome { success : bool; message : string }.

(** The value returned by [createBranch]. *)
Record BranchResult : Type := mkBranchResult {
  br_success : bool;
  br_message : string;
  existedRemotely : option bool
}.

Definition branchExistsOnRemote (branchName remote : string) : GitProg bool :=
  try_catch
    (_ <-! git (git_fetch remote) ;;
     remoteBranches <-! git git_branch_r ;;
     ret (Ok (bool_decide (remote +:+ "/" +:+ branchName ∈ remoteBranches))))
    (fun _ => ret false).

Definition deleteRemoteBranch (branchName remote : string) : GitProg Outcome :=
  try_catch
    (_ <-! git (git_push remote (":" +:+ branchName) false) ;;
     ret (Ok (mkOutcome true ("Remote branch '" +:+ branchName +:+ "' deleted"))))
    (fun m => ret (mkOutcome false ("Error deleting remote branch: " +:+ m))).

Definition createBranch (branchName remote : string) (forcePush : bool)
  : GitProg BranchResult :=
  try_catch
    (branches <-! git git_branchLocal ;;
     let existsLocally := bool_decide (branchName ∈ branches) in
     existsRemotely <-! (b <- branchExistsOnRemote branchName remote ;; ret (Ok b)) ;;
     _ <-! (if existsRemotely && negb forcePush
            then _ <- deleteRemoteBranch branchName remote ;; ret (Ok tt)
            else ret (Ok tt)) ;;
     _ <-! (if existsLocally then git (git_checkout branchName)
            else git (git_checkoutLocalBranch branchName)) ;;
     currentBranch <-! git git_revparse_HEAD ;;
     if bool_decide (currentBranch ≠ branchName)
     then ret (Throw ("Failed to checkout branch. Current branch: " +:+ currentBranch
                      +:+ ", Expected: " +:+ branchName))
     else ret (Ok (mkBranchResult true
                     ("Branch '" +:+ branchName +:+ "' created/checked out")
                     (Some existsRemotely))))
    (fun m => ret (mkBranchResult false ("Error creating branch: " +:+ m) None)).

(** The [try] block of [pushBranch].  The 30 second race against a timer is
    part of the answer to the push call: it may be the timeout error. *)
Definition pushBranch_try (branchName remote : string) (forcePush : bool)
  : GitProg (result Outcome) :=
  remotes <-! git git_getRemotes ;;
  let remoteExists := bool_decide (remote ∈ remotes) in
  if negb remoteExists
  then ret (Ok (mkOutcome false
                  ("Remote '" +:+ remote +:+ "' does not exist. Please add it first.")))
  else
    _ <-! git (git_push remote branchName forcePush) ;;
    ret (Ok (mkOutcome true
               ("Branch '" +:+ branchName +:+ "' pushed to " +:+ remote))).

(** The test of the [catch] block: the push was rejected as non-fast-forward. *)
Definition non_fast_forward (errorMessage : string) : bool :=
  includes errorMessage "non-fast-forward" || includes errorMessage "fetch first".

Equations? pushBranch (branchName remote : string) (forcePush : bool) : GitProg Outcome
  by wf (if forcePush then 0 else 1)%nat lt :=
pushBranch branchName remote false :=
  try_catch (pushBranch_try branchName remote false)
    (fun m =>
       if non_fast_forward m
       then pushBranch branchName remote true
       else ret (mkOutcome false ("Error pushing branch: " +:+ m)));
pushBranch branchName remote true :=
  try_catch (pushBranch_try branchName remote true)
    (fun m => ret (mkOutcome false ("Error pushing branch: " +:+ m))).
Proof. simpl. lia. Qed.

(** One element of [results] in [createCommits]. *)
Record CommitEntry : Type := mkCommitEntry {
  ce_success : bool;
  ce_message : string;
  commitDate : string;
  commitHash : option string;
  commitTimestamp : string
}.

(** The value returned by [createCommits]. *)
Record CommitsResult : Type := mkCommitsResult {
  cr_success : bool;
  cr_results : option (list CommitEntry);
  cr_message : string
}.

(** The segments of a path after POSIX [path.normalize]: empty segments and
    '.' are dropped, '..' removes the segment before it, and is kept, for a
    relative path only, when there is none.  [stack] holds the segments kept
    so far, last one first. *)
Fixpoint normalize_segments (allowAboveRoot : bool) (stack segments : list string)
  : list string :=
  match segments with
  | [] => reverse stack
  | segment :: segments =>
      if bool_decide (segment = "" ∨ segment = ".")
      then normalize_segments allowAboveRoot stack segments
      else if bool_decide (segment = "..")
      then match stack with
           | top :: below =>
               if bool_decide (top = "..")
               then normalize_segments allowAboveRoot (".." :: stack) segments
               else normalize_segments allowAboveRoot below segments
           | [] =>
               normalize_segments allowAboveRoot
                 (if allowAboveRoot then [".."] else []) segments
           end
      else normalize_segments allowAboveRoot (segment :: stack) segments
  end.

(** POSIX [path.normalize]. *)
Definition path_normalize (path : string) : string :=
  if bool_decide (path = "") then "."
  else
    let isAbsolute := startsWith path "/" in
    let trailingSeparator := endsWith path "/" in
    let normalized :=
      String.concat "/" (normalize_segments (negb isAbsolute) [] (split_char "/" path)) in
    if bool_decide (normalized = "")
    then (if isAbsolute then "/" else if trailingSeparator then "./" else ".")
    else (if isAbsolute then "/" else "") +:+ normalized
         +:+ (if trailingSeparator then "/" else "").

(** POSIX [path.join] of a directory and a file name. *)
Definition path_join (dir fileName : string) : string :=
  let joined := String.concat "/" (filter (fun s => nonempty s = true) [dir; fileName]) in
  if bool_decide (joined = "") then "." else path_normalize joined.

Example path_join_examples :
  path_join "/repo" "commits.txt" = "/repo/commits.txt"
  ∧ path_join "/repo/" "commits.txt" = "/repo/commits.txt"
  ∧ path_join "work//repo/." "commits.txt" = "work/repo/commits.txt"
  ∧ path_join "/a/b/.." "commits.txt" = "/a/commits.txt"
  ∧ path_join "../x" "commits.txt" = "../x/commits.txt"
  ∧ path_join "/.." "commits.txt" = "/commits.txt"
  ∧ path_join "." "commits.txt" = "commits.txt"
  ∧ path_join "" "" = "."
  ∧ path_normalize "a/.." = "." ∧ path_normalize "a/../" = "./"
  ∧ path_normalize "//" = "/".
Proof. vm_compute. repeat split; reflexivity. Qed.

Section Host.

(** The time zone of the host. *)
Variable LocalTZA : Z → bool → Z.

(** The body of [for (let i = 0; i < commitCount; i++)]; [remaining] is
    [commitCount - i]. *)
Fixpoint createCommits_loop (remaining : nat) (i : Z) (date filePath : string)
  (commitDate : option Z) (content : string) (results : list CommitEntry)
  : GitProg (result (list CommitEntry)) :=
  match remaining with
  | O => ret (Ok results)
  | S remaining =>
      timestamp <-! ret (date_toISOString commitDate) ;;
      let content :=
        content +:+ date +:+ " - Commit " +:+ js_String (i + 1) +:+ " at " +:+ timestamp
        +:+ nl in
      _ <-! git (fs_writeFileSync filePath content) ;;
      _ <-! git (git_add "commits.txt") ;;
      let commitMessage := "Auto commit " +:+ js_String (i + 1) +:+ " for " +:+ date in
      commitDateISO <-! ret (date_toISOString commitDate) ;;
      _ <-! git (git_commit commitMessage commitDateISO) ;;
      logResult <-! git (git_log ["-1"]) ;;
      commitHash <-! ret (match logResult with
                          | Some latest =>
                              if date_valid latest
                              then Ok (Some (substring 0 7 (hash latest)))
                              else Throw "Invalid time value"
                          | None => Ok None
                          end) ;;
      createCommits_loop remaining (i + 1) date filePath commitDate content
        (results ++ [mkCommitEntry true
                       ("Commit " +:+ js_String (i + 1) +:+ " created for " +:+ date)
                       date commitHash commitDateISO])
  end.

(** [const [year, month, day] = date.split('-').map(Number);
     new Date(year, month - 1, day, 12, 0, 0)] *)
Definition noon_of (date : string) : option Z :=
  let parts := Number <$> split_char "-" date in
  new_Date LocalTZA (mjoin (parts !! 0%nat)) ((fun m => m - 1) <$> mjoin (parts !! 1%nat))
    (mjoin (parts !! 2%nat)) 12 0 0.

(** Lines 263-272: [repoPath], or else the working directory of the git
    instance when that is a string; [None] is [null]. *)
Definition resolve_repoPath (repoPath : option string) : GitProg (option string) :=
  if match repoPath with Some p => nonempty p | None => false end
  then ret repoPath
  else r <- git git_cwd ;;
       ret (match r with Ok cwd => cwd | Throw _ => None end).

(** Lines 274-346: the rest of the [try] block, once the path is resolved. *)
Definition createCommits_in (commitCount : nat) (date : string)
  (actualRepoPath : option string) : GitProg (result CommitsResult) :=
  if negb (match actualRepoPath with Some p => nonempty p | None => false end)
  then ret (Ok (mkCommitsResult false None "Could not determine repository path"))
  else
    let filePath := path_join (default "" actualRepoPath) "commits.txt" in
    fileExists <-! git (fs_existsSync filePath) ;;
    content <-! (if fileExists : bool then git (fs_readFileSync filePath) else ret (Ok "")) ;;
    let commitDate := noon_of date in
    _ <-! ret (date_toISOString commitDate) ;;
    results <-! createCommits_loop commitCount 0 date filePath commitDate content [] ;;
    ret (Ok (mkCommitsResult true (Some results)
               ("Created " +:+ js_String (Z.of_nat commitCount) +:+ " commits"))).

Definition createCommits (commitCount : nat) (date : string) (repoPath : option string)
  : GitProg CommitsResult :=
  try_catch
    (actualRepoPath <-! (p <- resolve_repoPath repoPath ;; ret (Ok p)) ;;
     createCommits_in commitCount date actualRepoPath)
    (fun m => ret (mkCommitsResult false None ("Error creating commits: " +:+ m))).

End Host.

(** *** What a run of the push step did *)

Definition GitEvent : Type := Event GitCall GitResp.
Definition GitEnv (W : Type) : Type := Env GitCall GitResp W.

(** The pushes of a trace, in order: the ref pushed, whether [--force] was
    given, and how the push ended. *)
Definition push_of (ev : GitEvent) : option (string * bool * result unit) :=
  match ev with
  | mkEvent c answer =>
      match c return result (GitResp c) → option (string * bool * result unit) with
      | git_push _ ref force => fun answer => Some (ref, force, answer)
      | _ => fun _ => None
      end answer
  end.

Definition pushes (trace : list GitEvent) : list (string * bool * result unit) :=
  omap push_of trace.

(** The value [pushBranch] returns after a push that ended with [answer]. *)
Definition push_outcome (branchName remote : string) (answer : result unit) : Outcome :=
  match answer with
  | Ok _ => mkOutcome true ("Branch '" +:+ branchName +:+ "' pushed to " +:+ remote)
  | Throw m => mkOutcome false ("Error pushing branch: " +:+ m)
  end.

Lemma pushBranch_forced {W} (env : GitEnv W) (w : W) (branchName remote : string) :
  let '(out, _, trace) := run env (pushBranch branchName remote true) w in
  match pushes trace with
  | [] => success out = false
  | [(ref, true, answer)] => ref = branchName ∧ out = push_outcome branchName remote answer
  | _ => False
  end.
Proof.
  rewrite pushBranch_equation_1. unfold pushBranch_try, try_catch, git, ret. simpl.
  destruct (env git_getRemotes w) as [[remotes|m] w1]; simpl; [|done].
  case_bool_decide; simpl; [|done].
  destruct (env (git_push remote branchName true) w1) as [[[]|m] w2]; simpl; done.
Qed.

(** In every environment, [pushBranch] without force pushes the branch at most
    twice: once unforced and, only when the [try] block failed with a
    non-fast-forward message, once more with [--force]; a failure of the
    unforced push with any other message is the result as it is; after a
    forced push the result is the forced push's own outcome. *)
Lemma pushBranch_cases {W} (env : GitEnv W) (w : W) (branchName remote : string) :
  let '(out, _, trace) := run env (pushBranch branchName remote false) w in
  match pushes trace with
  | [] => success out = false
  | [(ref, false, Ok _)] =>
      ref = branchName ∧ out = push_outcome branchName remote (Ok tt)
  | [(ref, false, Throw m)] =>
      ref = branchName ∧ success out = false
      ∧ (non_fast_forward m = false → out = push_outcome branchName remote (Throw m))
  | [(ref, false, Throw m); (ref', true, answer)] =>
      ref = branchName ∧ ref' = branchName ∧ non_fast_forward m = true
      ∧ out = push_outcome branchName remote answer
  | [(ref, true, answer)] =>
      ref = branchName ∧ out = push_outcome branchName remote answer
  | _ => False
  end.
Proof.
  rewrite pushBranch_equation_2. unfold pushBranch_try, try_catch, git, ret. simpl.
  destruct (env git_getRemotes w) as [[remotes|m] w1]; simpl.
  - case_bool_decide; simpl; [|done].
    destruct (env (git_push remote branchName false) w1) as [[[]|m] w2]; simpl; [done|].
    destruct (non_fast_forward m) eqn:Hnff; simpl; [|done].
    pose proof (pushBranch_forced env w2 branchName remote) as Hforced.
    destruct (run env (pushBranch branchName remote true) w2) as [[out w3] trace].
    simpl. destruct (pushes trace) as [|[[ref force] answer] rest].
    + split; [done|]. split; [done|]. intros Hno. congruence.
    + destruct force, rest; try done. destruct Hforced as [-> ->]. done.
  - destruct (non_fast_forward m) eqn:Hnff; simpl; [|done].
    pose proof (pushBranch_forced env w1 branchName remote) as Hforced.
    destruct (run env (pushBranch branchName remote true) w1) as [[out w3] trace].
    simpl. destruct (pushes trace) as [|[[ref force] answer] rest]; [done|].
    destruct force, rest; done.
Qed.

(** *** What a run of the commit step did *)

(** The commits of a trace, in order: message, [--date] option, and how the
    call ended. *)
Definition commit_of (ev : GitEvent) : option (string * string * result unit) :=
  match ev with
  | mkEvent c answer =>
      match c return result (GitResp c) → option (string * string * result unit) with
      | git_commit commitMessage dateOption => fun answer =>
          Some (commitMessage, dateOption, answer)
      | _ => fun _ => None
      end answer
  end.

Definition commits (trace : list GitEvent) : list (string * string * result unit) :=
  omap commit_of trace.

(** The file writes of a trace, in order: path and full new content. *)
Definition write_of (ev : GitEvent) : option (string * string) :=
  match ev with
  | mkEvent c answer =>
      match c return result (GitResp c) → option (string * string) with
      | fs_writeFileSync filePath content => fun _ => Some (filePath, content)
      | _ => fun _ => None
      end answer
  end.

Definition writes (trace : list GitEvent) : list (string * string) :=
  omap write_of trace.

(** The line appended for commit number [k]. *)
Definition log_line (date timestamp : string) (k : Z) : string :=
  date +:+ " - Commit " +:+ js_String k +:+ " at " +:+ timestamp +:+ nl.

(** [content] followed by the lines of commits [first], [first + 1], ...,
    [count] of them. *)
Fixpoint append_lines (date timestamp content : string) (first : Z) (count : nat) : string :=
  match count with
  | O => content
  | S count =>
      append_lines date timestamp (content +:+ log_line date timestamp first) (first + 1) count
  end.

(** An environment in which no call fails and every logged commit date is valid. *)
Definition reliable {W} (env : GitEnv W) : Prop :=
  (∀ c w, is_ok (env c w).1 = true)
  ∧ (∀ args w latest, (env (git_log args) w).1 = Ok (Some latest) → date_valid latest = true).

(** The four calls of commit number [k], all answered without error: the file
    is written with one more line than [content], commits.txt is staged, the
    commit is made with [timestamp] as its date, and the log is read. *)
Definition commit_round (date timestamp filePath content : string) (k : Z)
  (logged : option LogEntry) : list GitEvent :=
  [ mkEvent (fs_writeFileSync filePath (content +:+ log_line date timestamp k)) (Ok tt);
    mkEvent (git_add "commits.txt") (Ok tt);
    mkEvent (git_commit ("Auto commit " +:+ js_String k +:+ " for " +:+ date) timestamp)
      (Ok tt);
    mkEvent (git_log ["-1"]) (Ok logged) ].

(** The calls of the commits [k], [k + 1], ..., one for each answer of the
    log, on a file that holds [content] at first. *)
Fixpoint commit_rounds (date timestamp filePath content : string) (k : Z)
  (logs : list (option LogEntry)) : list GitEvent :=
  match logs with
  | [] => []
  | logged :: logs =>
      commit_round date timestamp filePath content k logged
      ++ commit_rounds date timestamp filePath (content +:+ log_line date timestamp k)
           (k + 1) logs
  end.

(** The element of [results] for commit number [k]. *)
Definition commit_entry (date timestamp : string) (k : Z) (logged : option LogEntry)
  : CommitEntry :=
  mkCommitEntry true ("Commit " +:+ js_String k +:+ " created for " +:+ date) date
    ((fun latest => substring 0 7 (hash latest)) <$> logged) timestamp.

Fixpoint commit_entries (date timestamp : string) (k : Z) (logs : list (option LogEntry))
  : list CommitEntry :=
  match logs with
  | [] => []
  | logged :: logs =>
      commit_entry date timestamp k logged :: commit_entries date timestamp (k + 1) logs
  end.

(** How the file was looked up: it did not exist, or it was read. *)
Definition reading (filePath content : string) (events : list GitEvent) : Prop :=
  (content = "" ∧ events = [mkEvent (fs_existsSync filePath) (Ok false)])
  ∨ events = [ mkEvent (fs_existsSync filePath) (Ok true);
               mkEvent (fs_readFileSync filePath) (Ok content) ].

(** How the repository directory was found: it was given, or it is the
    working directory of the git instance. *)
Definition locating (repoPath : option string) (dir : string) (events : list GitEvent)
  : Prop :=
  nonempty dir = true
  ∧ ((repoPath = Some dir ∧ events = [])
     ∨ ((repoPath = None ∨ repoPath = Some "")
        ∧ events = [mkEvent git_cwd (Ok (Some dir))])).

Lemma commits_app (events1 events2 : list GitEvent) :
  commits (events1 ++ events2) = commits events1 ++ commits events2.
Proof. unfold commits. apply omap_app. Qed.

Lemma writes_app (events1 events2 : list GitEvent) :
  writes (events1 ++ events2) = writes events1 ++ writes events2.
Proof. unfold writes. apply omap_app. Qed.

Lemma commits_rounds (date timestamp filePath : string) (logs : list (option LogEntry)) :
  ∀ (content : string) (k : Z),
    commits (commit_rounds date timestamp filePath content k logs)
    = (fun j => ("Auto commit " +:+ js_String j +:+ " for " +:+ date, timestamp, Ok tt))
        <$> seqZ k (Z.of_nat (length logs)).
Proof.
  induction logs as [|logged logs IH]; intros content k; [done|].
  cbn [commit_rounds length]. rewrite commits_app, IH.
  rewrite (seqZ_cons k) by lia. rewrite fmap_cons.
  replace (Z.pred (Z.of_nat (S (length logs)))) with (Z.of_nat (length logs)) by lia.
  replace (Z.succ k) with (k + 1) by lia. reflexivity.
Qed.

Lemma writes_rounds (date timestamp filePath : string) (logs : list (option LogEntry)) :
  ∀ (content : string) (k : Z),
    writes (commit_rounds date timestamp filePath content k logs)
    = (fun j => (filePath, append_lines date timestamp content k (S j)))
        <$> seq 0 (length logs).
Proof.
  induction logs as [|logged logs IH]; intros content k; [done|].
  cbn [commit_rounds length]. rewrite writes_app, IH.
  rewrite <- cons_seq, fmap_cons, <- fmap_S_seq, <- list_fmap_compose. reflexivity.
Qed.

Lemma commit_entries_length (date timestamp : string) (logs : list (option LogEntry)) :
  ∀ k, length (commit_entries date timestamp k logs) = length logs.
Proof. induction logs as [|logged logs IH]; intros k; [done|]. simpl. by rewrite IH. Qed.

Section CommitRuns.
Context {W : Type} (env : GitEnv W).
Context (date filePath : string) (noon : Z).

Let timestamp := toISOString noon.

Definition expected_commit (k : Z) : string * string * result unit :=
  ("Auto commit " +:+ js_String k +:+ " for " +:+ date, timestamp, Ok tt).

(** What is true of the outcome of the loop entered with counter [i], file
    content [content] and [results], for [remaining] more commits. *)
Definition loop_post (remaining : nat) (i : Z) (content : string)
  (results : list CommitEntry) (out : result (list CommitEntry) * W * list GitEvent)
  : Prop :=
  Forall (fun c => c.1.2 = timestamp) (commits out.2)
  ∧ (length (commits out.2) ≤ remaining)%nat
  ∧ (∀ results', out.1.1 = Ok results' →
       ∃ logs,
         length logs = remaining
         ∧ out.2 = commit_rounds date timestamp filePath content (i + 1) logs
         ∧ results' = results ++ commit_entries date timestamp (i + 1) logs)
  ∧ (reliable env → is_ok out.1.1 = true).

Lemma loop_post_throw (remaining : nat) i content results m w (events : list GitEvent)
  (c : GitCall) (w0 : W) :
  (env c w0).1 = Throw m →
  Forall (fun c => c.1.2 = timestamp) (commits events) →
  (length (commits events) ≤ remaining)%nat →
  loop_post remaining i content results (Throw m, w, events).
Proof.
  intros Hthrow Hall Hlen. unfold loop_post. simpl.
  split; [done|]. split; [done|]. split; [done|].
  intros [Hok _]. specialize (Hok c w0). by rewrite Hthrow in Hok.
Qed.

Lemma loop_post_step (remaining : nat) i content results r w (events : list GitEvent)
  (logged : option LogEntry) :
  loop_post remaining (i + 1) (content +:+ log_line date timestamp (i + 1))
    (results ++ [commit_entry date timestamp (i + 1) logged])
    (r, w, events) →
  loop_post (S remaining) i content results
    (r, w, commit_round date timestamp filePath content (i + 1) logged ++ events).
Proof.
  unfold loop_post. simpl. intros (Hall & Hlen & Hok & Hrel).
  split; [by constructor|]. split; [lia|]. split; [|done].
  intros results' Hr. destruct (Hok results' Hr) as (logs & Hn & Hevents & Hresults).
  exists (logged :: logs). split; [simpl; lia|]. split.
  - by rewrite Hevents.
  - rewrite Hresults, <- app_assoc. reflexivity.
Qed.

Lemma createCommits_loop_run (remaining : nat) :
  ∀ (i : Z) (content : string) (results : list CommitEntry) (w : W),
    loop_post remaining i content results
      (run env (createCommits_loop remaining i date filePath (Some noon) content results) w).
Proof.
  induction remaining as [|remaining IH]; intros i content results w.
  - unfold loop_post. simpl. split; [constructor|]. split; [lia|]. split; [|done].
    intros results' [= <-]. exists []. split; [done|]. split; [done|].
    by rewrite app_nil_r.
  - cbn [createCommits_loop date_toISOString]. unfold git, ret.
    rewrite run_tbind_ret_ok, run_tbind_call.
    fold timestamp. fold (log_line date timestamp (i + 1)).
    destruct (env (fs_writeFileSync _ _) w) as [[[]|m1] w1] eqn:E1; cbn [fst snd].
    2:{ eapply loop_post_throw; [by rewrite E1 | constructor | simpl; lia]. }
    rewrite run_tbind_call.
    destruct (env (git_add "commits.txt") w1) as [[[]|m2] w2] eqn:E2; cbn [fst snd].
    2:{ eapply loop_post_throw; [by rewrite E2 | constructor | simpl; lia]. }
    rewrite run_tbind_ret_ok, run_tbind_call.
    destruct (env (git_commit _ _) w2) as [[[]|m3] w3] eqn:E3; cbn [fst snd].
    2:{ eapply loop_post_throw; [by rewrite E3 | by repeat constructor | simpl; lia]. }
    rewrite run_tbind_call.
    destruct (env (git_log ["-1"]) w3) as [[logResult|m4] w4] eqn:E4; cbn [fst snd].
    2:{ eapply loop_post_throw; [by rewrite E4 | by repeat constructor | simpl; lia]. }
    destruct logResult as [latest|].
    + destruct (date_valid latest) eqn:Hdv.
      * rewrite run_tbind_ret_ok.
        match goal with |- context [run env ?p ?w'] =>
          pose proof (IH _ _ _ w' : loop_post _ _ _ _ (run env p w')) as Hpost;
          destruct (run env p w') as [[r w5] events] end.
        by apply (loop_post_step _ _ _ _ _ _ _ (Some latest)).
      * rewrite run_tbind_ret_throw. unfold loop_post. simpl.
        split; [by repeat constructor|]. split; [lia|]. split; [done|].
        intros [_ Hlog]. specialize (Hlog ["-1"] w3 latest). rewrite E4 in Hlog.
        specialize (Hlog eq_refl). congruence.
    + rewrite run_tbind_ret_ok.
      match goal with |- context [run env ?p ?w'] =>
        pose proof (IH _ _ _ w' : loop_post _ _ _ _ (run env p w')) as Hpost;
        destruct (run env p w') as [[r w5] events] end.
      by apply (loop_post_step _ _ _ _ _ _ _ None).
Qed.

End CommitRuns.

(** *** The date string round trip: [formatDate] then [split('-').map(Number)] *)

Lemma civil_from_days_bounds (z : Z) :
  0 <= z →
  1970 <= (civil_from_days z).1.1
  ∧ 0 <= (civil_from_days z).1.2 <= 11
  ∧ 1 <= (civil_from_days z).2 <= 31.
Proof.
  intros Hz. unfold civil_from_days. cbv zeta. simpl.
  destruct (_ <? 10) eqn:Hmp; destruct (_ <=? 1) eqn:Hm;
    try apply Z.ltb_lt in Hmp; try apply Z.ltb_ge in Hmp;
    try apply Z.leb_le in Hm; try apply Z.leb_gt in Hm;
    Z.div_mod_to_equations; lia.
Qed.

Lemma split_char_nonempty (sep : ascii) (s : string) : split_char sep s ≠ [].
Proof.
  destruct s as [|c s]; simpl; [done|].
  destruct (decide (c = sep)); [done|]. by destruct (split_char sep s).
Qed.

Lemma string_app_cons (c : ascii) (s rest : string) :
  String c s +:+ rest = String c (s +:+ rest).
Proof. reflexivity. Qed.

Lemma string_app_nil (rest : string) : "" +:+ rest = rest.
Proof. reflexivity. Qed.

Lemma split_char_digits (d : Decimal.uint) (rest : string) :
  split_char "-" (NilEmpty.string_of_uint d +:+ rest)
  = match split_char "-" rest with
    | piece :: pieces => (NilEmpty.string_of_uint d +:+ piece) :: pieces
    | [] => [NilEmpty.string_of_uint d]
    end.
Proof.
  induction d as [|d IH|d IH|d IH|d IH|d IH|d IH|d IH|d IH|d IH|d IH];
    cbn [NilEmpty.string_of_uint].
  { rewrite string_app_nil. pose proof (split_char_nonempty "-" rest).
    by destruct (split_char "-" rest). }
  all: rewrite string_app_cons; cbn [split_char].
  all: destruct (decide _) as [Heq|_]; [discriminate Heq|].
  all: rewrite IH; by destruct (split_char "-" rest).
Qed.

Lemma string_app_empty (s : string) : s +:+ "" = s.
Proof. induction s as [|c s IH]; [done|]. by rewrite string_app_cons, IH. Qed.

Lemma split_char_three (a b c : Decimal.uint) :
  split_char "-" (NilEmpty.string_of_uint a +:+ "-" +:+ NilEmpty.string_of_uint b
                  +:+ "-" +:+ NilEmpty.string_of_uint c)
  = [NilEmpty.string_of_uint a; NilEmpty.string_of_uint b; NilEmpty.string_of_uint c].
Proof.
  rewrite split_char_digits, string_app_cons, string_app_nil. cbn [split_char].
  destruct (decide _) as [_|Hne]; [|done].
  rewrite split_char_digits, string_app_cons, string_app_nil. cbn [split_char].
  destruct (decide _) as [_|Hne]; [|done].
  rewrite <- (string_app_empty (NilEmpty.string_of_uint c)) at 1.
  rewrite split_char_digits. cbn [split_char]. by rewrite !string_app_empty.
Qed.

Lemma Number_digits (d : Decimal.uint) :
  Number (NilEmpty.string_of_uint d) = Some (Z.of_N (N.of_uint d)).
Proof. unfold Number. by rewrite NilEmpty.usu. Qed.

Lemma js_String_digits (n : Z) :
  0 <= n → ∃ d, js_String n = NilEmpty.string_of_uint d ∧ Z.of_N (N.of_uint d) = n.
Proof.
  intros Hn. exists (N.to_uint (Z.to_N n)). split.
  - by destruct n.
  - rewrite DecimalN.Unsigned.of_to. lia.
Qed.

Lemma pad2_digits (n : Z) :
  0 <= n → ∃ d, pad2 n = NilEmpty.string_of_uint d ∧ Z.of_N (N.of_uint d) = n.
Proof.
  intros Hn. destruct (js_String_digits n Hn) as (d & Hs & Hd).
  unfold pad2. rewrite Hs. destruct (_ <? 2)%nat.
  - exists (Decimal.D0 d). split; [done|]. rewrite <- Hd. done.
  - by exists d.
Qed.

(** The Date built for local noon of a calendar day. *)
Definition local_noon (LocalTZA : Z → bool → Z) (d : Date) : option Z :=
  TimeClip (UTC LocalTZA (MakeDate (dayNumber d) (MakeTime 12 0 0 0))).

(** What [split('-').map(Number)] makes of a formatted date whose year is not
    negative. *)
Lemma parts_of_formatDate (d : Date) :
  0 <= getFullYear d →
  Number <$> split_char "-" (formatDate d)
  = [Some (getFullYear d); Some (getMonth d + 1); Some (getDate d)].
Proof.
  intros Hy. destruct (civil_fields (dayNumber d)) as [Hm Hday].
  fold (getMonth d) in Hm. fold (getDate d) in Hday.
  destruct (js_String_digits (getFullYear d)) as (a & Ha & Hva); [lia|].
  destruct (pad2_digits (getMonth d + 1)) as (b & Hb & Hvb); [lia|].
  destruct (pad2_digits (getDate d)) as (c & Hc & Hvc); [lia|].
  unfold formatDate. rewrite Ha, Hb, Hc, split_char_three.
  simpl. rewrite !Number_digits. by rewrite Hva, Hvb, Hvc.
Qed.

Lemma noon_of_formatDate (LocalTZA : Z → bool → Z) (d : Date) :
  100 <= getFullYear d → noon_of LocalTZA (formatDate d) = local_noon LocalTZA d.
Proof.
  intros Hy. unfold noon_of. rewrite parts_of_formatDate by lia.
  cbn [lookup list_lookup mjoin option_join fmap option_fmap option_map].
  unfold new_Date, local_noon. cbn [mbind option_bind].
  replace ((0 <=? getFullYear d) && (getFullYear d <=? 99)) with false
    by (symmetry; apply andb_false_intro2; lia).
  replace (getMonth d + 1 - 1) with (getMonth d) by lia.
  rewrite MakeDay_fields. do 3 f_equal. lia.
Qed.

(** For a year from 0 to 99 the Date is built 1900 years later. *)
Lemma noon_of_formatDate_early (LocalTZA : Z → bool → Z) (d : Date) :
  0 <= getFullYear d <= 99 →
  noon_of LocalTZA (formatDate d)
  = TimeClip (UTC LocalTZA (MakeDate (MakeDay (1900 + getFullYear d) (getMonth d)
                                        (getDate d))
                              (MakeTime 12 0 0 0))).
Proof.
  intros Hy. unfold noon_of. rewrite parts_of_formatDate by lia.
  cbn [lookup list_lookup mjoin option_join fmap option_fmap option_map].
  unfold new_Date. cbn [mbind option_bind].
  replace ((0 <=? getFullYear d) && (getFullYear d <=? 99)) with true
    by (symmetry; apply andb_true_intro; split; lia).
  replace (getMonth d + 1 - 1) with (getMonth d) by lia. reflexivity.
Qed.

Section CommitsRun.
Context (LocalTZA : Z → bool → Z) {W : Type} (env : GitEnv W).
Context (date : string).

(** What is true of the outcome of the [try] block of [createCommits], once
    the path is resolved. *)
Definition commits_post (commitCount : nat) (actualRepoPath : option string)
  (out : result CommitsResult * W * list GitEvent) : Prop :=
  (∀ noon, noon_of LocalTZA date = Some noon →
     Forall (fun c => c.1.2 = toISOString noon) (commits out.2))
  ∧ (length (commits out.2) ≤ commitCount)%nat
  ∧ (∀ res, out.1.1 = Ok res → cr_success res = true →
       ∃ noon dir content before logs,
         noon_of LocalTZA date = Some noon
         ∧ actualRepoPath = Some dir ∧ nonempty dir = true
         ∧ reading (path_join dir "commits.txt") content before
         ∧ length logs = commitCount
         ∧ out.2 = before ++ commit_rounds date (toISOString noon)
                               (path_join dir "commits.txt") content 1 logs
         ∧ cr_results res = Some (commit_entries date (toISOString noon) 1 logs)).

Lemma commits_post_early (commitCount : nat) arp r w (events : list GitEvent) :
  commits events = [] →
  (∀ res, r = Ok res → cr_success res = false) →
  commits_post commitCount arp (r, w, events).
Proof.
  intros Hnone Hfail. unfold commits_post. simpl. rewrite Hnone.
  split; [constructor|]. split; [simpl; lia|].
  intros res Hr Hs. rewrite (Hfail res Hr) in Hs. discriminate.
Qed.

(** From the moment the file content is known. *)
Lemma createCommits_from_content (commitCount : nat) (filePath content : string) (w : W) :
  let out :=
    run env
      (_ <-! ret (date_toISOString (noon_of LocalTZA date)) ;;
       results <-! createCommits_loop commitCount 0 date filePath
                     (noon_of LocalTZA date) content [] ;;
       ret (Ok (mkCommitsResult true (Some results)
                  ("Created " +:+ js_String (Z.of_nat commitCount) +:+ " commits")))) w in
  (∀ noon, noon_of LocalTZA date = Some noon →
     Forall (fun c => c.1.2 = toISOString noon) (commits out.2))
  ∧ (length (commits out.2) ≤ commitCount)%nat
  ∧ (∀ res, out.1.1 = Ok res →
       ∃ noon logs,
         noon_of LocalTZA date = Some noon
         ∧ length logs = commitCount
         ∧ out.2 = commit_rounds date (toISOString noon) filePath content 1 logs
         ∧ res = mkCommitsResult true (Some (commit_entries date (toISOString noon) 1 logs))
                   ("Created " +:+ js_String (Z.of_nat commitCount) +:+ " commits"))
  ∧ (reliable env → is_Some (noon_of LocalTZA date) →
     ∃ res, out.1.1 = Ok res ∧ cr_success res = true).
Proof.
  cbv zeta. destruct (noon_of LocalTZA date) as [noon|] eqn:Hnoon.
  2:{ cbn. split; [done|]. split; [lia|]. split; [done|]. intros _ [x Hx]. done. }
  cbn [date_toISOString]. unfold ret.
  rewrite run_tbind_ret_ok, run_tbind.
  pose proof (createCommits_loop_run env date filePath noon commitCount 0 content [] w)
    as Hpost.
  destruct (run env (createCommits_loop commitCount 0 date filePath (Some noon) content [])
              w) as [[r w1] events].
  destruct Hpost as (Hall & Hlen & Hok & Hrel). cbn [fst snd] in Hall, Hlen, Hok, Hrel.
  destruct r as [results|m]; cbn [fst snd run]; rewrite !app_nil_r.
  - split; [by intros noon' [= <-]|]. split; [done|]. split.
    + intros res [= <-]. destruct (Hok results eq_refl) as (logs & Hn & Hevents & ->).
      exists noon, logs. done.
    + intros _ _. eexists. split; reflexivity.
  - split; [by intros noon' [= <-]|]. split; [done|]. split; [done|].
    intros Henv _. specialize (Hrel Henv). discriminate.
Qed.

Lemma createCommits_in_run (commitCount : nat) (actualRepoPath : option string) (w : W) :
  commits_post commitCount actualRepoPath
    (run env (createCommits_in LocalTZA commitCount date actualRepoPath) w)
  ∧ (reliable env → is_Some (noon_of LocalTZA date) →
     (∃ p, actualRepoPath = Some p ∧ nonempty p = true) →
     ∃ res, (run env (createCommits_in LocalTZA commitCount date actualRepoPath) w).1.1
            = Ok res ∧ cr_success res = true).
Proof.
  unfold createCommits_in.
  destruct (match actualRepoPath with Some p => nonempty p | None => false end) eqn:Hpath;
    cbn [negb].
  2:{ split; [by apply commits_post_early; [|intros res [= <-]]|].
      intros _ _ (p & -> & Hp). congruence. }
  destruct actualRepoPath as [dir|]; [|done]. cbn [default from_option id].
  set (filePath := path_join dir "commits.txt").
  unfold git. rewrite run_tbind_call.
  destruct (env (fs_existsSync filePath) w) as [[fileExists|m] w1] eqn:E1; cbn [fst snd].
  2:{ split; [by apply commits_post_early|].
      intros [Hok _] _ _. specialize (Hok (fs_existsSync filePath) w). by rewrite E1 in Hok. }
  destruct fileExists.
  - rewrite run_tbind_call.
    destruct (env (fs_readFileSync filePath) w1) as [[content|m] w2] eqn:E2; cbn [fst snd].
    2:{ split; [by apply commits_post_early|].
        intros [Hok _] _ _. specialize (Hok (fs_readFileSync filePath) w1).
        by rewrite E2 in Hok. }
    destruct (createCommits_from_content commitCount filePath content w2)
      as (Hall & Hlen & Hok & Hrel).
    cbv zeta in Hall, Hlen, Hok, Hrel.
    match type of Hlen with context [run env ?p ?w'] =>
      destruct (run env p w') as [[r w3] events] end.
    cbn [fst snd] in *.
    split; [|intros Henv Hnoon _; by apply Hrel].
    split; [exact Hall|]. split; [exact Hlen|].
    intros res Hr _. destruct (Hok res Hr) as (noon & logs & Hnoon & Hn & -> & ->).
    exists noon, dir, content, [mkEvent (fs_existsSync filePath) (Ok true);
                                mkEvent (fs_readFileSync filePath) (Ok content)], logs.
    split; [done|]. split; [done|]. split; [done|]. split; [by right|]. done.
  - unfold ret. rewrite !run_tbind_ret_ok.
    destruct (createCommits_from_content commitCount filePath "" w1)
      as (Hall & Hlen & Hok & Hrel).
    cbv zeta in Hall, Hlen, Hok, Hrel. unfold ret in Hall, Hlen, Hok, Hrel.
    match type of Hlen with context [run env ?p ?w'] =>
      destruct (run env p w') as [[r w3] events] end.
    cbn [fst snd] in *.
    split; [|intros Henv Hnoon _; by apply Hrel].
    split; [exact Hall|]. split; [exact Hlen|].
    intros res Hr _. destruct (Hok res Hr) as (noon & logs & Hnoon & Hn & -> & ->).
    exists noon, dir, "", [mkEvent (fs_existsSync filePath) (Ok false)], logs.
    split; [done|]. split; [done|]. split; [done|]. split; [by left|]. done.
Qed.

(** What every run of [createCommits] looks like. *)
Lemma createCommits_run (commitCount : nat) (repoPath : option string) (w : W) :
  let out := run env (createCommits LocalTZA commitCount date repoPath) w in
  (∀ noon, noon_of LocalTZA date = Some noon →
     Forall (fun c => c.1.2 = toISOString noon) (commits out.2))
  ∧ (length (commits out.2) ≤ commitCount)%nat
  ∧ (cr_success out.1.1 = true →
       ∃ noon dir content locate before logs,
         noon_of LocalTZA date = Some noon
         ∧ locating repoPath dir locate
         ∧ reading (path_join dir "commits.txt") content before
         ∧ length logs = commitCount
         ∧ out.2 = locate ++ before
                   ++ commit_rounds date (toISOString noon) (path_join dir "commits.txt")
                        content 1 logs
         ∧ cr_results out.1.1 = Some (commit_entries date (toISOString noon) 1 logs))
  ∧ (reliable env → is_Some (noon_of LocalTZA date) →
     (∃ p, repoPath = Some p ∧ nonempty p = true) →
     cr_success out.1.1 = true).
Proof.
  cbv zeta. unfold createCommits. rewrite run_try_catch, run_tbind.
  assert (Hpath : ∃ arp w1 events0,
            run env (p <- resolve_repoPath repoPath ;; ret (Ok p)) w = (Ok arp, w1, events0)
            ∧ commits events0 = []
            ∧ (∀ dir, arp = Some dir → nonempty dir = true → locating repoPath dir events0)
            ∧ ((∃ p, repoPath = Some p ∧ nonempty p = true) → arp = repoPath)).
  { unfold resolve_repoPath.
    destruct (match repoPath with Some p => nonempty p | None => false end) eqn:Hp.
    - exists repoPath, w, []. split; [done|]. split; [done|]. split; [|done].
      intros dir -> Hdir. split; [done|]. by left.
    - unfold git, call, ret. cbn [pbind run].
      destruct (env git_cwd w) as [[cwd|m] w1] eqn:Ecwd.
      + eexists _, w1, [_]. split; [reflexivity|]. split; [done|]. split.
        * intros dir -> Hdir. split; [done|]. right. split; [|done].
          destruct repoPath as [[|c p]|]; try done; [by right | by left].
        * intros (p & -> & Hne). congruence.
      + eexists _, w1, [_]. split; [reflexivity|]. split; [done|]. split; [done|].
        intros (p & -> & Hne). congruence. }
  destruct Hpath as (arp & w1 & events0 & -> & Hc0 & Hlocate & Harp).
  destruct (createCommits_in_run commitCount arp w1) as [Hpost Hrel].
  destruct (run env (createCommits_in LocalTZA commitCount date arp) w1)
    as [[r w2] events].
  destruct Hpost as (Hall & Hlen & Hok). cbn [fst snd] in Hall, Hlen, Hok, Hrel.
  destruct r as [res|m]; cbn [fst snd run ret];
    rewrite ?app_nil_r, commits_app, Hc0, !app_nil_l.
  - split; [done|]. split; [done|]. split.
    + intros Hs. destruct (Hok res eq_refl Hs)
        as (noon & dir & content & before & logs & Hnoon & -> & Hdir & Hread & Hn & -> & Hres).
      exists noon, dir, content, events0, before, logs.
      split; [done|]. split; [by apply Hlocate|]. done.
    + intros Henv Hnoon Hp. destruct (Hrel Henv Hnoon) as (res' & [= <-] & Hs); [|done].
      by rewrite (Harp Hp).
  - split; [done|]. split; [done|]. split; [done|].
    intros Henv Hnoon Hp. destruct (Hrel Henv Hnoon) as (res' & Hbad & _); [|discriminate].
    by rewrite (Harp Hp).
Qed.

(** The commits of a successful run. *)
Lemma createCommits_commits (commitCount : nat) (repoPath : option string) (w : W) :
  let out := run env (createCommits LocalTZA commitCount date repoPath) w in
  cr_success out.1.1 = true →
  ∃ noon, noon_of LocalTZA date = Some noon
          ∧ commits out.2 = expected_commit date noon <$> seqZ 1 (Z.of_nat commitCount).
Proof.
  cbv zeta. intros Hs.
  destruct (createCommits_run commitCount repoPath w) as (_ & _ & Hok & _).
  destruct (Hok Hs)
    as (noon & dir & content & locate & before & logs & Hnoon & Hloc & Hread & Hn & -> & _).
  exists noon. split; [done|].
  rewrite !commits_app, commits_rounds, Hn.
  replace (commits locate) with (@nil (string * string * result unit)).
  2:{ destruct Hloc as [_ [[_ ->]|[_ ->]]]; reflexivity. }
  replace (commits before) with (@nil (string * string * result unit)).
  2:{ destruct Hread as [[_ ->]| ->]; reflexivity. }
  reflexivity.
Qed.

End CommitsRun.


(** An answer of the right type for every call: nothing exists, nothing fails. *)
Definition default_answer (c : GitCall) : GitResp c :=
  match c with
  | git_branchLocal | git_branch_r | git_getRemotes => []
  | git_revparse_HEAD | fs_readFileSync _ => ""
  | git_cwd => None
  | git_log _ => None
  | fs_existsSync _ => false
  | _ => tt
  end.

(** A stateless environment in which every call succeeds with [default_answer]. *)
Definition quiet_env : GitEnv unit := fun c w => (Ok (default_answer c), w).


(** The zone of UTC, for examples. *)
Definition zone_UTC : Z → bool → Z := fixed_zone 0.


(** The calls of that run: the file does not exist, and two rounds follow. *)
Example createCommits_trace :
  (run quiet_env
     (createCommits zone_UTC 2 (formatDate (newDate 2024 0 2)) (Some "/repo")) tt).2
  = [ mkEvent (fs_existsSync "/repo/commits.txt") (Ok false) ]
    ++ commit_rounds "2024-01-02" "2024-01-02T12:00:00.000Z" "/repo/commits.txt" "" 1
         [None; None].
Proof. vm_compute. reflexivity. Qed.

Example createCommits_example :
  commits (trace_of quiet_env
             (createCommits zone_UTC 2 (formatDate (newDate 2024 0 2)) (Some "/repo")) tt)
  = [ ("Auto commit 1 for 2024-01-02", "2024-01-02T12:00:00.000Z", Ok tt);
      ("Auto commit 2 for 2024-01-02", "2024-01-02T12:00:00.000Z", Ok tt) ].
Proof. vm_compute. reflexivity. Qed.


(** *** Deletion before checkout, and one forced retry *)

Lemma createBranch_deletes_first {W} (env : GitEnv W) (w w1 w2 w3 : W)
  (branchName remote : string) (locals remotes : list string) :
  env git_branchLocal w = (Ok locals, w1) →
  env (git_fetch remote) w1 = (Ok tt, w2) →
  env git_branch_r w2 = (Ok remotes, w3) →
  remote +:+ "/" +:+ branchName ∈ remotes →
  ∃ answer rest,
    (run env (createBranch branchName remote false) w).2
    = [ mkEvent git_branchLocal (Ok locals); mkEvent (git_fetch remote) (Ok tt);
        mkEvent git_branch_r (Ok remotes);
        mkEvent (git_push remote (":" +:+ branchName) false) answer ] ++ rest
    ∧ pushes rest = [].
Proof.
  intros E1 E2 E3 Hin.
  unfold createBranch, branchExistsOnRemote, deleteRemoteBranch, try_catch, git, ret.
  simpl. rewrite E1. simpl. rewrite E2. simpl. rewrite E3. simpl.
  rewrite bool_decide_eq_true_2 by done. simpl.
  destruct (env (git_push remote (":" +:+ branchName) false) w3) as [answer w4].
  exists answer.
  destruct answer as [[]|m]; simpl;
    destruct (bool_decide (branchName ∈ locals)); simpl;
    match goal with |- context [env ?c w4] => destruct (env c w4) as [[[]|m1] w5] end;
    simpl; try (eexists; split; [reflexivity | reflexivity]);
    destruct (env git_revparse_HEAD w5) as [[cur|m2] w6]; simpl;
    try (eexists; split; [reflexivity | reflexivity]);
    case_bool_decide; simpl; eexists; split; reflexivity.
Qed.

(** The outcome and the calls of the forced attempt of [pushBranch]: the
    remotes are listed again, and the push is sent with [--force] when the
    remote is among them; whatever ends the attempt is the result. *)
Definition forced_attempt (branchName remote : string) (out : Outcome)
  (trace : list GitEvent) : Prop :=
  (∃ m, trace = [mkEvent git_getRemotes (Throw m)]
        ∧ out = mkOutcome false ("Error pushing branch: " +:+ m))
  ∨ (∃ remotes, (remote ∉ remotes)
        ∧ trace = [mkEvent git_getRemotes (Ok remotes)]
        ∧ out = mkOutcome false
                  ("Remote '" +:+ remote +:+ "' does not exist. Please add it first."))
  ∨ (∃ remotes answer, remote ∈ remotes
        ∧ trace = [mkEvent git_getRemotes (Ok remotes);
                   mkEvent (git_push remote branchName true) answer]
        ∧ out = push_outcome branchName remote answer).

(** The outcome and the calls of [pushBranch] without force. *)
Definition unforced_attempt (branchName remote : string) (out : Outcome)
  (trace : list GitEvent) : Prop :=
  (∃ m, non_fast_forward m = false
        ∧ trace = [mkEvent git_getRemotes (Throw m)]
        ∧ out = mkOutcome false ("Error pushing branch: " +:+ m))
  ∨ (∃ remotes, (remote ∉ remotes)
        ∧ trace = [mkEvent git_getRemotes (Ok remotes)]
        ∧ out = mkOutcome false
                  ("Remote '" +:+ remote +:+ "' does not exist. Please add it first."))
  ∨ (∃ remotes, remote ∈ remotes
        ∧ trace = [mkEvent git_getRemotes (Ok remotes);
                   mkEvent (git_push remote branchName false) (Ok tt)]
        ∧ out = mkOutcome true ("Branch '" +:+ branchName +:+ "' pushed to " +:+ remote))
  ∨ (∃ remotes m, remote ∈ remotes ∧ non_fast_forward m = false
        ∧ trace = [mkEvent git_getRemotes (Ok remotes);
                   mkEvent (git_push remote branchName false) (Throw m)]
        ∧ out = mkOutcome false ("Error pushing branch: " +:+ m))
  ∨ (∃ m first forced, non_fast_forward m = true
        ∧ (first = [mkEvent git_getRemotes (Throw m)]
           ∨ ∃ remotes, remote ∈ remotes
               ∧ first = [mkEvent git_getRemotes (Ok remotes);
                          mkEvent (git_push remote branchName false) (Throw m)])
        ∧ trace = first ++ forced
        ∧ forced_attempt branchName remote out forced).

Lemma pushBranch_forced_attempt {W} (env : GitEnv W) (w : W) (branchName remote : string) :
  forced_attempt branchName remote
    (run env (pushBranch branchName remote true) w).1.1
    (run env (pushBranch branchName remote true) w).2.
Proof.
  rewrite pushBranch_equation_1. unfold pushBranch_try, try_catch, git, ret. simpl.
  destruct (env git_getRemotes w) as [[remotes|m] w1]; simpl.
  - case_bool_decide as Hin; simpl.
    + right. right.
      destruct (env (git_push remote branchName true) w1) as [[[]|m] w2]; simpl;
        eexists remotes, _; (split; [exact Hin|]); split; reflexivity.
    + right. left. exists remotes. done.
  - left. by exists m.
Qed.

Lemma pushBranch_unforced_attempt {W} (env : GitEnv W) (w : W)
  (branchName remote : string) :
  unforced_attempt branchName remote
    (run env (pushBranch branchName remote false) w).1.1
    (run env (pushBranch branchName remote false) w).2.
Proof.
  rewrite pushBranch_equation_2. unfold pushBranch_try, try_catch, git, ret. simpl.
  destruct (env git_getRemotes w) as [[remotes|m] w1]; simpl.
  - case_bool_decide as Hin; simpl.
    2:{ right. left. exists remotes. done. }
    destruct (env (git_push remote branchName false) w1) as [[[]|m] w2]; simpl.
    { right. right. left. exists remotes. done. }
    destruct (non_fast_forward m) eqn:Hnff; simpl.
    2:{ right. right. right. left. exists remotes, m. done. }
    pose proof (pushBranch_forced_attempt env w2 branchName remote) as Hforced.
    destruct (run env (pushBranch branchName remote true) w2) as [[out w3] trace].
    do 4 right. exists m, [mkEvent git_getRemotes (Ok remotes);
                           mkEvent (git_push remote branchName false) (Throw m)], trace.
    split; [done|]. split; [right; by exists remotes|]. done.
  - destruct (non_fast_forward m) eqn:Hnff; simpl.
    2:{ left. by exists m. }
    pose proof (pushBranch_forced_attempt env w1 branchName remote) as Hforced.
    destruct (run env (pushBranch branchName remote true) w1) as [[out w3] trace].
    do 4 right. exists m, [mkEvent git_getRemotes (Throw m)], trace.
    split; [done|]. split; [by left|]. done.
Qed.

(** C3, as the code has it.  When the branch exists remotely, [createBranch]
    issues the deletion of the remote branch before it checks anything out and
    pushes nothing else.  In every environment a run of [pushBranch] is of
    exactly one of these kinds.  The listing of the remotes fails with a
    message that is not a non-fast-forward one, or the remote is not listed:
    nothing is pushed and the failure is the result.  The unforced push
    succeeds: it is the only push and the result is success.  The unforced
    push fails with a message that is not a non-fast-forward one: it is the
    only push and its failure is the result.  The unforced attempt fails with
    a non-fast-forward message: a forced attempt follows, once: the remotes
    are listed again, the push is sent with [--force] when the remote is
    still listed, and whatever ends the forced attempt is the result, the
    failure of the forced push included. *)
Theorem push_retries_once_after_deletion {W} (env : GitEnv W) (w w1 w2 w3 : W)
  (branchName remote : string) (locals remotes : list string) :
  env git_branchLocal w = (Ok locals, w1) →
  env (git_fetch remote) w1 = (Ok tt, w2) →
  env git_branch_r w2 = (Ok remotes, w3) →
  remote +:+ "/" +:+ branchName ∈ remotes →
  (∃ answer rest,
     (run env (createBranch branchName remote false) w).2
     = [ mkEvent git_branchLocal (Ok locals); mkEvent (git_fetch remote) (Ok tt);
         mkEvent git_branch_r (Ok remotes);
         mkEvent (git_push remote (":" +:+ branchName) false) answer ] ++ rest
     ∧ pushes rest = [])
  ∧ ∀ w',
      unforced_attempt branchName remote
        (run env (pushBranch branchName remote false) w').1.1
        (run env (pushBranch branchName remote false) w').2.
Proof.
  intros E1 E2 E3 Hin. split.
  - by eapply createBranch_deletes_first.
  - intros w'. apply pushBranch_unforced_attempt.
Qed.

(** A remote on which the branch of 2024-01-02 already exists and which
    refuses both deletions and non-fast-forward updates, forced or not. *)
Definition rejecting_remote : GitEnv unit := fun c w =>
  match c return result (GitResp c) * unit with
  | git_branch_r => (Ok ["origin/auto-2024-01-02"], w)
  | git_getRemotes => (Ok ["origin"], w)
  | git_revparse_HEAD => (Ok "auto-2024-01-02", w)
  | git_push _ ref _ =>
      (Throw (if startsWith ref ":"
              then "! [remote rejected] auto-2024-01-02 (deletion prohibited)"
              else "! [remote rejected] auto-2024-01-02 -> auto-2024-01-02 (non-fast-forward)"),
       w)
  | c => (Ok (default_answer c), w)
  end.

Lemma push_retries_once_after_deletion_witness :
  (∃ answer rest,
     (run rejecting_remote (createBranch "auto-2024-01-02" "origin" false) tt).2
     = [ mkEvent git_branchLocal (Ok []); mkEvent (git_fetch "origin") (Ok tt);
         mkEvent git_branch_r (Ok ["origin/auto-2024-01-02"]);
         mkEvent (git_push "origin" ":auto-2024-01-02" false) answer ] ++ rest
     ∧ pushes rest = [])
  ∧ unforced_attempt "auto-2024-01-02" "origin"
      (run rejecting_remote (pushBranch "auto-2024-01-02" "origin" false) tt).1.1
      (run rejecting_remote (pushBranch "auto-2024-01-02" "origin" false) tt).2.
Proof.
  assert (Hin : "origin" +:+ "/" +:+ "auto-2024-01-02" ∈ ["origin/auto-2024-01-02"])
    by (apply list_elem_of_singleton; reflexivity).
  destruct (push_retries_once_after_deletion rejecting_remote tt tt tt tt
              "auto-2024-01-02" "origin" [] ["origin/auto-2024-01-02"]
              eq_refl eq_refl eq_refl Hin) as [Hdelete Hpush].
  split; [exact Hdelete | exact (Hpush tt)].
Defined.

(** On that remote the unforced push is rejected as non-fast-forward, the
    forced push is sent once, and its rejection is the result. *)
Example pushBranch_example :
  run rejecting_remote (pushBranch "auto-2024-01-02" "origin" false) tt
  = (mkOutcome false
       "Error pushing branch: ! [remote rejected] auto-2024-01-02 -> auto-2024-01-02 (non-fast-forward)",
     tt,
     [ mkEvent git_getRemotes (Ok ["origin"]);
       mkEvent (git_push "origin" "auto-2024-01-02" false)
         (Throw "! [remote rejected] auto-2024-01-02 -> auto-2024-01-02 (non-fast-forward)");
       mkEvent git_getRemotes (Ok ["origin"]);
       mkEvent (git_push "origin" "auto-2024-01-02" true)
         (Throw "! [remote rejected] auto-2024-01-02 -> auto-2024-01-02 (non-fast-forward)") ]).
Proof. rewrite pushBranch_equation_2. vm_compute. reflexivity. Qed.

End GitOperations.

(** ** prOperations.js: the HTTP transport *)

Module Http.
Import GitOperations.

(** A parsed JSON document, or [undefined]. *)
Inductive Json : Type :=
| JUndefined
| JNull
| JBool (b : bool)
| JNum (n : Z)
| JStr (s : string)
| JArr (items : list Json)
| JObj (fields : list (string * Json)).

(** Property read [v.field]: a TypeError on [undefined] and [null], the field
    on an object when present, [undefined] otherwise. *)
Definition js_get (v : Json) (field : string) : result Json :=
  match v with
  | JUndefined =>
      Throw ("Cannot read properties of undefined (reading '" +:+ field +:+ "')")
  | JNull => Throw ("Cannot read properties of null (reading '" +:+ field +:+ "')")
  | JObj fields =>
      Ok (default JUndefined
            ((fun found => found.2.2) <$> list_find (fun kv => kv.1 = field) fields))
  | _ => Ok JUndefined
  end.

(** [a === b] against a string literal. *)
Definition is_string (v : Json) (s : string) : bool :=
  match v with JStr s' => bool_decide (s' = s) | _ => false end.

(** ToBoolean *)
Definition json_truthy (v : Json) : bool :=
  match v with
  | JUndefined | JNull | JBool false | JNum 0 | JStr "" => false
  | _ => true
  end.

(** The [options] object handed to [https.request]. *)
Record Options : Type := mkOptions {
  protocol : string;
  hostname : string;
  port : string;
  path : string;
  method : string;
  headers : list (string * string)
}.

(** What the response callback reads: [res.statusCode], [res.headers.location]
    and the concatenated body. *)
Record RawResponse : Type := mkRaw {
  statusCode : Z;
  location : option string;
  body : string
}.

(** Everything the process asks of the outside world. *)
Inductive Call : Type :=
| Git (c : GitCall)
| Net (options : Options) (data : option Json) (timeoutMs : Z)
| Sleep (ms : Z).

Definition Resp (c : Call) : Type :=
  match c with
  | Git c => GitResp c
  | Net _ _ _ => RawResponse
  | Sleep _ => unit
  end.

Definition IO (R : Type) : Type := Prog Call Resp R.
Definition IOEvent : Type := Event Call Resp.
Definition IOEnv (W : Type) : Type := Env Call Resp W.

Definition io_ret {R} (r : R) : IO R := Ret r.
Definition io (c : Call) : IO (result (Resp c)) := call c.

(** A program that only talks to git, run as part of a larger one. *)
Fixpoint lift_git {R} (p : GitProg R) : IO R :=
  match p with
  | Ret r => Ret r
  | Do c k => Do (Git c) (fun answer => lift_git (k answer))
  end.

(** The value a resolved [makeRequest] promise carries. *)
Record Response : Type := mkResponse {
  status : Z;
  data : Json;
  response_location : option string
}.

(** The parts of a WHATWG [URL] that [makeRequest] reads. *)
Record URL : Type := mkURL {
  url_protocol : string;
  url_hostname : string;
  url_port : string;
  url_pathname : string;
  url_search : string;
  url_href : string
}.

Section Transport.

(** [new URL(input)] and [new URL(input, base)], which throw on invalid input,
    and [JSON.parse], whose failure is [None]: library functions, parameters. *)
Variable new_URL : string → option string → result URL.
Variable JSON_parse : string → option Json.

(** [body ? JSON.parse(body) : {}], falling back to the raw body. *)
Definition parse_body (body : string) : Json :=
  if nonempty body
  then match JSON_parse body with Some parsed => parsed | None => JStr body end
  else JObj [].

Definition is_redirect (res : RawResponse) : bool :=
  bool_decide (statusCode res ∈ [301; 302; 307; 308])
  && match location res with Some l => nonempty l | None => false end.

(** The URL a redirect leads to (the synchronous part of the [try] block). *)
Definition redirect_target (options : Options) (location : string) : result URL :=
  if startsWith location "http://" || startsWith location "https://"
  then new_URL location None
  else
    let baseUrl :=
      (if nonempty (protocol options) then protocol options else "https:")
      +:+ "//" +:+ hostname options +:+ path options in
    new_URL location (Some baseUrl).

Definition redirectOptions (options : Options) (redirectUrl : URL) : Options :=
  mkOptions (url_protocol redirectUrl) (url_hostname redirectUrl)
    (if nonempty (url_port redirectUrl) then url_port redirectUrl
     else if bool_decide (url_protocol redirectUrl = "https:") then "443" else "80")
    (url_pathname redirectUrl +:+ url_search redirectUrl)
    (method options) (headers options).

(** [makeRequest(options, data, timeoutMs, redirectCount)]: the promise it
    returns, resolved ([Ok]) or rejected ([Throw]).  A socket error and the
    timeout are the [Throw] answers of the [Net] call. *)
Equations? makeRequest (options : Options) (data : option Json) (timeoutMs : Z)
  (redirectCount : Z) : IO (result Response)
  by wf (Z.to_nat (5 - redirectCount)) lt :=
makeRequest options data timeoutMs redirectCount
  with decide (redirectCount >= 5) => {
  | left _ := io_ret (Throw "Too many redirects (max 5)");
  | right _ :=
      res <-! io (Net options data timeoutMs) ;;
      if is_redirect res then
        match redirect_target options (default "" (location res)) with
        | Ok redirectUrl =>
            makeRequest (redirectOptions options redirectUrl) data timeoutMs
              (redirectCount + 1)
        | Throw m =>
            io_ret (Throw ("Invalid redirect URL: " +:+ default "" (location res)
                           +:+ " - " +:+ m))
        end
      else
        io_ret (Ok (mkResponse (statusCode res) (parse_body (body res)) (location res))) }.
Proof. lia. Qed.

End Transport.

(** *** Redirects are bounded *)

Section Redirects.
Context (new_URL : string → option string → result URL) (JSON_parse : string → option Json).
Context {W : Type} (env : IOEnv W).

(** The HTTP requests of a trace. *)
Definition request_of (ev : IOEvent) : option (Options * result RawResponse) :=
  match ev with
  | mkEvent c answer =>
      match c return result (Resp c) → option (Options * result RawResponse) with
      | Net options _ _ => fun answer => Some (options, answer)
      | _ => fun _ => None
      end answer
  end.

Definition requests (trace : list IOEvent) : list (Options * result RawResponse) :=
  omap request_of trace.

(** The responses of a trace that are redirects. *)
Definition answered_by_redirect (r : Options * result RawResponse) : bool :=
  match r.2 with Ok res => is_redirect res | Throw _ => false end.

Definition redirects (trace : list IOEvent) : list (Options * result RawResponse) :=
  filter (fun r => answered_by_redirect r = true) (requests trace).

(** Every request is answered by a redirect to a URL that parses: a chain of
    redirects without end, for instance a cycle. *)
Definition redirects_forever : Prop :=
  ∀ options data timeoutMs w,
    ∃ res redirectUrl,
      (env (Net options data timeoutMs) w).1 = Ok res
      ∧ is_redirect res = true
      ∧ redirect_target new_URL options (default "" (location res)) = Ok redirectUrl.

Lemma makeRequest_at_limit options data timeoutMs redirectCount (w : W) :
  5 <= redirectCount →
  run env (makeRequest new_URL JSON_parse options data timeoutMs redirectCount) w
  = (Throw "Too many redirects (max 5)", w, []).
Proof.
  intros Hc. rewrite makeRequest_equation_1.
  destruct (decide (redirectCount >= 5)) as [Hge|Hlt]; [reflexivity | lia].
Qed.

Lemma makeRequest_bounded (n : nat) :
  ∀ options data timeoutMs redirectCount (w : W),
    (5 - redirectCount <= Z.of_nat n) →
    let out :=
      run env (makeRequest new_URL JSON_parse options data timeoutMs redirectCount) w in
    length out.2 = length (requests out.2)
    ∧ (Z.of_nat (length (requests out.2)) <= Z.max 0 (5 - redirectCount))
    ∧ (redirects_forever → 0 <= redirectCount →
       out.1.1 = Throw "Too many redirects (max 5)"
       ∧ Z.of_nat (length (redirects out.2)) = Z.max 0 (5 - redirectCount)).
Proof.
  induction n as [|n IH]; intros options data timeoutMs c w Hn; cbv zeta.
  - rewrite makeRequest_at_limit by lia. simpl. split; [done|]. split; [lia|].
    intros _ _. split; [done|]. unfold redirects. simpl. lia.
  - destruct (decide (5 <= c)) as [Hge|Hlt].
    { rewrite makeRequest_at_limit by lia. simpl. split; [done|]. split; [lia|].
      intros _ _. split; [done|]. unfold redirects. simpl. lia. }
    rewrite makeRequest_equation_1.
    destruct (decide (c >= 5)) as [Hbad|Hsmall]; [lia|].
    unfold makeRequest_unfold_clause_1, io. rewrite run_tbind_call.
    destruct (env (Net options data timeoutMs) w) as [[res|m] w1] eqn:E; cbn [fst snd].
    2:{ split; [done|]. split; [simpl; lia|]. intros Hloop _.
        destruct (Hloop options data timeoutMs w) as (res & u & Hres & _).
        rewrite E in Hres. discriminate. }
    destruct (is_redirect res) eqn:Hred.
    + destruct (redirect_target new_URL options (default "" (location res)))
        as [redirectUrl|m] eqn:Hurl.
      * specialize (IH (redirectOptions options redirectUrl) data timeoutMs (c + 1) w1).
        cbv zeta in IH.
        destruct (run env (makeRequest new_URL JSON_parse
                             (redirectOptions options redirectUrl) data timeoutMs (c + 1)) w1)
          as [[r w2] events].
        destruct IH as (Hall & Hlen & Hloop); [lia|]. cbn [fst snd] in *.
        split; [simpl; by rewrite Hall|]. split; [simpl in *; lia|].
        intros Hforever Hc. destruct (Hloop Hforever) as [Hr Hcount]; [lia|].
        split; [done|]. unfold redirects in *. simpl. rewrite filter_cons_True by done.
        simpl. lia.
      * simpl. split; [done|]. split; [lia|]. intros Hloop _.
        destruct (Hloop options data timeoutMs w) as (res' & u & Hres & _ & Hu).
        rewrite E in Hres. injection Hres as <-. rewrite Hurl in Hu. discriminate.
    + simpl. split; [done|]. split; [lia|]. intros Hloop _.
      destruct (Hloop options data timeoutMs w) as (res' & u & Hres & Hr & _).
      rewrite E in Hres. injection Hres as <-. congruence.
Qed.

Lemma makeRequest_keeps_method (n : nat) :
  ∀ options data timeoutMs redirectCount (w : W),
    (5 - redirectCount <= Z.of_nat n) →
    Forall (fun r => method r.1 = method options)
      (requests (run env (makeRequest new_URL JSON_parse options data timeoutMs
                            redirectCount) w).2).
Proof.
  induction n as [|n IH]; intros options data timeoutMs c w Hn.
  - rewrite makeRequest_at_limit by lia. constructor.
  - destruct (decide (5 <= c)) as [Hge|Hlt].
    { rewrite makeRequest_at_limit by lia. constructor. }
    rewrite makeRequest_equation_1.
    destruct (decide (c >= 5)) as [Hbad|Hsmall]; [lia|].
    unfold makeRequest_unfold_clause_1, io. rewrite run_tbind_call.
    destruct (env (Net options data timeoutMs) w) as [[res|m] w1] eqn:E; cbn [fst snd].
    2:{ by repeat constructor. }
    destruct (is_redirect res).
    + destruct (redirect_target new_URL options (default "" (location res)))
        as [redirectUrl|m].
      * specialize (IH (redirectOptions options redirectUrl) data timeoutMs (c + 1) w1).
        destruct (run env (makeRequest new_URL JSON_parse
                             (redirectOptions options redirectUrl) data timeoutMs (c + 1)) w1)
          as [[r w2] events].
        cbn [fst snd] in *. unfold requests. simpl. constructor; [done|]. apply IH. lia.
      * by repeat constructor.
    + by repeat constructor.
Qed.

(** C10.  In every environment, a request made through [makeRequest] (redirect
    counter 0) issues at most 5 HTTP requests and therefore follows at most 5
    redirects; entered with the counter at 5 it is rejected with 'Too many
    redirects (max 5)' without issuing a request; and against a server that
    redirects forever it follows exactly 5 redirects and is then rejected with
    that error.  [makeRequest] is a total function: it always terminates. *)
Theorem makeRequest_follows_at_most_5_redirects options data timeoutMs (w : W) :
  let out := run env (makeRequest new_URL JSON_parse options data timeoutMs 0) w in
  (length (requests out.2) ≤ 5)%nat
  ∧ (length (redirects out.2) ≤ 5)%nat
  ∧ (∀ options' w', run env (makeRequest new_URL JSON_parse options' data timeoutMs 5) w'
                    = (Throw "Too many redirects (max 5)", w', []))
  ∧ (redirects_forever →
     out.1.1 = Throw "Too many redirects (max 5)" ∧ length (redirects out.2) = 5%nat).
Proof.
  cbv zeta.
  destruct (makeRequest_bounded 5 options data timeoutMs 0 w) as (Hall & Hlen & Hloop);
    [lia|].
  split; [lia|]. split.
  - unfold redirects. etrans; [apply length_filter|]. lia.
  - split; [intros; by apply makeRequest_at_limit|].
    intros Hforever. destruct (Hloop Hforever) as [Hr Hcount]; [lia|]. split; [done|]. lia.
Qed.

End Redirects.

(** A server that answers every request with a redirect back to the same
    place, and a URL parser that accepts everything. *)
Definition cyclic_server : IOEnv unit := fun c w =>
  match c return result (Resp c) * unit with
  | Git c => (Ok (default_answer c), w)
  | Net options _ _ => (Ok (mkRaw 302 (Some "https://api.github.com/loop") ""), w)
  | Sleep _ => (Ok tt, w)
  end.

Definition example_new_URL (input : string) (base : option string) : result URL :=
  Ok (mkURL "https:" "api.github.com" "" "/loop" "" input).

Example makeRequest_cycle :
  let out :=
    run cyclic_server
      (makeRequest example_new_URL (fun _ => None)
         (mkOptions "https:" "api.github.com" "443" "/loop" "GET" []) None 30000 0) tt in
  out.1.1 = Throw "Too many redirects (max 5)" ∧ length out.2 = 5%nat.
Proof. vm_compute. split; reflexivity. Qed.

End Http.

(** ** prOperations.js: finding, creating and merging pull requests *)

Module PrOperations.
Import GitOperations Http.

(** [String(v)], as a template literal renders a JSON value. *)
Fixpoint to_string (v : Json) : string :=
  match v with
  | JUndefined => "undefined"
  | JNull => "null"
  | JBool true => "true"
  | JBool false => "false"
  | JNum n => js_String n
  | JStr s => s
  | JArr items =>
      String.concat ","
        (map (fun item => match item with
                          | JUndefined | JNull => ""
                          | _ => to_string item
                          end) items)
  | JObj _ => "[object Object]"
  end.

(** [a || b] on JSON values. *)
Definition json_or (a b : Json) : Json := if json_truthy a then a else b.

(** [{ host, owner, repo }] *)
Record RepoInfo : Type := mkRepoInfo { host : string; owner : string; repo : string }.

(** The value returned by [findPRForBranch]. *)
Record FindResult : Type := mkFindResult {
  find_success : bool;
  found : bool;
  found_prNumber : Json;
  found_prUrl : Json;
  found_merged : Json;
  find_message : option string
}.

(** The value returned by [createGitHubPR]. *)
Record CreateResult : Type := mkCreateResult {
  create_success : bool;
  created_prNumber : Json;
  created_prUrl : Json;
  create_message : string
}.

(** The value returned by [createAndMergePR]. *)
Record PRResult : Type := mkPRResult {
  pr_success : bool;
  prCreated : option bool;
  prNumber : Json;
  prUrl : Json;
  pr_message : string;
  merged : option bool;
  mergeMessage : option string
}.

(** The [options] argument of [createAndMergePR], before defaults. *)
Record PROptions : Type := mkPROptions {
  opt_baseBranch : option string;
  opt_platform : option string;
  opt_autoMerge : bool;
  opt_mergeMethod : option string;
  opt_title : option string;
  opt_body : option string;
  opt_remote : option string;
  opt_repoPath : option string
}.

Definition authHeader (token : string) : string :=
  if startsWith token "ghp_" || startsWith token "github_pat_"
  then "Bearer " +:+ token
  else "token " +:+ token.

Definition is_2xx (response : Response) : bool :=
  (200 <=? status response) && (status response <? 300).

Section Controller.

Variable new_URL : string → option string → result URL.
Variable JSON_parse : string → option Json.
Variable JSON_stringify : Json → string.
Variable encodeURIComponent : string → string.

(** [parseRepoUrl] and [detectPlatform] are pure functions of the repository
    URL; the controller only uses their results. *)
Variable parseRepoUrl : string → option RepoInfo.
Variable detectPlatform : string → option string.

(** [mergeGitHubPR(repoInfo, prNumber, token, mergeMethod, 5, {...})], the
    polling and merging stage that follows creation. *)
Variable mergeGitHubPR :
  RepoInfo → Json → string → string → string → string → string → IO (result Outcome).

Definition github_options (method path : string) (token : string) (json_body : bool)
  : Options :=
  mkOptions "https:" "api.github.com" "443" path method
    ([("Authorization", authHeader token); ("User-Agent", "Auto-Git")]
     ++ (if json_body then [("Content-Type", "application/json")] else [])
     ++ [("Accept", "application/vnd.github.v3+json")]).

(** The error text extracted from a failed API response. *)
Definition errorMessage_of (data : Json) : result string :=
  if json_truthy data then
    m <-? js_get data "message" ;;
    if json_truthy m then Ok (to_string m) else
    e <-? js_get data "error" ;;
    if json_truthy e then Ok (to_string e) else
    es <-? js_get data "errors" ;;
    match es with
    | JArr errors =>
        parts <-? foldr (fun err acc =>
                           rest <-? acc ;;
                           em <-? js_get err "message" ;;
                           Ok (to_string (json_or em err) :: rest))
                    (Ok []) errors ;;
        Ok (String.concat ", " parts)
    | _ => match data with
           | JStr s => Ok s
           | _ => Ok (JSON_stringify data)
           end
    end
  else Ok "Unknown error".

(** [pr.head.ref === branchName && pr.base.ref === baseBranch && pr.state === 'open'] *)
Definition pr_matches (branchName baseBranch : string) (pr : Json) : result bool :=
  head <-? js_get pr "head" ;;
  headRef <-? js_get head "ref" ;;
  if negb (is_string headRef branchName) then Ok false else
  base <-? js_get pr "base" ;;
  baseRef <-? js_get base "ref" ;;
  if negb (is_string baseRef baseBranch) then Ok false else
  state <-? js_get pr "state" ;;
  Ok (is_string state "open").

(** [prs.filter(pr => ...)], where the callback may throw. *)
Fixpoint filter_matching (branchName baseBranch : string) (prs : list Json)
  : result (list Json) :=
  match prs with
  | [] => Ok []
  | pr :: prs =>
      keep <-? pr_matches branchName baseBranch pr ;;
      rest <-? filter_matching branchName baseBranch prs ;;
      Ok (if keep : bool then pr :: rest else rest)
  end.

Definition find_options (repoInfo : RepoInfo) (branchName token : string) : Options :=
  github_options "GET"
    ("/repos/" +:+ owner repoInfo +:+ "/" +:+ repo repoInfo +:+ "/pulls?head="
     +:+ encodeURIComponent (owner repoInfo +:+ ":" +:+ branchName) +:+ "&state=open")
    token false.

(** What [findPRForBranch] makes of the response to its query. *)
Definition find_in_response (branchName baseBranch : string) (response : Response)
  : result FindResult :=
  if is_2xx response then
    let prs := match data response with JArr items => items | _ => [] end in
    matchingPRs <-? filter_matching branchName baseBranch prs ;;
    match matchingPRs with
    | pr :: _ =>
        number <-? js_get pr "number" ;;
        html_url <-? js_get pr "html_url" ;;
        merged_ <-? js_get pr "merged" ;;
        Ok (mkFindResult true true number html_url merged_ None)
    | [] => Ok (mkFindResult true false JUndefined JUndefined JUndefined None)
    end
  else
    m <-? js_get (data response) "message" ;;
    Ok (mkFindResult false false JUndefined JUndefined JUndefined
          (Some ("Failed to search for existing PR: "
                 +:+ to_string (json_or m (JStr "Unknown error"))))).

Definition findPRForBranch (repoInfo : RepoInfo) (branchName baseBranch token : string)
  : IO FindResult :=
  try_catch
    (response <-! makeRequest new_URL JSON_parse (find_options repoInfo branchName token)
                    None 30000 0 ;;
     io_ret (find_in_response branchName baseBranch response))
    (fun m => io_ret (mkFindResult false false JUndefined JUndefined JUndefined
                        (Some ("Error searching for existing PR: " +:+ m)))).

Definition create_options (repoInfo : RepoInfo) (token : string) : Options :=
  github_options "POST"
    ("/repos/" +:+ owner repoInfo +:+ "/" +:+ repo repoInfo +:+ "/pulls") token true.

Definition prData (branchName baseBranch : string) (title body : option string) : Json :=
  JObj [ ("title", JStr (match title with
                         | Some t => if nonempty t then t else "Auto PR for " +:+ branchName
                         | None => "Auto PR for " +:+ branchName
                         end));
         ("body", JStr (match body with
                        | Some b => if nonempty b then b
                                    else "Automated pull request for branch " +:+ branchName
                        | None => "Automated pull request for branch " +:+ branchName
                        end));
         ("head", JStr branchName);
         ("base", JStr (if nonempty baseBranch then baseBranch else "main")) ].

Definition createGitHubPR (repoInfo : RepoInfo) (branchName baseBranch token : string)
  (title body : option string) : IO CreateResult :=
  try_catch
    (response <-! makeRequest new_URL JSON_parse (create_options repoInfo token)
                    (Some (prData branchName baseBranch title body)) 30000 0 ;;
     io_ret
       (if is_2xx response then
          number <-? js_get (data response) "number" ;;
          html_url <-? js_get (data response) "html_url" ;;
          Ok (mkCreateResult true number html_url
                ("PR #" +:+ to_string number +:+ " created successfully"))
        else
          errorMessage <-? errorMessage_of (data response) ;;
          Ok (mkCreateResult false JUndefined JUndefined
                ("Failed to create PR (HTTP " +:+ js_String (status response) +:+ "): "
                 +:+ errorMessage))))
    (fun m => io_ret (mkCreateResult false JUndefined JUndefined
                        ("Error creating GitHub PR: " +:+ m))).

(** Lines 860-881: look for an open request for the pair, create one only when
    the search did not find any.  Returns [prResult] and [existingPR]. *)
Definition find_or_create (repoInfo : RepoInfo) (branchName baseBranch token : string)
  (title body : option string) : IO (CreateResult * option FindResult) :=
  existingPRResult <- findPRForBranch repoInfo branchName baseBranch token ;;
  if find_success existingPRResult && found existingPRResult
  then io_ret (mkCreateResult true (found_prNumber existingPRResult)
                 (found_prUrl existingPRResult)
                 ("Using existing PR #" +:+ to_string (found_prNumber existingPRResult)),
               Some existingPRResult)
  else prResult <- createGitHubPR repoInfo branchName baseBranch token title body ;;
       io_ret (prResult, None).

Definition failed (m : string) : PRResult :=
  mkPRResult false None JUndefined JUndefined m None None.

(** [platform || detectPlatform(repoUrl)] *)
Definition detected_platform (repoUrl : string) (options : PROptions) : option string :=
  match opt_platform options with
  | Some p => if nonempty p then Some p else detectPlatform repoUrl
  | None => detectPlatform repoUrl
  end.

Definition createAndMergePR (repoUrl branchName token : string) (options : PROptions)
  : IO (result PRResult) :=
  let baseBranch := default "main" (opt_baseBranch options) in
  let mergeMethod := default "merge" (opt_mergeMethod options) in
  let remote := default "origin" (opt_remote options) in
  match detected_platform repoUrl options with
  | None =>
      io_ret (Ok (failed
        "Could not detect platform from repository URL. Please specify platform."))
  | Some detectedPlatform =>
      match parseRepoUrl repoUrl with
      | None => io_ret (Ok (failed "Could not parse repository URL"))
      | Some repoInfo =>
          if negb (bool_decide (detectedPlatform = "github"))
          then io_ret (Ok (failed ("Platform " +:+ detectedPlatform
                 +:+ " is not yet supported. Currently only GitHub is supported.")))
          else
            stage <- find_or_create repoInfo branchName baseBranch token
                       (opt_title options) (opt_body options) ;;
            let prResult := stage.1 in
            let existingPR := stage.2 in
            let existing := match existingPR with Some _ => true | None => false end in
            if negb (create_success prResult)
            then io_ret (Ok (failed (create_message prResult)))
            else
              let result :=
                mkPRResult true (Some (negb existing))
                  (created_prNumber prResult) (created_prUrl prResult)
                  (if existing
                   then "Found existing PR #" +:+ to_string (created_prNumber prResult)
                   else create_message prResult)
                  None None in
              if opt_autoMerge options then
                if match existingPR with
                   | Some existingPR => json_truthy (found_merged existingPR)
                   | None => false
                   end
                then io_ret (Ok (mkPRResult true (prCreated result) (prNumber result)
                                   (prUrl result)
                                   (pr_message result +:+ " | Already merged")
                                   (Some true) (Some "PR was already merged")))
                else
                  _ <-! io (Sleep (if existing then 2000 else 3000)) ;;
                  mergeResult <-! mergeGitHubPR repoInfo (prNumber result) token mergeMethod
                                    branchName baseBranch remote ;;
                  io_ret (Ok (mkPRResult true (prCreated result) (prNumber result)
                                (prUrl result)
                                (pr_message result +:+
                                 (if success mergeResult then " | Merged successfully"
                                  else " | Merge failed: " +:+ message mergeResult))
                                (Some (success mergeResult))
                                (Some (message mergeResult))))
              else io_ret (Ok result)
      end
  end.

(** *** An existing open request is reused *)

(** A pull request as the remote lists it. *)
Record PullRequest : Type := mkPullRequest {
  number : Z;
  html_url : string;
  head_ref : string;
  base_ref : string;
  state : string;
  is_merged : bool
}.

Definition pr_json (p : PullRequest) : Json :=
  JObj [ ("number", JNum (number p)); ("html_url", JStr (html_url p));
         ("state", JStr (state p)); ("merged", JBool (is_merged p));
         ("head", JObj [("ref", JStr (head_ref p))]);
         ("base", JObj [("ref", JStr (base_ref p))]) ].

(** An open request whose head and base are the given pair. *)
Definition open_for (branchName baseBranch : string) (p : PullRequest) : bool :=
  bool_decide (head_ref p = branchName) && bool_decide (base_ref p = baseBranch)
  && bool_decide (state p = "open").

Lemma pr_matches_json branchName baseBranch (p : PullRequest) :
  pr_matches branchName baseBranch (pr_json p) = Ok (open_for branchName baseBranch p).
Proof.
  unfold pr_matches, open_for, pr_json, js_get. simpl.
  repeat (rewrite decide_True by done || rewrite decide_False by done || simpl).
  do 3 case_bool_decide; reflexivity.
Qed.

Lemma filter_matching_json branchName baseBranch (prs : list PullRequest) :
  filter_matching branchName baseBranch (pr_json <$> prs)
  = Ok (pr_json <$> filter (fun p => open_for branchName baseBranch p = true) prs).
Proof.
  induction prs as [|p prs IH]; [reflexivity|].
  rewrite fmap_cons. cbn [filter_matching]. rewrite pr_matches_json, IH. simpl.
  rewrite filter_cons. destruct (open_for branchName baseBranch p); reflexivity.
Qed.

Lemma is_string_true (v : Json) (s : string) : is_string v s = true → v = JStr s.
Proof. destruct v; try done. simpl. intros Hs. by apply bool_decide_eq_true in Hs as ->. Qed.

(** An entry of the listing that is an open pull request from [branchName]
    into [baseBranch]. *)
Definition open_request (branchName baseBranch : string) (pr : Json) : Prop :=
  ∃ head base,
    js_get pr "head" = Ok head ∧ js_get head "ref" = Ok (JStr branchName)
    ∧ js_get pr "base" = Ok base ∧ js_get base "ref" = Ok (JStr baseBranch)
    ∧ js_get pr "state" = Ok (JStr "open").

Lemma pr_matches_true (branchName baseBranch : string) (pr : Json) :
  pr_matches branchName baseBranch pr = Ok true → open_request branchName baseBranch pr.
Proof.
  unfold pr_matches, open_request.
  destruct (js_get pr "head") as [head|] eqn:E1; [|done]. cbn [bind].
  destruct (js_get head "ref") as [headRef|] eqn:E2; [|done]. cbn [bind].
  destruct (is_string headRef branchName) eqn:Hh; [|done]. cbn [negb].
  destruct (js_get pr "base") as [base|] eqn:E3; [|done]. cbn [bind].
  destruct (js_get base "ref") as [baseRef|] eqn:E4; [|done]. cbn [bind].
  destruct (is_string baseRef baseBranch) eqn:Hb; [|done]. cbn [negb].
  destruct (js_get pr "state") as [state|] eqn:E5; [|done]. cbn [bind].
  intros [= Hs]. exists head, base.
  apply is_string_true in Hh as ->. apply is_string_true in Hb as ->.
  apply is_string_true in Hs as ->. done.
Qed.

Lemma is_string_refl (s : string) : is_string (JStr s) s = true.
Proof. simpl. by apply bool_decide_eq_true. Qed.

Lemma pr_matches_open (branchName baseBranch : string) (pr : Json) :
  open_request branchName baseBranch pr → pr_matches branchName baseBranch pr = Ok true.
Proof.
  intros (head & base & E1 & E2 & E3 & E4 & E5). unfold pr_matches.
  rewrite E1. cbn [bind]. rewrite E2. cbn [bind]. rewrite is_string_refl. cbn [negb].
  rewrite E3. cbn [bind]. rewrite E4. cbn [bind]. rewrite is_string_refl. cbn [negb].
  rewrite E5. cbn [bind]. by rewrite is_string_refl.
Qed.

(** An entry of the shape every pull request of the API has: an object whose
    [head] and [base] are objects. *)
Definition entry_shaped (pr : Json) : Prop :=
  ∃ fields head base,
    pr = JObj fields ∧ js_get pr "head" = Ok (JObj head) ∧ js_get pr "base" = Ok (JObj base).

Lemma pr_matches_shaped (branchName baseBranch : string) (pr : Json) :
  entry_shaped pr → ∃ keep, pr_matches branchName baseBranch pr = Ok keep.
Proof.
  intros (fields & head & base & -> & E1 & E3). unfold pr_matches.
  assert (Hobj : ∀ fields' field, ∃ v, js_get (JObj fields') field = Ok v)
    by (intros; by eexists).
  rewrite E1. cbn [bind]. destruct (Hobj head "ref") as [headRef ->]. cbn [bind].
  destruct (negb _); [by eexists|].
  rewrite E3. cbn [bind]. destruct (Hobj base "ref") as [baseRef ->]. cbn [bind].
  destruct (negb _); [by eexists|].
  destruct (Hobj fields "state") as [state ->]. cbn [bind]. by eexists.
Qed.

(** The entries that the filter keeps come first to last; the first one kept
    is the first open request of the listing. *)
Lemma filter_matching_first (branchName baseBranch : string) (prs : list Json) :
  ∀ pr rest, filter_matching branchName baseBranch prs = Ok (pr :: rest) →
    ∃ before after,
      prs = before ++ pr :: after
      ∧ open_request branchName baseBranch pr
      ∧ Forall (fun earlier => ¬ open_request branchName baseBranch earlier) before.
Proof.
  induction prs as [|p prs IH]; intros pr rest; [done|]. cbn [filter_matching].
  destruct (pr_matches branchName baseBranch p) as [[]|] eqn:Hp; [| |done]; cbn [bind];
    destruct (filter_matching branchName baseBranch prs) as [matching|]; try done; cbn [bind].
  - intros [= <- <-]. exists [], prs. split; [done|]. split; [by apply pr_matches_true|].
    constructor.
  - intros [= ->]. destruct (IH pr rest eq_refl) as (before & after & -> & Hopen & Hnone).
    exists (p :: before), after. split; [done|]. split; [done|]. constructor; [|done].
    intros Hbad. apply pr_matches_open in Hbad. congruence.
Qed.

Lemma filter_matching_shaped (branchName baseBranch : string) (prs : list Json) :
  Forall entry_shaped prs → ∃ kept, filter_matching branchName baseBranch prs = Ok kept.
Proof.
  induction 1 as [|p prs Hp _ [kept IH]]; [by eexists|]. cbn [filter_matching].
  destruct (pr_matches_shaped branchName baseBranch p Hp) as [keep ->]. cbn [bind].
  rewrite IH. cbn [bind]. by eexists.
Qed.

Lemma filter_matching_finds (branchName baseBranch : string) (before : list Json) :
  ∀ pr after,
    Forall entry_shaped (before ++ pr :: after) →
    Forall (fun earlier => ¬ open_request branchName baseBranch earlier) before →
    open_request branchName baseBranch pr →
    ∃ rest, filter_matching branchName baseBranch (before ++ pr :: after) = Ok (pr :: rest).
Proof.
  induction before as [|p before IH]; intros pr after Hshaped Hnone Hopen.
  - apply Forall_cons in Hshaped as [_ Hshaped]. cbn [app filter_matching].
    rewrite (pr_matches_open _ _ _ Hopen). cbn [bind].
    destruct (filter_matching_shaped branchName baseBranch after Hshaped) as [kept ->].
    cbn [bind]. by eexists.
  - apply Forall_cons in Hshaped as [Hp Hshaped]. apply Forall_cons in Hnone as [Hnot Hnone].
    cbn [app filter_matching].
    destruct (pr_matches_shaped branchName baseBranch p Hp) as [keep Hkeep].
    rewrite Hkeep. cbn [bind]. destruct keep; [by apply pr_matches_true in Hkeep|].
    destruct (IH pr after Hshaped Hnone Hopen) as [rest ->]. cbn [bind]. by eexists.
Qed.

(** The request [createAndMergePR] goes on with instead of creating one: the
    one found, when the lookup was answered and its answer was read without
    error and reports one. *)
Definition found_by (branchName baseBranch : string) (lookup : result Response)
  : option FindResult :=
  match lookup with
  | Ok response =>
      match find_in_response branchName baseBranch response with
      | Ok existing => if find_success existing && found existing then Some existing else None
      | Throw _ => None
      end
  | Throw _ => None
  end.

(** A request is found only in an answer with a status from 200 to 299 whose
    body is a list: it is the first open request of the list for the pair. *)
Lemma found_by_sound (branchName baseBranch : string) (lookup : result Response)
  (existing : FindResult) :
  found_by branchName baseBranch lookup = Some existing →
  ∃ response before pr after,
    lookup = Ok response ∧ is_2xx response = true
    ∧ data response = JArr (before ++ pr :: after)
    ∧ open_request branchName baseBranch pr
    ∧ Forall (fun earlier => ¬ open_request branchName baseBranch earlier) before
    ∧ js_get pr "number" = Ok (found_prNumber existing)
    ∧ js_get pr "html_url" = Ok (found_prUrl existing)
    ∧ js_get pr "merged" = Ok (found_merged existing).
Proof.
  unfold found_by, find_in_response. destruct lookup as [response|m]; [|done].
  destruct (is_2xx response) eqn:H2xx.
  2:{ destruct (js_get (data response) "message"); cbn [bind]; done. }
  destruct (filter_matching branchName baseBranch _) as [[|pr rest]|m] eqn:Hfilter;
    cbn [bind]; try done.
  destruct (data response) as [| | | | |items|] eqn:Hdata; try done.
  destruct (filter_matching_first _ _ _ _ _ Hfilter) as (before & after & -> & Hopen & Hnone).
  destruct (js_get pr "number") as [number|] eqn:E1; cbn [bind]; [|done].
  destruct (js_get pr "html_url") as [html_url|] eqn:E2; cbn [bind]; [|done].
  destruct (js_get pr "merged") as [merged_|] eqn:E3; cbn [bind]; [|done].
  intros [= <-]. by exists response, before, pr, after.
Qed.

(** An answer with a status from 200 to 299 that lists entries of the API's
    shape, an open request for the pair among them, has its first such
    request found. *)
Lemma found_by_complete (branchName baseBranch : string) (response : Response)
  (before after : list Json) (pr : Json) :
  is_2xx response = true →
  data response = JArr (before ++ pr :: after) →
  Forall entry_shaped (before ++ pr :: after) →
  Forall (fun earlier => ¬ open_request branchName baseBranch earlier) before →
  open_request branchName baseBranch pr →
  ∃ number html_url merged_,
    js_get pr "number" = Ok number ∧ js_get pr "html_url" = Ok html_url
    ∧ js_get pr "merged" = Ok merged_
    ∧ found_by branchName baseBranch (Ok response)
      = Some (mkFindResult true true number html_url merged_ None).
Proof.
  intros H2xx Hdata Hshaped Hnone Hopen. unfold found_by, find_in_response.
  rewrite H2xx, Hdata.
  destruct (filter_matching_finds _ _ _ _ _ Hshaped Hnone Hopen) as [rest ->]. cbn [bind].
  assert (Hpr : entry_shaped pr).
  { rewrite Forall_app in Hshaped. destruct Hshaped as [_ Hshaped].
    by apply Forall_cons in Hshaped as [Hpr _]. }
  destruct Hpr as (fields & _ & _ & -> & _). cbn [js_get bind].
  eexists _, _, _. split; [done|]. split; [done|]. split; done.
Qed.

Section Reuse.
Context {W : Type} (env : IOEnv W) (w : W).
Context (repoUrl branchName token : string) (options : PROptions) (repoInfo : RepoInfo).

Let baseBranch := default "main" (opt_baseBranch options).

Hypothesis on_github : detected_platform repoUrl options = Some "github".
Hypothesis repo_parsed : parseRepoUrl repoUrl = Some repoInfo.

(** The lookup: the GET of the open requests of the head branch. *)
Definition pr_lookup : result Response * W * list IOEvent :=
  run env (makeRequest new_URL JSON_parse (find_options repoInfo branchName token)
             None 30000 0) w.

Lemma findPRForBranch_run :
  run env (findPRForBranch repoInfo branchName baseBranch token) w
  = (match pr_lookup.1.1 with
     | Ok response =>
         match find_in_response branchName baseBranch response with
         | Ok existing => existing
         | Throw m => mkFindResult false false JUndefined JUndefined JUndefined
                        (Some ("Error searching for existing PR: " +:+ m))
         end
     | Throw m => mkFindResult false false JUndefined JUndefined JUndefined
                    (Some ("Error searching for existing PR: " +:+ m))
     end, pr_lookup.1.2, pr_lookup.2).
Proof.
  unfold findPRForBranch, pr_lookup. rewrite run_try_catch, run_tbind.
  destruct (run env (makeRequest _ _ _ _ _ _) w) as [[[response|m] w1] events];
    cbn [fst snd run io_ret]; [|by rewrite !app_nil_r].
  destruct (find_in_response branchName baseBranch response);
    cbn [fst snd run io_ret]; by rewrite !app_nil_r.
Qed.

Lemma find_or_create_found (existing : FindResult) :
  found_by branchName baseBranch pr_lookup.1.1 = Some existing →
  run env (find_or_create repoInfo branchName baseBranch token
             (opt_title options) (opt_body options)) w
  = ((mkCreateResult true (found_prNumber existing) (found_prUrl existing)
        ("Using existing PR #" +:+ to_string (found_prNumber existing)),
      Some existing), pr_lookup.1.2, pr_lookup.2).
Proof.
  intros Hfound. unfold find_or_create. rewrite run_pbind, findPRForBranch_run.
  unfold found_by in Hfound. destruct pr_lookup.1.1 as [response|m]; [|done].
  destruct (find_in_response branchName baseBranch response) as [f|m]; [|done].
  destruct (find_success f && found f); [|done]. injection Hfound as ->.
  cbn [run io_ret]. by rewrite app_nil_r.
Qed.

Lemma find_or_create_not_found :
  found_by branchName baseBranch pr_lookup.1.1 = None →
  run env (find_or_create repoInfo branchName baseBranch token
             (opt_title options) (opt_body options)) w
  = let '(prResult, w2, events2) :=
      run env (createGitHubPR repoInfo branchName baseBranch token
                 (opt_title options) (opt_body options)) pr_lookup.1.2 in
    ((prResult, None), w2, pr_lookup.2 ++ events2).
Proof.
  intros Hnone. unfold find_or_create. rewrite run_pbind, findPRForBranch_run.
  assert (Hgo : ∀ f : FindResult,
            (find_success f && found f = false) →
            (let '(b, w2, events2) :=
               run env (if find_success f && found f
                        then io_ret (mkCreateResult true (found_prNumber f) (found_prUrl f)
                                       ("Using existing PR #"
                                        +:+ to_string (found_prNumber f)), Some f)
                        else prResult <- createGitHubPR repoInfo branchName baseBranch token
                                           (opt_title options) (opt_body options) ;;
                             io_ret (prResult, None)) pr_lookup.1.2 in
             (b, w2, pr_lookup.2 ++ events2))
            = (let '(prResult, w2, events2) :=
                 run env (createGitHubPR repoInfo branchName baseBranch token
                            (opt_title options) (opt_body options)) pr_lookup.1.2 in
               ((prResult, None), w2, pr_lookup.2 ++ events2))).
  { intros f ->. rewrite run_pbind.
    destruct (run env (createGitHubPR _ _ _ _ _ _) _) as [[prResult w2] events2].
    cbn [run io_ret]. by rewrite app_nil_r. }
  unfold found_by in Hnone. destruct pr_lookup.1.1 as [response|m]; [|by apply Hgo].
  destruct (find_in_response branchName baseBranch response) as [f|m]; [|by apply Hgo].
  apply Hgo. by destruct (find_success f && found f).
Qed.

(** [createGitHubPR] begins with its POST. *)
Lemma createGitHubPR_posts (w1 : W) :
  ∃ rest,
    (run env (createGitHubPR repoInfo branchName baseBranch token
                (opt_title options) (opt_body options)) w1).2
    = mkEvent (Net (create_options repoInfo token)
                 (Some (prData branchName baseBranch (opt_title options) (opt_body options)))
                 30000)
        (env (Net (create_options repoInfo token)
                (Some (prData branchName baseBranch (opt_title options)
                         (opt_body options))) 30000) w1).1
      :: rest.
Proof.
  unfold createGitHubPR. rewrite run_try_catch, run_tbind, makeRequest_equation_1.
  destruct (decide (0 >= 5)) as [Hbad|Hsmall]; [lia|].
  unfold makeRequest_unfold_clause_1, io. rewrite run_tbind_call.
  destruct (env (Net _ _ _) w1) as [[res|m] w2]; cbn [fst snd].
  - destruct (run env _ w2) as [[[response|m] w3] events]; cbn [fst snd].
    + destruct (run env _ w3) as [[[c|m] w4] events']; cbn [fst snd]; by eexists.
    + by eexists.
  - by eexists.
Qed.

(** What [createAndMergePR] returns after the first stage. *)
Lemma createAndMergePR_after (stage : CreateResult * option FindResult) (w1 : W)
  (events : list IOEvent) :
  run env (find_or_create repoInfo branchName baseBranch token
             (opt_title options) (opt_body options)) w = (stage, w1, events) →
  ∀ res,
    (run env (createAndMergePR repoUrl branchName token options) w).1.1 = Ok res →
    (create_success stage.1 = true → pr_success res = true)
    ∧ (pr_success res = true →
       prCreated res = Some (negb (bool_decide (is_Some stage.2)))
       ∧ prNumber res = created_prNumber stage.1).
Proof.
  intros Hstage res. unfold createAndMergePR. rewrite on_github, repo_parsed.
  rewrite bool_decide_eq_true_2 by done. cbn [negb]. fold baseBranch.
  rewrite run_pbind, Hstage. destruct stage as [prResult existingPR]. cbn [fst snd].
  assert (Hsome : match existingPR with Some _ => true | None => false end
                  = bool_decide (is_Some existingPR)).
  { destruct existingPR; [by rewrite bool_decide_eq_true_2 | by rewrite bool_decide_eq_false_2;
      [|intros [x Hx]]]. }
  rewrite Hsome. destruct (create_success prResult); cbn [negb].
  2:{ cbn [run io_ret fst]. intros [= <-]. done. }
  destruct (opt_autoMerge options).
  - destruct (match existingPR with
              | Some existing => json_truthy (found_merged existing)
              | None => false
              end).
    + cbn [run io_ret fst]. intros [= <-]. done.
    + unfold io. rewrite run_tbind_call.
      destruct (env (Sleep _) w1) as [[[]|m] w2]; cbn [fst snd]; [|discriminate].
      rewrite run_tbind.
      destruct (run env (mergeGitHubPR _ _ _ _ _ _ _) w2) as [[[mergeResult|m] w3] events3];
        cbn [fst snd run io_ret]; [|discriminate].
      intros [= <-]. done.
  - cbn [run io_ret fst]. intros [= <-]. done.
Qed.

(** C7, as the code has it.  On GitHub, for a repository URL that parses,
    [createAndMergePR] first sends the lookup, a GET.  When the lookup is
    answered with a status from 200 to 299 and a list whose entries can be
    read, and the list holds an open request for the pair (head, base), the
    first such request is reused: the first stage sends nothing but the
    lookup, no creation, and the controller reports [prCreated = false] with
    the number of that request.  An answer that lists entries of the API's
    shape with an open request for the pair among them is always read that
    way.  In every other case, the lookup rejected, timed out, answered with
    another status, or with a list that holds an entry that cannot be read, the
    controller goes on to send the creation request, whether an open request
    exists on the remote or not, and reports [prCreated = true] when the
    creation is answered with success. *)
Theorem createAndMergePR_reuses_open_request :
  let stage :=
    run env (find_or_create repoInfo branchName baseBranch token
               (opt_title options) (opt_body options)) w in
  let out := run env (createAndMergePR repoUrl branchName token options) w in
  Forall (fun r => method r.1 = "GET") (requests pr_lookup.2)
  ∧ (∀ existing,
       found_by branchName baseBranch pr_lookup.1.1 = Some existing →
       stage = ((mkCreateResult true (found_prNumber existing) (found_prUrl existing)
                   ("Using existing PR #" +:+ to_string (found_prNumber existing)),
                 Some existing), pr_lookup.1.2, pr_lookup.2)
       ∧ (∀ res, out.1.1 = Ok res →
            pr_success res = true ∧ prCreated res = Some false
            ∧ prNumber res = found_prNumber existing)
       ∧ ∃ response before pr after,
           pr_lookup.1.1 = Ok response ∧ is_2xx response = true
           ∧ data response = JArr (before ++ pr :: after)
           ∧ open_request branchName baseBranch pr
           ∧ Forall (fun earlier => ¬ open_request branchName baseBranch earlier) before
           ∧ js_get pr "number" = Ok (found_prNumber existing)
           ∧ js_get pr "html_url" = Ok (found_prUrl existing)
           ∧ js_get pr "merged" = Ok (found_merged existing))
  ∧ (∀ response before pr after,
       pr_lookup.1.1 = Ok response → is_2xx response = true →
       data response = JArr (before ++ pr :: after) →
       Forall entry_shaped (before ++ pr :: after) →
       Forall (fun earlier => ¬ open_request branchName baseBranch earlier) before →
       open_request branchName baseBranch pr →
       ∃ number html_url merged_,
         js_get pr "number" = Ok number ∧ js_get pr "html_url" = Ok html_url
         ∧ js_get pr "merged" = Ok merged_
         ∧ found_by branchName baseBranch pr_lookup.1.1
           = Some (mkFindResult true true number html_url merged_ None))
  ∧ (found_by branchName baseBranch pr_lookup.1.1 = None →
       stage.1.1.2 = None
       ∧ (∃ rest,
            stage.2
            = pr_lookup.2
              ++ mkEvent (Net (create_options repoInfo token)
                            (Some (prData branchName baseBranch (opt_title options)
                                     (opt_body options))) 30000)
                   (env (Net (create_options repoInfo token)
                           (Some (prData branchName baseBranch (opt_title options)
                                    (opt_body options))) 30000) pr_lookup.1.2).1
                 :: rest)
       ∧ (∀ res, out.1.1 = Ok res → pr_success res = true → prCreated res = Some true)).
Proof.
  cbv zeta. split.
  { apply (makeRequest_keeps_method new_URL JSON_parse env 5
             (find_options repoInfo branchName token) None 30000 0 w). lia. }
  split; [|split].
  - intros existing Hfound. pose proof (find_or_create_found existing Hfound) as Hstage.
    split; [exact Hstage|]. split; [|by apply found_by_sound].
    intros res Hres.
    destruct (createAndMergePR_after _ _ _ Hstage res Hres) as [Hok Hcreated].
    cbn [fst snd create_success created_prNumber] in Hok, Hcreated.
    specialize (Hok eq_refl). destruct (Hcreated Hok) as [Hc Hn].
    rewrite bool_decide_eq_true_2 in Hc by by eexists. done.
  - intros response before pr after Hresp. rewrite Hresp. apply found_by_complete.
  - intros Hnone. pose proof (find_or_create_not_found Hnone) as Hstage.
    destruct (createGitHubPR_posts pr_lookup.1.2) as [rest Hpost].
    destruct (run env (createGitHubPR repoInfo branchName baseBranch token
                         (opt_title options) (opt_body options)) pr_lookup.1.2)
      as [[prResult w2] events2] eqn:Hcreate.
    cbn [snd] in Hpost. subst events2.
    split; [by rewrite Hstage|]. split; [exists rest; by rewrite Hstage|].
    intros res Hres Hs.
    destruct (createAndMergePR_after _ _ _ Hstage res Hres) as [_ Hcreated].
    destruct (Hcreated Hs) as [Hc _]. cbn [snd] in Hc.
    rewrite bool_decide_eq_false_2 in Hc; [done | by intros [x Hx]].
Qed.

End Reuse.

End Controller.

(** A remote that lists one open request for [auto-2024-01-02 -> main]. *)
Definition example_pr : PullRequest :=
  mkPullRequest 7 "https://github.com/o/r/pull/7" "auto-2024-01-02" "main" "open" false.

Definition listing_server : IOEnv unit := fun c w =>
  match c return result (Resp c) * unit with
  | Git c => (Ok (default_answer c), w)
  | Net options _ _ => (Ok (mkRaw 200 None "[{...}]"), w)
  | Sleep _ => (Ok tt, w)
  end.

Definition example_JSON_parse (body : string) : option Json :=
  if bool_decide (body = "[{...}]") then Some (JArr [pr_json example_pr])
  else if bool_decide (body = "{rate limit}")
  then Some (JObj [("message", JStr "API rate limit exceeded")])
  else if bool_decide (body = "{created}")
  then Some (pr_json (mkPullRequest 8 "https://github.com/o/r/pull/8" "auto-2024-01-02"
                        "main" "open" false))
  else None.

Definition example_options : PROptions :=
  mkPROptions (Some "main") None false None None None None None.

Definition example_parseRepoUrl (repoUrl : string) : option RepoInfo :=
  Some (mkRepoInfo "github.com" "o" "r").

Definition example_detectPlatform (repoUrl : string) : option string :=
  if includes repoUrl "github.com" then Some "github" else None.

Definition example_merge (repoInfo : RepoInfo) (prNumber : Json)
  (token mergeMethod branchName baseBranch remote : string) : IO (result Outcome) :=
  io_ret (Ok (mkOutcome true "merged")).

(** [encodeURIComponent] on a string of UTF-8 bytes: letters, digits and
    [- _ . ! ~ * ' ( )] are kept, every other byte is percent-encoded. *)
Definition unreserved (c : ascii) : bool :=
  let n := N_of_ascii c in
  ((48 <=? n) && (n <=? 57) || (65 <=? n) && (n <=? 90) || (97 <=? n) && (n <=? 122))%N
  || bool_decide (c ∈ ["-"; "_"; "."; "!"; "~"; "*"; "'"; "("; ")"]%char).

Definition hex_digit (n : N) : ascii :=
  default "0"%char (list_ascii_of_string "0123456789ABCDEF" !! N.to_nat n).

Fixpoint example_encodeURIComponent (s : string) : string :=
  match s with
  | "" => ""
  | String c rest =>
      (if unreserved c then String c ""
       else String "%" (String (hex_digit (N_of_ascii c / 16))
                          (String (hex_digit (N_of_ascii c mod 16)) "")))
      +:+ example_encodeURIComponent rest
  end.

(** The controller of the examples. *)
Definition example_createAndMergePR : IO (result PRResult) :=
  createAndMergePR example_new_URL example_JSON_parse (fun _ => "")
    example_encodeURIComponent
    example_parseRepoUrl example_detectPlatform example_merge
    "https://github.com/o/r" "auto-2024-01-02" "token" example_options.

Lemma createAndMergePR_reuses_open_request_witness :
  detected_platform example_detectPlatform "https://github.com/o/r" example_options
  = Some "github"
  ∧ Forall (fun r => method r.1 = "GET")
      (requests (trace_of listing_server example_createAndMergePR tt))
  ∧ ∀ res, result_of listing_server example_createAndMergePR tt = Ok res →
           pr_success res = true ∧ prCreated res = Some false ∧ prNumber res = JNum 7.
Proof.
  assert (Hgithub : detected_platform example_detectPlatform "https://github.com/o/r"
                      example_options = Some "github") by reflexivity.
  split; [exact Hgithub|].
  destruct (createAndMergePR_reuses_open_request
              example_new_URL example_JSON_parse (fun _ => "") example_encodeURIComponent
              example_parseRepoUrl example_detectPlatform example_merge
              listing_server tt
              "https://github.com/o/r" "auto-2024-01-02" "token" example_options
              (mkRepoInfo "github.com" "o" "r") Hgithub eq_refl)
    as (Hget & Hfound & _).
  destruct (Hfound (mkFindResult true true (JNum 7) (JStr "https://github.com/o/r/pull/7")
                      (JBool false) None) eq_refl) as (_ & Hres & _).
  split; [exact Hget | exact Hres].
Defined.

(** A remote on which the request #7 for [auto-2024-01-02 -> main] is open.
    It answers the first lookup with its list, refuses every later lookup
    (403, the rate limit), and accepts every creation.  The world is the
    number of lookups answered so far. *)
Definition limiting_server : IOEnv nat := fun c w =>
  match c return result (Resp c) * nat with
  | Git c => (Ok (default_answer c), w)
  | Net options _ _ =>
      if bool_decide (method options = "GET")
      then (Ok (if bool_decide (w = 0%nat) then mkRaw 200 None "[{...}]"
                else mkRaw 403 None "{rate limit}"), S w)
      else (Ok (mkRaw 201 None "{created}"), w)
  | Sleep _ => (Ok tt, w)
  end.

(** What a trace sent: method, path and the status of the answer. *)
Definition sent (trace : list IOEvent) : list (string * string * option Z) :=
  (fun r => (method r.1, path r.1,
             match r.2 with Ok res => Some (statusCode res) | Throw _ => None end))
    <$> requests trace.

(** What a run reports: [prCreated] and [prNumber]. *)
Definition reported (r : result PRResult) : option (option bool * Json) :=
  match r with Ok res => Some (prCreated res, prNumber res) | Throw _ => None end.

(** C7 as stated fails: while the request #7 is open for the pair, a first
    run of the controller finds and reuses it, and a second run for the same
    pair, whose lookup is refused, sends the creation request and reports
    the request #8 as created. *)
Lemma createAndMergePR_creates_beside_open_request :
  let first := run limiting_server example_createAndMergePR 0%nat in
  let second := run limiting_server example_createAndMergePR first.1.2 in
  (sent first.2 = [("GET", "/repos/o/r/pulls?head=o%3Aauto-2024-01-02&state=open", Some 200)]
   ∧ reported first.1.1 = Some (Some false, JNum 7))
  ∧ (sent second.2 = [("GET", "/repos/o/r/pulls?head=o%3Aauto-2024-01-02&state=open", Some 403);
                      ("POST", "/repos/o/r/pulls", Some 201)]
     ∧ reported second.1.1 = Some (Some true, JNum 8)).
Proof. vm_compute. repeat split; reflexivity. Qed.

End PrOperations.

(** ** server.js: the work partitioner of [/api/process-stream] *)

Module Partitioner.
Import DateUtils.

(** The sign of a comparator's answer. *)
Inductive Sign : Type := Negative | Zero | Positive.

(** [Array.prototype.sort(comparefn)] when [comparefn] ignores its arguments:
    the engine's algorithm is a decision procedure that asks the comparator a
    number of times and then delivers the sorted array. *)
Inductive SortRun (R : Type) : Type :=
| Sorted (out : R)
| Compare (k : Sign → SortRun R).
Arguments Sorted {R} out.
Arguments Compare {R} k.

(** Round to nearest, ties to even, of a non-negative integer to 53
    significant bits: the binary64 rounding of a product, counted in units of
    the last place of its factors. *)
Definition round53 (x : Z) : Z :=
  if x <? 2 ^ 53 then x
  else
    let ulp := 2 ^ (Z.log2 x - 52) in
    let q := x / ulp in
    let rest := x mod ulp in
    let q' := if 2 * rest <? ulp then q
              else if ulp <? 2 * rest then q + 1
              else if Z.even q then q else q + 1 in
    q' * ulp.

Section Random.

(** [Math.random()] returns a double in [0, 1): a multiple of [2^-bits], where
    [bits] is the number of random bits the engine draws, [precision], and at
    most 53, the precision of a double.  The random source is an explicit
    stream of integers; the [i]-th draw is [(rand i mod 2^bits) / 2^bits]. *)
Variable precision : nat.
Definition bits : nat := Nat.min precision 53.
Definition scale : Z := 2 ^ Z.of_nat bits.

(** The numerator of the [i]-th draw. *)
Definition Math_random (rand : nat → Z) (i : nat) : Z := rand i mod scale.

(** The sign of [Math.random() - 0.5] for a draw with numerator [r]. *)
Definition minus_half (r : Z) : Sign :=
  if 2 * r <? scale then Negative else if 2 * r =? scale then Zero else Positive.

(** [Math.floor(Math.random() * n)] for a draw with numerator [r] and an
    integer [n]: the product is rounded to a double before the floor. *)
Definition floor_times (r n : Z) : Z := round53 (r * n) / scale.

(** A sort run with comparator [() => Math.random() - 0.5], from draw [i] on:
    the result and the index of the next unused draw. *)
Fixpoint run_sort {R} (t : SortRun R) (rand : nat → Z) (i : nat) : R * nat :=
  match t with
  | Sorted out => (out, i)
  | Compare k => run_sort (k (minus_half (Math_random rand i))) rand (S i)
  end.

(** The engine's sort, a parameter. *)
Variable Array_sort : ∀ A : Type, list A → SortRun (list A).

(** [for (let i = 0; i < remainingCommits; i++) commitsPerBranch[randomBranch]++] *)
Fixpoint distribute (remaining : nat) (actualNumBranches : Z) (commitsPerBranch : list Z)
  (rand : nat → Z) (i : nat) : list Z * nat :=
  match remaining with
  | O => (commitsPerBranch, i)
  | S remaining =>
      let randomBranch := floor_times (Math_random rand i) actualNumBranches in
      distribute remaining actualNumBranches
        (alter (fun count => count + 1) (Z.to_nat randomBranch) commitsPerBranch)
        rand (S i)
  end.

(** The form data of the request; [None] is [undefined]. *)
Record FormData : Type := mkFormData {
  startDate : option string;
  endDate : option string;
  numBranches : option string;
  totalCommits : option string;
  repoPath : option string;
  country : option string
}.

(** [parseInt(s)] and [new Date(s)]: library functions, parameters; [None] is
    NaN, respectively an Invalid Date. *)
Variable parseInt : string → option Z.
Variable Date_parse : string → option Date.

(** ToBoolean of an optional string. *)
Definition present (field : option string) : bool :=
  match field with Some s => nonempty s | None => false end.

(** The plan the handler computes before touching the repository. *)
Record WorkPlan : Type := mkWorkPlan {
  validDates : list Date;
  requestedBranches : Z;
  actualNumBranches : Z;
  totalCommitsNum : Z;
  adjustedBranches : bool;
  datesToProcess : list Date;
  commitsPerBranch : list Z
}.

(** Lines 518-544: the random selection of dates and the random distribution
    of commits, from the eligible pool. *)
Definition partition (validDates : list Date) (numBranchesNum totalCommitsNum : Z)
  (rand : nat → Z) : WorkPlan :=
  let adjustedBranches := Z.of_nat (length validDates) <? numBranchesNum in
  let actualNumBranches :=
    if adjustedBranches then Z.of_nat (length validDates) else numBranchesNum in
  let '(shuffledDates, i) := run_sort (Array_sort Date validDates) rand 0 in
  let datesToProcess := take (Z.to_nat actualNumBranches) shuffledDates in
  let commitsPerBranch := replicate (Z.to_nat actualNumBranches) 1 in
  let remainingCommits := totalCommitsNum - actualNumBranches in
  let '(commitsPerBranch, i) :=
    distribute (Z.to_nat remainingCommits) actualNumBranches commitsPerBranch rand i in
  let '(commitsPerBranch, i) := run_sort (Array_sort Z commitsPerBranch) rand i in
  mkWorkPlan validDates numBranchesNum actualNumBranches totalCommitsNum
    adjustedBranches datesToProcess commitsPerBranch.

(** Lines 464-544 of the handler: validation, the eligible pool and the
    partition.  [inl message] is the error event sent instead of a plan. *)
Definition make_plan (form : FormData) (rand : nat → Z) : string + WorkPlan :=
  if negb (present (startDate form)) || negb (present (endDate form))
     || negb (bool_decide (is_Some (numBranches form)))
     || negb (bool_decide (is_Some (totalCommits form)))
     || negb (present (repoPath form))
  then inl "Missing required fields: startDate, endDate, numBranches, totalCommits, repoPath"
  else
    let numBranchesNum := parseInt (default "" (numBranches form)) in
    let totalCommitsNum := parseInt (default "" (totalCommits form)) in
    if match numBranchesNum with Some n => n <? 1 | None => true end
    then inl "Number of branches must be at least 1"
    else if match totalCommitsNum with Some n => n <? 1 | None => true end
    then inl "Total commits must be at least 1"
    else if default 0 totalCommitsNum <? default 0 numBranchesNum
    then inl ("Total commits must be at least equal to the number of branches "
              +:+ "(each branch needs at least 1 commit)")
    else
      match Date_parse (default "" (startDate form)),
            Date_parse (default "" (endDate form)) with
      | Some start, Some end_ =>
          if negb (date_leb start end_) then inl "Start date must be before end date"
          else
            let countryCode := if present (country form) then default "" (country form)
                               else "US" in
            match getValidDates start end_ countryCode with
            | Throw m => inl ("Server error: " +:+ m)
            | Ok validDates =>
                if bool_decide (length validDates = 0%nat)
                then inl ("No valid dates found in the specified range "
                          +:+ "(all dates are Sundays or holidays)")
                else inr (partition validDates (default 0 numBranchesNum)
                            (default 0 totalCommitsNum) rand)
            end
      | _, _ => inl "Invalid date format"
      end.

(** *** The plan's invariants *)

(** The engine's sort rearranges: whatever the comparator answers, the result
    is a permutation of the array. *)
Hypothesis sort_permutes :
  ∀ (A : Type) (l : list A) (rand : nat → Z) (i : nat),
    (run_sort (Array_sort A l) rand i).1 ≡ₚ l.

Definition sum (counts : list Z) : Z := foldr Z.add 0 counts.

Lemma scale_pos : 0 < scale.
Proof. unfold scale. apply Z.pow_pos_nonneg; lia. Qed.

Lemma Math_random_range (rand : nat → Z) (i : nat) : 0 <= Math_random rand i < scale.
Proof. apply Z.mod_pos_bound, scale_pos. Qed.

Lemma scale_le : scale <= 2 ^ 53.
Proof. unfold scale, bits. apply Z.pow_le_mono_r; lia. Qed.

Lemma round53_exact (x : Z) : x < 2 ^ 53 → round53 x = x.
Proof. intros Hx. unfold round53. destruct (Z.ltb_spec x (2 ^ 53)); [done | lia]. Qed.

(** The rounded value is within half a unit of the last place, and that unit
    is at most [2^-52] of the value. *)
Lemma round53_bounds (x : Z) :
  0 <= x →
  let ulp := if x <? 2 ^ 53 then 1 else 2 ^ (Z.log2 x - 52) in
  2 * x - ulp <= 2 * round53 x <= 2 * x + ulp
  ∧ 0 < ulp ∧ ulp * 2 ^ 52 <= Z.max x (2 ^ 52).
Proof.
  intros Hx. cbv zeta. unfold round53.
  destruct (Z.ltb_spec x (2 ^ 53)) as [Hlt|Hge]; [lia|].
  assert (Hlog : 53 <= Z.log2 x) by (apply Z.log2_le_pow2; lia).
  set (e := Z.log2 x - 52). assert (He : 0 < e) by lia.
  pose proof (Z.log2_spec x ltac:(lia)) as [Hlo Hhi].
  replace (Z.log2 x) with (e + 52) in Hlo by lia.
  rewrite Z.pow_add_r in Hlo by lia.
  assert (Hulp : 0 < 2 ^ e) by (apply Z.pow_pos_nonneg; lia).
  set (ulp := 2 ^ e) in *.
  pose proof (Z.div_mod x ulp ltac:(lia)) as Hdm.
  pose proof (Z.mod_pos_bound x ulp Hulp) as Hmod.
  set (q := x / ulp) in *. set (rest := x mod ulp) in *.
  split; [|lia].
  destruct (Z.ltb_spec (2 * rest) ulp); [lia|].
  destruct (Z.ltb_spec ulp (2 * rest)); [lia|].
  destruct (Z.even q); lia.
Qed.

(** The relative error of the rounding is at most [2^-53]. *)
Lemma round53_error (x : Z) :
  0 <= x → x * (2 ^ 53 - 1) <= round53 x * 2 ^ 53 <= x * (2 ^ 53 + 1).
Proof.
  intros Hx. destruct (round53_bounds x Hx) as (Hb & Hu & Hs). cbv zeta in *.
  destruct (Z.ltb_spec x (2 ^ 53)); [rewrite round53_exact in * by done; lia|].
  set (ulp := 2 ^ (Z.log2 x - 52)) in *. lia.
Qed.

(** A draw with numerator [r] selects the branch in whose interval
    [[j / n, (j + 1) / n)] the rounded product lies. *)
Lemma floor_times_interval (r n j : Z) :
  floor_times r n = j ↔ j * scale <= round53 (r * n) < (j + 1) * scale.
Proof.
  unfold floor_times. pose proof scale_pos. split.
  - intros <-. pose proof (Z.mul_div_le (round53 (r * n)) scale).
    pose proof (Z.mul_succ_div_gt (round53 (r * n)) scale). lia.
  - intros Hj. symmetry.
    apply (Z.div_unique_pos _ _ _ (round53 (r * n) - j * scale)); lia.
Qed.

(** Rounding never moves the product of a draw and [n] up to [n]. *)
Lemma floor_times_range (r n : Z) :
  0 <= r < scale → 0 < n → 0 <= floor_times r n < n.
Proof.
  intros Hr Hn. pose proof scale_pos. pose proof scale_le.
  assert (Hx : 0 <= r * n) by nia.
  destruct (round53_bounds (r * n) Hx) as (Hb & Hu & Hs). cbv zeta in *.
  unfold floor_times. split.
  - apply Z.div_pos; [|done]. destruct (Z.ltb_spec (r * n) (2 ^ 53)); lia.
  - apply Z.div_lt_upper_bound; [done|].
    destruct (Z.ltb_spec (r * n) (2 ^ 53)); [nia|].
    assert (r * n < n * 2 ^ 53) by nia.
    set (ulp := 2 ^ (Z.log2 (r * n) - 52)) in *.
    assert (ulp < 2 * n) by nia. nia.
Qed.

(** Where the rounded product lies, up to the rounding: the draw is in the
    interval of its branch widened by the relative error [2^-53], and exactly
    in it when the product needs no rounding. *)
Lemma floor_times_near (r n j : Z) :
  0 <= r → 0 <= n → floor_times r n = j →
  j * scale * 2 ^ 53 <= r * n * (2 ^ 53 + 1)
  ∧ r * n * (2 ^ 53 - 1) < (j + 1) * scale * 2 ^ 53
  ∧ (r * n < 2 ^ 53 → j * scale <= r * n < (j + 1) * scale).
Proof.
  intros Hr Hn Hj. apply floor_times_interval in Hj.
  assert (Hx : 0 <= r * n) by nia. pose proof (round53_error (r * n) Hx).
  split; [nia|]. split; [nia|]. intros Hsmall. by rewrite round53_exact in Hj.
Qed.

Lemma sum_app (l1 l2 : list Z) : sum (l1 ++ l2) = sum l1 + sum l2.
Proof. induction l1 as [|x l1 IH]; simpl; lia. Qed.

Lemma sum_alter_succ (counts : list Z) (j : nat) :
  (j < length counts)%nat → sum (alter (fun count => count + 1) j counts) = sum counts + 1.
Proof.
  unfold alter. revert j. induction counts as [|x counts IH]; intros j Hj; simpl in *; [lia|].
  destruct j as [|j]; simpl; [lia|]. rewrite IH by lia. lia.
Qed.



Lemma Forall_alter_succ (counts : list Z) (j : nat) :
  Forall (fun count => 1 <= count) counts →
  Forall (fun count => 1 <= count) (alter (fun count => count + 1) j counts).
Proof.
  intros Hall. apply Forall_alter; [done|]. intros x _ Hx. lia.
Qed.

Lemma distribute_spec (remaining : nat) :
  ∀ (n : Z) (counts : list Z) (rand : nat → Z) (i : nat),
    0 < n → Z.of_nat (length counts) = n →
    Forall (fun count => 1 <= count) counts →
    let out := (distribute remaining n counts rand i).1 in
    sum out = sum counts + Z.of_nat remaining
    ∧ length out = length counts
    ∧ Forall (fun count => 1 <= count) out.
Proof.
  induction remaining as [|remaining IH]; intros n counts rand i Hn Hlen Hall; cbv zeta.
  - simpl. split; [lia|]. done.
  - cbn [distribute].
    pose proof (floor_times_range _ n (Math_random_range rand i) Hn) as Hidx.
    destruct (IH n (alter (fun count => count + 1)
                      (Z.to_nat (floor_times (Math_random rand i) n)) counts)
                rand (S i)) as (Hsum & Hl & Hge); [done| |by apply Forall_alter_succ|].
    { by rewrite length_alter. }
    cbv zeta in Hsum, Hl, Hge. rewrite Hsum, Hl, length_alter.
    rewrite sum_alter_succ by lia. split; [lia|]. done.
Qed.



(** *** How the plan uses the random source *)

(** The number of the credits [0 .. remaining - 1], drawn from index [i] on,
    that fall on branch [j]. *)
Definition credits (actualNumBranches : Z) (rand : nat → Z) (i remaining j : nat) : Z :=
  Z.of_nat (length (filter
    (fun k => Z.to_nat (floor_times (Math_random rand (i + k)) actualNumBranches) = j)
    (seq 0 remaining))).

Lemma credits_S (n : Z) (rand : nat → Z) (i remaining j : nat) :
  credits n rand i (S remaining) j
  = (if decide (Z.to_nat (floor_times (Math_random rand i) n) = j) then 1 else 0)
    + credits n rand (S i) remaining j.
Proof.
  unfold credits. rewrite <- cons_seq, filter_cons, <- fmap_S_seq.
  rewrite Nat.add_0_r.
  assert (Hshift : length (filter (fun k => Z.to_nat (floor_times (Math_random rand (i + k)) n)
                                            = j) (S <$> seq 0 remaining))
                   = length (filter (fun k => Z.to_nat (floor_times
                                                 (Math_random rand (S i + k)) n) = j)
                               (seq 0 remaining))).
  { generalize (seq 0 remaining). intros l. induction l as [|k l IH]; [done|].
    rewrite fmap_cons, !filter_cons. replace (i + S k)%nat with (S i + k)%nat by lia.
    destruct (decide _); simpl; by rewrite IH. }
  destruct (decide _); rewrite ?length_cons, Hshift; lia.
Qed.

Lemma distribute_counts (remaining : nat) :
  ∀ (n : Z) (counts : list Z) (rand : nat → Z) (i j : nat),
    (distribute remaining n counts rand i).1 !! j
    = (fun count => count + credits n rand i remaining j) <$> counts !! j
    ∧ (distribute remaining n counts rand i).2 = (i + remaining)%nat.
Proof.
  induction remaining as [|remaining IH]; intros n counts rand i j.
  - simpl. unfold credits. simpl. split; [|lia].
    destruct (counts !! j); simpl; [f_equal; lia | done].
  - cbn [distribute]. destruct (IH n (alter (fun count => count + 1)
        (Z.to_nat (floor_times (Math_random rand i) n)) counts) rand (S i) j) as [-> ->].
    split; [|lia]. rewrite credits_S.
    destruct (decide (Z.to_nat (floor_times (Math_random rand i) n) = j)) as [->|Hne].
    + rewrite list_lookup_alter_eq. destruct (counts !! j); simpl; [f_equal; lia | done].
    + rewrite list_lookup_alter_ne by done.
      destruct (counts !! j); simpl; [f_equal; lia | done].
Qed.

(** C5, as the code has it.  With the random stream [rand] as input: the
    dates are the first [actual] elements of the pool sorted with the random
    comparator, which is a permutation of the pool (so the selection is
    without replacement); the count of branch [j] before the last shuffle is 1
    plus the number of the [commits - actual] credits whose draw [r] has the
    floor of the product [r * actual], rounded to a double, equal to [j];
    such a draw lies in [[j / actual, (j + 1) / actual)] up to the relative
    error [2^-53] of the rounding, and exactly in it when the product needs
    no rounding; and the final count vector is a permutation of those
    counts. *)
Theorem partition_by_random_comparator (pool : list Date) (branches commits : Z)
  (rand : nat → Z) :
  pool ≠ [] → 1 <= branches <= commits →
  let plan := partition pool branches commits rand in
  let actual := Z.min branches (Z.of_nat (length pool)) in
  let shuffled := run_sort (Array_sort Date pool) rand 0 in
  datesToProcess plan = take (Z.to_nat actual) shuffled.1
  ∧ shuffled.1 ≡ₚ pool
  ∧ (NoDup pool → NoDup (datesToProcess plan))
  ∧ (∃ distributed,
       commitsPerBranch plan ≡ₚ distributed
       ∧ length distributed = Z.to_nat actual
       ∧ ∀ j, (j < Z.to_nat actual)%nat →
           distributed !! j
           = Some (1 + credits actual rand shuffled.2 (Z.to_nat (commits - actual)) j))
  ∧ (∀ r j, 0 <= r < scale → floor_times r actual = j →
       0 <= j < actual
       ∧ j * scale <= round53 (r * actual) < (j + 1) * scale
       ∧ j * scale * 2 ^ 53 <= r * actual * (2 ^ 53 + 1)
       ∧ r * actual * (2 ^ 53 - 1) < (j + 1) * scale * 2 ^ 53
       ∧ (r * actual < 2 ^ 53 → j * scale <= r * actual < (j + 1) * scale)).
Proof.
  intros Hpool Hb. cbv zeta. unfold partition.
  assert (Hlen : (0 < length pool)%nat) by (destruct pool; [done | simpl; lia]).
  replace (if Z.of_nat (length pool) <? branches then Z.of_nat (length pool) else branches)
    with (Z.min branches (Z.of_nat (length pool)))
    by (destruct (Z.ltb_spec (Z.of_nat (length pool)) branches); lia).
  set (actual := Z.min branches (Z.of_nat (length pool))).
  pose proof (sort_permutes Date pool rand 0) as Hshuffle.
  destruct (run_sort (Array_sort Date pool) rand 0) as [shuffledDates i1].
  cbn [fst snd] in *.
  pose proof (distribute_counts (Z.to_nat (commits - actual)) actual
                (replicate (Z.to_nat actual) 1) rand i1) as Hcredits.
  destruct (distribute_spec (Z.to_nat (commits - actual)) actual
              (replicate (Z.to_nat actual) 1) rand i1) as (_ & Hl & _).
  { lia. } { rewrite length_replicate. lia. } { apply Forall_replicate. lia. }
  cbv zeta in Hl.
  destruct (distribute (Z.to_nat (commits - actual)) actual
              (replicate (Z.to_nat actual) 1) rand i1) as [distributed i2].
  cbn [fst snd] in *.
  pose proof (sort_permutes Z distributed rand i2) as Hcounts.
  destruct (run_sort (Array_sort Z distributed) rand i2) as [counts i3].
  cbn [fst] in Hcounts. simpl.
  split; [done|]. split; [done|]. split.
  { intros Hnd. apply (sublist_NoDup _ shuffledDates); [by rewrite Hshuffle|].
    apply sublist_take. }
  split.
  2:{ intros r j Hr Hj. split; [rewrite <- Hj; apply floor_times_range; lia|].
      split; [by apply floor_times_interval|]. apply floor_times_near; lia. }
  exists distributed. split; [done|]. split; [by rewrite Hl, length_replicate|].
  intros j Hj. destruct (Hcredits j) as [-> _].
  rewrite lookup_replicate_2 by done. reflexivity.
Qed.

End Random.

(** *** An engine: insertion sort *)

Fixpoint sort_bind {A B} (t : SortRun A) (f : A → SortRun B) : SortRun B :=
  match t with
  | Sorted a => f a
  | Compare k => Compare (fun s => sort_bind (k s) f)
  end.

(** Insert [x] into [sorted], asking the comparator about [x] and each element
    in turn; a positive answer moves [x] further right. *)
Fixpoint insert_run {A} (x : A) (sorted : list A) : SortRun (list A) :=
  match sorted with
  | [] => Sorted [x]
  | y :: ys =>
      Compare (fun s =>
        match s with
        | Positive => sort_bind (insert_run x ys) (fun r => Sorted (y :: r))
        | _ => Sorted (x :: y :: ys)
        end)
  end.

Definition insertion_sort (A : Type) (l : list A) : SortRun (list A) :=
  foldr (fun x acc => sort_bind acc (insert_run x)) (Sorted []) l.

Lemma run_sort_bind (precision : nat) {A B} (t : SortRun A) (f : A → SortRun B) rand i :
  run_sort precision (sort_bind t f) rand i
  = run_sort precision (f (run_sort precision t rand i).1) rand (run_sort precision t rand i).2.
Proof.
  revert i. induction t as [a | k IH]; intros i; simpl; [done|]. apply IH.
Qed.

Lemma insert_run_permutes precision {A} (x : A) (sorted : list A) rand i :
  (run_sort precision (insert_run x sorted) rand i).1 ≡ₚ x :: sorted.
Proof.
  revert i. induction sorted as [|y ys IH]; intros i; simpl; [done|].
  destruct (minus_half precision (Math_random precision rand i)); simpl; try done.
  rewrite run_sort_bind. simpl. rewrite IH. apply Permutation_swap.
Qed.

Lemma insertion_sort_permutes precision (A : Type) (l : list A) rand i :
  (run_sort precision (insertion_sort A l) rand i).1 ≡ₚ l.
Proof.
  revert i. induction l as [|x l IH]; intros i; simpl; [done|].
  rewrite run_sort_bind, insert_run_permutes. by rewrite IH.
Qed.

(** [new Date('YYYY-MM-DD')] read as a local calendar date, for examples. *)
Definition example_Date_parse (s : string) : option Date :=
  match Number <$> split_char "-" s with
  | [Some y; Some m; Some d] => Some (newDate y (m - 1) d)
  | _ => None
  end.

(** A request for 10 branches and 12 commits over 2024-01-01 .. 2024-01-04,
    where only three dates are eligible (scenario E). *)
Definition example_form : FormData :=
  mkFormData (Some "2024-01-01") (Some "2024-01-04") (Some "10") (Some "12")
    (Some "/repo") (Some "US").

Definition example_rand (i : nat) : Z :=
  (Z.of_nat i + 1) * 6364136223846793005 + 1442695040888963407.


Example make_plan_example :
  (fun plan => (formatDate <$> datesToProcess plan, commitsPerBranch plan))
    <$> match make_plan 53 insertion_sort Number example_Date_parse example_form
                example_rand with
        | inr plan => Some plan
        | inl _ => None
        end
  = Some (["2024-01-02"; "2024-01-04"; "2024-01-03"], [3; 4; 5]).
Proof. vm_compute. reflexivity. Qed.

Lemma partition_by_random_comparator_witness :
  let pool := [newDate 2024 0 2; newDate 2024 0 3; newDate 2024 0 4] in
  let plan := partition 53 insertion_sort pool 2 5 example_rand in
  datesToProcess plan ⊆+ pool
  ∧ NoDup (datesToProcess plan)
  ∧ length (datesToProcess plan) = 2%nat.
Proof.
  cbv zeta.
  destruct (partition_by_random_comparator 53 insertion_sort (insertion_sort_permutes 53)
              [newDate 2024 0 2; newDate 2024 0 3; newDate 2024 0 4] 2 5 example_rand)
    as (Htake & Hperm & Hnodup & _); [discriminate | lia |].
  cbv zeta in Htake, Hperm, Hnodup. split; [|split].
  - rewrite Htake. etrans; [apply sublist_submseteq, sublist_take|]. by rewrite Hperm.
  - apply Hnodup.
    repeat (apply NoDup_cons_2;
            [rewrite ?elem_of_cons, elem_of_nil; vm_compute; intuition discriminate|]).
    apply NoDup_nil_2.
  - rewrite Htake, length_take, (Permutation_length Hperm). reflexivity.
Defined.

(** *** The random-comparator shuffle is not uniform *)

(** All sequences of [n] draws. *)
Fixpoint all_draws (precision : nat) (n : nat) : list (list Z) :=
  match n with
  | O => [[]]
  | S n => r ← seqZ 0 (scale precision);
           (fun draws => r :: draws) <$> all_draws precision n
  end.

(** The stream that starts with the given draws. *)
Definition stream_of (draws : list Z) : nat → Z := fun i => default 0 (draws !! i).

(** The sequences of [n] draws on which the shuffle of [pool] delivers
    [arrangement] (using no more than the [n] draws). *)
Definition draws_giving (precision : nat)
  (Array_sort : ∀ A : Type, list A → SortRun (list A))
  (pool : list Date) (n : nat) (arrangement : list Date) : list (list Z) :=
  filter (fun draws =>
            (run_sort precision (Array_sort Date pool) (stream_of draws) 0).1 = arrangement
            ∧ ((run_sort precision (Array_sort Date pool) (stream_of draws) 0).2 ≤ n)%nat)
    (all_draws precision n).

(** Every arrangement of the pool is equally likely: each of the
    [(length pool)!] arrangements is delivered by the same share of the
    equally likely sequences of draws. *)
Definition unbiased (precision : nat) (Array_sort : ∀ A : Type, list A → SortRun (list A))
  (pool : list Date) (n : nat) : Prop :=
  ∀ arrangement, arrangement ≡ₚ pool →
    (fact (length pool) * length (draws_giving precision Array_sort pool n arrangement))%nat
    = length (all_draws precision n).

Lemma all_draws_length (precision n : nat) :
  Z.of_nat (length (all_draws precision n))
  = 2 ^ (Z.of_nat (bits precision) * Z.of_nat n).
Proof.
  induction n as [|n IH]; [simpl; by rewrite Z.mul_0_r|].
  cbn [all_draws].
  assert (Hbind : ∀ l : list Z,
            Z.of_nat (length (r ← l; (fun draws => r :: draws) <$> all_draws precision n))
            = Z.of_nat (length l) * Z.of_nat (length (all_draws precision n))).
  { intros l. induction l as [|r l IHl]; [done|].
    rewrite bind_cons, length_app, length_fmap, Nat2Z.inj_add, IHl. simpl length. lia. }
  rewrite Hbind, length_seqZ, IH. unfold scale.
  rewrite Z2Nat.id by (apply Z.pow_nonneg; lia).
  rewrite <- Z.pow_add_r by lia. f_equal. lia.
Qed.

Lemma pow2_not_multiple_of_3 (k : Z) (x : Z) : 0 <= k → 3 * x ≠ 2 ^ k.
Proof.
  intros Hk Heq. assert (Hmod : (2 ^ k) mod 3 = 1 ∨ (2 ^ k) mod 3 = 2).
  { clear Heq x. revert k Hk. apply natlike_ind; [by left|].
    intros k Hk IH. rewrite Z.pow_succ_r by done.
    rewrite Z.mul_mod by lia. destruct IH as [-> | ->]; [right | left]; reflexivity. }
  rewrite <- Heq in Hmod. rewrite Z.mul_comm, Z.mod_mul in Hmod by lia. lia.
Qed.

(** C5 as stated fails.  For the pool 2024-01-02 .. 2024-01-04 no engine, no
    precision of the random source and no number of draws makes the six
    arrangements equally likely.  With insertion sort as the engine and a
    two-bit random source, of the 64 equally likely sequences of 3 draws, 36
    leave the pool as it is and a single one reverses it.  And the credit of a
    commit is not decided by the interval of the draw alone: with 52 bits, the
    draw 2573485501354569 / 2^52 lies below 4/7, yet its product with 7
    rounds to 4 and the credit goes to branch 4. *)
Lemma shuffle_is_biased :
  let pool := [newDate 2024 0 2; newDate 2024 0 3; newDate 2024 0 4] in
  (¬ ∃ (precision : nat) (Array_sort : ∀ A : Type, list A → SortRun (list A)) (n : nat),
       unbiased precision Array_sort pool n)
  ∧ (length (all_draws 2 3) = 64%nat
     ∧ length (draws_giving 2 insertion_sort pool 3 pool) = 36%nat
     ∧ length (draws_giving 2 insertion_sort pool 3 (reverse pool)) = 1%nat)
  ∧ (2573485501354569 * 7 < 4 * scale 52 ∧ floor_times 52 2573485501354569 7 = 4).
Proof.
  cbv zeta. split; [|split].
  - intros (precision & Array_sort & n & Hunbiased).
    specialize (Hunbiased [newDate 2024 0 2; newDate 2024 0 3; newDate 2024 0 4]
                  (reflexivity _)).
    apply (f_equal Z.of_nat) in Hunbiased. rewrite all_draws_length in Hunbiased.
    rewrite Nat2Z.inj_mul in Hunbiased. simpl fact in Hunbiased.
    eapply (pow2_not_multiple_of_3 (Z.of_nat (bits precision) * Z.of_nat n)); [lia|].
    rewrite <- Hunbiased. change (Z.of_nat 6) with (3 * 2). rewrite <- Z.mul_assoc.
    reflexivity.
  - vm_compute. repeat split; reflexivity.
  - vm_compute. split; reflexivity.
Qed.

End Partitioner.

(** ** gitOperations.js [processDate] and the per-date loop of server.js *)

Module Pipeline.
Import DateUtils GitOperations Http PrOperations.

(** The [results] object of [processDate]; a field that was never assigned
    is [None]. *)
Record DateResults : Type := mkDateResults {
  date : string;
  branch : option string;
  branchResult : option BranchResult;
  commits_result : option CommitsResult;
  push_result : option Outcome;
  pr : option PRResult
}.

(** One element of the handler's [results] array. *)
Record ProcessResult : Type := mkProcessResult {
  pd_success : bool;
  results : DateResults;
  pd_message : string
}.

(** Lines 1130-1165: check out [main], else [master], else stay; a failed
    pull is only logged.  Returns [baseBranch]. *)
Definition checkout_base (remote : string) : GitProg string :=
  r <- git (git_checkout "main") ;;
  match r with
  | Ok _ => _ <- git (git_pull remote "main") ;; ret "main"
  | Throw _ =>
      r <- git (git_checkout "master") ;;
      match r with
      | Ok _ => _ <- git (git_pull remote "master") ;; ret "master"
      | Throw _ =>
          r <- git git_revparse_HEAD ;;
          ret (match r with Ok currentBranch => currentBranch | Throw _ => "unknown" end)
      end
  end.

Section Process.

Variable LocalTZA : Z → bool → Z.

(** Lines 1205-1276, the review stage: its outcome is stored in [results.pr]
    ([None] when PR creation is not enabled); every failure inside it is
    caught there.  It is a parameter here; [PrOperations] models what it calls. *)
Variable prStage : string → string → string → IO (option PRResult).

(** [processDate(git, date, commitCount, remote, prOptions, repoPath)].  Every
    step catches its own errors, so the outer [catch] is never entered. *)
Definition processDate (date_ : Date) (commitCount : nat) (remote : string)
  (repoPath : option string) : IO ProcessResult :=
  let dateStr := formatDate date_ in
  let branchName := "auto-" +:+ dateStr in
  baseBranch <- lift_git (checkout_base remote) ;;
  branchResult <- lift_git (createBranch branchName remote false) ;;
  let results := mkDateResults dateStr (Some branchName) (Some branchResult) None None None in
  if negb (br_success branchResult)
  then io_ret (mkProcessResult false results
                 ("Failed to create branch: " +:+ br_message branchResult))
  else
    commitResult <- lift_git (createCommits LocalTZA commitCount dateStr repoPath) ;;
    let results := mkDateResults dateStr (Some branchName) (Some branchResult)
                     (Some commitResult) None None in
    if negb (cr_success commitResult)
    then io_ret (mkProcessResult false results
                   ("Failed to create commits: " +:+ cr_message commitResult))
    else
      pushResult <- lift_git (pushBranch branchName remote false) ;;
      let results := mkDateResults dateStr (Some branchName) (Some branchResult)
                       (Some commitResult) (Some pushResult) None in
      if negb (success pushResult)
      then io_ret (mkProcessResult false results
                     ("Failed to push: " +:+ message pushResult))
      else
        _ <- lift_git (git (git_log [branchName; "-1"])) ;;
        prResult <- prStage dateStr branchName baseBranch ;;
        io_ret (mkProcessResult true
                  (mkDateResults dateStr (Some branchName) (Some branchResult)
                     (Some commitResult) (Some pushResult) prResult)
                  ("Successfully processed " +:+ dateStr)).

End Process.

(** The record pushed by the loop's [catch]. *)
Definition exception_record (dateStr m : string) : ProcessResult :=
  mkProcessResult false (mkDateResults dateStr None None None None None)
    ("Exception: " +:+ m).

Section Loop.

(** The call [processDate(git, date, commitsForThisBranch, ...)] as the loop
    sees it: a promise that resolves to a record or rejects. *)
Variable process : Date → nat → IO (result ProcessResult).

(** [for (let i = 0; i < datesToProcess.length; i++)], entered at index [i]
    with the dates not yet processed. *)
Fixpoint process_loop (dates : list Date) (i : nat) (commitsPerBranch : list Z)
  (results : list ProcessResult) : IO (list ProcessResult) :=
  match dates with
  | [] => io_ret results
  | date_ :: dates =>
      let dateStr := formatDate date_ in
      let commitsForThisBranch := Z.to_nat (default 0 (commitsPerBranch !! i)) in
      r <- process date_ commitsForThisBranch ;;
      process_loop dates (S i) commitsPerBranch
        (results ++ [match r with
                     | Ok result => result
                     | Throw m => exception_record dateStr m
                     end])
  end.

Definition successCount (results : list ProcessResult) : nat :=
  length (filter (fun r => pd_success r = true) results).

Definition failureCount (results : list ProcessResult) : nat :=
  (length results - successCount results)%nat.

(** Lines 655-660: the commits counted for the summary,
    [commitsPerBranch[idx] || (r.results.commits.commitCount || 1)] for every
    record whose commits succeeded; the result of [createCommits] has no
    [commitCount]. *)
Fixpoint commitsCreated (results : list ProcessResult) (idx : nat)
  (commitsPerBranch : list Z) : Z :=
  match results with
  | [] => 0
  | r :: results =>
      (match commits_result (Pipeline.results r) with
       | Some commits_ =>
           if cr_success commits_
           then (let count := default 0 (commitsPerBranch !! idx) in
                 if count =? 0 then 1 else count)
           else 0
       | None => 0
       end)
      + commitsCreated results (S idx) commitsPerBranch
  end.

(** The [message] of the 'complete' event. *)
Definition complete_message (results : list ProcessResult) (commitsPerBranch : list Z)
  : string :=
  "Processed " +:+ js_String (Z.of_nat (length results)) +:+ " branches ("
  +:+ js_String (Z.of_nat (successCount results)) +:+ " succeeded, "
  +:+ js_String (Z.of_nat (failureCount results)) +:+ " failed). Created "
  +:+ js_String (commitsCreated results 0 commitsPerBranch) +:+ " commits total.".

(** *** Every assignment gets its record *)

Section LoopRuns.
Context {W : Type} (env : IOEnv W).

(** The attempts at the dates, in order, each begun in the world the attempt
    before it left: how [processDate] ended for the date with its commit
    count, and the calls it made. *)
Fixpoint attempts (dates : list Date) (i : nat) (commitsPerBranch : list Z) (w : W)
  : list (result ProcessResult * list IOEvent) :=
  match dates with
  | [] => []
  | date_ :: dates =>
      let out := run env (process date_ (Z.to_nat (default 0 (commitsPerBranch !! i)))) w in
      (out.1.1, out.2) :: attempts dates (S i) commitsPerBranch out.1.2
  end.

(** An attempt that returned a record that reports success. *)
Definition attempt_succeeded (attempt : result ProcessResult * list IOEvent) : bool :=
  match attempt.1 with Ok result => pd_success result | Throw _ => false end.

(** The record of an attempt at a date: what was returned, or, when the
    attempt threw [m], a failure that names the date and the exception. *)
Definition recorded (date_ : Date) (attempt : result ProcessResult * list IOEvent)
  : ProcessResult :=
  match attempt.1 with
  | Ok result => result
  | Throw m =>
      mkProcessResult false (mkDateResults (formatDate date_) None None None None None)
        ("Exception: " +:+ m)
  end.

Lemma attempts_length (dates : list Date) :
  ∀ i commitsPerBranch w, length (attempts dates i commitsPerBranch w) = length dates.
Proof. induction dates as [|d dates IH]; intros i counts w; simpl; [done|]. by rewrite IH. Qed.

Lemma process_loop_run (dates : list Date) :
  ∀ (i : nat) (commitsPerBranch : list Z) (acc : list ProcessResult) (w : W),
    (run env (process_loop dates i commitsPerBranch acc) w).1.1
    = acc ++ zip_with recorded dates (attempts dates i commitsPerBranch w)
    ∧ (run env (process_loop dates i commitsPerBranch acc) w).2
      = concat (snd <$> attempts dates i commitsPerBranch w).
Proof.
  induction dates as [|date_ dates IH]; intros i counts acc w.
  - simpl. by rewrite app_nil_r.
  - cbn [process_loop attempts]. rewrite run_pbind.
    destruct (run env (process date_ (Z.to_nat (default 0 (counts !! i)))) w)
      as [[r w1] events1] eqn:Hrun.
    cbn [fst snd].
    match goal with |- context [run env (process_loop dates (S i) counts ?acc') w1] =>
      destruct (IH (S i) counts acc' w1) as [Hout Hevents];
      destruct (run env (process_loop dates (S i) counts acc') w1) as [[out w2] events2]
    end.
    cbn [fst snd] in *. rewrite Hout, Hevents, <- app_assoc. split; [|done].
    by f_equal.
Qed.

Lemma successCount_recorded (dates : list Date) :
  ∀ (tried : list (result ProcessResult * list IOEvent)),
    length tried = length dates →
    successCount (zip_with recorded dates tried)
    = length (filter (fun attempt => attempt_succeeded attempt = true) tried).
Proof.
  unfold successCount.
  induction dates as [|d dates IH]; intros [|attempt tried] Hlen; try done.
  cbn [zip_with]. rewrite !filter_cons. simpl in Hlen.
  assert (Hsame : pd_success (recorded d attempt) = attempt_succeeded attempt).
  { unfold recorded, attempt_succeeded. by destruct attempt.1. }
  rewrite Hsame.
  destruct (decide (attempt_succeeded attempt = true)); simpl; rewrite IH by lia; done.
Qed.

Lemma filter_complement {A} (f : A → bool) (l : list A) :
  (length (filter (fun x => f x = true) l) + length (filter (fun x => f x = false) l))%nat
  = length l.
Proof.
  induction l as [|x l IH]; [done|]. rewrite !filter_cons.
  destruct (f x) eqn:Hx.
  - destruct (decide (true = true)); [|done]. destruct (decide (true = false)); [done|].
    simpl. lia.
  - destruct (decide (false = true)); [done|]. destruct (decide (false = false)); [|done].
    simpl. lia.
Qed.

(** C8.  For every plan, every behaviour of [processDate] and every
    environment: the loop attempts the dates of the plan in order, each once,
    with the commit count at its index, and makes no other call; it ends
    with one record per date, in the plan's order: the record at an index is
    what the attempt at that date returned, or, when the attempt threw, a
    record with [success] false that holds the date and the message
    'Exception: ' followed by the exception's message, and the loop went on
    with the next date.  [successCount] is the number of attempts that
    returned a record reporting success, [failureCount] the number of all
    others, thrown or returned; the summary names these two numbers and the
    number of dates; and when returned records carry their date, the
    records' dates are the plan's dates in order. *)
Theorem process_loop_records_all (dates : list Date) (commitsPerBranch : list Z) (w : W) :
  let out := run env (process_loop dates 0 commitsPerBranch []) w in
  let records := out.1.1 in
  let tried := attempts dates 0 commitsPerBranch w in
  length tried = length dates
  ∧ records = zip_with recorded dates tried
  ∧ out.2 = concat (snd <$> tried)
  ∧ length records = length dates
  ∧ successCount records
    = length (filter (fun attempt => attempt_succeeded attempt = true) tried)
  ∧ failureCount records
    = length (filter (fun attempt => attempt_succeeded attempt = false) tried)
  ∧ complete_message records commitsPerBranch
    = "Processed " +:+ js_String (Z.of_nat (length dates)) +:+ " branches ("
      +:+ js_String (Z.of_nat (length (filter (fun attempt =>
                                                 attempt_succeeded attempt = true) tried)))
      +:+ " succeeded, "
      +:+ js_String (Z.of_nat (length (filter (fun attempt =>
                                                 attempt_succeeded attempt = false) tried)))
      +:+ " failed). Created "
      +:+ js_String (commitsCreated records 0 commitsPerBranch) +:+ " commits total."
  ∧ ((∀ date_ n w' r, (run env (process date_ n) w').1.1 = Ok r →
                       date (results r) = formatDate date_) →
     (fun r => date (results r)) <$> records = formatDate <$> dates).
Proof.
  cbv zeta. destruct (process_loop_run dates 0 commitsPerBranch [] w) as [Hout Hevents].
  rewrite app_nil_l in Hout.
  pose proof (attempts_length dates 0 commitsPerBranch w) as Hlen.
  assert (Hrecords : length (run env (process_loop dates 0 commitsPerBranch []) w).1.1
                     = length dates).
  { rewrite Hout, length_zip_with. lia. }
  pose proof (successCount_recorded dates _ Hlen) as Hsucc. rewrite <- Hout in Hsucc.
  pose proof (filter_complement attempt_succeeded (attempts dates 0 commitsPerBranch w))
    as Hsum.
  assert (Hfail : failureCount (run env (process_loop dates 0 commitsPerBranch []) w).1.1
                  = length (filter (fun attempt => attempt_succeeded attempt = false)
                              (attempts dates 0 commitsPerBranch w))).
  { unfold failureCount. rewrite Hsucc, Hrecords. lia. }
  split; [done|]. split; [done|]. split; [done|]. split; [done|]. split; [done|].
  split; [done|]. split.
  { unfold complete_message. by rewrite Hrecords, Hsucc, Hfail. }
  intros Hdate. rewrite Hout. clear Hout Hevents Hrecords Hsucc Hsum Hfail Hlen.
  generalize 0%nat. revert w.
  induction dates as [|d dates IH]; intros w i; [done|].
  cbn [attempts zip_with fmap list_fmap]. f_equal; [|apply IH].
  unfold recorded. cbn [fst].
  destruct (run env (process d _) w) as [[[r|m] w1] events] eqn:Hrun; cbn [fst]; [|done].
  eapply (Hdate d _ w). rewrite Hrun. reflexivity.
Qed.

End LoopRuns.

End Loop.

(** *** The pipeline as the loop calls it *)

Lemma processDate_carries_date {W} (env : IOEnv W) LocalTZA prStage
  (date_ : Date) (commitCount : nat) (remote : string) (repoPath : option string) (w : W) :
  date (results (run env (processDate LocalTZA prStage date_ commitCount remote repoPath)
                   w).1.1)
  = formatDate date_.
Proof.
  unfold processDate. rewrite run_pbind.
  destruct (run env (lift_git (checkout_base remote)) w) as [[baseBranch w1] ev1].
  rewrite run_pbind.
  destruct (run env (lift_git (createBranch _ remote false)) w1) as [[branchResult w2] ev2].
  destruct (br_success branchResult); cbn [negb]; [|reflexivity].
  rewrite run_pbind.
  destruct (run env (lift_git (createCommits LocalTZA commitCount _ repoPath)) w2)
    as [[commitResult w3] ev3].
  destruct (cr_success commitResult); cbn [negb]; [|reflexivity].
  rewrite run_pbind.
  destruct (run env (lift_git (pushBranch _ remote false)) w3) as [[pushResult w4] ev4].
  destruct (success pushResult); cbn [negb]; [|reflexivity].
  rewrite run_pbind.
  destruct (run env (lift_git (git (git_log _))) w4) as [[logged w5] ev5].
  rewrite run_pbind.
  destruct (run env (prStage _ _ _) w5) as [[prResult w6] ev6].
  reflexivity.
Qed.

(** A git environment as an environment for the whole process: no network. *)
Definition offline {W} (genv : GitEnv W) : IOEnv W := fun c w =>
  match c return result (Resp c) * W with
  | Git c => genv c w
  | Net _ _ _ => (Throw "getaddrinfo ENOTFOUND api.github.com", w)
  | Sleep _ => (Ok tt, w)
  end.

(** PR creation not enabled. *)
Definition no_review (dateStr branchName baseBranch : string) : IO (option PRResult) :=
  io_ret None.

(** C3 as stated fails: against a remote that holds the branch already,
    refuses its deletion and rejects the update as non-fast-forward even when
    forced, the deletion is attempted before checkout, the push is retried once
    with force, and the assignment's outcome is the non-fast-forward failure. *)
Lemma non_fast_forward_is_surfaced :
  let out :=
    run (offline rejecting_remote)
      (processDate zone_UTC no_review (newDate 2024 0 2) 1 "origin"
         (Some "/repo")) tt in
  pd_success out.1.1 = false
  ∧ pd_message out.1.1
    = "Failed to push: Error pushing branch: "
      +:+ "! [remote rejected] auto-2024-01-02 -> auto-2024-01-02 (non-fast-forward)"
  ∧ non_fast_forward (pd_message out.1.1) = true
  ∧ omap (fun ev => match ev with
                    | mkEvent (Git (git_push _ ref force)) _ => Some (ref, force)
                    | _ => None
                    end) out.2
    = [ (":auto-2024-01-02", false); ("auto-2024-01-02", false); ("auto-2024-01-02", true) ].
Proof. vm_compute. repeat split; reflexivity. Qed.

(** A remote that accepts everything, seen from a clone that stays on the
    branch of 2024-01-02. *)
Definition remote_of_first_branch : GitEnv unit := fun c w =>
  match c return result (GitResp c) * unit with
  | git_getRemotes => (Ok ["origin"], w)
  | git_revparse_HEAD => (Ok "auto-2024-01-02", w)
  | c => (Ok (default_answer c), w)
  end.

(** [processDate], except that it throws for 2024-01-03. *)
Definition example_process (date_ : Date) (commitCount : nat) : IO (result ProcessResult) :=
  if bool_decide (date_ = newDate 2024 0 3) then io_ret (Throw "boom")
  else r <- processDate zone_UTC no_review date_ commitCount "origin" (Some "/repo") ;;
       io_ret (Ok r).

(** Three dates: the first is processed, the second throws, the third fails
    at the checkout; all three are recorded and counted. *)
Example process_loop_example :
  let records :=
    (run (offline remote_of_first_branch)
       (process_loop example_process [newDate 2024 0 2; newDate 2024 0 3; newDate 2024 0 4]
          0 [2; 1; 1] []) tt).1.1 in
  (fun r => (pd_success r, date (results r), pd_message r)) <$> records
  = [ (true, "2024-01-02", "Successfully processed 2024-01-02");
      (false, "2024-01-03", "Exception: boom");
      (false, "2024-01-04",
       "Failed to create branch: Error creating branch: Failed to checkout branch. Current branch: auto-2024-01-02, Expected: auto-2024-01-04") ]
  ∧ complete_message records [2; 1; 1]
    = "Processed 3 branches (1 succeeded, 2 failed). Created 2 commits total.".
Proof. vm_compute. split; reflexivity. Qed.

End Pipeline.

(** ** dateUtils.js: the countries on offer *)

Module Calendar.
Import DateUtils GitOperations.

(** [{ code, name, region }] *)
Record Country : Type := mkCountry { code : string; country_name : string; region : string }.

Definition getAvailableCountries : list Country :=
  [ mkCountry "US" "United States" "North America";
    mkCountry "CA" "Canada" "North America";
    mkCountry "MX" "Mexico" "North America";
    mkCountry "UK" "United Kingdom" "Europe";
    mkCountry "DE" "Germany" "Europe";
    mkCountry "FR" "France" "Europe";
    mkCountry "IT" "Italy" "Europe";
    mkCountry "ES" "Spain" "Europe";
    mkCountry "NL" "Netherlands" "Europe";
    mkCountry "BE" "Belgium" "Europe";
    mkCountry "CH" "Switzerland" "Europe";
    mkCountry "SE" "Sweden" "Europe";
    mkCountry "NO" "Norway" "Europe";
    mkCountry "PL" "Poland" "Europe";
    mkCountry "PT" "Portugal" "Europe";
    mkCountry "GR" "Greece" "Europe";
    mkCountry "RU" "Russia" "Europe";
    mkCountry "TR" "Turkey" "Europe";
    mkCountry "JP" "Japan" "Asia-Pacific";
    mkCountry "CN" "China" "Asia-Pacific";
    mkCountry "KR" "South Korea" "Asia-Pacific";
    mkCountry "IN" "India" "Asia-Pacific";
    mkCountry "SG" "Singapore" "Asia-Pacific";
    mkCountry "PH" "Philippines" "Asia-Pacific";
    mkCountry "ID" "Indonesia" "Asia-Pacific";
    mkCountry "TH" "Thailand" "Asia-Pacific";
    mkCountry "VN" "Vietnam" "Asia-Pacific";
    mkCountry "AU" "Australia" "Asia-Pacific";
    mkCountry "NZ" "New Zealand" "Asia-Pacific";
    mkCountry "BR" "Brazil" "South America";
    mkCountry "AR" "Argentina" "South America";
    mkCountry "CL" "Chile" "South America";
    mkCountry "ZA" "South Africa" "Africa & Middle East";
    mkCountry "SA" "Saudi Arabia" "Africa & Middle East";
    mkCountry "AE" "United Arab Emirates" "Africa & Middle East";
    mkCountry "NONE" "No Holidays (Sundays only)" "Other" ].

(** The day number of a civil date is recovered from its components. *)
Lemma days_from_civil_from_days (z : Z) :
  days_from_civil (civil_from_days z).1.1 (civil_from_days z).1.2 (civil_from_days z).2 = z.
Proof.
  unfold civil_from_days, days_from_civil. cbv zeta. simpl.
  destruct (_ <? 10) eqn:Hmp; destruct (_ <=? 1) eqn:Hm;
    try apply Z.ltb_lt in Hmp; try apply Z.ltb_ge in Hmp;
    try apply Z.leb_le in Hm; try apply Z.leb_gt in Hm.
  all: Z.div_mod_to_equations; lia.
Qed.

Lemma offered_code_listed :
  Forall (fun country =>
            ∃ holidays, COUNTRY_HOLIDAYS !! code country = Some holidays)
    getAvailableCountries.
Proof.
  unfold getAvailableCountries.
  repeat (apply Forall_cons; split; [eexists; vm_compute; reflexivity|]).
  apply Forall_nil_2.
Qed.

Lemma listed_code_offered :
  Forall (fun entry => entry.1 ∈ code <$> getAvailableCountries) COUNTRY_HOLIDAYS_entries.
Proof.
  apply Forall_forall. intros entry Hentry.
  assert (Hall : forallb (fun entry => bool_decide (entry.1 ∈ code <$> getAvailableCountries))
                   COUNTRY_HOLIDAYS_entries = true) by (vm_compute; reflexivity).
  rewrite forallb_forall in Hall. apply list_elem_of_In, Hall in Hentry.
  by apply bool_decide_eq_true in Hentry.
Qed.

(** X1.  The countries offered for selection are exactly the countries that
    have a holiday table: a code is listed by [getAvailableCountries] if and
    only if it is a key of [COUNTRY_HOLIDAYS]; no code is listed twice; and
    for every country offered [getHolidaysForCountry] returns its table and
    [getValidDates] returns a list for every range of calendar days, without
    throwing. *)
Theorem offered_countries_have_tables :
  (∀ key, key ∈ code <$> getAvailableCountries ↔ is_Some (COUNTRY_HOLIDAYS !! key))
  ∧ NoDup (code <$> getAvailableCountries)
  ∧ Forall (fun country =>
              ∃ holidays,
                COUNTRY_HOLIDAYS !! code country = Some holidays
                ∧ getHolidaysForCountry (code country) = JSArray holidays
                ∧ ∀ startDate endDate, ∃ validDates,
                    getValidDates startDate endDate (code country) = Ok validDates)
      getAvailableCountries.
Proof.
  split; [|split].
  - intros key. split.
    + intros Hkey. apply list_elem_of_fmap in Hkey as (country & -> & Hin).
      pose proof offered_code_listed as Hall. rewrite Forall_forall in Hall.
      destruct (Hall country Hin) as (holidays & ->). by eexists.
    + intros [holidays Hkey]. unfold COUNTRY_HOLIDAYS in Hkey.
      apply elem_of_list_to_map_2 in Hkey.
      pose proof listed_code_offered as Hall. rewrite Forall_forall in Hall.
      exact (Hall _ Hkey).
  - apply (bool_decide_unpack _). vm_compute. exact I.
  - eapply Forall_impl; [exact offered_code_listed|].
    intros country (holidays & Hown). exists holidays.
    pose proof (getHolidaysForCountry_listed _ _ Hown) as Hget. split; [done|].
    split; [done|].
    intros startDate endDate. eexists. unfold getValidDates.
    rewrite (getValidDates_loop_filter _ _ Hget _ _ _ _ eq_refl). reflexivity.
Qed.

End Calendar.

(** ** gitOperations.js: the conflict resolver on arbitrary content *)

Module Resolver.
Import ConflictResolver GitOperations.

(** The characters of a string. *)
Definition chars (s : string) : list ascii := list_ascii_of_string s.

Lemma split_char_cons (sep c : ascii) (s : string) :
  c ≠ sep →
  ∃ piece pieces, split_char sep s = piece :: pieces
                  ∧ split_char sep (String c s) = String c piece :: pieces.
Proof.
  intros Hc. pose proof (split_char_nonempty sep s) as Hne.
  destruct (split_char sep s) as [|piece pieces] eqn:Hs; [done|].
  exists piece, pieces. split; [done|]. cbn [split_char]. rewrite decide_False by done.
  by rewrite Hs.
Qed.

(** No piece of a split contains the separator. *)
Lemma split_char_pieces (sep : ascii) (s : string) :
  Forall (fun piece => sep ∉ chars piece) (split_char sep s).
Proof.
  induction s as [|c s IH]; cbn [split_char].
  - repeat constructor. apply not_elem_of_nil.
  - destruct (decide (c = sep)) as [->|Hc].
    + constructor; [apply not_elem_of_nil | done].
    + destruct (split_char sep s) as [|piece pieces]; [repeat constructor|].
      * cbn. apply not_elem_of_cons. split; [done | apply not_elem_of_nil].
      * apply Forall_cons in IH as [Hp Hps]. constructor; [|done].
        cbn. apply not_elem_of_cons. done.
Qed.

Lemma concat_cons2 (sep x y : string) (l : list string) :
  String.concat sep (x :: y :: l) = x +:+ sep +:+ String.concat sep (y :: l).
Proof. reflexivity. Qed.

(** [s.split(sep).join(sep)] is [s]. *)
Lemma concat_split_char (sep : ascii) (s : string) :
  String.concat (String sep "") (split_char sep s) = s.
Proof.
  induction s as [|c s IH]; [reflexivity|]. cbn [split_char].
  pose proof (split_char_nonempty sep s) as Hne.
  destruct (decide (c = sep)) as [->|Hc].
  - destruct (split_char sep s) as [|piece pieces]; [done|].
    rewrite concat_cons2, IH. reflexivity.
  - destruct (split_char sep s) as [|piece pieces]; [done|].
    destruct pieces as [|p2 pieces].
    + cbn in *. by rewrite IH.
    + rewrite concat_cons2 in *. rewrite string_app_cons. by rewrite IH.
Qed.

Lemma split_char_app_piece (sep : ascii) (piece rest : string) :
  sep ∉ chars piece →
  split_char sep (piece +:+ String sep rest) = piece :: split_char sep rest.
Proof.
  induction piece as [|c piece IH]; intros Hp.
  - rewrite string_app_nil. cbn [split_char]. by rewrite decide_True.
  - cbn in Hp. apply not_elem_of_cons in Hp as [Hc Hp].
    rewrite string_app_cons. cbn [split_char]. rewrite decide_False by done.
    by rewrite (IH Hp).
Qed.

Lemma split_char_piece (sep : ascii) (piece : string) :
  sep ∉ chars piece → split_char sep piece = [piece].
Proof.
  induction piece as [|c piece IH]; intros Hp; [reflexivity|].
  cbn in Hp. apply not_elem_of_cons in Hp as [Hc Hp].
  cbn [split_char]. rewrite decide_False by done. by rewrite (IH Hp).
Qed.

(** [pieces.join(sep).split(sep)] is [pieces], for a non-empty list of
    pieces without the separator. *)
Lemma split_char_concat (sep : ascii) (pieces : list string) :
  pieces ≠ [] → Forall (fun piece => sep ∉ chars piece) pieces →
  split_char sep (String.concat (String sep "") pieces) = pieces.
Proof.
  intros Hne Hall. induction Hall as [|piece pieces Hp Hps IH]; [done|].
  destruct pieces as [|p2 pieces].
  - by apply split_char_piece.
  - rewrite concat_cons2, string_app_cons, string_app_nil.
    rewrite split_char_app_piece by done. by rewrite IH.
Qed.

Lemma split_char_snoc_sep (sep : ascii) (s : string) :
  split_char sep (s +:+ String sep "") = split_char sep s ++ [""].
Proof.
  induction s as [|c s IH].
  - rewrite string_app_nil. cbn [split_char]. by rewrite decide_True.
  - rewrite string_app_cons. cbn [split_char]. rewrite IH.
    destruct (decide (c = sep)); [done|].
    pose proof (split_char_nonempty sep s) as Hne.
    by destruct (split_char sep s).
Qed.

(** A line that is no conflict marker and holds no line feed. *)
Definition clean (line : string) : Prop := is_marker line = false ∧ LF ∉ chars line.

Lemma clean_not_marker (lines : list string) :
  Forall clean lines → Forall (fun line => is_marker line = false) lines.
Proof. intros Hall. eapply Forall_impl; [exact Hall|]. by intros line [Hm _]. Qed.

Lemma clean_no_LF (lines : list string) :
  Forall clean lines → Forall (fun line => LF ∉ chars line) lines.
Proof. intros Hall. eapply Forall_impl; [exact Hall|]. by intros line [_ Hl]. Qed.

(** What the resolved lines and the set of seen lines satisfy throughout. *)
Definition acc_inv (acc : list string * gset string) : Prop :=
  Forall clean acc.1
  ∧ Forall (fun line => nonblank line = true) acc.1
  ∧ NoDup (trim <$> acc.1)
  ∧ ∀ x, x ∈ acc.2 ↔ x ∈ trim <$> acc.1.

Lemma push_unseen_inv acc line : clean line → acc_inv acc → acc_inv (push_unseen acc line).
Proof.
  intros Hline (Hclean & Hnb & Hnd & Hseen). unfold push_unseen.
  destruct (nonempty (trim line)) eqn:Hne; cbn [andb]; [|done].
  case_bool_decide as Hin; cbn [negb]; [done|].
  unfold acc_inv. cbn [fst snd]. rewrite fmap_app. cbn [fmap list_fmap].
  split; [apply Forall_app; split; [done | by constructor]|].
  split; [apply Forall_app; split; [done | by constructor]|].
  split.
  - apply NoDup_app. split; [done|]. split; [|apply NoDup_singleton].
    intros x Hx Hx'. apply list_elem_of_singleton in Hx' as ->. by apply Hin, Hseen.
  - intros x. rewrite elem_of_union, elem_of_singleton, elem_of_app, list_elem_of_singleton.
    rewrite Hseen. tauto.
Qed.

Lemma foldl_push_unseen_inv lines :
  ∀ acc, Forall clean lines → acc_inv acc → acc_inv (foldl push_unseen acc lines).
Proof.
  induction lines as [|line lines IH]; intros acc Hall Hacc; [done|].
  apply Forall_cons in Hall as [Hline Hall]. simpl. apply IH; [done|].
  by apply push_unseen_inv.
Qed.

(** The invariant of the loop over the lines of the log file. *)
Definition merge_inv (m : Merge) : Prop :=
  Forall clean (oursContent m) ∧ Forall clean (theirsContent m)
  ∧ acc_inv (resolvedLines m, seenLines m).

Lemma combine_step_inv m line : LF ∉ chars line → merge_inv m → merge_inv (combine_step m line).
Proof.
  intros Hlf Hm. pose proof Hm as (Ho & Ht & Hacc). unfold combine_step.
  destruct (startsWith line "<<<<<<<") eqn:H1.
  { split; [constructor|]. split; [constructor|]. done. }
  destruct (startsWith line "=======") eqn:H2; [done|].
  destruct (startsWith line ">>>>>>>") eqn:H3.
  { split; [constructor|]. split; [constructor|]. cbn [resolvedLines seenLines].
    rewrite <- surjective_pairing. apply foldl_push_unseen_inv; [|done].
    by apply Forall_app. }
  assert (Hline : clean line).
  { split; [|done]. unfold is_marker. by rewrite H1, H2, H3. }
  destruct (state m).
  - split; [done|]. split; [done|]. cbn [resolvedLines seenLines].
    rewrite <- surjective_pairing. by apply push_unseen_inv.
  - destruct (nonempty (trim line)); [|exact Hm].
    split; [apply Forall_app; split; [done | by constructor]|]. by split.
  - destruct (nonempty (trim line)); [|exact Hm].
    split; [done|]. split; [apply Forall_app; split; [done | by constructor]|]. done.
Qed.

Lemma foldl_combine_step_inv lines :
  ∀ m, Forall (fun line => LF ∉ chars line) lines → merge_inv m →
       merge_inv (foldl combine_step m lines).
Proof.
  induction lines as [|line lines IH]; intros m Hall Hm; [done|].
  apply Forall_cons in Hall as [Hline Hall]. simpl. apply IH; [done|].
  by apply combine_step_inv.
Qed.

Lemma ours_step_inv k line :
  LF ∉ chars line → Forall clean (keptLines k) → Forall clean (keptLines (ours_step k line)).
Proof.
  intros Hlf Hk. unfold ours_step.
  destruct (startsWith line "<<<<<<<") eqn:H1; [done|].
  destruct (startsWith line "=======") eqn:H2; [done|].
  destruct (startsWith line ">>>>>>>") eqn:H3; [done|].
  destruct (negb (inConflict k) || keepOurs k); [|done].
  cbn [keptLines]. apply Forall_app. split; [done|]. constructor; [|done].
  split; [|done]. unfold is_marker. by rewrite H1, H2, H3.
Qed.

Lemma foldl_ours_step_inv lines :
  ∀ k, Forall (fun line => LF ∉ chars line) lines → Forall clean (keptLines k) →
       Forall clean (keptLines (foldl ours_step k lines)).
Proof.
  induction lines as [|line lines IH]; intros k Hall Hk; [done|].
  apply Forall_cons in Hall as [Hline Hall]. simpl. apply IH; [done|].
  by apply ours_step_inv.
Qed.

(** The lines the resolver keeps: the pushed lines of the log file, the kept
    lines of any other file. *)
Definition resolved_lines (file content : string) : list string :=
  if is_log_file file
  then resolvedLines (foldl combine_step (mkMerge normal [] [] [] ∅) (split_lines content))
  else keptLines (foldl ours_step (mkKeep false true []) (split_lines content)).

Lemma resolveFileConflicts_lines (file content : string) :
  resolveFileConflicts file content
  = if is_log_file file then log_text (resolved_lines file content)
    else join_lines (resolved_lines file content).
Proof.
  unfold resolveFileConflicts, resolved_lines, is_log_file.
  by destruct (bool_decide (file = "commits.txt") || endsWith file "commits.txt").
Qed.

Lemma resolved_lines_clean (file content : string) :
  Forall clean (resolved_lines file content)
  ∧ (is_log_file file = true →
     Forall (fun line => nonblank line = true) (resolved_lines file content)
     ∧ NoDup (trim <$> resolved_lines file content)).
Proof.
  unfold resolved_lines. pose proof (split_char_pieces LF content) as Hlines.
  fold (split_lines content) in Hlines. destruct (is_log_file file).
  - destruct (foldl_combine_step_inv (split_lines content) (mkMerge normal [] [] [] ∅) Hlines)
      as (_ & _ & Hclean & Hnb & Hnd & _).
    { split; [constructor|]. split; [constructor|]. split; [constructor|].
      split; [constructor|]. split; [constructor|]. intros x. cbn.
      rewrite elem_of_empty, elem_of_nil. tauto. }
    done.
  - split; [|done]. by apply foldl_ours_step_inv; [|constructor].
Qed.

Lemma split_lines_log_text (lines : list string) :
  Forall clean lines → split_lines (log_text lines) = lines ++ [""].
Proof.
  intros Hclean. unfold log_text, split_lines, join_lines, nl.
  destruct lines as [|line lines]; [reflexivity|].
  rewrite bool_decide_eq_true_2 by (simpl; lia).
  rewrite split_char_snoc_sep, split_char_concat; [done..|]. by apply clean_no_LF.
Qed.

Lemma split_lines_join_lines (lines : list string) :
  Forall clean lines →
  split_lines (join_lines lines) = match lines with [] => [""] | _ => lines end.
Proof.
  intros Hclean. destruct lines as [|line lines]; [reflexivity|].
  unfold split_lines, join_lines, nl. rewrite split_char_concat; [done..|].
  by apply clean_no_LF.
Qed.

Lemma filter_Forall {A} (P : A → Prop) `{∀ x, Decision (P x)} (l : list A) :
  Forall P l → filter P l = l.
Proof.
  induction 1 as [|x l Hx _ IH]; [done|]. by rewrite filter_cons_True, IH.
Qed.

Lemma first_seen_distinct (lines : list string) :
  NoDup (trim <$> lines) → first_seen lines = lines.
Proof.
  induction lines as [|line lines IH]; intros Hnd; simp first_seen; [done|].
  rewrite fmap_cons in Hnd. apply NoDup_cons in Hnd as [Hnew Hnd].
  replace (filter (fun x => trim x ≠ trim line) lines) with lines; [by rewrite IH|].
  symmetry. apply filter_Forall. apply Forall_forall. intros x Hx Heq. apply Hnew.
  rewrite <- Heq. apply list_elem_of_fmap. by exists x.
Qed.

Lemma filter_nonblank_all (lines : list string) :
  Forall (fun line => nonblank line = true) lines →
  filter (fun x => nonblank x = true) (lines ++ [""]) = lines.
Proof.
  intros Hnb. rewrite filter_app.
  rewrite (filter_Forall _ lines) by done.
  rewrite filter_cons_False by (vm_compute; discriminate). by rewrite filter_nil, app_nil_r.
Qed.

(** X2.  On every input, well-formed or not, no line of the resolved content is
    a conflict marker. *)
Theorem resolveFileConflicts_leaves_no_marker (file content : string) :
  Forall (fun line => is_marker line = false)
    (split_lines (resolveFileConflicts file content)).
Proof.
  rewrite resolveFileConflicts_lines.
  destruct (resolved_lines_clean file content) as [Hclean _].
  destruct (is_log_file file).
  - rewrite split_lines_log_text by done. apply Forall_app. split.
    + by apply clean_not_marker.
    + by repeat constructor.
  - rewrite split_lines_join_lines by done.
    destruct (resolved_lines file content); [by repeat constructor|].
    by apply clean_not_marker.
Qed.

(** X3.  Resolving resolved content changes nothing, for every file and input. *)
Theorem resolveFileConflicts_idempotent (file content : string) :
  resolveFileConflicts file (resolveFileConflicts file content)
  = resolveFileConflicts file content.
Proof.
  rewrite (resolveFileConflicts_lines file content).
  destruct (resolved_lines_clean file content) as [Hclean Hlog].
  set (kept := resolved_lines file content) in *.
  unfold resolveFileConflicts. fold (is_log_file file).
  destruct (is_log_file file).
  - destruct Hlog as [Hnb Hnd]; [done|].
    rewrite split_lines_log_text by done.
    rewrite (combine_plain (kept ++ [""])).
    2:{ apply Forall_app. split; [by apply clean_not_marker | by repeat constructor]. }
    cbn [resolvedLines]. rewrite foldl_push_unseen, app_nil_l.
    rewrite (filter_unseen_empty ∅) by done.
    rewrite filter_nonblank_all, first_seen_distinct by done. reflexivity.
  - rewrite split_lines_join_lines by done.
    destruct kept as [|line kept]; [reflexivity|].
    rewrite keep_plain by by apply clean_not_marker. reflexivity.
Qed.

(** X4.  A file other than the log whose content holds no marker line is
    returned as it is. *)
Theorem resolveFileConflicts_unconflicted (file content : string) :
  is_log_file file = false →
  Forall (fun line => is_marker line = false) (split_lines content) →
  resolveFileConflicts file content = content.
Proof.
  intros Hfile Hlines. unfold resolveFileConflicts. fold (is_log_file file).
  rewrite Hfile, keep_plain by done. cbn [keptLines app].
  apply concat_split_char.
Qed.

Lemma resolveFileConflicts_unconflicted_witness :
  resolveFileConflicts "README.md" ("# Title" +:+ nl +:+ nl +:+ "text" +:+ nl)
  = "# Title" +:+ nl +:+ nl +:+ "text" +:+ nl.
Proof.
  apply resolveFileConflicts_unconflicted; [reflexivity|].
  vm_compute. repeat constructor.
Defined.

End Resolver.

(** ** gitOperations.js: what the branch and commit steps never do *)

Module GitSteps.
Import DateUtils GitOperations.

(** Answer the next call of the program under [run], whatever it is. *)
Ltac next_answer env :=
  match goal with
  | |- context [env ?c ?w] =>
      let answer := fresh "answer" in
      let m := fresh "m" in
      let w' := fresh "w" in
      destruct (env c w) as [[answer|m] w'] eqn:?; simpl
  end.

(** What every run of [createBranch] looks like. *)
Lemma createBranch_trace {W} (env : GitEnv W) (w : W)
  (branchName remote : string) (forcePush : bool) :
  let out := run env (createBranch branchName remote forcePush) w in
  (br_success out.1.1 = true →
   last out.2 = Some (mkEvent git_revparse_HEAD (Ok branchName))
   ∧ (mkEvent (git_checkout branchName) (Ok tt) ∈ out.2
      ∨ mkEvent (git_checkoutLocalBranch branchName) (Ok tt) ∈ out.2))
  ∧ (br_success out.1.1 = false →
     ∃ m, br_message out.1.1 = "Error creating branch: " +:+ m)
  ∧ Forall (fun p => p.1.1 = ":" +:+ branchName ∧ p.1.2 = false) (pushes out.2)
  ∧ (length (pushes out.2) ≤ 1)%nat
  ∧ (forcePush = true → pushes out.2 = [])
  ∧ commits out.2 = [] ∧ writes out.2 = [].
Proof.
  cbv zeta.
  unfold createBranch, branchExistsOnRemote, deleteRemoteBranch, try_catch, git, ret.
  simpl.
  repeat (first [next_answer env | case_bool_decide; simpl | destruct forcePush; simpl]).
  all: subst.
  all: simpl in *; repeat match goal with a : unit |- _ => destruct a end.
  all: (split; [first [ intros Hs; discriminate Hs
                      | intros _; split; [reflexivity | rewrite !elem_of_cons; auto 10] ]|]).
  all: (split; [first [ done | intros _; eexists; reflexivity ]|]).
  all: (split; [repeat constructor|]; split; [simpl; lia | done]).
Qed.

(** X5.  In every environment: [createBranch] reports success only after
    [rev-parse --abbrev-ref HEAD], its last call, answered with the branch
    name, following a successful checkout of that branch; a failure carries
    the message 'Error creating branch: ...'; the only push it ever issues is
    the unforced deletion of the remote branch, at most once, and never when
    [forcePush] is set. *)
Theorem createBranch_verifies_checkout {W} (env : GitEnv W) (w : W)
  (branchName remote : string) (forcePush : bool) :
  let out := run env (createBranch branchName remote forcePush) w in
  (br_success out.1.1 = true →
   last out.2 = Some (mkEvent git_revparse_HEAD (Ok branchName))
   ∧ (mkEvent (git_checkout branchName) (Ok tt) ∈ out.2
      ∨ mkEvent (git_checkoutLocalBranch branchName) (Ok tt) ∈ out.2))
  ∧ (br_success out.1.1 = false →
     ∃ m, br_message out.1.1 = "Error creating branch: " +:+ m)
  ∧ Forall (fun p => p.1.1 = ":" +:+ branchName ∧ p.1.2 = false) (pushes out.2)
  ∧ (length (pushes out.2) ≤ 1)%nat
  ∧ (forcePush = true → pushes out.2 = []).
Proof.
  destruct (createBranch_trace env w branchName remote forcePush)
    as (Hok & Hfail & Hpush & Hone & Hforce & _).
  cbv zeta. done.
Qed.

Lemma noon_of_short (LocalTZA : Z → bool → Z) (date : string) :
  (length (split_char "-" date) < 3)%nat → noon_of LocalTZA date = None.
Proof.
  intros Hshort. unfold noon_of, JSDate.new_Date.
  destruct (split_char "-" date) as [|a [|b [|c rest]]]; simpl in *; try lia.
  - done.
  - by destruct (Number a).
  - by destruct (Number a), (Number b).
Qed.

(** X6.  In every environment: for a date string with fewer than three fields
    between hyphens (so that month or day is [undefined]), [createCommits]
    reports failure without results, having written no file and made no
    commit; it has at most asked for the working directory, tested whether
    commits.txt in the repository directory exists and read it; and when
    those calls succeed the message
    is 'Could not determine repository path' or 'Error creating commits:
    Invalid time value'. *)
Theorem createCommits_rejects_short_date (LocalTZA : Z → bool → Z) {W}
  (env : GitEnv W) (w : W) (commitCount : nat) (date : string) (repoPath : option string) :
  (length (split_char "-" date) < 3)%nat →
  let out := run env (createCommits LocalTZA commitCount date repoPath) w in
  cr_success out.1.1 = false
  ∧ cr_results out.1.1 = None
  ∧ commits out.2 = [] ∧ writes out.2 = []
  ∧ Forall (fun ev => match ev_call ev with
                      | git_cwd => True
                      | fs_existsSync filePath | fs_readFileSync filePath =>
                          ∃ dir, filePath = path_join dir "commits.txt"
                      | _ => False
                      end) out.2
  ∧ (Forall (fun ev => is_ok (ev_response ev) = true) out.2 →
     cr_message out.1.1 = "Could not determine repository path"
     ∨ cr_message out.1.1 = "Error creating commits: Invalid time value").
Proof.
  intros Hshort. cbv zeta.
  unfold createCommits, resolve_repoPath, createCommits_in, try_catch, git, ret.
  rewrite (noon_of_short LocalTZA date Hshort).
  destruct repoPath as [[|c p]|]; simpl.
  all: repeat (first [next_answer env | match goal with
                                        | |- context [match ?x with Some _ => _ | None => _ end] =>
                                            destruct x as [[|? ?]|]; simpl
                                        | |- context [if ?b then _ else _] => destruct b; simpl
                                        end]).
  all: do 4 (split; [done|]).
  all: (split; [repeat (constructor; [first [done | by eexists]|]); constructor|]).
  all: intros Hall; repeat (apply Forall_cons in Hall as [? Hall]); simpl in *.
  all: first [by left | by right].
Qed.

Lemma createCommits_rejects_short_date_witness :
  (length (split_char "-" "20240102") < 3)%nat
  ∧ cr_success (result_of quiet_env
                  (createCommits zone_UTC 2 "20240102" (Some "/repo")) tt)
    = false.
Proof.
  assert (Hshort : (length (split_char "-" "20240102") < 3)%nat) by (vm_compute; lia).
  split; [exact Hshort|].
  exact (proj1 (createCommits_rejects_short_date zone_UTC quiet_env tt 2
                  "20240102" (Some "/repo") Hshort)).
Defined.

End GitSteps.

(** ** The calls a program can issue *)

Module Footprint.
Import DateUtils GitOperations Http PrOperations Pipeline.

Section Only.
Context {Call : Type} {Resp : Call → Type}.

(** Every call the program can issue, whatever it is answered, satisfies [P]. *)
Fixpoint only (P : Call → Prop) {R} (p : Prog Call Resp R) : Prop :=
  match p with
  | Ret _ => True
  | Do c k => P c ∧ ∀ answer, only P (k answer)
  end.

Lemma only_run (P : Call → Prop) {R W} (p : Prog Call Resp R) (env : Env Call Resp W) :
  only P p → ∀ w, Forall (fun ev => P (ev_call ev)) (run env p w).2.
Proof.
  induction p as [r | c k IH]; intros Hp w; [constructor|].
  destruct Hp as [Hc Hk]. cbn [run]. destruct (env c w) as [answer w1].
  specialize (IH answer (Hk answer) w1).
  destruct (run env (k answer) w1) as [[r w2] events]. by constructor.
Qed.

Lemma only_pbind (P : Call → Prop) {A B} (p : Prog Call Resp A) (f : A → Prog Call Resp B) :
  only P p → (∀ a, only P (f a)) → only P (pbind p f).
Proof.
  intros Hp Hf. induction p as [a | c k IH]; [apply Hf|].
  destruct Hp as [Hc Hk]. split; [done|]. intros answer. by apply IH.
Qed.

Lemma only_tbind (P : Call → Prop) {A B} (p : Prog Call Resp (result A))
  (f : A → Prog Call Resp (result B)) :
  only P p → (∀ a, only P (f a)) → only P (tbind p f).
Proof. intros Hp Hf. apply only_pbind; [done|]. by intros [a|m]. Qed.

Lemma only_try_catch (P : Call → Prop) {A} (p : Prog Call Resp (result A))
  (handler : string → Prog Call Resp A) :
  only P p → (∀ m, only P (handler m)) → only P (try_catch p handler).
Proof. intros Hp Hh. apply only_pbind; [done|]. by intros [a|m]. Qed.

Lemma only_call (P : Call → Prop) (c : Call) : P c → only P (call c).
Proof. by split. Qed.

Lemma only_weaken (P Q : Call → Prop) {R} (p : Prog Call Resp R) :
  (∀ c, P c → Q c) → only P p → only Q p.
Proof.
  intros HPQ. induction p as [r | c k IH]; [done|].
  intros [Hc Hk]. split; [by apply HPQ|]. intros answer. by apply IH.
Qed.

End Only.

(** The calls of [createCommits]: the working directory, commits.txt on the
    file system, [add], [commit] and [log -1]. *)
Definition commit_call (c : GitCall) : Prop :=
  match c with
  | fs_existsSync filePath | fs_readFileSync filePath | fs_writeFileSync filePath _ =>
      ∃ dir, filePath = path_join dir "commits.txt"
  | git_add fileName => fileName = "commits.txt"
  | git_log args => args = ["-1"]
  | git_cwd | git_commit _ _ => True
  | _ => False
  end.

Lemma createCommits_loop_only (remaining : nat) :
  ∀ i date filePath commitDate content results,
    (∃ dir, filePath = path_join dir "commits.txt") →
    only commit_call
      (createCommits_loop remaining i date filePath commitDate content results).
Proof.
  induction remaining as [|remaining IH]; intros i date filePath commitDate content results;
    [done|].
  cbn [createCommits_loop]. unfold git, ret.
  intros Hpath.
  apply only_tbind; [done|]. intros timestamp.
  apply only_tbind; [by apply only_call|]. intros _.
  apply only_tbind; [by apply only_call|]. intros _.
  apply only_tbind; [done|]. intros commitDateISO.
  apply only_tbind; [by apply only_call|]. intros _.
  apply only_tbind; [by apply only_call|]. intros logResult.
  apply only_tbind; [done|]. intros commitHash. by apply IH.
Qed.

Lemma createCommits_only LocalTZA commitCount date repoPath :
  only commit_call (createCommits LocalTZA commitCount date repoPath).
Proof.
  unfold createCommits, resolve_repoPath, createCommits_in, git, ret.
  apply only_try_catch; [|done].
  apply only_tbind.
  { apply only_pbind; [|done]. destruct (match repoPath with Some _ => _ | None => _ end);
      [done|]. apply only_pbind; [by apply only_call | done]. }
  intros actualRepoPath.
  destruct (negb _); [done|].
  assert (Hpath : ∃ dir, path_join (default "" actualRepoPath) "commits.txt"
                         = path_join dir "commits.txt") by by eexists.
  apply only_tbind; [by apply only_call|]. intros fileExists.
  apply only_tbind; [destruct fileExists; [by apply only_call | done]|]. intros content.
  apply only_tbind; [done|]. intros _.
  apply only_tbind; [by apply createCommits_loop_only | done].
Qed.

(** The calls of [pushBranch]: the list of remotes and pushes of the branch. *)
Definition push_call (branchName remote : string) (c : GitCall) : Prop :=
  match c with
  | git_getRemotes => True
  | git_push remote' ref _ => remote' = remote ∧ ref = branchName
  | _ => False
  end.

Lemma pushBranch_only branchName remote forcePush :
  only (push_call branchName remote) (pushBranch branchName remote forcePush).
Proof.
  assert (Htry : ∀ force, only (push_call branchName remote)
                            (pushBranch_try branchName remote force)).
  { intros force. unfold pushBranch_try, git, ret.
    apply only_tbind; [by apply only_call|]. intros remotes.
    destruct (negb _); [done|]. apply only_tbind; [by apply only_call | done]. }
  assert (Hforced : only (push_call branchName remote) (pushBranch branchName remote true)).
  { rewrite pushBranch_equation_1. by apply only_try_catch. }
  destruct forcePush; [done|]. rewrite pushBranch_equation_2.
  apply only_try_catch; [done|]. intros m. by destruct (non_fast_forward m).
Qed.

(** The calls of [createBranch]: listings, the fetch, the deletion of the
    remote branch, the checkout of the branch and the question where HEAD is. *)
Definition branch_call (branchName remote : string) (c : GitCall) : Prop :=
  match c with
  | git_branchLocal | git_branch_r | git_revparse_HEAD => True
  | git_fetch remote' => remote' = remote
  | git_push remote' ref force => remote' = remote ∧ ref = ":" +:+ branchName ∧ force = false
  | git_checkout b | git_checkoutLocalBranch b => b = branchName
  | _ => False
  end.

Lemma createBranch_only branchName remote forcePush :
  only (branch_call branchName remote) (createBranch branchName remote forcePush).
Proof.
  unfold createBranch, branchExistsOnRemote, deleteRemoteBranch, git, ret.
  apply only_try_catch; [|done].
  apply only_tbind; [by apply only_call|]. intros branches.
  apply only_tbind.
  { apply only_pbind; [|done]. apply only_try_catch; [|done].
    apply only_tbind; [by apply only_call|]. intros _.
    apply only_tbind; [by apply only_call | done]. }
  intros existsRemotely. apply only_tbind.
  { destruct (existsRemotely && negb forcePush); [|done].
    apply only_pbind; [|done]. apply only_try_catch; [|done].
    apply only_tbind; [by apply only_call | done]. }
  intros _. apply only_tbind; [destruct (bool_decide _); by apply only_call|].
  intros _. apply only_tbind; [by apply only_call|]. intros currentBranch.
  by destruct (bool_decide _).
Qed.

(** The calls of [checkout_base]. *)
Definition base_call (remote : string) (c : GitCall) : Prop :=
  match c with
  | git_checkout b => b = "main" ∨ b = "master"
  | git_pull remote' b => remote' = remote ∧ (b = "main" ∨ b = "master")
  | git_revparse_HEAD => True
  | _ => False
  end.

Lemma checkout_base_only remote : only (base_call remote) (checkout_base remote).
Proof.
  unfold checkout_base, git, ret.
  apply only_pbind; [apply only_call; by left|]. intros [_|_].
  { apply only_pbind; [apply only_call; split; [done | by left] | done]. }
  apply only_pbind; [apply only_call; by right|]. intros [_|_].
  { apply only_pbind; [apply only_call; split; [done | by right] | done]. }
  apply only_pbind; [by apply only_call | done].
Qed.

Lemma only_lift_git (P : GitCall → Prop) (Q : Call → Prop) {R} (p : GitProg R) :
  (∀ c, P c → Q (Git c)) → only P p → only Q (lift_git p).
Proof.
  intros HPQ. induction p as [r | c k IH]; [done|].
  intros [Hc Hk]. split; [by apply HPQ|]. intros answer. by apply IH.
Qed.

(** Everything [processDate] may ask of git and the file system for the
    branch [branchName] on [remote]. *)
Definition date_call (branchName remote : string) (c : GitCall) : Prop :=
  match c with
  | git_checkout b => b = "main" ∨ b = "master" ∨ b = branchName
  | git_checkoutLocalBranch b => b = branchName
  | git_pull remote' b => remote' = remote ∧ (b = "main" ∨ b = "master")
  | git_fetch remote' => remote' = remote
  | git_push remote' ref force =>
      remote' = remote ∧ (ref = branchName ∨ (ref = ":" +:+ branchName ∧ force = false))
  | git_add fileName => fileName = "commits.txt"
  | git_log args => args = ["-1"] ∨ args = [branchName; "-1"]
  | fs_existsSync filePath | fs_readFileSync filePath | fs_writeFileSync filePath _ =>
      ∃ dir, filePath = path_join dir "commits.txt"
  | git_branchLocal | git_branch_r | git_revparse_HEAD | git_cwd | git_getRemotes
  | git_commit _ _ => True
  end.

(** A call of the whole process that is one of those, or a call of the
    review stage. *)
Definition date_io_call (Q : Call → Prop) (branchName remote : string) (c : Call) : Prop :=
  match c with
  | Git c => date_call branchName remote c ∨ Q (Git c)
  | c => Q c
  end.

Lemma processDate_only (Q : Call → Prop) LocalTZA
  (prStage : string → string → string → IO (option PRResult))
  (date_ : Date) (commitCount : nat) (remote : string) (repoPath : option string) :
  (∀ dateStr branchName baseBranch, only Q (prStage dateStr branchName baseBranch)) →
  only (date_io_call Q ("auto-" +:+ formatDate date_) remote)
    (processDate LocalTZA prStage date_ commitCount remote repoPath).
Proof.
  intros Hreview. unfold processDate. set (branchName := "auto-" +:+ formatDate date_).
  apply only_pbind.
  { eapply only_lift_git; [|apply checkout_base_only].
    intros [] Hc; simpl in *; try done; left; simpl; tauto. }
  intros baseBranch. apply only_pbind.
  { eapply only_lift_git; [|apply (createBranch_only branchName remote)].
    intros [] Hc; simpl in *; try done; left; simpl; tauto. }
  intros branchResult. destruct (negb (br_success branchResult)); [done|].
  apply only_pbind.
  { eapply only_lift_git; [|apply createCommits_only].
    intros [] Hc; simpl in *; try done; left; simpl; tauto. }
  intros commitResult. destruct (negb (cr_success commitResult)); [done|].
  apply only_pbind.
  { eapply only_lift_git; [|apply (pushBranch_only branchName remote)].
    intros [] Hc; simpl in *; try done; left; simpl; tauto. }
  intros pushResult. destruct (negb (success pushResult)); [done|].
  apply only_pbind.
  { eapply only_lift_git; [|apply only_call with (P := fun c => c = git_log [branchName; "-1"])];
      [|done]. intros c ->. left. simpl. by right. }
  intros _. apply only_pbind; [|done].
  eapply only_weaken; [|apply Hreview]. intros [c| |] Hc; simpl; tauto.
Qed.

(** X7.  In every environment, whatever the calls are answered: [processDate] for
    a date checks out only main, master and the date's own branch, pulls only
    main or master, pushes only the date's branch (or its unforced deletion)
    to the given remote, stages only commits.txt, reads and writes no file
    other than a commits.txt, and otherwise only lists, fetches, commits and
    reads the log; every other call is a call of the review stage. *)
Theorem processDate_footprint (Q : Call → Prop) LocalTZA
  (prStage : string → string → string → IO (option PRResult)) {W} (env : IOEnv W) (w : W)
  (date_ : Date) (commitCount : nat) (remote : string) (repoPath : option string) :
  (∀ dateStr branchName baseBranch, only Q (prStage dateStr branchName baseBranch)) →
  Forall (fun ev => date_io_call Q ("auto-" +:+ formatDate date_) remote (ev_call ev))
    (run env (processDate LocalTZA prStage date_ commitCount remote repoPath) w).2.
Proof. intros Hreview. by apply only_run, processDate_only. Qed.

Lemma processDate_footprint_witness :
  (∀ dateStr branchName baseBranch,
     only (fun _ => False) (no_review dateStr branchName baseBranch))
  ∧ Forall (fun ev => date_io_call (fun _ => False) "auto-2024-01-02" "origin" (ev_call ev))
      (run (offline quiet_env)
         (processDate zone_UTC no_review (newDate 2024 0 2) 1 "origin"
            (Some "/repo")) tt).2.
Proof.
  split; [intros; exact I|].
  exact (processDate_footprint (fun _ => False) zone_UTC no_review
           (offline quiet_env) tt (newDate 2024 0 2) 1 "origin" (Some "/repo")
           (fun _ _ _ => I)).
Defined.

End Footprint.

(** ** gitOperations.js: the order of the stages of [processDate] *)

Module Stages.
Import DateUtils GitOperations Http PrOperations Pipeline Calendar GitSteps Footprint.

(** The git side of an environment. *)
Definition git_part {W} (env : IOEnv W) : GitEnv W := fun c w => env (Git c) w.

(** A git call as a call of the whole process. *)
Definition lift_event (ev : GitEvent) : IOEvent :=
  mkEvent (Git (ev_call ev)) (ev_response ev).

Lemma run_lift_git {W R} (env : IOEnv W) (p : GitProg R) (w : W) :
  run env (lift_git p) w
  = ((run (git_part env) p w).1, lift_event <$> (run (git_part env) p w).2).
Proof.
  revert w. induction p as [r | c k IH]; intros w; [reflexivity|].
  cbn [lift_git run]. unfold git_part at 1 3. destruct (env (Git c) w) as [answer w1].
  rewrite IH. by destruct (run (git_part env) (k answer) w1) as [[r w2] events].
Qed.

(** [checkout_base] only checks out, pulls and asks for the current branch. *)
Lemma checkout_base_trace {W} (env : GitEnv W) (w : W) (remote : string) :
  let out := run env (checkout_base remote) w in
  commits out.2 = [] ∧ writes out.2 = [] ∧ pushes out.2 = [].
Proof.
  cbv zeta. unfold checkout_base, git, ret, call. simpl.
  repeat next_answer env; done.
Qed.

Lemma commits_only (P : GitCall → Prop) (trace : list GitEvent) :
  (∀ commitMessage dateOption, ¬ P (git_commit commitMessage dateOption)) →
  Forall (fun ev => P (ev_call ev)) trace → commits trace = [].
Proof.
  intros HP. induction 1 as [|[c answer] trace Hc _ IH]; [done|].
  unfold commits in *. cbn [omap list_omap]. rewrite IH.
  destruct c; try done. by apply HP in Hc.
Qed.

Lemma writes_only (P : GitCall → Prop) (trace : list GitEvent) :
  (∀ filePath content, ¬ P (fs_writeFileSync filePath content)) →
  Forall (fun ev => P (ev_call ev)) trace → writes trace = [].
Proof.
  intros HP. induction 1 as [|[c answer] trace Hc _ IH]; [done|].
  unfold writes in *. cbn [omap list_omap]. rewrite IH.
  destruct c; try done. by apply HP in Hc.
Qed.

Lemma pushes_only (P : GitCall → Prop) (trace : list GitEvent) :
  (∀ remote ref force, ¬ P (git_push remote ref force)) →
  Forall (fun ev => P (ev_call ev)) trace → pushes trace = [].
Proof.
  intros HP. induction 1 as [|[c answer] trace Hc _ IH]; [done|].
  unfold pushes in *. cbn [omap list_omap]. rewrite IH.
  destruct c; try done. by apply HP in Hc.
Qed.

Lemma pushes_ref (branchName remote : string) (trace : list GitEvent) :
  Forall (fun ev => push_call branchName remote (ev_call ev)) trace →
  Forall (fun p => p.1.1 = branchName) (pushes trace).
Proof.
  induction 1 as [|[c answer] trace Hc _ IH]; [constructor|].
  unfold pushes in *. cbn [omap list_omap].
  destruct c; try done. cbn. constructor; [|done]. by destruct Hc.
Qed.

Lemma pushes_app (events1 events2 : list GitEvent) :
  pushes (events1 ++ events2) = pushes events1 ++ pushes events2.
Proof. unfold pushes. apply omap_app. Qed.

(** What the final value of [pushBranch] says about its pushes. *)
Lemma pushBranch_success {W} (env : GitEnv W) (w : W) (branchName remote : string) :
  let out := run env (pushBranch branchName remote false) w in
  success out.1.1 = true ↔ ∃ force, (branchName, force, Ok tt) ∈ pushes out.2.
Proof.
  cbv zeta. pose proof (pushBranch_cases env w branchName remote) as Hcases.
  destruct (run env (pushBranch branchName remote false) w) as [[out w1] trace].
  cbn [fst snd].
  destruct (pushes trace) as [|[[ref force] answer] rest].
  { rewrite Hcases. split; [done|]. intros (force & Hin). by apply elem_of_nil in Hin. }
  destruct force.
  - destruct rest; [|done]. destruct Hcases as [-> ->].
    destruct answer as [[]|m]; simpl.
    + split; [|done]. intros _. exists true. apply list_elem_of_singleton. done.
    + split; [done|]. intros (force & Hin). apply list_elem_of_singleton in Hin. done.
  - destruct answer as [[]|m].
    + destruct rest; [|done]. destruct Hcases as [-> ->]. simpl.
      split; [|done]. intros _. exists false. apply list_elem_of_singleton. done.
    + destruct rest as [|[[ref' force'] answer'] rest].
      * destruct Hcases as (-> & Hfail & _). rewrite Hfail. split; [done|].
        intros (force & Hin). apply list_elem_of_singleton in Hin. done.
      * destruct force'; [|done]. destruct rest; [|done].
        destruct Hcases as (-> & -> & _ & ->).
        destruct answer' as [[]|m']; simpl.
        -- split; [|done]. intros _. exists true. rewrite !elem_of_cons. auto.
        -- split; [done|]. intros (force & Hin). rewrite !elem_of_cons in Hin.
           destruct Hin as [Hin|[Hin|Hin]]; [done..|]. by apply elem_of_nil in Hin.
Qed.

Lemma colon_branch (branchName : string) : ":" +:+ branchName ≠ branchName.
Proof.
  intros Heq. apply (f_equal String.length) in Heq.
  change (":" +:+ branchName) with (String ":" branchName) in Heq. simpl in Heq. lia.
Qed.

Section Order.
Context (LocalTZA : Z → bool → Z).
Context (prStage : string → string → string → IO (option PRResult)).
Context {W : Type} (env : IOEnv W).

(** X8.  In every environment the git calls of [processDate] for a date
    (1970-01-01 or later) fall into a setup part and a work part, followed by
    the calls of the review stage.  The setup part writes no file, makes no
    commit and pushes nothing but the deletion of the remote branch; when any
    work follows, its last call is the [rev-parse] that answered with the
    date's branch.  Every push of the work part is a push of that branch, and
    when there is one, the Date built for the date's local noon is valid and
    the commits made are exactly the [commitCount] commits of the date, each
    dated with its ISO rendering.  The date is reported as a success
    exactly when a push of the branch, forced or not, succeeded; the review
    stage runs only then, and its answer is what the record holds. *)
Theorem processDate_stage_order (w : W) (d : Date) (commitCount : nat) (remote : string)
  (repoPath : option string) :
  0 <= dayNumber d →
  let dateStr := formatDate d in
  let branchName := "auto-" +:+ dateStr in
  let out := run env (processDate LocalTZA prStage d commitCount remote repoPath) w in
  ∃ setup work review,
    out.2 = (lift_event <$> (setup ++ work)) ++ review
    ∧ commits setup = [] ∧ writes setup = []
    ∧ Forall (fun p => p.1.1 = ":" +:+ branchName) (pushes setup)
    ∧ (work ≠ [] → last setup = Some (mkEvent git_revparse_HEAD (Ok branchName)))
    ∧ Forall (fun p => p.1.1 = branchName) (pushes work)
    ∧ ((∃ p, p ∈ pushes work) →
       ∃ noon, local_noon LocalTZA d = Some noon
               ∧ commits work
                 = expected_commit dateStr noon <$> seqZ 1 (Z.of_nat commitCount))
    ∧ (pd_success out.1.1 = true ↔ ∃ force, (branchName, force, Ok tt) ∈ pushes work)
    ∧ (pd_success out.1.1 = false → review = [])
    ∧ (pd_success out.1.1 = true →
       ∃ baseBranch w', review = (run env (prStage dateStr branchName baseBranch) w').2
                        ∧ pr (results out.1.1)
                          = (run env (prStage dateStr branchName baseBranch) w').1.1).
Proof.
  intros Hd dateStr branchName. cbv zeta. unfold processDate.
  fold dateStr. fold branchName.
  rewrite run_pbind, run_lift_git.
  pose proof (checkout_base_trace (git_part env) w remote) as (Hc1 & Hw1 & Hp1).
  destruct (run (git_part env) (checkout_base remote) w) as [[baseBranch w1] ev1].
  cbn [fst snd] in *.
  rewrite run_pbind, run_lift_git.
  pose proof (createBranch_trace (git_part env) w1 branchName remote false)
    as (Hok & _ & Hpush2 & _ & _ & Hc2 & Hw2).
  destruct (run (git_part env) (createBranch branchName remote false) w1)
    as [[branchResult w2] ev2].
  cbn [fst snd] in *.
  assert (Hsetup : commits (ev1 ++ ev2) = [] ∧ writes (ev1 ++ ev2) = []
                   ∧ Forall (fun p => p.1.1 = ":" +:+ branchName) (pushes (ev1 ++ ev2))).
  { rewrite commits_app, writes_app, pushes_app, Hc1, Hc2, Hw1, Hw2, Hp1.
    split; [done|]. split; [done|]. eapply Forall_impl; [exact Hpush2|]. by intros p [Hp _]. }
  destruct Hsetup as (Hcs & Hws & Hps).
  destruct (br_success branchResult) eqn:Hbs; cbn [negb].
  2:{ exists (ev1 ++ ev2), [], []. cbn [run io_ret fst snd pd_success].
      rewrite !app_nil_r, fmap_app.
      split; [done|]. split; [done|]. split; [done|]. split; [done|]. split; [done|].
      split; [constructor|]. split.
      { intros (p & Hp). by apply elem_of_nil in Hp. }
      split.
      { split; [done|]. intros (force & Hin). by apply elem_of_nil in Hin. }
      split; [done|]. done. }
  destruct (Hok eq_refl) as [Hlast _].
  assert (Hlast' : last (ev1 ++ ev2) = Some (mkEvent git_revparse_HEAD (Ok branchName))).
  { destruct ev2 as [|e ev2] using rev_ind; [done|].
    rewrite app_assoc, last_snoc. by rewrite last_snoc in Hlast. }
  rewrite run_pbind, run_lift_git.
  pose proof (createCommits_commits LocalTZA (git_part env) dateStr commitCount repoPath
                w2) as Hsucc.
  cbv zeta in Hsucc.
  pose proof (only_run _ _ (git_part env)
                (createCommits_only LocalTZA commitCount dateStr repoPath) w2) as Hfoot3.
  destruct (run (git_part env) (createCommits LocalTZA commitCount dateStr repoPath) w2)
    as [[commitResult w3] ev3].
  cbn [fst snd] in *.
  assert (Hp3 : pushes ev3 = []).
  { apply (pushes_only commit_call); [|exact Hfoot3]. by intros r ref force Hbad. }
  destruct (cr_success commitResult) eqn:Hcr; cbn [negb].
  2:{ exists (ev1 ++ ev2), ev3, []. cbn [run io_ret fst snd pd_success].
      rewrite !app_nil_r, !fmap_app, <- !app_assoc.
      split; [done|]. split; [done|]. split; [done|]. split; [done|]. split; [done|].
      rewrite Hp3.
      split; [constructor|]. split.
      { intros (p & Hp). by apply elem_of_nil in Hp. }
      split.
      { split; [done|]. intros (force & Hin). by apply elem_of_nil in Hin. }
      split; [done|]. done. }
  destruct (Hsucc eq_refl) as (noon & Hnoon & Hcommits).
  unfold dateStr in Hnoon. rewrite noon_of_formatDate in Hnoon
    by (destruct (civil_from_days_bounds (dayNumber d) Hd) as [Hy _];
        unfold getFullYear; lia).
  rewrite run_pbind, run_lift_git.
  pose proof (pushBranch_success (git_part env) w3 branchName remote) as Hpushed.
  cbv zeta in Hpushed.
  pose proof (only_run _ _ (git_part env) (pushBranch_only branchName remote false) w3)
    as Hfoot4.
  destruct (run (git_part env) (pushBranch branchName remote false) w3)
    as [[pushResult w4] ev4].
  cbn [fst snd] in *.
  assert (Hc4 : commits ev4 = []).
  { apply (commits_only (push_call branchName remote)); [|exact Hfoot4].
    by intros commitMessage dateOption Hbad. }
  pose proof (pushes_ref _ _ _ Hfoot4) as Href4.
  destruct (success pushResult) eqn:Hps4; cbn [negb].
  2:{ exists (ev1 ++ ev2), (ev3 ++ ev4), []. cbn [run io_ret fst snd pd_success].
      rewrite !app_nil_r, !fmap_app, <- !app_assoc.
      split; [done|]. split; [done|]. split; [done|]. split; [done|]. split; [done|].
      rewrite pushes_app, commits_app, Hp3, Hc4, app_nil_l, app_nil_r.
      split; [done|]. split; [by intros _; exists noon|]. split; [|done].
      rewrite <- Hpushed. done. }
  rewrite run_pbind, run_lift_git.
  destruct (run (git_part env) (git (git_log [branchName; "-1"])) w4)
    as [[logged w5] ev5] eqn:Hlog.
  assert (Hev5 : commits ev5 = [] ∧ pushes ev5 = []).
  { unfold git, call in Hlog. cbn [run] in Hlog.
    destruct (git_part env (git_log [branchName; "-1"]) w4) as [answer w'].
    by injection Hlog as <- <- <-. }
  destruct Hev5 as [Hc5 Hp5]. cbn [fst snd].
  rewrite run_pbind.
  destruct (run env (prStage dateStr branchName baseBranch) w5) as [[prResult w6] ev6] eqn:Hpr.
  exists (ev1 ++ ev2), (ev3 ++ ev4 ++ ev5), ev6. cbn [run io_ret fst snd pd_success].
  rewrite !app_nil_r, !fmap_app, <- !app_assoc.
  split; [done|]. split; [done|]. split; [done|]. split; [done|]. split; [done|].
  rewrite !pushes_app, !commits_app, Hp3, Hc4, Hc5, Hp5, app_nil_l, !app_nil_r.
  split; [done|]. split; [by intros _; exists noon|]. split; [by rewrite <- Hpushed|].
  split; [done|]. intros _. exists baseBranch, w5. by rewrite Hpr.
Qed.

Lemma processDate_carries_branch (w : W) (d : Date) (commitCount : nat) (remote : string)
  (repoPath : option string) :
  branch (results (run env (processDate LocalTZA prStage d commitCount remote repoPath)
                     w).1.1)
  = Some ("auto-" +:+ formatDate d).
Proof.
  unfold processDate. rewrite run_pbind.
  destruct (run env (lift_git (checkout_base remote)) w) as [[baseBranch w1] ev1].
  rewrite run_pbind.
  destruct (run env (lift_git (createBranch _ remote false)) w1) as [[branchResult w2] ev2].
  destruct (br_success branchResult); cbn [negb]; [|reflexivity].
  rewrite run_pbind.
  destruct (run env (lift_git (createCommits LocalTZA commitCount _ repoPath)) w2)
    as [[commitResult w3] ev3].
  destruct (cr_success commitResult); cbn [negb]; [|reflexivity].
  rewrite run_pbind.
  destruct (run env (lift_git (pushBranch _ remote false)) w3) as [[pushResult w4] ev4].
  destruct (success pushResult); cbn [negb]; [|reflexivity].
  rewrite run_pbind.
  destruct (run env (lift_git (git (git_log _))) w4) as [[logged w5] ev5].
  rewrite run_pbind.
  destruct (run env (prStage _ _ _) w5) as [[prResult w6] ev6].
  reflexivity.
Qed.

Lemma formatDate_injective (a b : Date) :
  0 <= dayNumber a → 0 <= dayNumber b → formatDate a = formatDate b → a = b.
Proof.
  intros Ha Hb Heq. apply (f_equal (fun s => Number <$> split_char "-" s)) in Heq.
  destruct (civil_from_days_bounds _ Ha) as [Hya _].
  destruct (civil_from_days_bounds _ Hb) as [Hyb _].
  rewrite !parts_of_formatDate in Heq by (unfold getFullYear; lia).
  injection Heq as Hy Hm Hd.
  assert (Hm' : getMonth a = getMonth b) by lia. clear Hm.
  destruct a as [za], b as [zb]. f_equal.
  rewrite <- (days_from_civil_from_days za), <- (days_from_civil_from_days zb).
  unfold getFullYear, getMonth, getDate in *. simpl in *. by rewrite Hy, Hm', Hd.
Qed.

(** X9.  Two different dates (1970-01-01 or later) are never processed on the
    same branch: in every environment the branch names recorded by
    [processDate] for them differ. *)
Theorem branch_names_distinct (w w' : W) (a b : Date) (commitCount commitCount' : nat)
  (remote : string) (repoPath : option string) :
  0 <= dayNumber a → 0 <= dayNumber b → a ≠ b →
  branch (results (run env (processDate LocalTZA prStage a commitCount remote repoPath)
                     w).1.1)
  ≠ branch (results (run env (processDate LocalTZA prStage b commitCount' remote repoPath)
                       w').1.1).
Proof.
  intros Ha Hb Hne. rewrite !processDate_carries_branch. intros Heq.
  injection Heq as Heq. by apply Hne, formatDate_injective.
Qed.

End Order.

(** A remote that accepts everything, seen from a clone that is on the
    branch of 2024-01-02 after the checkout. *)
Definition accepting_remote : GitEnv unit := fun c w =>
  match c return result (GitResp c) * unit with
  | git_getRemotes => (Ok ["origin"], w)
  | git_revparse_HEAD => (Ok "auto-2024-01-02", w)
  | c => (Ok (default_answer c), w)
  end.

Lemma processDate_stage_order_witness :
  0 <= dayNumber (newDate 2024 0 2)
  ∧ ∃ setup work review,
      (run (offline accepting_remote)
         (processDate zone_UTC no_review (newDate 2024 0 2) 2 "origin"
            (Some "/repo")) tt).2
      = (lift_event <$> (setup ++ work)) ++ review
      ∧ last setup = Some (mkEvent git_revparse_HEAD (Ok "auto-2024-01-02"))
      ∧ (∃ force, ("auto-2024-01-02", force, Ok tt) ∈ pushes work)
      ∧ commits work
        = [ ("Auto commit 1 for 2024-01-02", "2024-01-02T12:00:00.000Z", Ok tt);
            ("Auto commit 2 for 2024-01-02", "2024-01-02T12:00:00.000Z", Ok tt) ].
Proof.
  assert (Hd : 0 <= dayNumber (newDate 2024 0 2)) by (vm_compute; discriminate).
  split; [exact Hd|].
  destruct (processDate_stage_order zone_UTC no_review (offline accepting_remote)
              tt (newDate 2024 0 2) 2 "origin" (Some "/repo") Hd)
    as (setup & work & review & Htrace & _ & _ & _ & Hlast & _ & Hcommits & Hsucc & _).
  exists setup, work, review. split; [exact Htrace|].
  assert (Hpushed : ∃ force, ("auto-" +:+ formatDate (newDate 2024 0 2), force, Ok tt)
                             ∈ pushes work).
  { apply Hsucc. vm_compute. reflexivity. }
  destruct Hpushed as (force & Hin). split; [|split].
  - apply Hlast. intros ->. by apply elem_of_nil in Hin.
  - by exists force.
  - destruct Hcommits as (noon & Hnoon & ->); [by eexists|].
    vm_compute in Hnoon. injection Hnoon as <-. vm_compute. reflexivity.
Defined.

Lemma branch_names_distinct_witness :
  0 <= dayNumber (newDate 2024 0 2) ∧ 0 <= dayNumber (newDate 2024 0 3)
  ∧ newDate 2024 0 2 ≠ newDate 2024 0 3
  ∧ branch (results (run (offline quiet_env)
                       (processDate zone_UTC no_review (newDate 2024 0 2) 1
                          "origin" None) tt).1.1)
    ≠ branch (results (run (offline quiet_env)
                         (processDate zone_UTC no_review (newDate 2024 0 3) 1
                            "origin" None) tt).1.1).
Proof.
  assert (Ha : 0 <= dayNumber (newDate 2024 0 2)) by (vm_compute; discriminate).
  assert (Hb : 0 <= dayNumber (newDate 2024 0 3)) by (vm_compute; discriminate).
  assert (Hne : newDate 2024 0 2 ≠ newDate 2024 0 3) by (vm_compute; discriminate).
  split; [exact Ha|]. split; [exact Hb|]. split; [exact Hne|].
  exact (branch_names_distinct zone_UTC no_review (offline quiet_env) tt tt
           (newDate 2024 0 2) (newDate 2024 0 3) 1 1 "origin" None Ha Hb Hne).
Defined.

End Stages.

(** ** Facts about the string methods *)

Module StringFacts.
Import GitOperations.

Lemma string_app_assoc (a b c : string) : (a +:+ b) +:+ c = a +:+ (b +:+ c).
Proof. induction a as [|x a IH]; [done|]. by rewrite !string_app_cons, IH. Qed.

Lemma prefix_app (p rest : string) : String.prefix p (p +:+ rest) = true.
Proof.
  induction p as [|c p IH]; [by destruct rest|].
  rewrite string_app_cons. simpl. by destruct (ascii_dec c c).
Qed.

Lemma prefix_split (p s : string) :
  String.prefix p s = true → ∃ rest, s = p +:+ rest.
Proof.
  revert s. induction p as [|c p IH]; intros s Hp.
  - by exists s.
  - destruct s as [|d s]; [done|]. simpl in Hp.
    destruct (ascii_dec c d) as [->|]; [|done].
    destruct (IH s Hp) as (rest & ->). by exists rest.
Qed.

Lemma includes_app (a p b : string) : includes (a +:+ p +:+ b) p = true.
Proof.
  induction a as [|c a IH].
  - rewrite string_app_nil.
    destruct (p +:+ b) eqn:E; cbn [includes]; rewrite <- E, prefix_app; done.
  - rewrite string_app_cons. cbn [includes]. rewrite IH. apply orb_true_r.
Qed.

Lemma rev_app_spec (s acc : string) : String.rev_app s acc = String.rev s +:+ acc.
Proof.
  unfold String.rev. revert acc. induction s as [|c s IH]; intros acc; [done|].
  simpl. rewrite (IH (String c acc)), (IH (String c "")), string_app_assoc. done.
Qed.

Lemma rev_cons (c : ascii) (s : string) : String.rev (String c s) = String.rev s +:+ String c "".
Proof. unfold String.rev at 1. simpl. apply rev_app_spec. Qed.

Lemma rev_app (a b : string) : String.rev (a +:+ b) = String.rev b +:+ String.rev a.
Proof.
  induction a as [|c a IH].
  - by rewrite string_app_nil, string_app_empty.
  - by rewrite string_app_cons, !rev_cons, IH, string_app_assoc.
Qed.

Lemma rev_involutive (s : string) : String.rev (String.rev s) = s.
Proof.
  induction s as [|c s IH]; [done|]. by rewrite rev_cons, rev_app, IH.
Qed.

Lemma trimStart_suffix (s : string) : ∃ pre, s = pre +:+ trimStart s.
Proof.
  induction s as [|c s (pre & IH)]; [by exists ""|]. cbn [trimStart].
  destruct (is_trimmed_char c).
  - exists (String c pre). by rewrite string_app_cons, <- IH.
  - by exists "".
Qed.

(** [s.trim()] is a piece of [s]. *)
Lemma trim_infix (s : string) : ∃ pre post, s = pre +:+ trim s +:+ post.
Proof.
  unfold trim. destruct (trimStart_suffix s) as (pre & Hs).
  destruct (trimStart_suffix (String.rev (trimStart s))) as (post & Hr).
  exists pre, (String.rev post). rewrite Hs at 1. f_equal.
  rewrite <- (rev_involutive (trimStart s)) at 1. rewrite Hr at 1. apply rev_app.
Qed.

End StringFacts.

(** ** Regular expressions, as the sources use them

    A backtracking matcher for the fragment of ECMAScript patterns that
    occurs in the sources: literals, character classes, [+] on a class
    (greedy), sequence, alternation, capturing groups and [$]. *)

Module Regex.
Import GitOperations StringFacts.

Inductive regex : Type :=
| Eps
| Class (p : ascii → bool)
| Many1 (p : ascii → bool)
| Seq (r1 r2 : regex)
| Alt (r1 r2 : regex)
| Group (r : regex)
| End.

(** A literal, character by character. *)
Fixpoint lit (s : string) : regex :=
  match s with
  | "" => Eps
  | String c rest => Seq (Class (Ascii.eqb c)) (lit rest)
  end.

(** [class+]: as many characters as possible first, then fewer. *)
Fixpoint many1 {A} (p : ascii → bool) (input : string) (k : string → option A) : option A :=
  match input with
  | String c rest =>
      if p c then match many1 p rest k with Some m => Some m | None => k rest end
      else None
  | "" => None
  end.

(** Match [r] at the start of [input]; the continuation [k] receives the
    rest of the input and the groups captured so far, and may fail, which
    makes the matcher backtrack. *)
Fixpoint rmatch {A} (r : regex) (input : string) (groups : list string)
  (k : string → list string → option A) : option A :=
  match r with
  | Eps => k input groups
  | Class p =>
      match input with
      | String c rest => if p c then k rest groups else None
      | "" => None
      end
  | Many1 p => many1 p input (fun rest => k rest groups)
  | Seq r1 r2 => rmatch r1 input groups (fun rest groups' => rmatch r2 rest groups' k)
  | Alt r1 r2 =>
      match rmatch r1 input groups k with
      | Some m => Some m
      | None => rmatch r2 input groups k
      end
  | Group r =>
      rmatch r input groups
        (fun rest groups' =>
           k rest (groups' ++ [substring 0 (String.length input - String.length rest) input]))
  | End => match input with "" => k "" groups | _ => None end
  end.

(** A match: the text before it, the groups, the text after it. *)
Record Match : Type := mkMatch { before : string; groups : list string; after : string }.

(** A match that starts at the start of [input] ([^pattern]). *)
Definition match_start (r : regex) (before input : string) : option Match :=
  rmatch r input [] (fun rest groups => Some (mkMatch before groups rest)).

(** The leftmost match. *)
Fixpoint search (r : regex) (before input : string) : option Match :=
  match match_start r before input with
  | Some m => Some m
  | None =>
      match input with
      | "" => None
      | String c rest => search r (before +:+ String c "") rest
      end
  end.

(** [s.match(/pattern/)] *)
Definition exec (r : regex) (s : string) : option Match := search r "" s.

(** [match[i]] for a group [i >= 1] that took part in the match. *)
Definition group (m : Match) (i : nat) : string := default "" (groups m !! (i - 1)%nat).

Lemma rmatch_lit {A} (s rest : string) groups (k : string → list string → option A) :
  rmatch (lit s) (s +:+ rest) groups k = k rest groups.
Proof.
  induction s as [|c s IH]; [done|]. rewrite string_app_cons. cbn [lit rmatch].
  by rewrite Ascii.eqb_refl.
Qed.

Lemma many1_run {A} (p : ascii → bool) (run rest : string) (k : string → option A) m :
  run ≠ "" → Forall (fun c => p c = true) (list_ascii_of_string run) →
  many1 p rest k = None → k rest = Some m →
  many1 p (run +:+ rest) k = Some m.
Proof.
  intros Hne Hall Hstop Hk. induction run as [|c run IH]; [done|].
  cbn in Hall. apply Forall_cons in Hall as [Hc Hall].
  rewrite string_app_cons. cbn [many1]. rewrite Hc.
  destruct run as [|d run].
  - rewrite string_app_nil, Hstop. done.
  - by rewrite IH.
Qed.

Lemma many1_stop {A} (p : ascii → bool) (c : ascii) (rest : string) (k : string → option A) :
  p c = false → many1 p (String c rest) k = None.
Proof. intros Hc. cbn. by rewrite Hc. Qed.

Lemma search_skip (r : regex) (skipped : string) :
  Forall (fun c => ∀ before rest, match_start r before (String c rest) = None)
    (list_ascii_of_string skipped) →
  ∀ before input,
    search r before (skipped +:+ input) = search r (before +:+ skipped) input.
Proof.
  intros Hall. induction skipped as [|c skipped IH]; intros before input.
  - by rewrite string_app_nil, string_app_empty.
  - cbn in Hall. apply Forall_cons in Hall as [Hc Hall].
    rewrite string_app_cons. cbn [search]. rewrite Hc, (IH Hall), string_app_assoc. done.
Qed.

Lemma rmatch_lit_inv {A} (s input : string) groups (k : string → list string → option A) m :
  rmatch (lit s) input groups k = Some m →
  ∃ rest, input = s +:+ rest ∧ k rest groups = Some m.
Proof.
  revert input. induction s as [|c s IH]; intros input Hm.
  - by exists input.
  - cbn [lit rmatch] in Hm. destruct input as [|d input]; [done|].
    destruct (Ascii.eqb c d) eqn:Hcd; [|done]. apply Ascii.eqb_eq in Hcd as <-.
    destruct (IH input Hm) as (rest & -> & Hk). by exists rest.
Qed.

Lemma substring_app (x y : string) :
  substring 0 (String.length (x +:+ y) - String.length y) (x +:+ y) = x.
Proof.
  assert (Hlen : ∀ a b, String.length (a +:+ b) = (String.length a + String.length b)%nat).
  { intros a b. induction a as [|c a IH]; [done|]. rewrite string_app_cons. simpl. lia. }
  rewrite Hlen. replace (String.length x + String.length y - String.length y)%nat
    with (String.length x) by lia.
  induction x as [|c x IH]; [by destruct y|]. rewrite string_app_cons. simpl. by rewrite IH.
Qed.

End Regex.

(** ** gitOperations.js and prOperations.js: repository addresses *)

Module RepoUrl.
Import GitOperations Http PrOperations StringFacts Resolver Regex.

(** [String.prototype.toLowerCase] on one code unit below 256: the letters A
    to Z, and À to Þ except the multiplication sign. *)
Definition lower_char (c : ascii) : ascii :=
  let n := nat_of_ascii c in
  if ((65 <=? n) && (n <=? 90) || (192 <=? n) && (n <=? 222) && negb (n =? 215))%nat
  then ascii_of_nat (n + 32) else c.

(** [s.toLowerCase()] *)
Fixpoint toLowerCase (s : string) : string :=
  match s with
  | "" => ""
  | String c rest => String (lower_char c) (toLowerCase rest)
  end.

(** A literal under the [i] flag: a character of the input matches a
    character of the pattern when the two agree up to case. *)
Fixpoint lit_i (s : string) : regex :=
  match s with
  | "" => Eps
  | String c rest => Seq (Class (fun d => Ascii.eqb (lower_char d) (lower_char c))) (lit_i rest)
  end.

(** [(https?:\/\/|git@)(github\.com|gitlab\.com|bitbucket\.org)], after
    the [^] of [/^(https?:\/\/|git@)(github\.com|gitlab\.com|bitbucket\.org)/i]. *)
Definition urlPattern : regex :=
  Seq (Group (Alt (Seq (lit_i "http") (Seq (Alt (lit_i "s") Eps) (lit_i "://")))
                  (lit_i "git@")))
      (Group (Alt (lit_i "github.com") (Alt (lit_i "gitlab.com") (lit_i "bitbucket.org")))).

(** [isRepoUrl(path)] *)
Definition isRepoUrl (path : string) : bool :=
  if negb (nonempty path) then false
  else bool_decide (is_Some (match_start urlPattern "" (trim path))).

(** [detectPlatform(repoUrl)] *)
Definition detectPlatform (repoUrl : string) : option string :=
  if negb (nonempty repoUrl) then None
  else
    let url := toLowerCase repoUrl in
    if includes url "github.com" then Some "github"
    else if includes url "gitlab.com" || includes url "gitlab" then Some "gitlab"
    else if includes url "bitbucket.org" || includes url "bitbucket" then Some "bitbucket"
    else None.

(** [/\.git$/] *)
Definition dot_git : regex := Seq (lit ".git") End.

(** [repoUrl.replace(/\.git$/, '')] *)
Definition strip_git (repoUrl : string) : string :=
  match exec dot_git repoUrl with
  | Some m => before m +:+ after m
  | None => repoUrl
  end.

Definition CR : ascii := "013"%char.

(** The class [.]: any character but a line terminator. *)
Definition dot (c : ascii) : bool := negb (Ascii.eqb c LF || Ascii.eqb c CR).

(** [/@([^:]+):(.+)$/] *)
Definition ssh_pattern : regex :=
  Seq (lit "@")
    (Seq (Group (Many1 (fun c => negb (Ascii.eqb c ":"))))
       (Seq (lit ":") (Seq (Group (Many1 dot)) End))).

(** [/[:/]([^/:]+)\/([^/]+)$/] *)
Definition name_pattern : regex :=
  Seq (Class (fun c => Ascii.eqb c ":" || Ascii.eqb c "/"))
    (Seq (Group (Many1 (fun c => negb (Ascii.eqb c "/" || Ascii.eqb c ":"))))
       (Seq (lit "/") (Seq (Group (Many1 (fun c => negb (Ascii.eqb c "/")))) End))).

(** [{ host, owner, repo }]; [repo] is [undefined] when the path of an SSH
    address holds no slash. *)
Record Parsed : Type := mkParsed {
  parsed_host : string;
  parsed_owner : string;
  parsed_repo : option string
}.

Section URLs.

Variable new_URL : string → option string → result URL.

(** [url.pathname.split('/').filter(p => p)] *)
Definition path_parts (url : URL) : list string :=
  filter (fun p => nonempty p = true) (split_char "/" (url_pathname url)).

(** [parseRepoUrl(repoUrl)]; [None] is [null]. *)
Definition parseRepoUrl (repoUrl : string) : option Parsed :=
  if negb (nonempty repoUrl) then None
  else
    let repoUrl := strip_git repoUrl in
    match (if includes repoUrl "@" then exec ssh_pattern repoUrl else None) with
    | Some m =>
        let parts := split_char "/" (group m 2) in
        Some (mkParsed (group m 1) (default "" (parts !! 0%nat)) (parts !! 1%nat))
    | None =>
        match new_URL repoUrl None with
        | Ok url =>
            let parts := path_parts url in
            if (length parts <? 2)%nat then None
            else Some (mkParsed (url_hostname url) (default "" (parts !! 0%nat))
                         (parts !! 1%nat))
        | Throw _ => None
        end
    end.

(** [extractRepoName(repoUrl)] *)
Definition extractRepoName (repoUrl : string) : string :=
  let repoUrl := strip_git repoUrl in
  match (if includes repoUrl "@" then exec name_pattern repoUrl else None) with
  | Some m => group m 2
  | None =>
      match new_URL repoUrl None with
      | Ok url => default "repo" (last (path_parts url))
      | Throw _ => "repo"
      end
  end.

End URLs.

Lemma toLowerCase_app (a b : string) : toLowerCase (a +:+ b) = toLowerCase a +:+ toLowerCase b.
Proof. induction a as [|c a IH]; [done|]. rewrite string_app_cons. simpl. by rewrite IH. Qed.

Lemma rmatch_lit_i_inv {A} (s input : string) groups (k : string → list string → option A) m :
  rmatch (lit_i s) input groups k = Some m →
  ∃ x rest, input = x +:+ rest ∧ toLowerCase x = toLowerCase s ∧ k rest groups = Some m.
Proof.
  revert input. induction s as [|c s IH]; intros input Hm.
  - by exists "", input.
  - cbn [lit_i rmatch] in Hm. destruct input as [|d input]; [done|].
    destruct (Ascii.eqb (lower_char d) (lower_char c)) eqn:Hcd; [|done].
    apply Ascii.eqb_eq in Hcd.
    destruct (IH input Hm) as (x & rest & -> & Hx & Hk).
    exists (String d x), rest. split; [done|]. split; [|done]. simpl. by rewrite Hcd, Hx.
Qed.

(** The hosts of the pattern. *)
Definition repo_hosts : list string := ["github.com"; "gitlab.com"; "bitbucket.org"].

Lemma urlPattern_inv (input : string) (m : Match) :
  match_start urlPattern "" input = Some m →
  ∃ scheme host rest,
    input = scheme +:+ host +:+ rest ∧ toLowerCase host ∈ repo_hosts
    ∧ groups m = [scheme; host].
Proof.
  unfold match_start, urlPattern. cbn [rmatch]. intros Hm.
  assert (Hhost : ∀ input1 groups1 m,
            (match rmatch (lit_i "github.com") input1 groups1
                     (fun rest groups' =>
                        Some (mkMatch ""
                                (groups' ++ [substring 0 (String.length input1
                                                          - String.length rest) input1])
                                rest)) with
             | Some m => Some m
             | None =>
                 match rmatch (lit_i "gitlab.com") input1 groups1
                         (fun rest groups' =>
                            Some (mkMatch ""
                                    (groups' ++ [substring 0 (String.length input1
                                                              - String.length rest) input1])
                                    rest)) with
                 | Some m => Some m
                 | None =>
                     rmatch (lit_i "bitbucket.org") input1 groups1
                       (fun rest groups' =>
                          Some (mkMatch ""
                                  (groups' ++ [substring 0 (String.length input1
                                                            - String.length rest) input1])
                                  rest))
                 end
             end) = Some m →
            ∃ host rest, input1 = host +:+ rest ∧ toLowerCase host ∈ repo_hosts
                         ∧ groups m = groups1 ++ [host]).
  { intros input1 groups1 m1 H1.
    destruct (rmatch (lit_i "github.com") _ _ _) as [m2|] eqn:E1.
    { injection H1 as ->. apply rmatch_lit_i_inv in E1 as (x & rest & -> & Hx & [= <-]).
      exists x, rest. split; [done|]. rewrite Hx, substring_app. split; [by left | done]. }
    destruct (rmatch (lit_i "gitlab.com") _ _ _) as [m2|] eqn:E2.
    { injection H1 as ->. apply rmatch_lit_i_inv in E2 as (x & rest & -> & Hx & [= <-]).
      exists x, rest. split; [done|]. rewrite Hx, substring_app.
      split; [right; by left | done]. }
    apply rmatch_lit_i_inv in H1 as (x & rest & -> & Hx & [= <-]).
    exists x, rest. split; [done|]. rewrite Hx, substring_app.
    split; [right; right; by left | done]. }
  match type of Hm with
  | match ?a with Some m => Some m | None => ?b end = _ =>
      destruct a as [m1|] eqn:Ea; [injection Hm as ->|]
  end.
  - apply rmatch_lit_i_inv in Ea as (x1 & rest1 & -> & _ & Ea). cbn [rmatch] in Ea.
    match type of Ea with
    | match ?a with Some m => Some m | None => ?b end = _ =>
        destruct a as [m2|] eqn:Eb; [injection Ea as ->|]
    end.
    + apply rmatch_lit_i_inv in Eb as (x2 & rest2 & -> & _ & Eb).
      apply rmatch_lit_i_inv in Eb as (x3 & rest3 & -> & _ & Eb).
      apply Hhost in Eb as (host & rest & -> & Hin & Hg).
      exists (x1 +:+ x2 +:+ x3), host, rest. rewrite !string_app_assoc. split; [done|].
      split; [done|]. rewrite Hg. cbn [app]. f_equal.
      replace (x1 +:+ x2 +:+ x3 +:+ host +:+ rest)
        with ((x1 +:+ x2 +:+ x3) +:+ host +:+ rest) by (by rewrite !string_app_assoc).
      apply substring_app.
    + cbn [rmatch] in Ea. apply rmatch_lit_i_inv in Ea as (x3 & rest3 & -> & _ & Ec).
      apply Hhost in Ec as (host & rest & -> & Hin & Hg).
      exists (x1 +:+ x3), host, rest. rewrite !string_app_assoc. split; [done|].
      split; [done|]. rewrite Hg. cbn [app]. f_equal.
      replace (x1 +:+ x3 +:+ host +:+ rest)
        with ((x1 +:+ x3) +:+ host +:+ rest) by (by rewrite !string_app_assoc).
      apply substring_app.
  - apply rmatch_lit_i_inv in Hm as (x1 & rest1 & -> & _ & Eb).
    apply Hhost in Eb as (host & rest & -> & Hin & Hg).
    exists x1, host, rest. split; [done|]. split; [done|]. rewrite Hg. cbn [app]. f_equal.
    apply substring_app.
Qed.

Lemma includes_lower (path pre host post : string) :
  path = pre +:+ host +:+ post → includes (toLowerCase path) (toLowerCase host) = true.
Proof. intros ->. rewrite !toLowerCase_app. apply includes_app. Qed.

(** X10.  Every path that [isRepoUrl] accepts has a platform that
    [detectPlatform] detects, and a path accepted for its host github.com is
    detected as GitHub. *)
Theorem isRepoUrl_detectPlatform (path : string) :
  isRepoUrl path = true →
  ∃ m platform,
    match_start urlPattern "" (trim path) = Some m
    ∧ detectPlatform path = Some platform
    ∧ platform ∈ ["github"; "gitlab"; "bitbucket"]
    ∧ (toLowerCase (group m 2) = "github.com" → platform = "github").
Proof.
  unfold isRepoUrl. destruct (nonempty path) eqn:Hne; [|done]. cbn [negb].
  intros Hm. apply bool_decide_eq_true in Hm as [m Hm]. exists m.
  destruct (urlPattern_inv _ _ Hm) as (scheme & host & rest & Htrim & Hhost & Hgroups).
  destruct (trim_infix path) as (pre & post & Hpath).
  assert (Hinc : includes (toLowerCase path) (toLowerCase host) = true).
  { apply (includes_lower _ (pre +:+ scheme) _ (rest +:+ post)).
    rewrite Hpath at 1. rewrite Htrim, !string_app_assoc. done. }
  unfold group. rewrite Hgroups. cbn [lookup list_lookup default from_option id Nat.sub].
  unfold detectPlatform. rewrite Hne. cbn [negb].
  unfold repo_hosts in Hhost. rewrite !elem_of_cons, elem_of_nil in Hhost.
  destruct (includes (toLowerCase path) "github.com") eqn:Hgh.
  { exists "github". split; [done|]. split; [done|]. split; [by left | done]. }
  destruct (includes (toLowerCase path) "gitlab.com" || includes (toLowerCase path) "gitlab")
    eqn:Hgl.
  { exists "gitlab". split; [done|]. split; [done|]. split; [right; by left|].
    intros Hh. rewrite Hh in Hinc. congruence. }
  apply orb_false_elim in Hgl as [Hgl _].
  destruct Hhost as [Hh|[Hh|[Hh|[]]]]; rewrite Hh in Hinc; [congruence..|].
  rewrite Hinc. exists "bitbucket". split; [done|]. split; [done|].
  split; [right; right; by left|]. intros Hh'. congruence.
Qed.

Lemma isRepoUrl_detectPlatform_witness :
  isRepoUrl "  git@GitHub.com:owner/repo.git " = true
  ∧ detectPlatform "  git@GitHub.com:owner/repo.git " = Some "github".
Proof.
  assert (Hurl : isRepoUrl "  git@GitHub.com:owner/repo.git " = true) by (vm_compute; done).
  split; [exact Hurl|].
  destruct (isRepoUrl_detectPlatform _ Hurl) as (m & platform & Hm & Hp & _ & Hgh).
  rewrite Hp. f_equal. apply Hgh.
  assert (Hm' : match_start urlPattern "" (trim "  git@GitHub.com:owner/repo.git ")
                = Some (mkMatch "" ["git@"; "GitHub.com"] ":owner/repo.git"))
    by (vm_compute; reflexivity).
  rewrite Hm' in Hm. injection Hm as <-. reflexivity.
Defined.

Lemma length_app (a b : string) :
  String.length (a +:+ b) = (String.length a + String.length b)%nat.
Proof. induction a as [|c a IH]; [done|]. rewrite string_app_cons. simpl. lia. Qed.

Lemma substring_full (s : string) :
  substring 0 (String.length s - String.length "") s = s.
Proof. pose proof (substring_app s "") as H. by rewrite string_app_empty in H. Qed.

Lemma dot_git_here (before input : string) (m : Match) :
  match_start dot_git before input = Some m → input = ".git".
Proof.
  unfold match_start, dot_git. cbn [rmatch]. intros Hm.
  apply rmatch_lit_inv in Hm as (rest & -> & Hm). cbn [rmatch] in Hm. by destruct rest.
Qed.

Lemma search_dot_git (s : string) :
  ∀ before, search dot_git before (s +:+ ".git") = Some (mkMatch (before +:+ s) [] "").
Proof.
  induction s as [|c s IH]; intros before.
  - rewrite string_app_nil, string_app_empty. reflexivity.
  - rewrite string_app_cons. cbn [search].
    destruct (match_start dot_git before (String c (s +:+ ".git"))) as [m|] eqn:Hm.
    + apply dot_git_here in Hm. apply (f_equal String.length) in Hm.
      simpl in Hm. rewrite length_app in Hm. simpl in Hm. lia.
    + rewrite IH, string_app_assoc. done.
Qed.

(** A trailing [.git] is removed, once. *)
Lemma strip_git_suffix (s : string) : strip_git (s +:+ ".git") = s.
Proof.
  unfold strip_git, exec. rewrite search_dot_git. cbn [before after].
  by rewrite string_app_nil, string_app_empty.
Qed.

Lemma exec_ssh_pattern (user host path : string) :
  Forall (fun c => c ≠ "@"%char) (chars user) →
  host ≠ "" → Forall (fun c => c ≠ ":"%char) (chars host) →
  path ≠ "" → Forall (fun c => dot c = true) (chars path) →
  exec ssh_pattern (user +:+ "@" +:+ host +:+ ":" +:+ path)
  = Some (mkMatch user [host; path] "").
Proof.
  intros Huser Hhost Hcolon Hpath Hdot. unfold exec. rewrite search_skip.
  2:{ eapply Forall_impl; [exact Huser|]. intros c Hc before rest.
      unfold match_start, ssh_pattern. cbn [lit rmatch].
      destruct (Ascii.eqb "@" c) eqn:E; [|done]. apply Ascii.eqb_eq in E. by subst. }
  rewrite string_app_nil.
  assert (Hhere : match_start ssh_pattern user ("@" +:+ host +:+ ":" +:+ path)
                  = Some (mkMatch user [host; path] "")).
  { unfold match_start, ssh_pattern. cbn [rmatch]. rewrite rmatch_lit. cbn [rmatch].
    erewrite many1_run; [reflexivity|done| | |].
    - eapply Forall_impl; [exact Hcolon|]. intros c Hc.
      destruct (Ascii.eqb c ":") eqn:E; [|done]. by apply Ascii.eqb_eq in E.
    - reflexivity.
    - rewrite substring_app. cbn [app]. rewrite rmatch_lit. cbn [rmatch].
      rewrite <- (string_app_empty path) at 1 2.
      erewrite many1_run; [reflexivity|done|exact Hdot|reflexivity|].
      by rewrite string_app_empty, substring_full. }
  destruct ("@" +:+ host +:+ ":" +:+ path) eqn:E; cbn [search]; by rewrite Hhere.
Qed.

Lemma exec_name_pattern (start owner repo : string) :
  Forall (fun c => c ≠ ":"%char ∧ c ≠ "/"%char) (chars start) →
  owner ≠ "" → Forall (fun c => c ≠ ":"%char ∧ c ≠ "/"%char) (chars owner) →
  repo ≠ "" → Forall (fun c => c ≠ "/"%char) (chars repo) →
  exec name_pattern (start +:+ ":" +:+ owner +:+ "/" +:+ repo)
  = Some (mkMatch start [owner; repo] "").
Proof.
  intros Hstart Howner Hsep Hrepo Hslash. unfold exec. rewrite search_skip.
  2:{ eapply Forall_impl; [exact Hstart|]. intros c [Hc1 Hc2] before rest.
      unfold match_start, name_pattern. cbn [rmatch].
      destruct (Ascii.eqb c ":") eqn:E1; [by apply Ascii.eqb_eq in E1|].
      destruct (Ascii.eqb c "/") eqn:E2; [by apply Ascii.eqb_eq in E2|]. done. }
  rewrite string_app_nil.
  assert (Hhere : match_start name_pattern start (":" +:+ owner +:+ "/" +:+ repo)
                  = Some (mkMatch start [owner; repo] "")).
  { unfold match_start, name_pattern. rewrite string_app_cons, string_app_nil.
    cbn [rmatch]. cbn [Ascii.eqb Bool.eqb orb andb].
    erewrite many1_run; [reflexivity|done| | |].
    - eapply Forall_impl; [exact Hsep|]. intros c [Hc1 Hc2].
      destruct (Ascii.eqb c "/") eqn:E2; [by apply Ascii.eqb_eq in E2|].
      destruct (Ascii.eqb c ":") eqn:E1; [by apply Ascii.eqb_eq in E1|]. done.
    - reflexivity.
    - rewrite substring_app. cbn [app]. rewrite rmatch_lit. cbn [rmatch].
      rewrite <- (string_app_empty repo) at 1 2.
      erewrite many1_run; [reflexivity|done| |reflexivity|].
      + eapply Forall_impl; [exact Hslash|]. intros c Hc.
        destruct (Ascii.eqb c "/") eqn:E; [by apply Ascii.eqb_eq in E | done].
      + by rewrite string_app_empty, substring_full. }
  destruct (":" +:+ owner +:+ "/" +:+ repo) eqn:E; cbn [search]; by rewrite Hhere.
Qed.

Lemma chars_app (a b : string) : chars (a +:+ b) = chars a ++ chars b.
Proof.
  unfold chars. induction a as [|c a IH]; [done|]. rewrite string_app_cons.
  cbn [list_ascii_of_string]. by rewrite IH.
Qed.

Lemma dot_chars (bad : list ascii) (s : string) :
  LF ∈ bad → CR ∈ bad → Forall (fun c => c ∉ bad) (chars s) →
  Forall (fun c => dot c = true) (chars s).
Proof.
  intros HLF HCR Hall. eapply Forall_impl; [exact Hall|]. intros c Hc. unfold dot.
  destruct (Ascii.eqb c LF) eqn:E1; [apply Ascii.eqb_eq in E1; by subst|].
  destruct (Ascii.eqb c CR) eqn:E2; [apply Ascii.eqb_eq in E2; by subst|]. done.
Qed.

Section Addresses.
Context (new_URL : string → option string → result URL).

(** X11.  For an SSH address [user@host:owner/repo.git] (no [@], colon or slash in
    the user, no colon or slash in the host, no colon, slash or line break
    in the owner, no slash or line break in the repository name, none of
    the last three empty): [parseRepoUrl] returns the host, the owner and
    the repository name, and [extractRepoName] returns the same repository
    name; no URL is parsed for it. *)
Theorem ssh_address_parsed (user host owner repo : string) :
  Forall (fun c => c ∉ ["@"; ":"; "/"]%char) (chars user) →
  host ≠ "" → Forall (fun c => c ∉ [":"; "/"]%char) (chars host) →
  owner ≠ "" → Forall (fun c => c ∉ [":"%char; "/"%char; LF; CR]) (chars owner) →
  repo ≠ "" → Forall (fun c => c ∉ ["/"%char; LF; CR]) (chars repo) →
  let address := user +:+ "@" +:+ host +:+ ":" +:+ owner +:+ "/" +:+ repo +:+ ".git" in
  parseRepoUrl new_URL address = Some (mkParsed host owner (Some repo))
  ∧ extractRepoName new_URL address = repo.
Proof.
  intros Huser Hhost Hhc Howner Hoc Hrepo Hrc address.
  assert (Hstrip : strip_git address
                   = user +:+ "@" +:+ host +:+ ":" +:+ owner +:+ "/" +:+ repo).
  { replace address
      with ((user +:+ "@" +:+ host +:+ ":" +:+ owner +:+ "/" +:+ repo) +:+ ".git")
      by (unfold address; by rewrite !string_app_assoc).
    apply strip_git_suffix. }
  assert (Hat : includes (user +:+ "@" +:+ host +:+ ":" +:+ owner +:+ "/" +:+ repo) "@"
                = true) by apply includes_app.
  split.
  - unfold parseRepoUrl.
    replace (nonempty address) with true.
    2:{ unfold address.
        destruct user; [rewrite string_app_nil|]; rewrite string_app_cons; reflexivity. }
    cbn [negb]. rewrite Hstrip, Hat.
    rewrite (exec_ssh_pattern user host (owner +:+ "/" +:+ repo)); try done.
    + unfold group. cbn [groups lookup list_lookup default from_option id Nat.sub].
      change (owner +:+ "/" +:+ repo) with (owner +:+ String "/" repo).
      rewrite split_char_app_piece.
      2:{ intros Hin. rewrite Forall_forall in Hoc.
          apply (Hoc _ Hin). rewrite !elem_of_cons. auto. }
      rewrite split_char_piece; [done|].
      intros Hin. rewrite Forall_forall in Hrc. apply (Hrc _ Hin).
      rewrite !elem_of_cons. auto.
    + eapply Forall_impl; [exact Huser|]. intros c Hc ->. apply Hc.
      rewrite !elem_of_cons. auto.
    + eapply Forall_impl; [exact Hhc|]. intros c Hc ->. apply Hc.
      rewrite !elem_of_cons. auto.
    + destruct owner; [done|]. by rewrite string_app_cons.
    + change (owner +:+ "/" +:+ repo) with (owner +:+ String "/" repo).
      rewrite chars_app. apply Forall_app. split.
      * apply (dot_chars [":"%char; "/"%char; LF; CR]); [|by rewrite ?elem_of_cons; auto..|done].
        rewrite !elem_of_cons. auto.
      * cbn. constructor; [done|].
        apply (dot_chars ["/"%char; LF; CR]); [|by rewrite ?elem_of_cons; auto..|done].
        rewrite !elem_of_cons. auto.
  - unfold extractRepoName. rewrite Hstrip, Hat.
    replace (user +:+ "@" +:+ host +:+ ":" +:+ owner +:+ "/" +:+ repo)
      with ((user +:+ "@" +:+ host) +:+ ":" +:+ owner +:+ "/" +:+ repo)
      by (by rewrite !string_app_assoc).
    rewrite exec_name_pattern; [done| |done| |done|].
    + change (user +:+ "@" +:+ host) with (user +:+ String "@" host).
      rewrite chars_app. apply Forall_app. split.
      * eapply Forall_impl; [exact Huser|]. intros c Hc.
        split; intros ->; apply Hc; rewrite !elem_of_cons; auto.
      * cbn. constructor; [done|]. eapply Forall_impl; [exact Hhc|]. intros c Hc.
        split; intros ->; apply Hc; rewrite !elem_of_cons; auto.
    + eapply Forall_impl; [exact Hoc|]. intros c Hc.
      split; intros ->; apply Hc; rewrite !elem_of_cons; auto.
    + eapply Forall_impl; [exact Hrc|]. intros c Hc ->. apply Hc. rewrite !elem_of_cons. auto.
Qed.

End Addresses.

Lemma ssh_address_parsed_witness :
  parseRepoUrl example_new_URL "git@github.com:octocat/hello-world.git"
  = Some (mkParsed "github.com" "octocat" (Some "hello-world"))
  ∧ extractRepoName example_new_URL "git@github.com:octocat/hello-world.git"
    = "hello-world".
Proof.
  apply (ssh_address_parsed example_new_URL "git" "github.com" "octocat" "hello-world");
    try done.
  all: apply (bool_decide_unpack _); vm_compute; exact I.
Defined.

End RepoUrl.

(** ** gitOperations.js: the URL of a remote *)

Module RemoteUrl.
Import GitOperations Http StringFacts Resolver Regex RepoUrl Footprint.

(** An element of the answer of [git.getRemotes()]: the name and, when
    present and not empty, [refs.fetch] and [refs.push]. *)
Record RemoteInfo : Type := mkRemoteInfo {
  remote_name : string;
  refs_fetch : option string;
  refs_push : option string
}.

(** What [getRemoteUrl] asks of the git instance. *)
Inductive RemoteCall : Type :=
| remote_getRemotes
| remote_getConfig (key : string)
| remote_raw (args : list string).

(** [getConfig] answers with [configUrl.value] ([None] when there is no
    such object or value), [raw] with the output of the command. *)
Definition RemoteResp (c : RemoteCall) : Type :=
  match c with
  | remote_getRemotes => list RemoteInfo
  | remote_getConfig _ => option string
  | remote_raw _ => string
  end.

Definition ask (c : RemoteCall) : Prog RemoteCall RemoteResp (result (RemoteResp c)) := call c.
Definition answer {R} (r : R) : Prog RemoteCall RemoteResp R := Ret r.

(** [/^git@([^:]+):/], after its [^]. *)
Definition ssh_prefix : regex :=
  Seq (lit "git@") (Seq (Group (Many1 (fun c => negb (Ascii.eqb c ":")))) (lit ":")).

(** Lines 963 to 975: trim, drop a trailing [.git], turn an SSH address
    into an HTTPS one. *)
Definition normalize (url : string) : string :=
  let url := trim url in
  let url := if endsWith url ".git" then substring 0 (String.length url - 4) url else url in
  if startsWith url "git@"
  then match match_start ssh_prefix "" url with
       | Some m => "https://" +:+ group m 1 +:+ "/" +:+ after m
       | None => url
       end
  else url.

(** A string that is neither [undefined] nor empty. *)
Definition filled (s : option string) : option string :=
  match s with Some s => if nonempty s then Some s else None | None => None end.

(** [url || next] *)
Definition or_else (url next : option string) : option string :=
  match url with Some _ => url | None => next end.

(** [getRemoteUrl(git, remote)]; [None] is [null]. *)
Definition getRemoteUrl (remote : string) : Prog RemoteCall RemoteResp (option string) :=
  try_catch
    (remotes <-! ask remote_getRemotes ;;
     match list_find (fun r => remote_name r = remote) remotes with
     | None => answer (Ok None)
     | Some (_, remoteInfo) =>
         let url := filled (refs_fetch remoteInfo) in
         let url := or_else url (filled (refs_push remoteInfo)) in
         url <- (match url with
                 | Some _ => answer url
                 | None =>
                     r <- ask (remote_getConfig ("remote." +:+ remote +:+ ".url")) ;;
                     answer (match r with Ok value => filled value | Throw _ => None end)
                 end) ;;
         url <- (match url with
                 | Some _ => answer url
                 | None =>
                     r <- ask (remote_raw ["remote"; "get-url"; remote]) ;;
                     answer (match r with
                             | Ok remoteUrl => filled (Some (trim remoteUrl))
                             | Throw _ => None
                             end)
                 end) ;;
         answer (Ok (normalize <$> url))
     end)
    (fun _ => answer None).

Lemma trimStart_id (c : ascii) (s : string) :
  is_trimmed_char c = false → trimStart (String c s) = String c s.
Proof. intros Hc. cbn. by rewrite Hc. Qed.

(** [trim] leaves a string alone that starts and ends with other characters
    than white space. *)
Lemma trim_id (c d : ascii) (s : string) :
  is_trimmed_char c = false → is_trimmed_char d = false →
  trim (String c (s +:+ String d "")) = String c (s +:+ String d "").
Proof.
  intros Hc Hd. unfold trim. rewrite (trimStart_id c) by done.
  replace (String.rev (String c (s +:+ String d "")))
    with (String d (String.rev (String c s))).
  2:{ rewrite <- (string_app_cons c s), rev_app. reflexivity. }
  rewrite (trimStart_id d) by done.
  change (String d (String.rev (String c s)))
    with (String.rev (String d "") +:+ String.rev (String c s)).
  rewrite <- rev_app, rev_involutive. reflexivity.
Qed.

(** An SSH address [git@host:path.git] becomes [https://host/path]. *)
Lemma normalize_ssh (host path : string) :
  host ≠ "" → Forall (fun c => c ≠ ":"%char) (chars host) →
  normalize ("git@" +:+ host +:+ ":" +:+ path +:+ ".git") = "https://" +:+ host +:+ "/" +:+ path.
Proof.
  intros Hhost Hcolon. unfold normalize.
  assert (Htrim : trim ("git@" +:+ host +:+ ":" +:+ path +:+ ".git")
                  = ("git@" +:+ host +:+ ":" +:+ path) +:+ ".git").
  { replace ("git@" +:+ host +:+ ":" +:+ path +:+ ".git")
      with (String "g" (("it@" +:+ host +:+ ":" +:+ path +:+ ".gi") +:+ String "t" "")).
    2:{ rewrite !string_app_assoc. reflexivity. }
    rewrite trim_id by done. rewrite !string_app_assoc. reflexivity. }
  rewrite Htrim. unfold endsWith. rewrite rev_app, prefix_app.
  replace (String.length (("git@" +:+ host +:+ ":" +:+ path) +:+ ".git") - 4)%nat
    with (String.length (("git@" +:+ host +:+ ":" +:+ path) +:+ ".git")
          - String.length ".git")%nat by done.
  rewrite substring_app. unfold startsWith. rewrite prefix_app.
  unfold match_start, ssh_prefix. cbn [rmatch]. rewrite rmatch_lit. cbn [rmatch].
  change (":" +:+ path) with (String ":" path).
  rewrite (many1_run _ host (String ":" path) _ (mkMatch "" [host] path));
    [reflexivity|done| |reflexivity|].
  - eapply Forall_impl; [exact Hcolon|]. intros c Hc.
    destruct (Ascii.eqb c ":") eqn:E; [apply Ascii.eqb_eq in E; by subst | done].
  - cbn [rmatch lit]. cbn [Ascii.eqb Bool.eqb]. cbn [app].
    change (host +:+ String ":" path) with (host +:+ ":" +:+ path).
    rewrite substring_app. reflexivity.
Qed.

Ltac next_remote_answer env :=
  match goal with
  | |- context [env ?c ?w] =>
      let a := fresh "answer" in
      let m := fresh "m" in
      let w' := fresh "w" in
      destruct (env c w) as [[a|m] w'] eqn:?; simpl
  end.

(** X12.  In every environment [getRemoteUrl] makes at most three calls and
    returns [null] or the normal form of a URL that is not empty; it returns
    [null] after the first call when no remote has the given name; and when
    the remote's fetch URL is the SSH address [git@host:path.git], it
    returns [https://host/path] without asking anything else. *)
Theorem getRemoteUrl_normalizes {W} (env : Env RemoteCall RemoteResp W) (w : W)
  (remote : string) :
  let out := run env (getRemoteUrl remote) w in
  (length out.2 ≤ 3)%nat
  ∧ (∀ url, out.1.1 = Some url → ∃ raw, raw ≠ "" ∧ url = normalize raw)
  ∧ (∀ remotes,
       (env remote_getRemotes w).1 = Ok remotes →
       list_find (fun r => remote_name r = remote) remotes = None →
       out.1.1 = None ∧ length out.2 = 1%nat)
  ∧ (∀ remotes i info host path,
       (env remote_getRemotes w).1 = Ok remotes →
       list_find (fun r => remote_name r = remote) remotes = Some (i, info) →
       refs_fetch info = Some ("git@" +:+ host +:+ ":" +:+ path +:+ ".git") →
       host ≠ "" → Forall (fun c => c ≠ ":"%char) (chars host) →
       out.1.1 = Some ("https://" +:+ host +:+ "/" +:+ path) ∧ length out.2 = 1%nat).
Proof.
  cbv zeta. unfold getRemoteUrl, try_catch, ask, answer, call. cbn [tbind pbind run].
  destruct (env remote_getRemotes w) as [[remotes|m] w1] eqn:E1; cbn [fst snd].
  2:{ cbn. split; [lia|]. split; [done|]. split; [done|]. done. }
  destruct (list_find (fun r => remote_name r = remote) remotes) as [[i info]|] eqn:Hfind.
  2:{ cbn. split; [lia|]. split; [done|]. split; [done|].
      intros remotes' i' info' host path [= <-] Hfind'. congruence. }
  assert (Hfilled : ∀ s raw, filled s = Some raw → raw ≠ "").
  { intros [s|] raw; [|done]. cbn. destruct (nonempty s) eqn:Hs; [|done].
    intros [= <-]. by destruct s. }
  assert (Hnone : ∀ remotes' : list RemoteInfo,
            Ok remotes = Ok remotes' →
            list_find (fun r => remote_name r = remote) remotes' = None →
            ∀ P : Prop, P).
  { intros remotes' [= <-] Hfind'. congruence. }
  destruct (filled (refs_fetch info)) as [fetch|] eqn:Hfetch; cbn.
  { split; [lia|]. split; [intros url [= <-]; exists fetch; by split; [eapply Hfilled|]|].
    split; [intros remotes' H1 H2; by eapply Hnone|].
    intros remotes' i' info' host path [= <-] Hfind' Hssh Hhost Hcolon.
    assert (info' = info) as -> by congruence.
    rewrite Hssh in Hfetch. cbn in Hfetch. injection Hfetch as <-.
    by rewrite normalize_ssh. }
  assert (Hnot : ∀ (remotes' : list RemoteInfo) (i' : nat) info' host path,
            Ok remotes = Ok remotes' →
            list_find (fun r => remote_name r = remote) remotes' = Some (i', info') →
            refs_fetch info' = Some ("git@" +:+ host +:+ ":" +:+ path +:+ ".git") →
            ∀ P : Prop, P).
  { intros remotes' i' info' host path [= <-] Hfind' Hssh.
    assert (info' = info) as -> by congruence.
    rewrite Hssh in Hfetch. discriminate Hfetch. }
  assert (Hrest : ∀ (result : option string) (n : nat),
            (n ≤ 3)%nat →
            (∀ url, result = Some url → ∃ raw, raw ≠ "" ∧ url = normalize raw) →
            (n ≤ 3)%nat
            ∧ (∀ url, result = Some url → ∃ raw, raw ≠ "" ∧ url = normalize raw)
            ∧ (∀ remotes' : list RemoteInfo,
                 Ok remotes = Ok remotes' →
                 list_find (fun r => remote_name r = remote) remotes' = None →
                 result = None ∧ n = 1%nat)
            ∧ (∀ (remotes' : list RemoteInfo) (i' : nat) info' host path,
                 Ok remotes = Ok remotes' →
                 list_find (fun r => remote_name r = remote) remotes' = Some (i', info') →
                 refs_fetch info' = Some ("git@" +:+ host +:+ ":" +:+ path +:+ ".git") →
                 host ≠ "" → Forall (fun c => c ≠ ":"%char) (chars host) →
                 result = Some ("https://" +:+ host +:+ "/" +:+ path) ∧ n = 1%nat)).
  { intros result n Hn Hurl. split; [done|]. split; [done|].
    split; [intros remotes' H1 H2; by eapply Hnone|].
    intros remotes' i' info' host path H1 H2 H3 _ _. by eapply Hnot. }
  destruct (filled (refs_push info)) as [push|] eqn:Hpush; cbn.
  { apply Hrest; [lia|]. intros url [= <-]. exists push. by split; [eapply Hfilled|]. }
  next_remote_answer env.
  - destruct (filled answer0) as [config|] eqn:Hconfig; cbn.
    { apply Hrest; [lia|]. intros url [= <-]. exists config. by split; [eapply Hfilled|]. }
    next_remote_answer env.
    + destruct (nonempty (trim answer1)) eqn:Hraw; cbn; apply Hrest; try lia; try done.
      intros url [= <-]. exists (trim answer1). split; [|done]. by destruct (trim answer1).
    + apply Hrest; [lia | done].
  - next_remote_answer env.
    + destruct (nonempty (trim answer0)) eqn:Hraw; cbn; apply Hrest; try lia; try done.
      intros url [= <-]. exists (trim answer0). split; [|done]. by destruct (trim answer0).
    + apply Hrest; [lia | done].
Qed.

(** A clone whose only remote was added by its SSH address. *)
Definition ssh_clone : Env RemoteCall RemoteResp unit := fun c w =>
  match c return result (RemoteResp c) * unit with
  | remote_getRemotes =>
      (Ok [mkRemoteInfo "origin" (Some "git@github.com:octocat/hello-world.git")
             (Some "git@github.com:octocat/hello-world.git")], w)
  | remote_getConfig _ => (Ok None, w)
  | remote_raw _ => (Ok "", w)
  end.

Example getRemoteUrl_example :
  (run ssh_clone (getRemoteUrl "origin") tt).1.1
  = Some "https://github.com/octocat/hello-world"
  ∧ (run ssh_clone (getRemoteUrl "upstream") tt).1.1 = None.
Proof. vm_compute. split; reflexivity. Qed.

End RemoteUrl.

(** ** prOperations.js: what a request carries and what a search finds *)

Module Requests.
Import DateUtils GitOperations Http PrOperations Footprint.

Section Forwarding.
Context (new_URL : string → option string → result URL) (JSON_parse : string → option Json).

(** A request that carries the given method, headers, body and timeout. *)
Definition same_request (options : Options) (data : option Json) (timeoutMs : Z)
  (c : Call) : Prop :=
  ∃ options', c = Net options' data timeoutMs
              ∧ method options' = method options ∧ headers options' = headers options.

Lemma makeRequest_only (n : nat) :
  ∀ options data timeoutMs redirectCount,
    (5 - redirectCount <= Z.of_nat n) →
    only (same_request options data timeoutMs)
      (makeRequest new_URL JSON_parse options data timeoutMs redirectCount).
Proof.
  induction n as [|n IH]; intros options data timeoutMs c Hn;
    rewrite makeRequest_equation_1;
    destruct (decide (c >= 5)) as [Hge|Hlt]; try done; try lia.
  unfold makeRequest_unfold_clause_1, io. apply only_tbind.
  { apply only_call. by exists options. }
  intros res. destruct (is_redirect res); [|done].
  destruct (redirect_target new_URL options (default "" (location res)))
    as [redirectUrl|m]; [|done].
  eapply only_weaken; [|apply IH; lia].
  intros call (options' & -> & Hm & Hh). by exists options'.
Qed.

Lemma makeRequest_resolved (n : nat) {W} (env : IOEnv W) :
  ∀ options data timeoutMs redirectCount (w : W) response,
    (5 - redirectCount <= Z.of_nat n) →
    (run env (makeRequest new_URL JSON_parse options data timeoutMs redirectCount) w).1.1
    = Ok response →
    ∃ res, is_redirect res = false
           ∧ response = mkResponse (statusCode res) (parse_body JSON_parse (body res))
                          (location res)
           ∧ ∃ options' w', (env (Net options' data timeoutMs) w').1 = Ok res.
Proof.
  induction n as [|n IH]; intros options data timeoutMs c w response Hn;
    rewrite makeRequest_equation_1;
    destruct (decide (c >= 5)) as [Hge|Hlt]; try done; try lia.
  unfold makeRequest_unfold_clause_1, io. rewrite run_tbind_call.
  destruct (env (Net options data timeoutMs) w) as [[res|m] w1] eqn:E; cbn [fst snd];
    [|done].
  destruct (is_redirect res) eqn:Hred.
  - destruct (redirect_target new_URL options (default "" (location res)))
      as [redirectUrl|m]; [|done].
    specialize (IH (redirectOptions options redirectUrl) data timeoutMs (c + 1) w1 response).
    destruct (run env (makeRequest new_URL JSON_parse (redirectOptions options redirectUrl)
                         data timeoutMs (c + 1)) w1) as [[r w2] events].
    cbn [fst snd] in *. intros Hr. apply IH; [lia | done].
  - cbn. intros [= <-]. exists res. split; [done|]. split; [done|].
    exists options, w. by rewrite E.
Qed.

(** X13.  In every environment and from every redirect count: each HTTP request
    [makeRequest] issues, the first one and every one it sends after a
    redirect, to whatever host the Location header named, carries the
    method, the headers (the Authorization header among them), the body and
    the timeout of the original request, and nothing but HTTP requests is
    issued; and a resolved promise never holds a response that is a redirect
    with a Location: it holds the status, parsed body and headers of a
    response that some request received and that is none. *)
Theorem makeRequest_forwards_request {W} (env : IOEnv W) (w : W) (options : Options)
  (data : option Json) (timeoutMs redirectCount : Z) :
  let out :=
    run env (makeRequest new_URL JSON_parse options data timeoutMs redirectCount) w in
  Forall (fun ev => same_request options data timeoutMs (ev_call ev)) out.2
  ∧ ∀ response, out.1.1 = Ok response →
      ∃ res, is_redirect res = false
             ∧ response = mkResponse (statusCode res) (parse_body JSON_parse (body res))
                            (location res)
             ∧ ∃ options' w', (env (Net options' data timeoutMs) w').1 = Ok res.
Proof.
  cbv zeta. split.
  - apply only_run, (makeRequest_only (Z.to_nat (5 - redirectCount))). lia.
  - intros response. apply (makeRequest_resolved (Z.to_nat (5 - redirectCount))). lia.
Qed.

Context (JSON_stringify : Json → string) (encodeURIComponent : string → string).

Lemma filter_matching_head (branchName baseBranch : string) (prs : list Json) :
  ∀ pr rest, filter_matching branchName baseBranch prs = Ok (pr :: rest) →
             pr ∈ prs ∧ pr_matches branchName baseBranch pr = Ok true.
Proof.
  induction prs as [|p prs IH]; intros pr rest; [done|]. cbn [filter_matching].
  destruct (pr_matches branchName baseBranch p) as [[]|] eqn:Hp; [| |done]; cbn [bind];
    destruct (filter_matching branchName baseBranch prs) as [matching|]; try done; cbn [bind].
  - intros [= <- <-]. split; [by left | done].
  - intros [= ->]. destruct (IH pr rest eq_refl) as [Hin Hm]. split; [by right | done].
Qed.

(** X14.  In every environment: [findPRForBranch] sends nothing but its GET
    query (and what follows it on redirects); it reports a request as found
    only when a response, with a status from 200 to 299, listed an entry
    whose head ref is the branch, whose base ref is the base branch and whose
    state is open, and the number and URL it reports are those of that
    entry; and when it reports no success, nothing is found and a message
    says why. *)
Theorem findPRForBranch_sound {W} (env : IOEnv W) (w : W) (repoInfo : RepoInfo)
  (branchName baseBranch token : string) :
  let out :=
    run env (findPRForBranch new_URL JSON_parse encodeURIComponent repoInfo branchName
               baseBranch token) w in
  Forall (fun ev => ∃ options, ev_call ev = Net options None 30000 ∧ method options = "GET")
    out.2
  ∧ (found out.1.1 = true →
     find_success out.1.1 = true
     ∧ ∃ res prs pr,
         200 <= statusCode res < 300
         ∧ (∃ options w', (env (Net options None 30000) w').1 = Ok res)
         ∧ parse_body JSON_parse (body res) = JArr prs
         ∧ pr ∈ prs ∧ open_request branchName baseBranch pr
         ∧ js_get pr "number" = Ok (found_prNumber out.1.1)
         ∧ js_get pr "html_url" = Ok (found_prUrl out.1.1))
  ∧ (find_success out.1.1 = false →
     found out.1.1 = false ∧ is_Some (find_message out.1.1)).
Proof.
  cbv zeta. split.
  { eapply Forall_impl.
    - apply only_run. unfold findPRForBranch. apply only_try_catch; [|done].
      apply only_tbind; [|done]. apply (makeRequest_only 5). lia.
    - intros ev (options & Hc & Hm & _). by exists options. }
  unfold findPRForBranch. rewrite run_try_catch, run_tbind.
  pose proof (makeRequest_resolved 5 env
                (find_options encodeURIComponent repoInfo branchName token) None 30000 0 w)
    as Hres.
  destruct (run env (makeRequest new_URL JSON_parse
                       (find_options encodeURIComponent repoInfo branchName token)
                       None 30000 0) w) as [[[response|m] w1] events]; cbn [fst snd run io_ret].
  2:{ split; [done|]. intros _. split; [done|]. by eexists. }
  destruct (Hres response) as (res & Hnot & -> & Hasked); [lia | done |].
  unfold find_in_response, is_2xx. cbn [status data].
  destruct ((200 <=? statusCode res) && (statusCode res <? 300)) eqn:H2xx.
  - apply andb_prop in H2xx as [Hlo Hhi]. apply Z.leb_le in Hlo. apply Z.ltb_lt in Hhi.
    destruct (parse_body JSON_parse (body res)) as [| | | | |prs|] eqn:Hbody;
      cbn [filter_matching bind]; try (split; [done|]; intros Hbad; discriminate Hbad).
    destruct (filter_matching branchName baseBranch prs) as [[|pr rest]|m] eqn:Hfilter;
      cbn [bind].
    + split; [done|]. intros Hbad; discriminate Hbad.
    + destruct (filter_matching_head _ _ _ _ _ Hfilter) as [Hin Hmatch].
      destruct (js_get pr "number") as [number|] eqn:Hn; cbn [bind].
      2:{ split; [done|]. intros _. split; [done|]. by eexists. }
      destruct (js_get pr "html_url") as [html_url|] eqn:Hu; cbn [bind].
      2:{ split; [done|]. intros _. split; [done|]. by eexists. }
      destruct (js_get pr "merged") as [merged_|] eqn:Hmg; cbn [bind].
      2:{ split; [done|]. intros _. split; [done|]. by eexists. }
      split; [|done]. intros _. split; [done|]. exists res, prs, pr.
      split; [lia|]. split; [done|]. split; [done|]. split; [done|].
      split; [by apply pr_matches_true|]. done.
    + split; [done|]. intros _. split; [done|]. by eexists.
  - destruct (js_get (parse_body JSON_parse (body res)) "message") as [msg|]; cbn [bind].
    + split; [done|]. intros _. split; [done|]. by eexists.
    + split; [done|]. intros _. split; [done|]. by eexists.
Qed.

End Forwarding.

End Requests.

(** ** prOperations.js: the platform the controller talks to, polling and merging *)

Module Review.
Import DateUtils GitOperations Http PrOperations Footprint Requests RepoUrl.

Section Controller.
Context (new_URL : string → option string → result URL) (JSON_parse : string → option Json).
Context (JSON_stringify : Json → string) (encodeURIComponent : string → string).
Context (parseRepoUrl : string → option RepoInfo).
Context (mergeGitHubPR :
  RepoInfo → Json → string → string → string → string → string → IO (result Outcome)).

(** [createAndMergePR] with the platform detection of the source. *)
Definition createAndMergePR_detecting :=
  createAndMergePR new_URL JSON_parse JSON_stringify encodeURIComponent parseRepoUrl
    detectPlatform mergeGitHubPR.

(** X15.  In every environment: when the platform is not GitHub, whether named in
    the options or, without such an option, detected from the URL (whose
    lower-case form then does not contain github.com), [createAndMergePR]
    makes no call at all, so the token goes nowhere, and reports a failure. *)
Theorem createAndMergePR_only_github {W} (env : IOEnv W) (w : W)
  (repoUrl branchName token : string) (options : PROptions) :
  let out := run env (createAndMergePR_detecting repoUrl branchName token options) w in
  opt_platform options = Some "github"
  ∨ ((opt_platform options = None ∨ opt_platform options = Some "")
     ∧ includes (toLowerCase repoUrl) "github.com" = true)
  ∨ (out.2 = [] ∧ ∃ res, out.1.1 = Ok res ∧ pr_success res = false).
Proof.
  cbv zeta. unfold createAndMergePR_detecting, createAndMergePR, detected_platform.
  assert (Hdetect : ∀ platform,
            detectPlatform repoUrl = Some platform →
            includes (toLowerCase repoUrl) "github.com" = true ∨ platform ≠ "github").
  { intros platform. unfold detectPlatform. destruct (negb (nonempty repoUrl)); [done|].
    destruct (includes (toLowerCase repoUrl) "github.com"); [by left|].
    destruct (_ || _); [intros [= <-]; by right|].
    destruct (_ || _); [intros [= <-]; by right | done]. }
  assert (Hnone : ∀ m, (run env (io_ret (Ok (failed m))) w).2 = []
                       ∧ ∃ res, (run env (io_ret (Ok (failed m))) w).1.1 = Ok res
                                ∧ pr_success res = false).
  { intros m. split; [done|]. by eexists. }
  destruct (opt_platform options) as [[|c p]|] eqn:Hopt.
  - destruct (detectPlatform repoUrl) as [platform|] eqn:Hd; cbn [nonempty].
    + destruct (Hdetect platform eq_refl) as [Hgh|Hne]; [right; left; auto|].
      right. right. destruct (parseRepoUrl repoUrl); [|apply Hnone].
      rewrite bool_decide_eq_false_2 by done. apply Hnone.
    + right. right. apply Hnone.
  - cbn [nonempty]. destruct (decide (String c p = "github")) as [->|Hne]; [by left|].
    right. right. destruct (parseRepoUrl repoUrl); [|apply Hnone].
    rewrite bool_decide_eq_false_2 by done. apply Hnone.
  - destruct (detectPlatform repoUrl) as [platform|] eqn:Hd.
    + destruct (Hdetect platform eq_refl) as [Hgh|Hne]; [right; left; auto|].
      right. right. destruct (parseRepoUrl repoUrl); [|apply Hnone].
      rewrite bool_decide_eq_false_2 by done. apply Hnone.
    + right. right. apply Hnone.
Qed.

End Controller.

(** *** Polling and merging *)

(** The value returned by [getPRStatus], as far as [mergeGitHubPR] reads it. *)
Record PRStatus : Type := mkPRStatus {
  status_success : bool;
  mergeable : Json;
  mergeable_state : Json;
  status_merged : Json;
  status_message : option string
}.

(** The value returned by [mergeGitHubPR]. *)
Record MergeResult : Type := mkMergeResult {
  merge_success : bool;
  merge_message : string;
  requiresManualResolution : bool
}.

(** The value returned by [updateBranchWithBase]. *)
Record UpdateResult : Type := mkUpdateResult {
  update_success : bool;
  update_message : string;
  update_manual : bool
}.

(** The [options] argument of [mergeGitHubPR]: whether a git instance is
    given, and the names it needs to update the branch. *)
Record MergeOptions : Type := mkMergeOptions {
  has_git : bool;
  merge_branchName : string;
  merge_baseBranch : string;
  merge_remote : string
}.

(** How one round of the loop goes on after the status check. *)
Inductive Gate : Type := Done (r : MergeResult) | Retry | Merge.

(** How one round of the loop ends. *)
Inductive Round : Type := Return (r : MergeResult) | Continue.

Section Merging.
Context (new_URL : string → option string → result URL) (JSON_parse : string → option Json).
Context (JSON_stringify : Json → string).

(** [updateBranchWithBase(git, branchName, baseBranch, remote)], which
    catches its own errors. *)
Context (updateBranchWithBase : string → string → string → IO UpdateResult).

Definition status_options (repoInfo : RepoInfo) (prNumber : Json) (token : string) : Options :=
  github_options "GET"
    ("/repos/" +:+ owner repoInfo +:+ "/" +:+ repo repoInfo +:+ "/pulls/"
     +:+ to_string prNumber) token false.

Definition getPRStatus (repoInfo : RepoInfo) (prNumber : Json) (token : string)
  : IO PRStatus :=
  try_catch
    (response <-! makeRequest new_URL JSON_parse (status_options repoInfo prNumber token)
                    None 30000 0 ;;
     io_ret
       (if is_2xx response then
          mergeable_ <-? js_get (data response) "mergeable" ;;
          mergeable_state_ <-? js_get (data response) "mergeable_state" ;;
          merged_ <-? js_get (data response) "merged" ;;
          _ <-? js_get (data response) "state" ;;
          _ <-? js_get (data response) "title" ;;
          _ <-? js_get (data response) "number" ;;
          Ok (mkPRStatus true mergeable_ mergeable_state_ merged_ None)
        else
          m <-? js_get (data response) "message" ;;
          Ok (mkPRStatus false JUndefined JUndefined JUndefined
                (Some ("Failed to get PR status: "
                       +:+ to_string (json_or m (JStr "Unknown error")))))))
    (fun m => io_ret (mkPRStatus false JUndefined JUndefined JUndefined
                        (Some ("Error getting PR status: " +:+ m)))).

Definition merge_request (repoInfo : RepoInfo) (prNumber : Json) (token : string) : Options :=
  github_options "PUT"
    ("/repos/" +:+ owner repoInfo +:+ "/" +:+ repo repoInfo +:+ "/pulls/"
     +:+ to_string prNumber +:+ "/merge") token true.

Definition mergeData (mergeMethod : string) : Json := JObj [("merge_method", JStr mergeMethod)].

(** [errorMessage], before it is rendered: a string, or whatever the
    response holds as its [message] or [error]. *)
Definition error_value (data : Json) : result Json :=
  if json_truthy data then
    m <-? js_get data "message" ;;
    if json_truthy m then Ok m else
    e <-? js_get data "error" ;;
    if json_truthy e then Ok e else
    es <-? js_get data "errors" ;;
    match es with
    | JArr errors =>
        parts <-? foldr (fun err acc =>
                           em <-? js_get err "message" ;;
                           rest <-? acc ;;
                           Ok (to_string (json_or em err) :: rest))
                    (Ok []) errors ;;
        Ok (JStr (String.concat ", " parts))
    | _ => match data with
           | JStr s => Ok (JStr s)
           | _ => Ok (JStr (JSON_stringify data))
           end
    end
  else Ok (JStr "Unknown error").

(** [errorMessage.includes('not mergeable')]: on a string, on an array, and
    a TypeError on anything else. *)
Definition includes_not_mergeable (errorMessage : Json) : result bool :=
  match errorMessage with
  | JStr s => Ok (includes s "not mergeable")
  | JArr items => Ok (existsb (fun item => is_string item "not mergeable") items)
  | _ => Throw "errorMessage.includes is not a function"
  end.

(** [await new Promise(resolve => setTimeout(resolve, ms))] *)
Definition sleep (ms : Z) : IO unit := _ <- io (Sleep ms) ;; io_ret tt.

Definition dirty_failure (prNumber : Json) : MergeResult :=
  mkMergeResult false
    ("PR #" +:+ to_string prNumber +:+ " has merge conflicts and cannot be merged "
     +:+ "automatically. The branch needs to be updated with the latest changes from "
     +:+ "the base branch to resolve conflicts.") true.

(** The first half of a round: the status check and what follows from it. *)
Definition check_status (repoInfo : RepoInfo) (prNumber : Json) (token : string)
  (maxRetries attempt : Z) (options : MergeOptions) : IO Gate :=
  prStatus <- getPRStatus repoInfo prNumber token ;;
  if negb (status_success prStatus) then io_ret Merge
  else if json_truthy (status_merged prStatus) then
    io_ret (Done (mkMergeResult true
                    ("PR #" +:+ to_string prNumber +:+ " was already merged") false))
  else
    match mergeable prStatus with
    | JBool false =>
        if is_string (mergeable_state prStatus) "dirty" then
          if has_git options && nonempty (merge_branchName options)
             && nonempty (merge_baseBranch options) && nonempty (merge_remote options)
          then
            updateResult <- updateBranchWithBase (merge_branchName options)
                              (merge_baseBranch options) (merge_remote options) ;;
            if update_success updateResult then _ <- sleep 5000 ;; io_ret Retry
            else if update_manual updateResult then
              io_ret (Done (mkMergeResult false
                              ("PR #" +:+ to_string prNumber
                               +:+ " has merge conflicts that require manual resolution. "
                               +:+ update_message updateResult) true))
            else io_ret (Done (dirty_failure prNumber))
          else io_ret (Done (dirty_failure prNumber))
        else if attempt <? maxRetries then
          _ <- sleep (Z.min (5000 * attempt) 30000) ;; io_ret Retry
        else
          io_ret (Done (mkMergeResult false
                          ("PR #" +:+ to_string prNumber
                           +:+ " is not mergeable (mergeable_state: "
                           +:+ to_string (mergeable_state prStatus)
                           +:+ "). This may be due to required checks, branch protection "
                           +:+ "rules, or other issues.") false))
    | JNull =>
        if attempt <? maxRetries then
          _ <- sleep (Z.min (3000 * attempt) 20000) ;; io_ret Retry
        else
          io_ret (Done (mkMergeResult false
                          ("PR #" +:+ to_string prNumber
                           +:+ " mergeability check timed out. GitHub may still be "
                           +:+ "calculating mergeability.") false))
    | _ => io_ret Merge
    end.

(** The second half: the merge request, inside its [try]. *)
Definition try_merge (repoInfo : RepoInfo) (prNumber : Json) (token mergeMethod : string)
  (maxRetries attempt : Z) : IO Round :=
  try_catch
    (response <-! makeRequest new_URL JSON_parse (merge_request repoInfo prNumber token)
                    (Some (mergeData mergeMethod)) 30000 0 ;;
     if is_2xx response then
       io_ret (Ok (Return (mkMergeResult true
                             ("PR #" +:+ to_string prNumber +:+ " merged successfully")
                             false)))
     else
       errorMessage <-! io_ret (error_value (data response)) ;;
       not_mergeable <-! io_ret (includes_not_mergeable errorMessage) ;;
       if not_mergeable && (attempt <? maxRetries) then
         _ <- sleep (Z.min (5000 * attempt) 30000) ;; io_ret (Ok Continue)
       else
         io_ret (Ok (Return (mkMergeResult false
                               ("Failed to merge PR (HTTP " +:+ js_String (status response)
                                +:+ "): " +:+ to_string errorMessage) false))))
    (fun m =>
       if attempt <? maxRetries then
         _ <- sleep (Z.min (3000 * attempt) 20000) ;; io_ret Continue
       else
         io_ret (Return (mkMergeResult false ("Error merging GitHub PR: " +:+ m) false))).

(** [for (let attempt = 1; attempt <= maxRetries; attempt++)], entered at
    [attempt] with [remaining] rounds to go. *)
Fixpoint merge_loop (remaining : nat) (repoInfo : RepoInfo) (prNumber : Json)
  (token mergeMethod : string) (maxRetries attempt : Z) (options : MergeOptions)
  : IO MergeResult :=
  match remaining with
  | O =>
      io_ret (mkMergeResult false
                ("Failed to merge PR #" +:+ to_string prNumber +:+ " after "
                 +:+ js_String maxRetries +:+ " attempts") false)
  | S remaining =>
      gate <- check_status repoInfo prNumber token maxRetries attempt options ;;
      match gate with
      | Done r => io_ret r
      | Retry =>
          merge_loop remaining repoInfo prNumber token mergeMethod maxRetries (attempt + 1)
            options
      | Merge =>
          round <- try_merge repoInfo prNumber token mergeMethod maxRetries attempt ;;
          match round with
          | Return r => io_ret r
          | Continue =>
              merge_loop remaining repoInfo prNumber token mergeMethod maxRetries
                (attempt + 1) options
          end
      end
  end.

(** [mergeGitHubPR(repoInfo, prNumber, token, mergeMethod, maxRetries, options)] *)
Definition mergeGitHubPR (repoInfo : RepoInfo) (prNumber : Json) (token mergeMethod : string)
  (maxRetries : Z) (options : MergeOptions) : IO MergeResult :=
  merge_loop (Z.to_nat maxRetries) repoInfo prNumber token mergeMethod maxRetries 1 options.

(** *** What a run of the merge loop looks like *)

Context {W : Type} (env : IOEnv W).

(** The waits of a trace, in milliseconds. *)
Definition sleeps (trace : list IOEvent) : list Z :=
  omap (fun ev => match ev_call ev with Sleep ms => Some ms | _ => None end) trace.

Definition is_git (c : Call) : Prop := match c with Git _ => True | _ => False end.

Lemma requests_app (a b : list IOEvent) : requests (a ++ b) = requests a ++ requests b.
Proof. apply omap_app. Qed.

Lemma sleeps_app (a b : list IOEvent) : sleeps (a ++ b) = sleeps a ++ sleeps b.
Proof. apply omap_app. Qed.

Lemma git_quiet (trace : list IOEvent) :
  Forall (fun ev => is_git (ev_call ev)) trace → requests trace = [] ∧ sleeps trace = [].
Proof.
  induction 1 as [|[c answer] trace Hc _ [IHr IHs]]; [done|].
  destruct c; try done; unfold requests, sleeps in *; simpl; by rewrite IHr, IHs.
Qed.

Lemma requests_length (trace : list IOEvent) : (length (requests trace) ≤ length trace)%nat.
Proof.
  induction trace as [|[c answer] trace IH]; [done|].
  destruct c; unfold requests, omap in *; simpl in *; lia.
Qed.

Lemma requests_all (trace : list IOEvent) :
  length trace = length (requests trace) → sleeps trace = [].
Proof.
  induction trace as [|[c answer] trace IH]; [done|].
  pose proof (requests_length trace) as Hle.
  destruct c; unfold requests, sleeps, omap in *; simpl in *; intros Hlen; try lia.
  apply IH. lia.
Qed.

(** A resolved request: the response is the answer to the last request
    sent. *)
Lemma makeRequest_last (n : nat) :
  ∀ options data timeoutMs redirectCount (w : W) response,
    (5 - redirectCount <= Z.of_nat n) →
    let out :=
      run env (makeRequest new_URL JSON_parse options data timeoutMs redirectCount) w in
    out.1.1 = Ok response →
    ∃ options' res,
      last (requests out.2) = Some (options', Ok res)
      ∧ method options' = method options
      ∧ is_redirect res = false
      ∧ response = mkResponse (statusCode res) (parse_body JSON_parse (body res))
                     (location res).
Proof.
  induction n as [|n IH]; intros options data timeoutMs c w response Hn; cbv zeta;
    rewrite makeRequest_equation_1;
    destruct (decide (c >= 5)) as [Hge|Hlt]; try done; try lia.
  unfold makeRequest_unfold_clause_1, io. rewrite run_tbind_call.
  destruct (env (Net options data timeoutMs) w) as [[res|m] w1] eqn:E; cbn [fst snd];
    [|done].
  destruct (is_redirect res) eqn:Hred.
  - destruct (redirect_target new_URL options (default "" (location res)))
      as [redirectUrl|m]; [|done].
    specialize (IH (redirectOptions options redirectUrl) data timeoutMs (c + 1) w1 response).
    cbv zeta in IH.
    destruct (run env (makeRequest new_URL JSON_parse (redirectOptions options redirectUrl)
                         data timeoutMs (c + 1)) w1) as [[r w2] events].
    cbn [fst snd] in *. intros Hr.
    destruct IH as (options' & res' & Hlast & Hm & Hres); [lia | done |].
    exists options', res'. split; [|done].
    unfold requests, omap in *. simpl. by rewrite last_cons, Hlast.
  - cbn. intros [= <-]. by exists options, res.
Qed.

(** The answer a status report was read from. *)
Definition status_answer (prStatus : PRStatus) (answer : Options * result RawResponse)
  : Prop :=
  ∃ res, answer.2 = Ok res
         ∧ method answer.1 = "GET"
         ∧ is_redirect res = false
         ∧ 200 <= statusCode res < 300
         ∧ js_get (parse_body JSON_parse (body res)) "mergeable" = Ok (mergeable prStatus)
         ∧ js_get (parse_body JSON_parse (body res)) "mergeable_state"
           = Ok (mergeable_state prStatus)
         ∧ js_get (parse_body JSON_parse (body res)) "merged" = Ok (status_merged prStatus).

Lemma getPRStatus_run (repoInfo : RepoInfo) (prNumber : Json) (token : string) (w : W) :
  let out := run env (getPRStatus repoInfo prNumber token) w in
  length out.2 = length (requests out.2)
  ∧ (length (requests out.2) ≤ 5)%nat
  ∧ (status_success out.1.1 = true →
     ∃ answer, last (requests out.2) = Some answer ∧ status_answer out.1.1 answer).
Proof.
  cbv zeta. unfold getPRStatus. rewrite run_try_catch, run_tbind.
  pose proof (makeRequest_bounded new_URL JSON_parse env 5
                (status_options repoInfo prNumber token) None 30000 0 w) as Hb.
  pose proof (makeRequest_last 5 (status_options repoInfo prNumber token) None 30000 0 w)
    as Hl.
  cbv zeta in Hb, Hl.
  destruct (run env (makeRequest new_URL JSON_parse (status_options repoInfo prNumber token)
                       None 30000 0) w) as [[[response|m] w1] events].
  2:{ destruct Hb as (Hlen & Hle & _); [lia|]. unfold io_ret. cbn [run fst snd] in *.
      rewrite !app_nil_r. split; [done|]. split; [lia | done]. }
  destruct Hb as (Hlen & Hle & _); [lia|].
  destruct (Hl response) as (options' & res & Hlast & Hm & Hred & ->); [lia | done |].
  cbn [fst snd] in *. cbn [run io_ret].
  assert (Hcount : length (events ++ [] ++ []) = length (requests (events ++ [] ++ []))
                   ∧ (length (requests (events ++ [] ++ [])) ≤ 5)%nat).
  { rewrite !app_nil_r. split; [done | lia]. }
  unfold is_2xx. cbn [status data].
  destruct ((200 <=? statusCode res) && (statusCode res <? 300)) eqn:H2xx.
  - destruct (js_get (parse_body JSON_parse (body res)) "mergeable") as [v1|m1] eqn:E1;
      cbn [JS.bind].
    2:{ cbn. rewrite !app_nil_r in *. by destruct Hcount. }
    destruct (js_get (parse_body JSON_parse (body res)) "mergeable_state") as [v2|m2] eqn:E2;
      cbn [JS.bind].
    2:{ cbn. rewrite !app_nil_r in *. by destruct Hcount. }
    destruct (js_get (parse_body JSON_parse (body res)) "merged") as [v3|m3] eqn:E3;
      cbn [JS.bind].
    2:{ cbn. rewrite !app_nil_r in *. by destruct Hcount. }
    destruct (js_get (parse_body JSON_parse (body res)) "state") as [v4|m4] eqn:E4;
      cbn [JS.bind].
    2:{ cbn. rewrite !app_nil_r in *. by destruct Hcount. }
    destruct (js_get (parse_body JSON_parse (body res)) "title") as [v5|m5] eqn:E5;
      cbn [JS.bind].
    2:{ cbn. rewrite !app_nil_r in *. by destruct Hcount. }
    destruct (js_get (parse_body JSON_parse (body res)) "number") as [v6|m6] eqn:E6;
      cbn [JS.bind].
    2:{ cbn. rewrite !app_nil_r in *. by destruct Hcount. }
    cbn. rewrite !app_nil_r in *. destruct Hcount as [Hc1 Hc2].
    split; [done|]. split; [done|]. intros _. exists (options', Ok res).
    split; [done|]. exists res. cbn [fst snd mergeable mergeable_state status_merged].
    apply andb_true_iff in H2xx as [Hlo Hhi].
    apply Z.leb_le in Hlo. apply Z.ltb_lt in Hhi.
    by repeat split.
  - destruct (js_get (parse_body JSON_parse (body res)) "message") as [v1|m1];
      cbn; rewrite !app_nil_r in *; by destruct Hcount.
Qed.

(** A successful result and the answer it rests on: a merge request that
    was accepted, or a status report that says the pull request is merged. *)
Definition merged_by (prNumber : Json) (r : MergeResult)
  (answer : Options * result RawResponse) : Prop :=
  ∃ res, answer.2 = Ok res
         ∧ is_redirect res = false
         ∧ 200 <= statusCode res < 300
         ∧ ((method answer.1 = "PUT"
             ∧ merge_message r = "PR #" +:+ to_string prNumber +:+ " merged successfully")
            ∨ (method answer.1 = "GET"
               ∧ merge_message r = "PR #" +:+ to_string prNumber +:+ " was already merged"
               ∧ ∃ merged, js_get (parse_body JSON_parse (body res)) "merged" = Ok merged
                           ∧ json_truthy merged = true)).

(** [updateBranchWithBase] only talks to git and the file system: it sends no
    HTTP request and does not wait. *)
Definition quiet_update : Prop :=
  ∀ branchName baseBranch remote,
    only is_git (updateBranchWithBase branchName baseBranch remote).

Definition succeeds_by (prNumber : Json) (r : MergeResult) (trace : list IOEvent) : Prop :=
  merge_success r = true →
  requiresManualResolution r = false
  ∧ ∃ answer, last (requests trace) = Some answer ∧ merged_by prNumber r answer.

Definition gate_post (prNumber : Json) (g : Gate) (trace : list IOEvent) : Prop :=
  (∀ r, g = Done r → succeeds_by prNumber r trace)
  ∧ (quiet_update →
     (length (requests trace) ≤ 5)%nat
     ∧ (length (sleeps trace) ≤ 1)%nat
     ∧ (g = Merge → sleeps trace = [])).

Lemma run_sleep_then {R} (ms : Z) (r : R) (w : W) :
  run env (_ <- sleep ms ;; io_ret r) w
  = (r, (env (Sleep ms) w).2, [mkEvent (Sleep ms) (env (Sleep ms) w).1]).
Proof. unfold sleep, io, call, io_ret. cbn. by destruct (env (Sleep ms) w). Qed.

Lemma run_tbind_value {A B} (r : result A) (f : A → IO (result B)) (w : W) :
  run env (a <-! io_ret r ;; f a) w
  = match r with Ok a => run env (f a) w | Throw m => (Throw m, w, []) end.
Proof. by destruct r. Qed.

Lemma requests_sleep (ms : Z) (answer : result unit) (trace : list IOEvent) :
  requests (trace ++ [mkEvent (Sleep ms) answer]) = requests trace.
Proof. rewrite requests_app. unfold requests at 2. simpl. by rewrite app_nil_r. Qed.

Lemma sleeps_sleep (ms : Z) (answer : result unit) (trace : list IOEvent) :
  sleeps (trace ++ [mkEvent (Sleep ms) answer]) = sleeps trace ++ [ms].
Proof. by rewrite sleeps_app. Qed.

Lemma check_status_run (repoInfo : RepoInfo) (prNumber : Json) (token : string)
  (maxRetries attempt : Z) (options : MergeOptions) (w : W) :
  let out := run env (check_status repoInfo prNumber token maxRetries attempt options) w in
  gate_post prNumber out.1.1 out.2.
Proof.
  cbv zeta. unfold check_status. rewrite run_pbind.
  destruct (getPRStatus_run repoInfo prNumber token w) as (Hlen & Hle & Hans).
  destruct (run env (getPRStatus repoInfo prNumber token) w) as [[prStatus w1] events].
  cbn [fst snd] in *. pose proof (requests_all _ Hlen) as Hsl.
  assert (Hfail : ∀ g, (∀ r, g = Done r → merge_success r = false) →
                       gate_post prNumber g (events ++ [])).
  { intros g Hg. rewrite app_nil_r. split.
    - intros r -> Hr. by rewrite (Hg r) in Hr.
    - intros _. rewrite Hsl. split; [simpl; lia|]. split; [simpl; lia | done]. }
  assert (Hwait : ∀ ms answer,
             gate_post prNumber Retry (events ++ [mkEvent (Sleep ms) answer])).
  { intros ms answer. split; [done|]. intros _.
    rewrite requests_sleep, sleeps_sleep, Hsl. split; [simpl; lia|]. split; [simpl; lia | done]. }
  destruct (status_success prStatus) eqn:Hok; cbn [negb].
  2:{ unfold io_ret. cbn [run fst snd]. by apply Hfail. }
  destruct (json_truthy (status_merged prStatus)) eqn:Hmerged.
  { unfold io_ret. cbn [run fst snd]. rewrite app_nil_r. split.
    - intros r [= <-] _. split; [done|].
      destruct Hans as (answer & Hlast & res & Hres & Hm & Hred & H2xx & _ & _ & Hget);
        [done|].
      exists answer. split; [done|]. exists res.
      split; [done|]. split; [done|]. split; [done|].
      right. split; [done|]. split; [done|]. by exists (status_merged prStatus).
    - intros _. rewrite Hsl. split; [simpl; lia|]. split; [simpl; lia | done]. }
  destruct (mergeable prStatus) as [| |[|]| | | |];
    try (unfold io_ret; cbn [run fst snd]; by apply Hfail).
  - destruct (attempt <? maxRetries).
    + rewrite run_sleep_then. cbn [fst snd]. apply Hwait.
    + unfold io_ret. cbn [run fst snd]. apply Hfail. by intros r [= <-].
  - destruct (is_string (mergeable_state prStatus) "dirty").
    + destruct (has_git options && nonempty (merge_branchName options)
                && nonempty (merge_baseBranch options) && nonempty (merge_remote options)).
      2:{ unfold io_ret. cbn [run fst snd]. apply Hfail. by intros r [= <-]. }
      rewrite run_pbind.
      pose proof (only_run is_git
                    (updateBranchWithBase (merge_branchName options)
                       (merge_baseBranch options) (merge_remote options)) env) as Hgit.
      destruct (run env (updateBranchWithBase (merge_branchName options)
                           (merge_baseBranch options) (merge_remote options)) w1)
        as [[updateResult w2] updates] eqn:Eu.
      assert (Hquiet : quiet_update → requests updates = [] ∧ sleeps updates = []).
      { intros Hq. apply git_quiet. specialize (Hgit (Hq _ _ _) w1). by rewrite Eu in Hgit. }
      destruct (update_success updateResult).
      * rewrite run_sleep_then. cbn [fst snd]. split; [done|]. intros Hq.
        destruct (Hquiet Hq) as [Hr Hs].
        rewrite !requests_app, !sleeps_app, Hr, Hs, Hsl. simpl. rewrite app_nil_r.
        split; [done|]. split; [lia | done].
      * assert (Hstop : ∀ r, merge_success r = false →
                             gate_post prNumber (Done r) (events ++ updates ++ [])).
        { intros r Hr. split.
          - intros r' [= <-] Hr'. by rewrite Hr in Hr'.
          - intros Hq. destruct (Hquiet Hq) as [Hr' Hs].
            rewrite !requests_app, !sleeps_app, Hr', Hs, Hsl. simpl. rewrite app_nil_r.
            split; [done|]. split; [lia | done]. }
        destruct (update_manual updateResult); unfold io_ret; cbn [run fst snd];
          by apply Hstop.
    + destruct (attempt <? maxRetries).
      * rewrite run_sleep_then. cbn [fst snd]. apply Hwait.
      * unfold io_ret. cbn [run fst snd]. apply Hfail. by intros r [= <-].
Qed.

Definition round_post (prNumber : Json) (round : Round) (trace : list IOEvent) : Prop :=
  (∀ r, round = Return r → succeeds_by prNumber r trace)
  ∧ (length (requests trace) ≤ 5)%nat
  ∧ (length (sleeps trace) ≤ 1)%nat.

Lemma try_merge_run (repoInfo : RepoInfo) (prNumber : Json) (token mergeMethod : string)
  (maxRetries attempt : Z) (w : W) :
  let out := run env (try_merge repoInfo prNumber token mergeMethod maxRetries attempt) w in
  round_post prNumber out.1.1 out.2.
Proof.
  cbv zeta. unfold try_merge. rewrite run_try_catch, run_tbind.
  pose proof (makeRequest_bounded new_URL JSON_parse env 5
                (merge_request repoInfo prNumber token) (Some (mergeData mergeMethod))
                30000 0 w) as Hb.
  pose proof (makeRequest_last 5 (merge_request repoInfo prNumber token)
                (Some (mergeData mergeMethod)) 30000 0 w) as Hl.
  cbv zeta in Hb, Hl.
  destruct (run env (makeRequest new_URL JSON_parse (merge_request repoInfo prNumber token)
                       (Some (mergeData mergeMethod)) 30000 0) w)
    as [[outcome w1] events].
  destruct Hb as (Hlen & Hle & _); [lia|]. cbn [fst snd] in *.
  pose proof (requests_all _ Hlen) as Hsl.
  assert (Hfail : ∀ r, merge_success r = false → round_post prNumber (Return r) events).
  { intros r Hr. split.
    - intros r' [= <-] Hr'. by rewrite Hr in Hr'.
    - rewrite Hsl. split; simpl; lia. }
  assert (Hwait : ∀ ms answer,
             round_post prNumber Continue (events ++ [mkEvent (Sleep ms) answer])).
  { intros ms answer. split; [done|].
    rewrite requests_sleep, sleeps_sleep, Hsl. split; simpl; lia. }
  assert (Hcatch : ∀ m,
             let out :=
               run env
                 (if attempt <? maxRetries
                  then _ <- sleep (Z.min (3000 * attempt) 20000) ;; io_ret Continue
                  else io_ret (Return (mkMergeResult false
                                         ("Error merging GitHub PR: " +:+ m) false))) w1 in
             round_post prNumber out.1.1 (events ++ out.2)).
  { intros m. cbv zeta. destruct (attempt <? maxRetries).
    - rewrite run_sleep_then. cbn [fst snd]. apply Hwait.
    - unfold io_ret. cbn [run fst snd]. rewrite app_nil_r. by apply Hfail. }
  destruct outcome as [response|m].
  2:{ specialize (Hcatch m). cbv zeta in Hcatch. rewrite app_nil_r.
      destruct (run env _ w1) as [[round w2] events2]. exact Hcatch. }
  destruct (Hl response) as (options' & res & Hlast & Hm & Hred & ->); [lia | done |].
  unfold is_2xx. cbn [status data].
  destruct ((200 <=? statusCode res) && (statusCode res <? 300)) eqn:H2xx.
  { unfold io_ret. cbn [run fst snd]. rewrite !app_nil_r. split.
    - intros r [= <-] _. split; [done|]. exists (options', Ok res). split; [done|].
      exists res. apply andb_true_iff in H2xx as [Hlo Hhi].
      apply Z.leb_le in Hlo. apply Z.ltb_lt in Hhi.
      split; [done|]. split; [done|]. split; [lia|]. left. by split.
    - rewrite Hsl. split; simpl; lia. }
  rewrite run_tbind_value.
  destruct (error_value (parse_body JSON_parse (body res))) as [errorMessage|m].
  2:{ specialize (Hcatch m). cbv zeta in Hcatch. rewrite !app_nil_r.
      destruct (run env _ w1) as [[round w2] events2]. exact Hcatch. }
  rewrite run_tbind_value.
  destruct (includes_not_mergeable errorMessage) as [not_mergeable|m].
  2:{ specialize (Hcatch m). cbv zeta in Hcatch. rewrite !app_nil_r.
      destruct (run env _ w1) as [[round w2] events2]. exact Hcatch. }
  destruct (not_mergeable && (attempt <? maxRetries)).
  - rewrite run_sleep_then. cbn [fst snd]. rewrite app_nil_r. apply Hwait.
  - unfold io_ret. cbn [run fst snd]. rewrite !app_nil_r. by apply Hfail.
Qed.

Lemma succeeds_by_app (prNumber : Json) (r : MergeResult) (earlier trace : list IOEvent) :
  succeeds_by prNumber r trace → succeeds_by prNumber r (earlier ++ trace).
Proof.
  intros Hby Hr. destruct (Hby Hr) as (Hmanual & answer & Hlast & Hanswer).
  split; [done|]. exists answer. split; [|done].
  by rewrite requests_app, last_app, Hlast.
Qed.

Lemma merge_loop_run (repoInfo : RepoInfo) (prNumber : Json) (token mergeMethod : string)
  (maxRetries : Z) (options : MergeOptions) (remaining : nat) :
  ∀ (attempt : Z) (w : W),
    let out :=
      run env (merge_loop remaining repoInfo prNumber token mergeMethod maxRetries attempt
                 options) w in
    succeeds_by prNumber out.1.1 out.2
    ∧ (quiet_update →
       (length (requests out.2) ≤ 10 * remaining)%nat
       ∧ (length (sleeps out.2) ≤ remaining)%nat).
Proof.
  induction remaining as [|remaining IH]; intros attempt w; cbv zeta.
  { unfold io_ret. cbn. split; [done|]. intros _. split; lia. }
  cbn [merge_loop]. rewrite run_pbind.
  pose proof (check_status_run repoInfo prNumber token maxRetries attempt options w)
    as Hgate. cbv zeta in Hgate.
  destruct (run env (check_status repoInfo prNumber token maxRetries attempt options) w)
    as [[gate w1] events1].
  destruct Hgate as [Hdone Hquiet]. cbn [fst snd] in *.
  destruct gate as [r| |].
  - unfold io_ret. cbn [run fst snd]. rewrite app_nil_r. split; [by apply Hdone|].
    intros Hq. destruct (Hquiet Hq) as (Hr & Hs & _). split; lia.
  - specialize (IH (attempt + 1) w1). cbv zeta in IH.
    destruct (run env (merge_loop remaining repoInfo prNumber token mergeMethod maxRetries
                         (attempt + 1) options) w1) as [[r w2] events2].
    destruct IH as [Hby Hbound]. cbn [fst snd] in *.
    split; [by apply succeeds_by_app|].
    intros Hq. destruct (Hquiet Hq) as (Hr & Hs & _). destruct (Hbound Hq) as [Hr2 Hs2].
    rewrite requests_app, sleeps_app, !List.length_app. split; lia.
  - rewrite run_pbind.
    pose proof (try_merge_run repoInfo prNumber token mergeMethod maxRetries attempt w1)
      as Hround. cbv zeta in Hround.
    destruct (run env (try_merge repoInfo prNumber token mergeMethod maxRetries attempt) w1)
      as [[round w2] events2].
    destruct Hround as (Hreturn & Hr2 & Hs2). cbn [fst snd] in *.
    destruct round as [r|].
    + unfold io_ret. cbn [run fst snd]. rewrite app_nil_r.
      split; [by apply succeeds_by_app, Hreturn|].
      intros Hq. destruct (Hquiet Hq) as (Hr & _ & Hs). rewrite requests_app, sleeps_app.
      rewrite (Hs eq_refl), !List.length_app. simpl. split; lia.
    + specialize (IH (attempt + 1) w2). cbv zeta in IH.
      destruct (run env (merge_loop remaining repoInfo prNumber token mergeMethod maxRetries
                           (attempt + 1) options) w2) as [[r w3] events3].
      destruct IH as [Hby Hbound]. cbn [fst snd] in *.
      split; [by apply succeeds_by_app, succeeds_by_app|].
      intros Hq. destruct (Hquiet Hq) as (Hr & _ & Hs). destruct (Hbound Hq) as [Hr3 Hs3].
      rewrite !requests_app, !sleeps_app, (Hs eq_refl), !List.length_app. simpl. split; lia.
Qed.

(** What [mergeGitHubPR] may ask of the outside world: git (through
    [updateBranchWithBase]), a status request, a merge request, a wait. *)
Definition merge_call (repoInfo : RepoInfo) (prNumber : Json) (token mergeMethod : string)
  (c : Call) : Prop :=
  match c with
  | Git _ => True
  | Net options data timeoutMs =>
      timeoutMs = 30000
      ∧ ((method options = "GET" ∧ data = None
          ∧ headers options = headers (status_options repoInfo prNumber token))
         ∨ (method options = "PUT" ∧ data = Some (mergeData mergeMethod)
            ∧ headers options = headers (merge_request repoInfo prNumber token)))
  | Sleep ms => 3000 <= ms <= 30000
  end.

Lemma only_sleep_then (P : Call → Prop) {R} (ms : Z) (r : R) :
  P (Sleep ms) → only P (_ <- sleep ms ;; io_ret r).
Proof. intros Hms. by split. Qed.

Lemma merge_loop_only (repoInfo : RepoInfo) (prNumber : Json) (token mergeMethod : string)
  (maxRetries : Z) (options : MergeOptions) (remaining : nat) :
  quiet_update →
  ∀ attempt, 1 <= attempt →
    only (merge_call repoInfo prNumber token mergeMethod)
      (merge_loop remaining repoInfo prNumber token mergeMethod maxRetries attempt options).
Proof.
  intros Hq. induction remaining as [|remaining IH]; intros attempt Hattempt; [done|].
  cbn [merge_loop]. apply only_pbind.
  { unfold check_status. apply only_pbind.
    - unfold getPRStatus. apply only_try_catch; [|done]. apply only_tbind; [|done].
      eapply only_weaken; [|apply (makeRequest_only new_URL JSON_parse 5); lia].
      intros c (options' & -> & Hm & Hh). split; [done|]. left. by repeat split.
    - intros prStatus. destruct (status_success prStatus); [|done]. cbn [negb].
      destruct (json_truthy (status_merged prStatus)); [done|].
      destruct (mergeable prStatus) as [| |[|]| | | |]; try done.
      + destruct (attempt <? maxRetries); [|done].
        apply only_sleep_then. simpl. lia.
      + destruct (is_string (mergeable_state prStatus) "dirty").
        * destruct (has_git options && nonempty (merge_branchName options)
                    && nonempty (merge_baseBranch options)
                    && nonempty (merge_remote options)); [|done].
          apply only_pbind.
          { eapply only_weaken; [|apply Hq]. by intros []. }
          intros updateResult. destruct (update_success updateResult).
          -- apply only_sleep_then. simpl. lia.
          -- by destruct (update_manual updateResult).
        * destruct (attempt <? maxRetries); [|done].
          apply only_sleep_then. simpl. lia. }
  intros [r| |]; [done | apply IH; lia |].
  apply only_pbind.
  { unfold try_merge. apply only_try_catch.
    - apply only_tbind.
      { eapply only_weaken; [|apply (makeRequest_only new_URL JSON_parse 5); lia].
        intros c (options' & -> & Hm & Hh). split; [done|]. right. by repeat split. }
      intros response. destruct (is_2xx response); [done|].
      apply only_tbind; [done|]. intros errorMessage.
      apply only_tbind; [done|]. intros not_mergeable.
      destruct (not_mergeable && (attempt <? maxRetries)); [|done].
      apply only_sleep_then. simpl. lia.
    - intros m. destruct (attempt <? maxRetries); [|done].
      apply only_sleep_then. simpl. lia. }
  intros [r|]; [done | apply IH; lia].
Qed.

(** X16.  When [mergeGitHubPR] reports success, the last HTTP request of the run
    was answered with a 2xx status that is no redirect: it was the merge
    request (PUT), and the message is 'PR #N merged successfully', or it was
    the status request (GET) and its body has a truthy [merged] field, and
    the message is 'PR #N was already merged'.  A successful result never
    asks for manual resolution. *)
Theorem mergeGitHubPR_success_is_confirmed (w : W) (repoInfo : RepoInfo) (prNumber : Json)
  (token mergeMethod : string) (maxRetries : Z) (options : MergeOptions) :
  let out :=
    run env (mergeGitHubPR repoInfo prNumber token mergeMethod maxRetries options) w in
  merge_success out.1.1 = true →
  requiresManualResolution out.1.1 = false
  ∧ ∃ answer, last (requests out.2) = Some answer ∧ merged_by prNumber out.1.1 answer.
Proof.
  cbv zeta. unfold mergeGitHubPR.
  apply (merge_loop_run repoInfo prNumber token mergeMethod maxRetries options
           (Z.to_nat maxRetries) 1 w).
Qed.

(** X17.  With an [updateBranchWithBase] that only talks to git and the file
    system (as the one of gitOperations.js does), a call of
    [mergeGitHubPR] with [maxRetries] rounds sends at most 10 HTTP requests
    per round (a status request and a merge request, each followed through
    at most 5 redirects), every one with a 30 s timeout and either as GET
    without a body and with the status request's headers, or as PUT with
    [{merge_method}] as body and the merge request's headers; it waits at
    most once per round, between 3 and 30 seconds each time; and with
    [maxRetries] below 1 it does nothing at all and reports failure. *)
Theorem mergeGitHubPR_bounded (w : W) (repoInfo : RepoInfo) (prNumber : Json)
  (token mergeMethod : string) (maxRetries : Z) (options : MergeOptions) :
  quiet_update →
  let out :=
    run env (mergeGitHubPR repoInfo prNumber token mergeMethod maxRetries options) w in
  Forall (fun ev => merge_call repoInfo prNumber token mergeMethod (ev_call ev)) out.2
  ∧ (length (requests out.2) ≤ 10 * Z.to_nat maxRetries)%nat
  ∧ (length (sleeps out.2) ≤ Z.to_nat maxRetries)%nat
  ∧ Forall (fun ms => 3000 <= ms <= 30000) (sleeps out.2)
  ∧ (maxRetries < 1 → out.2 = [] ∧ merge_success out.1.1 = false).
Proof.
  intros Hq. cbv zeta. unfold mergeGitHubPR.
  pose proof (only_run _ _ env
                (merge_loop_only repoInfo prNumber token mergeMethod maxRetries options
                   (Z.to_nat maxRetries) Hq 1 ltac:(lia)) w) as Honly.
  destruct (merge_loop_run repoInfo prNumber token mergeMethod maxRetries options
              (Z.to_nat maxRetries) 1 w) as [_ Hbound].
  destruct (Hbound Hq) as [Hr Hs].
  split; [done|]. split; [done|]. split; [done|]. split.
  - clear Hr Hs Hbound. induction Honly as [|[c answer] trace Hc _ IH]; [constructor|].
    destruct c; unfold sleeps, omap in *; simpl; try done. by constructor.
  - intros Hnone. replace (Z.to_nat maxRetries) with 0%nat by lia. by cbn.
Qed.

End Merging.

(** *** The controller with the merge stage in place *)

Section Confirmed.
Context (new_URL : string → option string → result URL) (JSON_parse : string → option Json).
Context (JSON_stringify : Json → string) (encodeURIComponent : string → string).
Context (parseRepoUrl : string → option RepoInfo).
Context (updateBranchWithBase : string → string → string → IO UpdateResult).

(** [mergeGitHubPR(repoInfo, prResult.prNumber, token, mergeMethod, 5,
    { git, branchName, baseBranch, remote, ... })] as [createAndMergePR] calls
    it; [git] says whether the caller passed a git instance. *)
Definition merge_stage (git : bool) (repoInfo : RepoInfo) (prNumber : Json)
  (token mergeMethod branchName baseBranch remote : string) : IO (result Outcome) :=
  mergeResult <- mergeGitHubPR new_URL JSON_parse JSON_stringify updateBranchWithBase
                   repoInfo prNumber token mergeMethod 5
                   (mkMergeOptions git branchName baseBranch remote) ;;
  io_ret (Ok (mkOutcome (merge_success mergeResult) (merge_message mergeResult))).

Definition createAndMergePR_merging (git : bool) :=
  createAndMergePR new_URL JSON_parse JSON_stringify encodeURIComponent parseRepoUrl
    detectPlatform (merge_stage git).

Context {W : Type} (env : IOEnv W).

Lemma last_requests_after (earlier trace : list IOEvent) (ev : IOEvent)
  (answer : Options * result RawResponse) :
  last (requests trace) = Some answer →
  last (requests (earlier ++ ev :: (trace ++ []) ++ [])) = Some answer.
Proof.
  intros Hlast. rewrite !app_nil_r.
  change (earlier ++ ev :: trace) with (earlier ++ [ev] ++ trace).
  by rewrite !requests_app, !last_app, Hlast.
Qed.

Lemma find_or_create_run (repoInfo : RepoInfo) (branchName baseBranch token : string)
  (title body : option string) (w : W) :
  let out :=
    run env (find_or_create new_URL JSON_parse JSON_stringify encodeURIComponent repoInfo
               branchName baseBranch token title body) w in
  is_Some out.1.1.2 → Forall (fun r => method r.1 = "GET") (requests out.2).
Proof.
  cbv zeta. unfold find_or_create. rewrite run_pbind.
  pose proof (only_run
                (same_request (find_options encodeURIComponent repoInfo branchName token)
                   None 30000)
                (findPRForBranch new_URL JSON_parse encodeURIComponent repoInfo branchName
                   baseBranch token) env) as Honly.
  destruct (run env (findPRForBranch new_URL JSON_parse encodeURIComponent repoInfo
                       branchName baseBranch token) w) as [[existing w1] events] eqn:E.
  destruct (find_success existing && found existing).
  - unfold io_ret. cbn [run fst snd]. intros _. rewrite app_nil_r.
    assert (Hev : Forall (fun ev => same_request
                            (find_options encodeURIComponent repoInfo branchName token)
                            None 30000 (ev_call ev)) events).
    { specialize (Honly ltac:(unfold findPRForBranch; apply only_try_catch; [|done];
                              apply only_tbind; [|done];
                              apply (makeRequest_only new_URL JSON_parse 5); lia) w).
      by rewrite E in Honly. }
    clear E Honly. induction Hev as [|[c answer] trace (options' & Hc & Hm & _) _ IH];
      [constructor|].
    simpl in Hc. subst c. unfold requests, omap in *. simpl. by constructor.
  - rewrite run_pbind.
    destruct (run env (createGitHubPR new_URL JSON_parse JSON_stringify repoInfo branchName
                         baseBranch token title body) w1) as [[prResult w2] events2].
    unfold io_ret. cbn [run fst snd]. by intros [x Hx].
Qed.

(** X18.  In every environment: when [createAndMergePR] (with the platform
    detection and the merge stage of this file) returns a result with
    [merged: true], the result is a success and either the pull request was
    found in the listing and reported as merged there, and then nothing but
    GET requests were sent; or the last HTTP request of the whole run was
    answered with a 2xx status that is no redirect and was the merge request
    (PUT) or a status request (GET) whose body says [merged]. *)
Theorem createAndMergePR_merged_is_confirmed (w : W) (git : bool)
  (repoUrl branchName token : string) (options : PROptions) (res : PRResult) :
  let out := run env (createAndMergePR_merging git repoUrl branchName token options) w in
  out.1.1 = Ok res →
  merged res = Some true →
  pr_success res = true
  ∧ ((prCreated res = Some false
      ∧ mergeMessage res = Some "PR was already merged"
      ∧ Forall (fun r => method r.1 = "GET") (requests out.2))
     ∨ (∃ answer r,
          last (requests out.2) = Some answer
          ∧ merged_by JSON_parse (prNumber res) r answer
          ∧ mergeMessage res = Some (merge_message r))).
Proof.
  cbv zeta. unfold createAndMergePR_merging, createAndMergePR.
  destruct (detected_platform detectPlatform repoUrl options) as [detectedPlatform|].
  2:{ by intros [= <-]. }
  destruct (parseRepoUrl repoUrl) as [repoInfo|].
  2:{ by intros [= <-]. }
  destruct (bool_decide (detectedPlatform = "github")); cbn [negb].
  2:{ by intros [= <-]. }
  rewrite run_pbind.
  pose proof (find_or_create_run repoInfo branchName (default "main" (opt_baseBranch options))
                token (opt_title options) (opt_body options) w) as Hfind.
  cbv zeta in Hfind.
  destruct (run env (find_or_create new_URL JSON_parse JSON_stringify encodeURIComponent
                       repoInfo branchName (default "main" (opt_baseBranch options)) token
                       (opt_title options) (opt_body options)) w)
    as [[[prResult existingPR] w1] events1].
  cbn [fst snd] in *.
  destruct (create_success prResult); cbn [negb].
  2:{ unfold io_ret. cbn [run fst snd]. by intros [= <-]. }
  destruct (opt_autoMerge options).
  2:{ unfold io_ret. cbn [run fst snd]. by intros [= <-]. }
  destruct (match existingPR with
            | Some existingPR => json_truthy (found_merged existingPR)
            | None => false
            end) eqn:Halready.
  { unfold io_ret. cbn [run fst snd]. intros [= <-] _. split; [done|]. left.
    destruct existingPR as [existing|]; [|done].
    cbn [prCreated mergeMessage negb]. split; [done|]. split; [done|].
    rewrite app_nil_r. apply Hfind. by eexists. }
  unfold io. rewrite run_tbind_call.
  destruct (env (Sleep (if match existingPR with Some _ => true | None => false end
                        then 2000 else 3000)) w1) as [[[]|m] w2]; cbn [fst snd].
  2:{ by intros Hbad. }
  rewrite run_tbind. unfold merge_stage, mergeGitHubPR. rewrite run_pbind.
  pose proof (merge_loop_run new_URL JSON_parse JSON_stringify updateBranchWithBase env
                repoInfo (created_prNumber prResult) token
                (default "merge" (opt_mergeMethod options)) 5
                (mkMergeOptions git branchName (default "main" (opt_baseBranch options))
                   (default "origin" (opt_remote options)))
                (Z.to_nat 5) 1 w2) as [Hby _].
  cbn [prNumber] in *.
  destruct (run env (merge_loop new_URL JSON_parse JSON_stringify updateBranchWithBase
                       (Z.to_nat 5) repoInfo (created_prNumber prResult) token
                       (default "merge" (opt_mergeMethod options)) 5 1
                       (mkMergeOptions git branchName
                          (default "main" (opt_baseBranch options))
                          (default "origin" (opt_remote options)))) w2)
    as [[mergeResult w3] events2].
  unfold io_ret. cbn [run fst snd success message] in *.
  intros [= <-]. cbn [merged pr_success prNumber mergeMessage]. intros [= Hmerged].
  split; [done|]. right.
  destruct (Hby Hmerged) as (_ & answer & Hlast & Hanswer).
  exists answer, mergeResult. split; [|done].
  by apply last_requests_after.
Qed.

End Confirmed.

(** A server on which mergeability is still being computed at the first
    status request and that accepts the merge afterwards. *)
Definition merging_server : IOEnv nat := fun c w =>
  match c return result (Resp c) * nat with
  | Git c => (Ok (default_answer c), w)
  | Net options _ _ =>
      if bool_decide (method options = "GET")
      then (Ok (mkRaw 200 None (if bool_decide (w = 0%nat) then "{pending}" else "{ready}")),
            S w)
      else (Ok (mkRaw 200 None "{merged}"), w)
  | Sleep _ => (Ok tt, w)
  end.

Definition status_JSON_parse (body : string) : option Json :=
  if bool_decide (body = "{pending}")
  then Some (JObj [("mergeable", JNull); ("mergeable_state", JStr "unknown");
                   ("merged", JBool false)])
  else if bool_decide (body = "{ready}")
  then Some (JObj [("mergeable", JBool true); ("mergeable_state", JStr "clean");
                   ("merged", JBool false)])
  else Some (JObj [("merged", JBool true)]).

Definition no_update (branchName baseBranch remote : string) : IO UpdateResult :=
  io_ret (mkUpdateResult false "nothing to update" false).

Definition example_merge_run : MergeResult * nat * list IOEvent :=
  run merging_server
    (mergeGitHubPR example_new_URL status_JSON_parse (fun _ => "") no_update
       (mkRepoInfo "github.com" "o" "r") (JNum 7) "token" "squash" 5
       (mkMergeOptions false "" "" "")) 0%nat.

Example mergeGitHubPR_example :
  merge_message example_merge_run.1.1 = "PR #7 merged successfully"
  ∧ sleeps example_merge_run.2 = [3000]
  ∧ map (fun r => method r.1) (requests example_merge_run.2) = ["GET"; "GET"; "PUT"].
Proof. vm_compute. by repeat split. Qed.

Lemma mergeGitHubPR_success_is_confirmed_witness :
  merge_success example_merge_run.1.1 = true
  ∧ requiresManualResolution example_merge_run.1.1 = false
  ∧ ∃ answer, last (requests example_merge_run.2) = Some answer
              ∧ merged_by status_JSON_parse (JNum 7) example_merge_run.1.1 answer.
Proof.
  split; [vm_compute; reflexivity|].
  apply (mergeGitHubPR_success_is_confirmed example_new_URL status_JSON_parse (fun _ => "")
           no_update merging_server 0%nat (mkRepoInfo "github.com" "o" "r") (JNum 7)
           "token" "squash" 5 (mkMergeOptions false "" "" "")).
  vm_compute. reflexivity.
Defined.

Lemma mergeGitHubPR_bounded_witness :
  quiet_update no_update
  ∧ (length (requests example_merge_run.2) ≤ 50)%nat
  ∧ (length (sleeps example_merge_run.2) ≤ 5)%nat
  ∧ Forall (fun ms => 3000 <= ms <= 30000) (sleeps example_merge_run.2).
Proof.
  assert (Hq : quiet_update no_update) by (intros branchName baseBranch remote; exact I).
  split; [exact Hq|].
  destruct (mergeGitHubPR_bounded example_new_URL status_JSON_parse (fun _ => "")
              no_update merging_server 0%nat (mkRepoInfo "github.com" "o" "r") (JNum 7)
              "token" "squash" 5 (mkMergeOptions false "" "" "") Hq)
    as (_ & Hr & Hs & Hms & _).
  split; [exact Hr|]. split; [exact Hs | exact Hms].
Defined.

(** A repository without a pull request for the branch: the listing is
    empty, the request is created as number 7, is mergeable and is merged. *)
Definition review_server : IOEnv nat := fun c w =>
  match c return result (Resp c) * nat with
  | Git c => (Ok (default_answer c), w)
  | Net options _ _ =>
      if bool_decide (method options = "GET")
      then (Ok (mkRaw 200 None (if bool_decide (w = 0%nat) then "[]" else "{ready}")), S w)
      else if bool_decide (method options = "POST")
      then (Ok (mkRaw 201 None "{created}"), w)
      else (Ok (mkRaw 200 None "{merged}"), w)
  | Sleep _ => (Ok tt, w)
  end.

Definition review_JSON_parse (body : string) : option Json :=
  if bool_decide (body = "[]") then Some (JArr [])
  else if bool_decide (body = "{created}")
  then Some (JObj [("number", JNum 7); ("html_url", JStr "https://github.com/o/r/pull/7")])
  else status_JSON_parse body.

Definition example_review_run : result PRResult * nat * list IOEvent :=
  run review_server
    (createAndMergePR_merging example_new_URL review_JSON_parse (fun _ => "") id
       example_parseRepoUrl no_update false "https://github.com/o/r" "auto-2024-01-02"
       "token" (mkPROptions (Some "main") None true None None None None None)) 0%nat.

Definition example_review_result : PRResult :=
  match example_review_run.1.1 with
  | Ok res => res
  | Throw m => failed m
  end.

Lemma createAndMergePR_merged_is_confirmed_witness :
  example_review_run.1.1 = Ok example_review_result
  ∧ merged example_review_result = Some true
  ∧ pr_success example_review_result = true
  ∧ map (fun r => method r.1) (requests example_review_run.2) = ["GET"; "POST"; "GET"; "PUT"].
Proof.
  assert (Hrun : example_review_run.1.1 = Ok example_review_result)
    by (vm_compute; reflexivity).
  assert (Hmerged : merged example_review_result = Some true) by (vm_compute; reflexivity).
  split; [exact Hrun|]. split; [exact Hmerged|].
  destruct (createAndMergePR_merged_is_confirmed example_new_URL review_JSON_parse
              (fun _ => "") id example_parseRepoUrl no_update review_server 0%nat false
              "https://github.com/o/r" "auto-2024-01-02" "token"
              (mkPROptions (Some "main") None true None None None None None)
              example_review_result Hrun Hmerged) as [Hsuccess _].
  split; [exact Hsuccess|]. vm_compute. reflexivity.
Defined.

End Review.

(** ** prOperations.js: following a user and starring a repository *)

Module Social.
Import DateUtils GitOperations Http PrOperations Footprint Requests RepoUrl Review.

(** [{ follow, star }]; [None] is [null]. *)
Record Actions : Type := mkActions { follow : option Outcome; star : option Outcome }.

(** The value returned by [followAndStar]. *)
Record FollowStar : Type := mkFollowStar { allSuccess : bool; results : Actions }.

Section Sending.
Context (new_URL : string → option string → result URL) (JSON_parse : string → option Json).

Definition follow_options (username token : string) : Options :=
  mkOptions "https:" "api.github.com" "443" ("/user/following/" +:+ username) "PUT"
    [("Authorization", authHeader token); ("User-Agent", "Auto-Git");
     ("Content-Length", "0"); ("Accept", "application/vnd.github.v3+json")].

(** [followGitHubUser(username, token)] *)
Definition followGitHubUser (username token : string) : IO Outcome :=
  try_catch
    (response <-! makeRequest new_URL JSON_parse (follow_options username token)
                    None 30000 0 ;;
     io_ret
       (if (status response =? 204) || (status response =? 200) then
          Ok (mkOutcome true ("Successfully followed " +:+ username))
        else if status response =? 404 then
          Ok (mkOutcome false ("User " +:+ username +:+ " not found"))
        else
          m <-? js_get (data response) "message" ;;
          Ok (mkOutcome false ("Failed to follow user: "
                               +:+ to_string (json_or m (JStr "Unknown error"))))))
    (fun m => io_ret (mkOutcome false ("Error following user: " +:+ m))).

Definition star_options (owner repo token : string) : Options :=
  mkOptions "https:" "api.github.com" "443" ("/user/starred/" +:+ owner +:+ "/" +:+ repo)
    "PUT"
    [("Authorization", authHeader token); ("User-Agent", "Auto-Git");
     ("Content-Length", "0"); ("Accept", "application/vnd.github.v3+json")].

(** [starGitHubRepository(owner, repo, token)] *)
Definition starGitHubRepository (owner repo token : string) : IO Outcome :=
  try_catch
    (response <-! makeRequest new_URL JSON_parse (star_options owner repo token)
                    None 30000 0 ;;
     io_ret
       (if (status response =? 204) || (status response =? 200) then
          Ok (mkOutcome true ("Successfully starred " +:+ owner +:+ "/" +:+ repo))
        else if status response =? 404 then
          Ok (mkOutcome false ("Repository " +:+ owner +:+ "/" +:+ repo +:+ " not found"))
        else
          m <-? js_get (data response) "message" ;;
          Ok (mkOutcome false ("Failed to star repository: "
                               +:+ to_string (json_or m (JStr "Unknown error"))))))
    (fun m => io_ret (mkOutcome false ("Error starring repository: " +:+ m))).

(** [results.follow?.success] and [results.star?.success], as a condition. *)
Definition succeeded (r : option Outcome) : bool :=
  match r with Some r => success r | None => false end.

(** [followAndStar(username, repoUrl, token)]; an absent [username] or
    [repoUrl] is the empty string. *)
Definition followAndStar (username repoUrl token : string) : IO FollowStar :=
  follow_ <- (if nonempty username
              then r <- followGitHubUser username token ;; io_ret (Some r)
              else io_ret None) ;;
  star_ <- (if nonempty repoUrl then
              match parseRepoUrl new_URL repoUrl with
              | Some (mkParsed _ owner (Some repo)) =>
                  if nonempty owner && nonempty repo then
                    if bool_decide (detectPlatform repoUrl = Some "github")
                    then r <- starGitHubRepository owner repo token ;; io_ret (Some r)
                    else io_ret (Some (mkOutcome false
                                         "Repository is not a GitHub repository"))
                  else io_ret (Some (mkOutcome false "Could not parse repository URL"))
              | _ => io_ret (Some (mkOutcome false "Could not parse repository URL"))
              end
            else io_ret None) ;;
  io_ret (mkFollowStar
            ((negb (nonempty username) || succeeded follow_)
             && (negb (nonempty repoUrl) || succeeded star_))
            (mkActions follow_ star_)).

(** [followAndStar] as the route calls it, on the values of the request
    body.  A value that is not a string has no [startsWith] and no [replace]:
    [followGitHubUser] and [starGitHubRepository] throw the TypeError before
    their [try] when the token is not a string, [parseRepoUrl] throws it when
    the URL is not one, and [followAndStar] catches neither.  A user name is
    only rendered into the path and the messages. *)
Definition followAndStar_body (username repoUrl token : Json) : IO (result FollowStar) :=
  follow_ <-! (if json_truthy username then
                 match token with
                 | JStr token =>
                     r <- followGitHubUser (to_string username) token ;;
                     io_ret (Ok (Some r))
                 | _ => io_ret (Throw "token.startsWith is not a function")
                 end
               else io_ret (Ok None)) ;;
  star_ <-! (if json_truthy repoUrl then
               match repoUrl with
               | JStr repoUrl =>
                   match parseRepoUrl new_URL repoUrl with
                   | Some (mkParsed _ owner (Some repo)) =>
                       if nonempty owner && nonempty repo then
                         if bool_decide (detectPlatform repoUrl = Some "github")
                         then match token with
                              | JStr token =>
                                  r <- starGitHubRepository owner repo token ;;
                                  io_ret (Ok (Some r))
                              | _ => io_ret (Throw "token.startsWith is not a function")
                              end
                         else io_ret (Ok (Some (mkOutcome false
                                                  "Repository is not a GitHub repository")))
                       else io_ret (Ok (Some (mkOutcome false
                                                "Could not parse repository URL")))
                   | _ => io_ret (Ok (Some (mkOutcome false
                                              "Could not parse repository URL")))
                   end
               | _ => io_ret (Throw "repoUrl.replace is not a function")
               end
             else io_ret (Ok None)) ;;
  io_ret (Ok (mkFollowStar
                ((negb (json_truthy username) || succeeded follow_)
                 && (negb (json_truthy repoUrl) || succeeded star_))
                (mkActions follow_ star_))).

(** The reply of the [/api/github/follow-and-star] route: an error status
    with its message, or the result of [followAndStar] as JSON (status 200). *)
Inductive Reply : Type :=
| Rejected (status : Z) (message : string)
| Answered (result : FollowStar).

(** The handler of [app.post('/api/github/follow-and-star', ...)] on the
    [username], [repoUrl] and [token] of the request body; an absent field is
    [undefined]. *)
Definition follow_and_star_handler (username repoUrl token : Json) : IO Reply :=
  try_catch
    (if negb (json_truthy token)
     then io_ret (Ok (Rejected 400 "GitHub token is required"))
     else if negb (json_truthy username) && negb (json_truthy repoUrl) then
       io_ret (Ok (Rejected 400 "Either username or repoUrl (or both) must be provided"))
     else result <-! followAndStar_body username repoUrl token ;;
          io_ret (Ok (Answered result)))
    (fun m => io_ret (Rejected 500 ("Error: " +:+ m))).

Context {W : Type} (env : IOEnv W).

(** A request that was accepted: a PUT answered with 200 or 204. *)
Definition accepted (answer : Options * result RawResponse) : Prop :=
  ∃ res, answer.2 = Ok res
         ∧ method answer.1 = "PUT"
         ∧ is_redirect res = false
         ∧ (statusCode res = 204 ∨ statusCode res = 200).

(** What one of the two actions leaves behind. *)
Definition action_post (out : Outcome * W * list IOEvent) : Prop :=
  length out.2 = length (requests out.2)
  ∧ (length (requests out.2) ≤ 5)%nat
  ∧ Forall (fun ev => ∃ options, ev_call ev = Net options None 30000
                                 ∧ method options = "PUT") out.2
  ∧ (success out.1.1 = true → ∃ answer, last (requests out.2) = Some answer ∧ accepted answer).

Lemma followGitHubUser_run (username token : string) (w : W) :
  action_post (run env (followGitHubUser username token) w).
Proof.
  unfold action_post, followGitHubUser.
  rewrite run_try_catch, run_tbind.
  pose proof (makeRequest_bounded new_URL JSON_parse env 5 (follow_options username token) None 30000 0 w) as Hb.
  pose proof (makeRequest_last new_URL JSON_parse env 5 (follow_options username token) None 30000 0 w) as Hl.
  pose proof (only_run _ _ env
                (makeRequest_only new_URL JSON_parse 5 (follow_options username token) None 30000 0 ltac:(lia)) w)
    as Ho.
  cbv zeta in Hb, Hl.
  destruct (run env (makeRequest new_URL JSON_parse (follow_options username token) None 30000 0) w)
    as [[[response|m] w1] events].
  all: destruct Hb as (Hlen & Hle & _); [lia|]; cbn [fst snd] in *.
  all: assert (Hput : Forall (fun ev => ∃ options', ev_call ev = Net options' None 30000
                                                    ∧ method options' = "PUT") events)
    by (eapply Forall_impl; [exact Ho|];
        intros ev (options' & Hc & Hm & _); by exists options').
  2:{ unfold io_ret. cbn [run fst snd]. rewrite !app_nil_r.
      split; [done|]. split; [lia|]. by split. }
  destruct (Hl response) as (options' & res & Hlast & Hm & Hred & ->); [lia | done |].
  cbn [status data].
  destruct ((statusCode res =? 204) || (statusCode res =? 200)) eqn:Hstatus.
  { unfold io_ret. cbn [run fst snd]. rewrite !app_nil_r.
    split; [done|]. split; [lia|]. split; [done|].
    intros _. exists (options', Ok res). split; [done|].
    exists res. split; [done|]. split; [done|]. split; [done|].
    apply orb_true_iff in Hstatus as [H204|H200];
      [left; by apply Z.eqb_eq | right; by apply Z.eqb_eq]. }
  destruct (statusCode res =? 404).
  { unfold io_ret. cbn [run fst snd]. rewrite !app_nil_r.
    split; [done|]. split; [lia|]. by split. }
  destruct (js_get (parse_body JSON_parse (body res)) "message");
    unfold io_ret; cbn [run fst snd JS.bind]; rewrite !app_nil_r;
    (split; [done|]; split; [lia|]; by split).
Qed.

Lemma starGitHubRepository_run (owner repo token : string) (w : W) :
  action_post (run env (starGitHubRepository owner repo token) w).
Proof.
  unfold action_post, starGitHubRepository.
  rewrite run_try_catch, run_tbind.
  pose proof (makeRequest_bounded new_URL JSON_parse env 5 (star_options owner repo token) None 30000 0 w) as Hb.
  pose proof (makeRequest_last new_URL JSON_parse env 5 (star_options owner repo token) None 30000 0 w) as Hl.
  pose proof (only_run _ _ env
                (makeRequest_only new_URL JSON_parse 5 (star_options owner repo token) None 30000 0 ltac:(lia)) w)
    as Ho.
  cbv zeta in Hb, Hl.
  destruct (run env (makeRequest new_URL JSON_parse (star_options owner repo token) None 30000 0) w)
    as [[[response|m] w1] events].
  all: destruct Hb as (Hlen & Hle & _); [lia|]; cbn [fst snd] in *.
  all: assert (Hput : Forall (fun ev => ∃ options', ev_call ev = Net options' None 30000
                                                    ∧ method options' = "PUT") events)
    by (eapply Forall_impl; [exact Ho|];
        intros ev (options' & Hc & Hm & _); by exists options').
  2:{ unfold io_ret. cbn [run fst snd]. rewrite !app_nil_r.
      split; [done|]. split; [lia|]. by split. }
  destruct (Hl response) as (options' & res & Hlast & Hm & Hred & ->); [lia | done |].
  cbn [status data].
  destruct ((statusCode res =? 204) || (statusCode res =? 200)) eqn:Hstatus.
  { unfold io_ret. cbn [run fst snd]. rewrite !app_nil_r.
    split; [done|]. split; [lia|]. split; [done|].
    intros _. exists (options', Ok res). split; [done|].
    exists res. split; [done|]. split; [done|]. split; [done|].
    apply orb_true_iff in Hstatus as [H204|H200];
      [left; by apply Z.eqb_eq | right; by apply Z.eqb_eq]. }
  destruct (statusCode res =? 404).
  { unfold io_ret. cbn [run fst snd]. rewrite !app_nil_r.
    split; [done|]. split; [lia|]. by split. }
  destruct (js_get (parse_body JSON_parse (body res)) "message");
    unfold io_ret; cbn [run fst snd JS.bind]; rewrite !app_nil_r;
    (split; [done|]; split; [lia|]; by split).
Qed.

Lemma nonempty_false (s : string) : nonempty s = false ↔ s = "".
Proof. by destruct s. Qed.

(** What one half of [followAndStar] leaves behind. *)
Definition half_post (wanted : bool) (out : option Outcome * W * list IOEvent) : Prop :=
  length out.2 = length (requests out.2)
  ∧ (length (requests out.2) ≤ 5)%nat
  ∧ Forall (fun ev => ∃ options, ev_call ev = Net options None 30000
                                 ∧ method options = "PUT") out.2
  ∧ (succeeded out.1.1 = true →
     ∃ answer, last (requests out.2) = Some answer ∧ accepted answer)
  ∧ (wanted = false → out.2 = [])
  ∧ (out.1.1 = None ↔ wanted = false).

Lemma half_done (wanted : bool) (r : option Outcome) (w : W) :
  succeeded r = false → (r = None ↔ wanted = false) → half_post wanted (r, w, []).
Proof.
  intros Hr Hw. unfold half_post. cbn [fst snd].
  split; [done|]. split; [simpl; lia|]. split; [constructor|].
  split; [by rewrite Hr|]. by split.
Qed.

Lemma half_action (p : IO Outcome) (w : W) :
  action_post (run env p w) →
  half_post true (run env (r <- p ;; io_ret (Some r)) w).
Proof.
  rewrite run_pbind. destruct (run env p w) as [[r w1] events].
  intros (Hlen & Hle & Hput & Hok). unfold io_ret. cbn [run fst snd] in *.
  rewrite app_nil_r. split; [done|]. split; [done|]. split; [done|]. split; [done|].
  split; [done|]. by split.
Qed.

Lemma followAndStar_run (username repoUrl token : string) (w : W) :
  let out := run env (followAndStar username repoUrl token) w in
  Forall (fun ev => ∃ options, ev_call ev = Net options None 30000 ∧ method options = "PUT")
    out.2
  ∧ (length out.2 ≤ 10)%nat
  ∧ (username = "" ∧ repoUrl = "" → out.2 = [] ∧ allSuccess out.1.1 = true)
  ∧ (allSuccess out.1.1 = true →
     (username ≠ "" → ∃ answer, answer ∈ requests out.2 ∧ accepted answer)
     ∧ (repoUrl ≠ "" →
        detectPlatform repoUrl = Some "github"
        ∧ ∃ answer, last (requests out.2) = Some answer ∧ accepted answer))
  ∧ (follow (results out.1.1) = None ↔ username = "")
  ∧ (star (results out.1.1) = None ↔ repoUrl = "").
Proof.
  cbv zeta. unfold followAndStar. rewrite run_pbind.
  assert (Hfollow : half_post (nonempty username)
            (run env (if nonempty username
                      then r <- followGitHubUser username token ;; io_ret (Some r)
                      else io_ret None) w)).
  { destruct (nonempty username).
    - apply half_action, followGitHubUser_run.
    - by apply half_done. }
  destruct (run env (if nonempty username
                     then r <- followGitHubUser username token ;; io_ret (Some r)
                     else io_ret None) w) as [[follow_ w1] events1].
  rewrite run_pbind.
  assert (Hstar : half_post (nonempty repoUrl)
            (run env (if nonempty repoUrl then
                        match parseRepoUrl new_URL repoUrl with
                        | Some (mkParsed _ owner (Some repo)) =>
                            if nonempty owner && nonempty repo then
                              if bool_decide (detectPlatform repoUrl = Some "github")
                              then r <- starGitHubRepository owner repo token ;;
                                   io_ret (Some r)
                              else io_ret (Some (mkOutcome false
                                                   "Repository is not a GitHub repository"))
                            else io_ret (Some (mkOutcome false
                                                 "Could not parse repository URL"))
                        | _ => io_ret (Some (mkOutcome false
                                               "Could not parse repository URL"))
                        end
                      else io_ret None) w1)
          ∧ (succeeded
               (run env (if nonempty repoUrl then
                        match parseRepoUrl new_URL repoUrl with
                        | Some (mkParsed _ owner (Some repo)) =>
                            if nonempty owner && nonempty repo then
                              if bool_decide (detectPlatform repoUrl = Some "github")
                              then r <- starGitHubRepository owner repo token ;;
                                   io_ret (Some r)
                              else io_ret (Some (mkOutcome false
                                                   "Repository is not a GitHub repository"))
                            else io_ret (Some (mkOutcome false
                                                 "Could not parse repository URL"))
                        | _ => io_ret (Some (mkOutcome false
                                               "Could not parse repository URL"))
                        end
                      else io_ret None) w1).1.1 = true →
             detectPlatform repoUrl = Some "github")).
  { destruct (nonempty repoUrl); [|split; [by apply half_done | done]].
    destruct (parseRepoUrl new_URL repoUrl) as [[host_ owner_ [repo_|]]|];
      try (split; [by apply half_done | done]).
    destruct (nonempty owner_ && nonempty repo_);
      [|split; [by apply half_done | done]].
    case_bool_decide as Hplatform; [|split; [by apply half_done | done]].
    split; [|done]. apply half_action, starGitHubRepository_run. }
  destruct (run env _ w1) as [[star_ w2] events2].
  destruct Hfollow as (Hlen1 & Hle1 & Hput1 & Hok1 & Hnone1 & Hnull1).
  destruct Hstar as [(Hlen2 & Hle2 & Hput2 & Hok2 & Hnone2 & Hnull2) Hgithub].
  unfold io_ret. cbn [run fst snd allSuccess results follow star] in *.
  rewrite app_nil_r.
  split; [by apply Forall_app|].
  split; [rewrite List.length_app; unfold IOEvent in Hlen1, Hlen2; lia|].
  split.
  { intros [-> ->]. rewrite Hnone1, Hnone2 by done. done. }
  split.
  { intros Hall. apply andb_true_iff in Hall as [Hf Hs]. split.
    - intros Hname. apply orb_true_iff in Hf as [Hf|Hf].
      { apply negb_true_iff, nonempty_false in Hf. done. }
      destruct (Hok1 Hf) as (answer & Hlast & Haccepted). exists answer. split; [|done].
      rewrite requests_app. apply elem_of_app. left. by apply last_Some_elem_of.
    - intros Hurl. apply orb_true_iff in Hs as [Hs|Hs].
      { apply negb_true_iff, nonempty_false in Hs. done. }
      split; [by apply Hgithub|].
      destruct (Hok2 Hs) as (answer & Hlast & Haccepted). exists answer. split; [|done].
      by rewrite requests_app, last_app, Hlast. }
  rewrite Hnull1, Hnull2, !nonempty_false. done.
Qed.

(** X19.  In every environment: [followAndStar] sends at most 10 HTTP requests,
    all of them PUT requests without a body and with a 30 s timeout, and
    nothing else.  With neither a user name nor a repository URL it sends
    nothing and still reports success.  When it reports success, a user name
    that was given was followed (a PUT was answered with 200 or 204), and a
    repository URL that was given names GitHub and was starred (the last
    request of the run was a PUT answered with 200 or 204).  The [follow] and
    [star] entries of the result are [null] exactly for what was not asked
    for. *)
Theorem followAndStar_sound (username repoUrl token : string) (w : W) :
  let out := run env (followAndStar username repoUrl token) w in
  Forall (fun ev => ∃ options, ev_call ev = Net options None 30000 ∧ method options = "PUT")
    out.2
  ∧ (length out.2 ≤ 10)%nat
  ∧ (username = "" ∧ repoUrl = "" → out.2 = [] ∧ allSuccess out.1.1 = true)
  ∧ (allSuccess out.1.1 = true →
     (username ≠ "" → ∃ answer, answer ∈ requests out.2 ∧ accepted answer)
     ∧ (repoUrl ≠ "" →
        detectPlatform repoUrl = Some "github"
        ∧ ∃ answer, last (requests out.2) = Some answer ∧ accepted answer))
  ∧ (follow (results out.1.1) = None ↔ username = "")
  ∧ (star (results out.1.1) = None ↔ repoUrl = "").
Proof. apply followAndStar_run. Qed.







End Sending.

(** Asked to follow a user and to star a repository that is not on
    GitHub: the user is followed, nothing is starred, and the whole does not
    count as a success. *)
Example followAndStar_example :
  let out :=
    run merging_server
      (followAndStar example_new_URL status_JSON_parse "octocat" "git@gitlab.com:o/r.git"
         "token") 0%nat in
  allSuccess out.1.1 = false
  ∧ follow (results out.1.1) = Some (mkOutcome true "Successfully followed octocat")
  ∧ star (results out.1.1) = Some (mkOutcome false "Repository is not a GitHub repository")
  ∧ map (fun r => path r.1) (requests out.2) = ["/user/following/octocat"].
Proof. vm_compute. by repeat split. Qed.

(** A token that is a number passes both checks of the route; the call of
    [startsWith] on it throws, and the route answers with status 500 after
    having sent nothing. *)
Example follow_and_star_handler_example :
  run merging_server
    (follow_and_star_handler example_new_URL status_JSON_parse (JStr "octocat") JUndefined
       (JNum 123)) 0%nat
  = (Rejected 500 "Error: token.startsWith is not a function", 0%nat, []).
Proof. vm_compute. reflexivity. Qed.

End Social.
